(* ===== verification/_CoqProject ===== *)
-Q . S2P
Prelude.v
Types.v
RingBuffer.v
RingConcurrent.v
Frame.v
StreamingCodec.v
Store.v
StoreSpec.v
StoreInv.v
StoreProps.v
StoreTheorems.v
Config.v
ConfigFile.v
TopicManager.v
Dedup.v
RateLimiter.v
Connection.v
MessageStore.v
Compression.v
Broker.v
BrokerProps.v
BrokerInv.v
BrokerTheorems.v
TcpServer.v
TcpClient.v
ClientMain.v
WireInstance.v
ClientTheorems.v
System.v
SystemTheorems.v
Streams.v
EndToEnd.v
ClientThreads.v
ClientThreadsInv.v
ClientThreadsTheorems.v
InForce.v
ServerMain.v
StoreConcurrent.v
StorePieces.v
StoreSimulation.v
StoreLinearizable.v
StoreThreads.v
ServerThreads.v
ServerThreadsInv.v
ServerThreadsStop.v
ServerThreadsTheorems.v
