(* ===== verification/Prelude.v ===== *)
(** * A verification of the proto_msg_queue broker

    The program is a message-queue broker.  Clients speak a framed protocol over
    TCP; the broker publishes their messages to in-memory topics, pushes them to
    subscribers, lets consumers pull and acknowledge them, retries what is not
    acknowledged and keeps dead letters.  This library is a shallow embedding of
    its C++ sources (below [src/]): each function is a Rocq definition over
    explicit state, and theorems say what the definitions guarantee.

    ** Parts of the program and files of the library

    - [Prelude] (this file): machine words, bytes, traversals of hash maps,
      shared lemmas and tactics.
    - [Types]: [common/types.h], [common/error_code.h], [mq/topic.h] and the
      message record of [storage/message_store.h].
    - [RingBuffer]: [ring_buffer/spsc_ring_buffer.cpp], the lock-free queue
      between publishers and a topic's log.  [FifoBuffer] is the interface its
      client needs, implemented by the ring.
    - [RingConcurrent]: the same [Push] and [Pop] as a transition system, one
      shared-memory access per step, for one producer and one consumer thread.
    - [Frame], [StreamingCodec]: [protocol/frame_codec.cpp] and
      [protocol/streaming_frame_codec.cpp], the wire format and the state machine
      that decodes a byte stream.
    - [Store], [StoreSpec], [StoreInv], [StoreProps], [StoreTheorems]:
      [storage/memory_message_store.cpp] over any [FifoBuffer]: the operations,
      what each does to a topic, the invariant, runs of operations and background
      rounds, the theorems.
    - [StoreConcurrent], [StorePieces], [StoreSimulation], [StoreLinearizable]:
      the same operations between any number of threads, one access to what they
      share per step: the model and what goes wrong in it, the atomic pieces of
      the calls, the invariant and the simulation, the theorem.
    - [StoreThreads]: the two background threads and the destructor, with their
      mutexes and condition variables.
    - [MessageStore]: the interface [storage/message_store.h] as a type class
      with laws, and its implementation by the in-memory store.
    - [Config], [ConfigFile]: [common/config.cpp], the configuration values and
      the reader and writer of the configuration file.
    - [TopicManager]: [mq/topic_manager.cpp], subscriptions and consumer groups.
    - [Dedup], [RateLimiter], [Compression]: [common/dedup_window.cpp],
      [common/rate_limiter.h] and [common/compression.cpp].
    - [Connection]: [network/connection.cpp], buffering of partial writes,
      reading and decoding.
    - [Broker], [BrokerProps], [BrokerInv], [BrokerTheorems]: [mq/broker.cpp],
      every request handler over any [MessageStore].
    - [TcpServer]: [network/tcp_server.cpp], the table of connections, sending to
      one or all of them under its lock, the heartbeat.
    - [ServerThreads], [ServerThreadsInv], [ServerThreadsStop],
      [ServerThreadsTheorems]: the threads of the same file, one access to shared
      state per step, with the descriptors they open and close: the model, its
      invariant, the work left once the server stops, the theorems.
    - [System], [SystemTheorems]: the broker composed with its server, as
      [Broker::Start] wires them: what an event or a heartbeat round makes the
      handlers do and send; the theorems about the running broker.
    - [Streams]: what the running broker writes to each connection, over a whole
      run.
    - [TcpClient]: [network/tcp_client.cpp], calls and threads of a client, a round
      at a time.
    - [ClientThreads], [ClientThreadsInv], [ClientThreadsTheorems]: the read thread,
      the ping thread and the user's thread of the same file, one access to shared
      state per step: the model, its invariant, the theorems.
    - [ClientMain], [ClientTheorems]: [main/client_main.cpp], from a command line
      to a request and from a frame received to the lines printed.  [WireInstance]
      is a concrete serialisation that instantiates the generated code.
    - [EndToEnd]: the path of a message from one command line to the other,
      through the publisher, both connections, the broker on its server and the
      subscriber.
    - [InForce]: the configuration each part of the running broker keeps a copy
      of; [ServerMain]: [main/server_main.cpp], from the command line to the
      running broker.

    A request travels through them as in the code: [Connection.OnRead] feeds the
    bytes received to the codec, each decoded frame goes to
    [Broker.OnFrameReceived], whose handlers use the topic manager, the store,
    the deduplication window and the limiters and return the frames to send, in
    order; [Connection.SendFrame] encodes them.  [System] puts the pieces
    together: [TcpServer] says which connection reads and which table entries
    receive, [Broker] what is sent.

    ** How the code is modelled

    - [uintN_t] and [size_t] values are integers, reduced modulo [2^N] where an
      operation can leave the range; bytes are [byte]; [std::string] is [string].
    - [std::unordered_map] is [gmap]; where the code walks over one, the order is
      an argument ([Traversal]), about which only is known that it visits each
      entry once.
    - Clocks are arguments: one reading, or a function from the number of the
      reading to its value.
    - The kernel's answers to [send], [writev] and [recv] are arguments, what is
      handed to it is a result.
    - [double] is IEEE binary64 ([SpecFloat]).
    - zlib and the code generated from [proto/msg_queue.proto] are parameters
      ([Zlib], [Proto], [ClientProto]); [zlib_contract], [proto_contract],
      [wire_contract] and [push_overhead] state the documented behaviour some
      theorems rely on, and hold for concrete instances.
    - What runs under a mutex is one atomic step where nothing else touches the
      same data.  Where threads meet without a mutex, or let one go in between, the
      interleaving is modelled: the ring buffer in [RingConcurrent], the calls of
      the store in [StoreConcurrent] (where publishes push between the pops of a
      pull, and a retry scan goes on message by message), its background threads
      in [StoreThreads], the server's in [ServerThreads], the client's in
      [ClientThreads].
      [System] takes events, heartbeat rounds and calls one after the other; it
      says what they do, [ServerThreads] what can happen in between
      ([handler_effects] relates the two).
    - A call that never returns (a thread locking a mutex it holds), that
      terminates the program, or that uses freed memory is [None]; theorems say
      when it cannot happen.

    ** What the theorems show

    - Ring buffer (C1 - C4): it is a bounded FIFO queue, sequentially and under
      every interleaving of its two threads; no data race; both operations finish
      in a bounded number of their own steps.
    - Wire format (C5, C6): decoding accepts exactly the encodings; the stream
      decoder agrees with a reference decoder however the stream is cut.
    - Store (C7 - C13): the invariant; the exact result of a pull; no loss, no
      duplicate and no expired delivery; acknowledged messages stay away; retry,
      expiry and dead letters account for every message.
    - Store between threads (C14 - C16): with one publishing thread per topic and
      no deletions, linearizable piece by piece (a pull takes single records off
      the ring buffer, a scan treats single messages), and both conditions are
      needed; its destruction ends.  The calls themselves are not atomic
      ([calls_not_atomic]); without interruption the pieces of a call are the call
      ([pieces_uninterrupted]).
    - Consumer groups: fair in every state reached (C17); deduplication (C18), rate
      limits (C19), connections (C20).
    - Broker (C21 - C25): fan-out of a publish the store has accepted, idempotence
      and durability over any later events of the broker, one answer per request,
      batches.
    - Running broker (C26 - C31): the invariant relating connections, table and
      subscriptions; every connection's bytes are whole frames; no step blocks
      while sockets work; what a heartbeat round drops; heartbeats keep a
      connection; a push to a broken connection deadlocks.
    - Server threads (C32 - C34): descriptors are closed once, by their owner, and
      never leak; a stop ends in boundedly many steps, and two stops, which the
      destructors make, leave nothing open; two races remain.
    - Client threads (C35, C36): one sender at a time, sockets are closed once and
      used by their own connection; [Disconnect] ends in boundedly many steps and
      leaves nothing open.
    - Programs (C37 - C40): a client never replays by accident; what one command
      line publishes another one displays, through the running broker; the
      server's configuration stays in force in all its parts, and the file decides.

    Other theorems of the files (observers of the ring, the message its reader
    refuses, the zero-copy header, the round trips of the codec, of compression
    and of the configuration file, no invented frame, retried messages that reach
    another consumer, what deletion forgets, the stream a connection writes and the
    bound on its write buffer, subscriptions, what a disconnection leaves of them,
    the cleaning of the deduplication window, producer identifiers, reconnecting,
    what a client displays, the ranges of the server's configuration) are stated the same way without a number.

    ** Fuel and bounds

    Loops over lists are structural.  [drain_ring] and [drain] (the loops over a
    queue and over decoded frames) take fuel; the definitions that use them pass
    a bound, the bytes stored, that is proved to be enough.  A store is assumed
    to see fewer than [2^64 - 2] operations, a message record to fit the 32-bit
    length field, and a ring to be no larger than the largest message it hands
    out; the first is the range of message identifiers, the second follows from
    the frame size limit, the third is what
    [RingBuffer.ring_oversize_blocks] is about.

    ** What is not modelled

    Which event [epoll] reports when is an argument, as is what a system call
    answers; sleeping is left out.  [ServerThreads] and [ClientThreads] do not carry
    bytes: these are in [Connection], [System] and [TcpClient], whose threads run
    one round at a time.  [Start] of [ServerThreads] is called on a server that has
    not been started.  A frame handler of the user that calls the client back is
    not modelled.  A background round of [StoreConcurrent] is a call for each
    topic, which looks its topic up itself, while the loops look all of them up at
    the beginning of a round.  The destructor of a connection is not a step, since
    it has nothing to close ([descriptors_safe]).  Log output and the tests are not
    modelled; the generated protobuf code is a parameter. *)

From stdpp Require Export base tactics numbers option list list_numbers gmap strings fin_maps sorting.
From coqutil Require Export Byte.
From coqutil Require Import Word.LittleEndianList.

Declare Scope pmq_scope.
Delimit Scope pmq_scope with pmq.
#[global] Open Scope Z_scope.

(** ** Automation

    [pmq] collects resolution hints, [pmq_simpl] the rewriting hints of the
    development. *)

Create HintDb pmq.
Create HintDb pmq_simpl.

(** Split conjunctions in the context and the goal, and close what is
    arithmetic or in the hint database. *)
Ltac pmq_crush :=
  repeat match goal with
    | H : _ /\ _ |- _ => destruct H
    | |- _ /\ _ => split
    end; simplify_eq/=; try lia; eauto with pmq.

(** Case analysis on the scrutinee of an [if] or a [match] of the goal. *)
Ltac case_if :=
  match goal with
  | |- context [if ?b then _ else _] => destruct b eqn:?
  end.

(** Turns the boolean comparisons of the code into the facts they decide. *)
Ltac reflect_bools :=
  repeat match goal with
    | H : _ && _ = true |- _ => apply andb_true_iff in H as [? ?]
    | H : _ || _ = false |- _ => apply orb_false_iff in H as [? ?]
    | H : _ && _ = false |- _ => apply andb_false_iff in H
    | H : _ || _ = true |- _ => apply orb_true_iff in H
    | H : negb _ = true |- _ => apply negb_true_iff in H
    | H : negb _ = false |- _ => apply negb_false_iff in H
    | H : (_ =? _) = true |- _ => apply Z.eqb_eq in H
    | H : (_ =? _) = false |- _ => apply Z.eqb_neq in H
    | H : (_ <? _) = true |- _ => apply Z.ltb_lt in H
    | H : (_ <? _) = false |- _ => apply Z.ltb_ge in H
    | H : (_ <=? _) = true |- _ => apply Z.leb_le in H
    | H : (_ <=? _) = false |- _ => apply Z.leb_gt in H
    | H : bool_decide _ = true |- _ => apply bool_decide_eq_true in H
    | H : bool_decide _ = false |- _ => apply bool_decide_eq_false in H
    end.

(** Keeps the equation of a scrutinee, for definitions by well-founded
    recursion. *)
Definition inspect {A} (a : A) : {b : A | a = b} := exist _ a eq_refl.

(** ** Lists *)

Lemma filter_bool_cons {A} (f : A -> bool) x l :
  filter (λ y, f y = true) (x :: l) =
  if f x then x :: filter (λ y, f y = true) l else filter (λ y, f y = true) l.
Proof. rewrite filter_cons. by destruct (f x). Qed.

Lemma filter_ext_in {A} (P Q : A -> Prop) `{forall x, Decision (P x), forall x, Decision (Q x)}
    (l : list A) :
  (forall x, x ∈ l -> P x <-> Q x) -> filter P l = filter Q l.
Proof.
  intros HPQ. induction l as [|x l IH]; [done|].
  rewrite !filter_cons, IH by (intros y Hy; apply HPQ; by right).
  assert (P x <-> Q x) by (apply HPQ; by left). by repeat case_decide; try tauto.
Qed.

(** The last pair of each key of a list of pairs. *)
Fixpoint latest {K A} `{EqDecision K} (l : list (K * A)) : list (K * A) :=
  match l with
  | [] => []
  | e :: l => if decide (e.1 ∈ l.*1) then latest l else e :: latest l
  end.

Lemma elem_of_latest {K A} `{EqDecision K} (l : list (K * A)) e : e ∈ latest l -> e ∈ l.
Proof.
  induction l as [|x l IH]; [done|]. cbn [latest]. rewrite elem_of_cons.
  case_decide; [auto|]. rewrite elem_of_cons. naive_solver.
Qed.

Lemma latest_snoc {K A} `{EqDecision K} (l : list (K * A)) k a :
  latest (l ++ [(k, a)]) = filter (λ e, e.1 <> k) (latest l) ++ [(k, a)].
Proof.
  induction l as [|x l IH]; [done|]. cbn [app latest]. rewrite IH, fmap_app. cbn [fmap list_fmap fst].
  repeat case_decide; rewrite ?elem_of_app, ?list_elem_of_singleton in *; try tauto.
  - rewrite filter_cons, decide_False by tauto. done.
  - rewrite filter_cons, decide_True by tauto. done.
Qed.

Lemma sublist_fmap {A C} (f : A -> C) (l1 l2 : list A) :
  sublist l1 l2 -> sublist (f <$> l1) (f <$> l2).
Proof. induction 1; simpl; by constructor. Qed.

Lemma sublist_filter {A} (P : A -> Prop) `{forall x, Decision (P x)} (l : list A) :
  sublist (filter P l) l.
Proof.
  induction l as [|x l IH]; [done|]. rewrite filter_cons. case_decide; by constructor.
Qed.

Lemma sublist_take_filter {A} (P : A -> Prop) `{forall x, Decision (P x)} n (l : list A) :
  sublist (take n (filter P l)) l.
Proof. transitivity (filter P l); [apply sublist_take|apply sublist_filter]. Qed.

Lemma NoDup_sublist {A} (l1 l2 : list A) : sublist l1 l2 -> NoDup l2 -> NoDup l1.
Proof.
  intros Hs Hnd. induction Hs as [|x l1 l2 Hs IH|x l1 l2 Hs IH]; [done|..];
    apply NoDup_cons in Hnd as [Hx Hnd]; [constructor|]; auto.
  intros Hin. apply Hx. by apply (sublist_subseteq _ _ Hs).
Qed.

Lemma lookup_foldl_delete {K A} `{Countable K} (ids : list K) (P : gmap K A) i :
  foldl (λ m id, delete id m) P ids !! i = if decide (i ∈ ids) then None else P !! i.
Proof.
  revert P. induction ids as [|id ids IH]; intros P; cbn [foldl].
  - by rewrite decide_False by apply not_elem_of_nil.
  - rewrite IH. destruct (decide (i = id)) as [->|Hne].
    + rewrite lookup_delete_eq. rewrite (decide_True (P := id ∈ id :: ids)) by by left.
      by case_decide.
    + rewrite lookup_delete_ne by done.
      destruct (decide (i ∈ ids)); [by rewrite decide_True by by right|].
      rewrite decide_False; [done|]. rewrite elem_of_cons. tauto.
Qed.

Lemma Forall_sublist {A} (P : A -> Prop) (l k : list A) : sublist l k -> Forall P k -> Forall P l.
Proof.
  induction 1 as [|x l k _ IH|x l k _ IH]; [done|..]; intros [Hx Hk]%Forall_cons; [|by apply IH].
  constructor; [done|by apply IH].
Qed.

(** ** Hash maps

    An [unordered_map] is a [gmap]; the order in which a loop over it meets the
    entries is unspecified, and may differ from one loop to the next.  A loop
    therefore takes the order it sees as an argument. *)
Record Traversal (K : Type) `{Countable K} := mkTraversal {
  entries : forall {A : Type}, gmap K A -> list (K * A);
  entries_perm : forall {A : Type} (m : gmap K A), entries m ≡ₚ map_to_list m;
}.
#[global] Arguments mkTraversal {K _ _}.
#[global] Arguments entries {K _ _} _ {A}.
#[global] Arguments entries_perm {K _ _} _ {A}.

(** One possible order. *)
Definition key_order {K} `{Countable K} : Traversal K :=
  mkTraversal (λ A, @map_to_list K A (gmap K A) _) (λ A m, reflexivity _).

Lemma elem_of_entries {K} `{Countable K} {A} (t : Traversal K) (m : gmap K A) k x :
  (k, x) ∈ entries t m <-> m !! k = Some x.
Proof. by rewrite entries_perm, elem_of_map_to_list. Qed.

Lemma NoDup_entries_keys {K} `{Countable K} {A} (t : Traversal K) (m : gmap K A) :
  NoDup (entries t m).*1.
Proof. rewrite entries_perm. apply NoDup_fst_map_to_list. Qed.

(** ** Fixed-width unsigned integers

    [uintN_t] values are integers in [0, 2^N); an operation that can leave the
    range is followed by the reduction modulo [2^N] that C++ performs. *)

Definition wrap (w z : Z) : Z := z mod 2 ^ w.
Definition u8 : Z -> Z := wrap 8.
Definition u16 : Z -> Z := wrap 16.
Definition u32 : Z -> Z := wrap 32.
Definition u64 : Z -> Z := wrap 64.

Definition in_width (w z : Z) : Prop := 0 <= z < 2 ^ w.

Lemma wrap_id w z : in_width w z -> wrap w z = z.
Proof. unfold in_width, wrap. intros. by apply Z.mod_small. Qed.

Lemma wrap_in_width w z : 0 <= w -> in_width w (wrap w z).
Proof. intros. unfold in_width, wrap. apply Z.mod_pos_bound. lia. Qed.

Lemma u64_id z : 0 <= z < 2 ^ 64 -> u64 z = z.
Proof. apply wrap_id. Qed.
Lemma u32_id z : 0 <= z < 2 ^ 32 -> u32 z = z.
Proof. apply wrap_id. Qed.
Lemma u16_id z : 0 <= z < 2 ^ 16 -> u16 z = z.
Proof. apply wrap_id. Qed.

Lemma u64_range z : 0 <= u64 z < 2 ^ 64.
Proof. by apply wrap_in_width. Qed.
Lemma u32_range z : 0 <= u32 z < 2 ^ 32.
Proof. by apply wrap_in_width. Qed.

Lemma wrap_add_r w x y : wrap w (x + wrap w y) = wrap w (x + y).
Proof. unfold wrap. apply Zplus_mod_idemp_r. Qed.
Lemma wrap_add_l w x y : wrap w (wrap w x + y) = wrap w (x + y).
Proof. unfold wrap. apply Zplus_mod_idemp_l. Qed.
Lemma wrap_sub_l w x y : wrap w (wrap w x - y) = wrap w (x - y).
Proof. unfold wrap. apply Zminus_mod_idemp_l. Qed.

#[export] Hint Resolve wrap_in_width u64_range u32_range : pmq.

(** The size of a container as the [size_t] the code computes with. *)
Abbreviation zlen l := (Z.of_nat (length l)).

(** ** Bytes *)

#[export] Instance byte_eq_dec : EqDecision byte := Byte.byte_eq_dec.
#[export] Instance byte_inhabited : Inhabited byte := populate Byte.x00.

(** [static_cast<uint8_t>(z & 0xFF)]. *)
Definition byte_of (z : Z) : byte := byte.of_Z (Z.land z 255).

Lemma byte_of_of_Z z : byte_of z = byte.of_Z z.
Proof.
  apply byte.unsigned_inj. unfold byte_of. rewrite !byte.unsigned_of_Z.
  unfold byte.wrap. change 255 with (Z.ones 8). rewrite Z.land_ones by done.
  by rewrite Z.mod_mod.
Qed.

(** ** Big-endian encodings, as the code's byte loops write and read them *)

(** [for (int i = n-1; i >= 0; --i) push_back((x >> (i*8)) & 0xFF)]. *)
Fixpoint be_push (n : nat) (x : Z) : list byte :=
  match n with
  | O => []
  | S i => byte_of (Z.shiftr x (Z.of_nat i * 8)) :: be_push i x
  end.

(** [for (b : bytes) acc = (acc << 8) | b] on a [w]-bit accumulator. *)
Definition be_read (w : Z) (bs : list byte) : Z :=
  foldl (λ acc b, Z.lor (wrap w (Z.shiftl acc 8)) (byte.unsigned b)) 0 bs.

(** The value a big-endian sequence of bytes denotes. *)
Definition be_value (bs : list byte) : Z := le_combine (rev bs).

Lemma length_be_push n x : length (be_push n x) = n.
Proof. induction n; simpl; congruence. Qed.

Lemma be_push_split n x : be_push n x = rev (le_split n x).
Proof.
  induction n as [|n IH]; [done|].
  assert (le_split (S n) x = le_split n x ++ [byte.of_Z (Z.shiftr x (8 * Z.of_nat n))]) as ->.
  { clear IH. revert x. induction n as [|n IH]; intros x.
    - cbn. by rewrite Z.shiftr_0_r.
    - change (le_split (S (S n)) x) with (byte.of_Z x :: le_split (S n) (Z.shiftr x 8)).
      rewrite IH. change (le_split (S n) x) with (byte.of_Z x :: le_split n (Z.shiftr x 8)).
      simpl. do 3 f_equal. rewrite Z.shiftr_shiftr by lia. f_equal. f_equal. lia. }
  rewrite rev_app_distr. cbn [be_push rev app]. rewrite IH, byte_of_of_Z.
  do 3 f_equal. lia.
Qed.

Lemma be_value_push n x : be_value (be_push n x) = x mod 2 ^ (Z.of_nat n * 8).
Proof. unfold be_value. by rewrite be_push_split, rev_involutive, le_combine_split. Qed.

Lemma be_value_range bs : 0 <= be_value bs < 2 ^ (8 * zlen bs).
Proof. unfold be_value. rewrite <- length_rev. apply le_combine_bound. Qed.

Lemma be_push_value bs : be_push (length bs) (be_value bs) = bs.
Proof.
  rewrite be_push_split. unfold be_value. rewrite <- length_rev, split_le_combine.
  apply rev_involutive.
Qed.

(** Shifting in a byte is the arithmetic [acc * 256 + b]. *)
Lemma lor_shiftl_byte a b : Z.lor (Z.shiftl a 8) (byte.unsigned b) = a * 256 + byte.unsigned b.
Proof.
  pose proof (byte.unsigned_range b) as Hb.
  rewrite <- (Z.add_0_r (Z.lor _ _)).
  assert (Z.land (Z.shiftl a 8) (byte.unsigned b) = 0) as <-.
  { apply Z.bits_inj'. intros i Hi. rewrite Z.land_spec, Z.bits_0.
    destruct (Z.ltb_spec i 8).
    - by rewrite Z.shiftl_spec_low.
    - rewrite (Z.bits_above_log2 (byte.unsigned b) i); [apply andb_false_r|lia|].
      destruct (Z.eq_dec (byte.unsigned b) 0) as [->|]; [cbn; lia|].
      apply Z.log2_lt_pow2; [lia|]. eapply Z.lt_le_trans; [apply Hb|].
      apply Z.pow_le_mono_r; lia. }
  rewrite Z.add_lor_land, Z.shiftl_mul_pow2 by lia. lia.
Qed.

Lemma be_value_snoc bs b : be_value (bs ++ [b]) = be_value bs * 256 + byte.unsigned b.
Proof.
  unfold be_value. rewrite rev_app_distr.
  change (le_combine (rev [b] ++ rev bs))
    with (Z.lor (byte.unsigned b) (Z.shiftl (le_combine (rev bs)) 8)).
  by rewrite Z.lor_comm, lor_shiftl_byte.
Qed.

Lemma be_value_nil : be_value [] = 0.
Proof. done. Qed.

(** The reading loop computes the denoted value when it fits the accumulator. *)
Lemma be_read_value w bs : 0 <= w -> 8 * zlen bs <= w -> be_read w bs = be_value bs.
Proof.
  intros Hw. unfold be_read. induction bs as [|b bs IH] using rev_ind; [done|].
  rewrite length_app, foldl_app. cbn [length foldl]. intros Hlen.
  rewrite IH by lia. rewrite be_value_snoc.
  rewrite wrap_id, lor_shiftl_byte; [done|].
  rewrite Z.shiftl_mul_pow2 by lia. pose proof (be_value_range bs).
  split; [lia|].
  apply Z.lt_le_trans with (2 ^ (8 * zlen bs) * 2 ^ 8); [lia|].
  rewrite <- Z.pow_add_r by lia. apply Z.pow_le_mono_r; lia.
Qed.

(** Round trip of the wire integers. *)
Lemma be_read_push n w x :
  8 * Z.of_nat n <= w -> 0 <= x < 2 ^ (8 * Z.of_nat n) -> be_read w (be_push n x) = x.
Proof.
  intros Hw Hx. rewrite be_read_value by (rewrite ?length_be_push; lia).
  rewrite be_value_push. apply Z.mod_small. by rewrite Z.mul_comm.
Qed.

(** Four bytes shifted together by [|] denote the big-endian value. *)
Lemma be_value_4 a b c d :
  be_value [a; b; c; d] =
  Z.lor (Z.lor (Z.lor (Z.shiftl (byte.unsigned a) 24) (Z.shiftl (byte.unsigned b) 16))
    (Z.shiftl (byte.unsigned c) 8)) (byte.unsigned d).
Proof.
  rewrite <- (be_read_value 32) by (cbn; lia). unfold be_read. cbn [foldl].
  rewrite Z.shiftl_0_l. change (wrap 32 0) with 0. rewrite Z.lor_0_l.
  pose proof (byte.unsigned_range a). pose proof (byte.unsigned_range b).
  pose proof (byte.unsigned_range c). pose proof (byte.unsigned_range d).
  assert (Hw : forall z, 0 <= z < 2 ^ 24 -> wrap 32 (Z.shiftl z 8) = Z.shiftl z 8).
  { intros z Hz. apply wrap_id. rewrite Z.shiftl_mul_pow2 by lia. unfold in_width. lia. }
  rewrite (Hw (byte.unsigned a)) by lia.
  rewrite (Hw (Z.lor _ (byte.unsigned b))) by (rewrite lor_shiftl_byte; lia).
  rewrite (Hw (Z.lor _ (byte.unsigned c))) by (rewrite !lor_shiftl_byte; lia).
  rewrite !Z.shiftl_lor, !Z.shiftl_shiftl by lia. done.
Qed.

#[global] Arguments be_push : simpl never.
#[global] Arguments be_read : simpl never.
#[global] Arguments be_value : simpl never.
#[global] Arguments wrap : simpl never.
#[global] Arguments u8 : simpl never.
#[global] Arguments u16 : simpl never.
#[global] Arguments u32 : simpl never.
#[global] Arguments u64 : simpl never.
