(* ===== verification/Types.v ===== *)
(** * Shared types of the system: [common/types.h], [common/error_code.h],
    [mq/topic.h] and the message record of [storage/message_store.h] *)

From S2P Require Import Prelude.

(** [using TopicName = std::string] and its siblings of [common/types.h]. *)
Abbreviation TopicName := string (only parsing).
Abbreviation SubscriberId := string (only parsing).
Abbreviation MessageId := Z (only parsing).
Abbreviation ConnectionId := Z (only parsing).
Abbreviation Payload := (list byte) (only parsing).

Definition kDefaultRingBufferSize : Z := 1024 * 1024.
Definition kMaxPayloadSize : Z := 16 * 1024 * 1024.

(** [enum class ErrorCode : uint32_t]. *)
Inductive ErrorCode :=
  | Success | Unknown | InvalidRequest | TopicNotFound | TopicAlreadyExists
  | NotSubscribed | AlreadySubscribed | RateLimitExceeded | BufferFull
  | MessageNotFound | DuplicateMessage | BatchSizeExceeded | AdminCommandFailed.

#[export] Instance ErrorCode_eq_dec : EqDecision ErrorCode.
Proof. solve_decision. Defined.

(** [static_cast<uint32_t>(code)]. *)
Definition error_code_value (c : ErrorCode) : Z :=
  match c with
  | Success => 0 | Unknown => 1 | InvalidRequest => 2 | TopicNotFound => 3
  | TopicAlreadyExists => 4 | NotSubscribed => 5 | AlreadySubscribed => 6
  | RateLimitExceeded => 7 | BufferFull => 8 | MessageNotFound => 9
  | DuplicateMessage => 10 | BatchSizeExceeded => 11 | AdminCommandFailed => 12
  end.

Definition ErrorCodeToString (c : ErrorCode) : string :=
  match c with
  | Success => "Success"
  | Unknown => "Unknown error"
  | InvalidRequest => "Invalid request"
  | TopicNotFound => "Topic not found"
  | TopicAlreadyExists => "Topic already exists"
  | NotSubscribed => "Not subscribed"
  | AlreadySubscribed => "Already subscribed"
  | RateLimitExceeded => "Rate limit exceeded"
  | BufferFull => "Buffer full"
  | MessageNotFound => "Message not found"
  | DuplicateMessage => "Duplicate message"
  | BatchSizeExceeded => "Batch size exceeded"
  | AdminCommandFailed => "Admin command failed"
  end.

(** [struct SubscriberInfo]. The [callback] field is never set nor called by
    the program (it keeps its default [nullptr]), so it carries nothing. *)
Record SubscriberInfo := mkSubscriberInfo {
  sub_id : SubscriberId;
  sub_conn_id : ConnectionId;
}.

(** [struct TopicInfo]. *)
Record TopicInfo := mkTopicInfo {
  ti_name : string;
  ti_create_time : Z;
  ti_message_count : Z;
}.

(** [struct StoredMessage]. *)
Record StoredMessage := mkStoredMessage {
  sm_id : MessageId;
  sm_topic_name : TopicName;
  sm_payload : Payload;
  sm_timestamp : Z;
  sm_retry_count : Z;
  sm_expires_at : Z;
}.

#[export] Instance SubscriberInfo_eq_dec : EqDecision SubscriberInfo.
Proof. solve_decision. Defined.
#[export] Instance TopicInfo_eq_dec : EqDecision TopicInfo.
Proof. solve_decision. Defined.
#[export] Instance StoredMessage_eq_dec : EqDecision StoredMessage.
Proof. solve_decision. Defined.

(** Distinct codes are distinct numbers on the wire. *)
Lemma error_code_value_inj c d : error_code_value c = error_code_value d -> c = d.
Proof. by destruct c, d. Qed.
