(* ===== verification/RingBuffer.v ===== *)
(** * The single-producer single-consumer ring buffer:
    [ring_buffer/spsc_ring_buffer.{h,cpp}]

    The state is the object's fields; [Push] and [Pop] are the methods as one
    thread runs them (the interleaving of the two threads is the subject of
    [RingConcurrent]).  The specification is a bounded FIFO of byte messages;
    [ring_rep] relates the two, and the class [FifoBuffer] is what the message
    store relies on. *)

From S2P Require Import Prelude Types.

Record SpscRingBuffer := mkRing {
  capacity_ : Z;
  buffer_ : list byte;
  head_ : Z;
  tail_ : Z;
}.

#[export] Instance SpscRingBuffer_eq_dec : EqDecision SpscRingBuffer.
Proof. solve_decision. Defined.

(** [SpscRingBuffer(size_t capacity)]: one slot more, to tell full from empty. *)
Definition SpscRingBuffer_new (capacity : Z) : SpscRingBuffer :=
  let cap := u64 (capacity + 1) in
  mkRing cap (replicate (Z.to_nat cap) Byte.x00) 0 0.

(** The index [(pos + i) % capacity_] of a [size_t] computation. *)
Definition slot (cap pos i : Z) : nat := Z.to_nat (u64 (pos + i) mod cap).

(** [for (i...) buffer_[(pos + i) % capacity_] = data[i]]. *)
Fixpoint store_bytes (cap pos i : Z) (data buf : list byte) : list byte :=
  match data with
  | [] => buf
  | b :: bs => store_bytes cap pos (i + 1) bs (<[slot cap pos i := b]> buf)
  end.

(** [for (i...) data[i] = buffer_[(pos + i) % capacity_]]. *)
Fixpoint load_bytes (cap pos i : Z) (n : nat) (buf : list byte) : list byte :=
  match n with
  | O => []
  | S n => buf !!! slot cap pos i :: load_bytes cap pos (i + 1) n buf
  end.

(** The four bytes [(len_be >> (24 - i * 8)) & 0xFF]. *)
Definition len_header (len_be : Z) : list byte :=
  (λ i, byte_of (Z.shiftr len_be (24 - i * 8))) <$> [0; 1; 2; 3].

Definition Push (data : list byte) (rb : SpscRingBuffer) : bool * SpscRingBuffer :=
  let len := zlen data in
  let cap := capacity_ rb in
  if (len =? 0) || (u64 (cap - 1) <? len) then (false, rb)
  else
    let tail := tail_ rb in
    let head := head_ rb in
    let total_len := u64 (4 + len) in
    let writable := u64 (head + cap - tail - 1) mod cap in
    if writable <? total_len then (false, rb)
    else
      let len_be := u32 len in
      let buf1 := store_bytes cap tail 0 (len_header len_be) (buffer_ rb) in
      let buf2 := store_bytes cap tail 4 data buf1 in
      (true, mkRing cap buf2 head (u64 (tail + total_len) mod cap)).

Definition Pop (rb : SpscRingBuffer) : option (list byte) * SpscRingBuffer :=
  let head := head_ rb in
  let tail := tail_ rb in
  let cap := capacity_ rb in
  if head =? tail then (None, rb)
  else
    let len := be_read 32 (load_bytes cap head 0 4 (buffer_ rb)) in
    if (len =? 0) || (kMaxPayloadSize <? len) then (None, rb)
    else
      let data := load_bytes cap head 4 (Z.to_nat len) (buffer_ rb) in
      (Some data, mkRing cap (buffer_ rb) (u64 (head + 4 + len) mod cap) tail).

Definition GetReadableSize (rb : SpscRingBuffer) : Z :=
  u64 (tail_ rb + capacity_ rb - head_ rb) mod capacity_ rb.
Definition GetWritableSize (rb : SpscRingBuffer) : Z :=
  u64 (head_ rb + capacity_ rb - tail_ rb - 1) mod capacity_ rb.
Definition Size (rb : SpscRingBuffer) : Z := GetReadableSize rb.
Definition Empty (rb : SpscRingBuffer) : bool := head_ rb =? tail_ rb.
Definition Full (rb : SpscRingBuffer) : bool :=
  u64 (tail_ rb + 1) mod capacity_ rb =? head_ rb.

(** ** The abstract FIFO *)

(** A message with its length header, as it lies in the buffer. *)
Definition record_bytes (m : list byte) : list byte := be_push 4 (zlen m) ++ m.
Definition queue_bytes (q : list (list byte)) : list byte := concat (record_bytes <$> q).
Definition queue_size (q : list (list byte)) : Z := zlen (queue_bytes q).

(** A queue of the given usable capacity takes [m]. *)
Definition fits (capacity : Z) (q : list (list byte)) (m : list byte) : bool :=
  (1 <=? zlen m) && (queue_size q + 4 + zlen m <=? capacity).

Definition fifo_push (capacity : Z) (q : list (list byte)) (m : list byte)
    : bool * list (list byte) :=
  if fits capacity q m then (true, q ++ [m]) else (false, q).

(** A message over [kMaxPayloadSize] is never handed out, and blocks the queue. *)
Definition fifo_pop (q : list (list byte)) : option (list byte) * list (list byte) :=
  match q with
  | [] => (None, q)
  | m :: q' => if zlen m <=? kMaxPayloadSize then (Some m, q') else (None, q)
  end.

(** ** The representation relation *)

Record ring_ok (rb : SpscRingBuffer) : Prop := {
  ok_cap : 1 <= capacity_ rb /\ 2 * capacity_ rb <= 2 ^ 64;
  ok_buf : zlen (buffer_ rb) = capacity_ rb;
  ok_head : 0 <= head_ rb < capacity_ rb;
  ok_tail : 0 <= tail_ rb < capacity_ rb;
}.

Definition msg_ok (m : list byte) : Prop := 1 <= zlen m < 2 ^ 32.

Record ring_rep (rb : SpscRingBuffer) (q : list (list byte)) : Prop := {
  rep_ok : ring_ok rb;
  rep_msgs : Forall msg_ok q;
  rep_size : queue_size q < capacity_ rb;
  rep_tail : tail_ rb = (head_ rb + queue_size q) mod capacity_ rb;
  rep_bytes : load_bytes (capacity_ rb) (head_ rb) 0 (length (queue_bytes q)) (buffer_ rb)
              = queue_bytes q;
}.

(** What a client needs of a bounded message buffer; [fb_bound] bounds the
    number of messages in it. *)
Class FifoBuffer (B : Type) := {
  fb_new : Z -> B;
  fb_push : list byte -> B -> bool * B;
  fb_pop : B -> option (list byte) * B;
  fb_bound : B -> nat;
  fb_rep : Z -> B -> list (list byte) -> Prop;
  fb_new_rep : forall c, 0 <= c -> 2 * (c + 1) <= 2 ^ 64 -> fb_rep c (fb_new c) [];
  fb_push_rep : forall c b q m, fb_rep c b q -> zlen m < 2 ^ 32 ->
    exists b', fb_push m b = (fst (fifo_push c q m), b') /\ fb_rep c b' (snd (fifo_push c q m));
  fb_pop_rep : forall c b q, fb_rep c b q ->
    exists b', fb_pop b = (fst (fifo_pop q), b') /\ fb_rep c b' (snd (fifo_pop q));
  fb_rep_fits : forall c b q, fb_rep c b q -> queue_size q <= c;
  fb_bound_rep : forall c b q, fb_rep c b q -> (length q <= fb_bound b)%nat;
}.

#[global] Arguments record_bytes : simpl never.
#[global] Arguments slot : simpl never.

(** ** Index arithmetic *)

Lemma length_store_bytes cap pos i data buf :
  length (store_bytes cap pos i data buf) = length buf.
Proof. revert i buf. induction data; intros; simpl; [done|]. by rewrite IHdata, length_insert. Qed.

Lemma length_load_bytes cap pos i n buf : length (load_bytes cap pos i n buf) = n.
Proof. revert i. induction n; intros; simpl; congruence. Qed.

Lemma load_bytes_app cap pos i n1 n2 buf :
  load_bytes cap pos i (n1 + n2) buf =
  load_bytes cap pos i n1 buf ++ load_bytes cap pos (i + Z.of_nat n1) n2 buf.
Proof.
  revert i. induction n1 as [|n1 IH]; intros i; simpl.
  - f_equal. lia.
  - rewrite IH. do 3 f_equal. lia.
Qed.

Lemma len_header_push len : len_header len = be_push 4 len.
Proof. done. Qed.

Lemma length_record_bytes m : zlen (record_bytes m) = 4 + zlen m.
Proof. unfold record_bytes. rewrite length_app, length_be_push. lia. Qed.

Lemma queue_bytes_app q1 q2 : queue_bytes (q1 ++ q2) = queue_bytes q1 ++ queue_bytes q2.
Proof. unfold queue_bytes. by rewrite fmap_app, concat_app. Qed.

Lemma queue_bytes_cons m q : queue_bytes (m :: q) = record_bytes m ++ queue_bytes q.
Proof. done. Qed.

Lemma queue_bytes_singleton m : queue_bytes [m] = record_bytes m.
Proof. apply app_nil_r. Qed.

Lemma queue_size_snoc q m : queue_size (q ++ [m]) = queue_size q + 4 + zlen m.
Proof.
  unfold queue_size. rewrite queue_bytes_app, length_app.
  unfold queue_bytes at 2. simpl. rewrite app_nil_r.
  pose proof (length_record_bytes m). lia.
Qed.

Lemma queue_size_cons m q : queue_size (m :: q) = 4 + zlen m + queue_size q.
Proof.
  unfold queue_size, queue_bytes. rewrite fmap_cons. simpl. rewrite length_app.
  pose proof (length_record_bytes m). lia.
Qed.

Section index.
Context (cap : Z) (Hcap : 1 <= cap) (Hcap64 : 2 * cap <= 2 ^ 64).

Lemma slot_eq pos i : 0 <= pos < cap -> 0 <= i <= cap ->
  slot cap pos i = Z.to_nat ((pos + i) mod cap).
Proof. intros. unfold slot. by rewrite u64_id by lia. Qed.

Lemma slot_lt pos i : 0 <= pos < cap -> 0 <= i <= cap ->
  (slot cap pos i < Z.to_nat cap)%nat.
Proof.
  intros. rewrite slot_eq by lia. pose proof (Z.mod_pos_bound (pos + i) cap). lia.
Qed.

Lemma slot_ne pos i j : 0 <= pos < cap -> 0 <= i <= cap -> 0 <= j <= cap ->
  0 < j - i < cap -> slot cap pos i <> slot cap pos j.
Proof.
  intros Hp Hi Hj Hd Heq. rewrite !slot_eq in Heq by lia.
  pose proof (Z.mod_pos_bound (pos + i) cap). pose proof (Z.mod_pos_bound (pos + j) cap).
  assert ((pos + i) mod cap = (pos + j) mod cap) as Hm by lia.
  pose proof (Z.div_mod (pos + i) cap). pose proof (Z.div_mod (pos + j) cap).
  assert (cap * ((pos + j) / cap - (pos + i) / cap) = j - i) by lia.
  assert (0 < (pos + j) / cap - (pos + i) / cap < 1) by nia. lia.
Qed.

(** The positions relative to a moved start. *)
Lemma slot_shift pos k i : 0 <= pos < cap -> 0 <= k -> 0 <= i -> k + i <= cap ->
  slot cap ((pos + k) mod cap) i = slot cap pos (k + i).
Proof.
  intros. pose proof (Z.mod_pos_bound (pos + k) cap).
  rewrite !slot_eq by lia. rewrite Zplus_mod_idemp_l. do 2 f_equal. lia.
Qed.

Lemma load_shift pos k i n buf : 0 <= pos < cap -> 0 <= k -> 0 <= i ->
  k + i + Z.of_nat n <= cap ->
  load_bytes cap ((pos + k) mod cap) i n buf = load_bytes cap pos (k + i) n buf.
Proof.
  revert i. induction n as [|n IH]; intros i Hp Hk Hi Hn; simpl; [done|].
  rewrite slot_shift by lia. f_equal. rewrite IH by lia. f_equal. lia.
Qed.

Lemma store_shift pos k i data buf : 0 <= pos < cap -> 0 <= k -> 0 <= i ->
  k + i + zlen data <= cap ->
  store_bytes cap ((pos + k) mod cap) i data buf = store_bytes cap pos (k + i) data buf.
Proof.
  revert i buf. induction data as [|b bs IH]; intros i buf Hp Hk Hi Hn; simpl in *; [done|].
  rewrite slot_shift by lia. rewrite IH by lia. f_equal. lia.
Qed.

Lemma load_insert_ne pos i n j b buf : 0 <= pos < cap -> 0 <= i -> 0 <= j <= cap ->
  i + Z.of_nat n <= j < i + cap \/ j < i /\ i + Z.of_nat n <= j + cap ->
  i + Z.of_nat n <= cap ->
  load_bytes cap pos i n (<[slot cap pos j := b]> buf) = load_bytes cap pos i n buf.
Proof.
  revert i. induction n as [|n IH]; intros i Hp Hi Hj Hd Hn; simpl; [done|]. f_equal.
  - rewrite list_lookup_total_insert_ne; [done|].
    destruct Hd; [apply not_eq_sym|]; apply slot_ne; lia.
  - apply IH; lia.
Qed.

Lemma load_store_disjoint pos i n j data buf : 0 <= pos < cap -> 0 <= i -> 0 <= j ->
  i + Z.of_nat n <= j -> j + zlen data <= i + cap -> j + zlen data <= cap ->
  load_bytes cap pos i n (store_bytes cap pos j data buf) = load_bytes cap pos i n buf.
Proof.
  revert j buf. induction data as [|b bs IH]; intros j buf Hp Hi Hj Hn Hd Hc; simpl in *;
    [done|].
  rewrite IH by lia. apply load_insert_ne; lia.
Qed.

Lemma load_store_same pos i data buf : 0 <= pos < cap -> 0 <= i ->
  i + zlen data <= cap -> zlen buf = cap ->
  load_bytes cap pos i (length data) (store_bytes cap pos i data buf) = data.
Proof.
  revert i buf. induction data as [|b bs IH]; intros i buf Hp Hi Hn Hb; simpl in *; [done|].
  f_equal.
  - assert (forall j buf', i < j -> j + zlen bs <= cap ->
      store_bytes cap pos j bs buf' !!! slot cap pos i = buf' !!! slot cap pos i) as Hkeep.
    { clear IH buf Hb Hn. induction bs as [|c cs IH]; intros j buf' Hj Hn; simpl in *; [done|].
      rewrite IH by lia. rewrite list_lookup_total_insert_ne; [done|].
      apply not_eq_sym, slot_ne; lia. }
    rewrite Hkeep by lia. apply list_lookup_total_insert_eq.
    pose proof (slot_lt pos i). lia.
  - apply IH; rewrite ?length_insert; lia.
Qed.
End index.

(** ** Refinement lemmas *)

Lemma ring_rep_new c : 0 <= c -> 2 * (c + 1) <= 2 ^ 64 -> ring_rep (SpscRingBuffer_new c) [].
Proof.
  intros Hc H64. unfold SpscRingBuffer_new. rewrite u64_id by lia.
  split; [split; simpl; rewrite ?length_replicate; lia|done|simpl|simpl|done].
  - unfold queue_size; simpl; lia.
  - unfold queue_size; simpl. by rewrite Zmod_0_l.
Qed.

(** The used space, as the two indices give it. *)
Lemma rep_used rb q : ring_rep rb q -> GetReadableSize rb = queue_size q.
Proof.
  intros [[[Hc H64] Hb Hh Ht] Hm Hs Htl Hby]. unfold GetReadableSize.
  assert (0 <= queue_size q) by (unfold queue_size; lia).
  rewrite u64_id by lia. rewrite Htl.
  rewrite <- Zminus_mod_idemp_l, <- Zplus_mod_idemp_l, Zmod_mod, Zplus_mod_idemp_l,
    Zminus_mod_idemp_l.
  replace (head_ rb + queue_size q + capacity_ rb - head_ rb)
    with (queue_size q + 1 * capacity_ rb) by lia.
  rewrite Z_mod_plus_full. apply Z.mod_small. lia.
Qed.

Lemma rep_writable rb q : ring_rep rb q ->
  GetWritableSize rb = capacity_ rb - 1 - queue_size q.
Proof.
  intros [[[Hc H64] Hb Hh Ht] Hm Hs Htl Hby]. unfold GetWritableSize.
  assert (0 <= queue_size q) by (unfold queue_size; lia).
  rewrite u64_id by lia. rewrite Htl.
  replace (head_ rb + capacity_ rb - (head_ rb + queue_size q) mod capacity_ rb - 1)
    with ((head_ rb + capacity_ rb - 1) - (head_ rb + queue_size q) mod capacity_ rb) by lia.
  rewrite Zminus_mod_idemp_r.
  replace (head_ rb + capacity_ rb - 1 - (head_ rb + queue_size q))
    with (capacity_ rb - 1 - queue_size q) by lia.
  apply Z.mod_small. lia.
Qed.

Lemma rep_empty rb q : ring_rep rb q -> Empty rb = bool_decide (q = []).
Proof.
  intros Hrep. pose proof (rep_used _ _ Hrep) as Hu.
  destruct Hrep as [[[Hc H64] Hb Hh Ht] Hm Hs Htl Hby]. unfold Empty.
  destruct q as [|m q].
  - rewrite bool_decide_true by done. apply Z.eqb_eq. rewrite Htl.
    unfold queue_size. simpl. rewrite Z.add_0_r. symmetry. apply Z.mod_small. lia.
  - rewrite bool_decide_false by done. apply Z.eqb_neq. intros He.
    unfold GetReadableSize in Hu. rewrite <- He in Hu. rewrite u64_id in Hu by lia.
    replace (head_ rb + capacity_ rb - head_ rb) with (0 + 1 * capacity_ rb) in Hu by lia.
    rewrite Z_mod_plus_full, Zmod_0_l, queue_size_cons in Hu.
    unfold queue_size in Hu. lia.
Qed.

(** Bytes written past the stored records do not disturb them. *)
Lemma rep_write_free rb q i data : ring_rep rb q -> 0 <= i ->
  queue_size q + i + zlen data <= capacity_ rb ->
  ring_rep (mkRing (capacity_ rb)
    (store_bytes (capacity_ rb) (tail_ rb) i data (buffer_ rb)) (head_ rb) (tail_ rb)) q.
Proof.
  intros [[[Hc H64] Hb Hh Ht] Hm Hs Htl Hby] Hi Hn.
  assert (0 <= queue_size q) by (unfold queue_size; lia).
  split; cbn [capacity_ buffer_ head_ tail_]; try done.
  - split; cbn [capacity_ buffer_ head_ tail_]; rewrite ?length_store_bytes; done.
  - rewrite Htl, store_shift by lia.
    rewrite load_store_disjoint; try done; fold (queue_size q); lia.
Qed.

(** Once the record lies after the stored ones, moving [tail_] stores it. *)
Lemma rep_extend rb q m : ring_rep rb q -> msg_ok m ->
  queue_size q + 4 + zlen m <= capacity_ rb - 1 ->
  load_bytes (capacity_ rb) (tail_ rb) 0 (length (record_bytes m)) (buffer_ rb)
    = record_bytes m ->
  ring_rep (mkRing (capacity_ rb) (buffer_ rb) (head_ rb)
    ((tail_ rb + (4 + zlen m)) mod capacity_ rb)) (q ++ [m]).
Proof.
  intros [[[Hc H64] Hb Hh Ht] Hm Hs Htl Hby] Hmok Hfit Hrec.
  assert (0 <= queue_size q) by (unfold queue_size; lia).
  pose proof (length_record_bytes m) as Hlr.
  split; cbn [capacity_ buffer_ head_ tail_].
  - split; cbn [capacity_ buffer_ head_ tail_]; try done. apply Z.mod_pos_bound; lia.
  - apply Forall_app; split; [done|]. by apply Forall_singleton.
  - rewrite queue_size_snoc. lia.
  - rewrite Htl, queue_size_snoc, Zplus_mod_idemp_l. f_equal. lia.
  - rewrite queue_bytes_app, length_app, queue_bytes_singleton.
    rewrite load_bytes_app, Z.add_0_l. fold (queue_size q). f_equal; [done|].
    rewrite <- Hrec at 2. rewrite Htl, load_shift by lia. f_equal. lia.
Qed.

(** Moving [head_] past the oldest record removes it. *)
Lemma rep_advance rb m q : ring_rep rb (m :: q) ->
  load_bytes (capacity_ rb) (head_ rb) (4 + zlen m) (length (queue_bytes q)) (buffer_ rb)
    = queue_bytes q ->
  ring_rep (mkRing (capacity_ rb) (buffer_ rb)
    (u64 (head_ rb + 4 + zlen m) mod capacity_ rb) (tail_ rb)) q.
Proof.
  intros [[[Hc H64] Hb Hh Ht] Hm Hs Htl Hby] Hrest.
  apply Forall_cons in Hm as [[Hm1 Hm2] Hq].
  rewrite queue_size_cons in Hs. assert (0 <= queue_size q) by (unfold queue_size; lia).
  rewrite u64_id by lia. rewrite <- Z.add_assoc.
  split; cbn [capacity_ buffer_ head_ tail_]; try done.
  - split; cbn [capacity_ buffer_ head_ tail_]; try done. apply Z.mod_pos_bound; lia.
  - lia.
  - rewrite Zplus_mod_idemp_l, Htl, queue_size_cons. f_equal. lia.
  - rewrite load_shift by (try lia; fold (queue_size q); lia).
    by rewrite Z.add_0_r.
Qed.

Lemma store_bytes_app cap pos i d1 d2 buf :
  store_bytes cap pos i (d1 ++ d2) buf =
  store_bytes cap pos (i + zlen d1) d2 (store_bytes cap pos i d1 buf).
Proof.
  revert i buf. induction d1 as [|x d1 IH]; intros i buf; simpl.
  - f_equal. lia.
  - rewrite IH. f_equal. lia.
Qed.

(** A push that fits appends the message to the represented queue. *)
Lemma rep_push_fits rb q m : ring_rep rb q -> zlen m < 2 ^ 32 ->
  fits (capacity_ rb - 1) q m = true ->
  exists rb', Push m rb = (true, rb') /\ ring_rep rb' (q ++ [m]) /\ capacity_ rb' = capacity_ rb.
Proof.
  intros Hrep Hm32 Hfit. unfold fits in Hfit. reflect_bools.
  pose proof (rep_writable _ _ Hrep) as Hw. unfold GetWritableSize in Hw.
  pose proof Hrep as [[[Hc H64] Hb Hh Ht] Hm Hs Htl Hby].
  assert (0 <= queue_size q) by (unfold queue_size; lia).
  pose proof (length_record_bytes m) as Hlr.
  unfold Push. rewrite Hw. rewrite !u64_id by lia. rewrite u32_id by lia.
  destruct ((zlen m =? 0) || (capacity_ rb - 1 <? zlen m)) eqn:E1; [reflect_bools; lia|].
  destruct (capacity_ rb - 1 - queue_size q <? 4 + zlen m) eqn:E2; [reflect_bools; lia|].
  eexists; split; [done|]. split; [|done].
  rewrite len_header_push.
  replace 4 with (0 + zlen (be_push 4 (zlen m))) at 1 by (rewrite length_be_push; lia).
  rewrite <- store_bytes_app. fold (record_bytes m).
  pose proof (rep_write_free rb q 0 (record_bytes m) Hrep ltac:(lia) ltac:(lia)) as Hrep'.
  apply (rep_extend _ _ m Hrep'); cbn [capacity_ buffer_ head_ tail_]; [|lia|].
  - unfold msg_ok. lia.
  - apply load_store_same; try done; lia.
Qed.

(** A push that does not fit is refused and changes nothing. *)
Lemma rep_push_refused rb q m : ring_rep rb q -> zlen m < 2 ^ 32 ->
  fits (capacity_ rb - 1) q m = false -> Push m rb = (false, rb).
Proof.
  intros Hrep Hm32 Hfit. unfold fits in Hfit. reflect_bools.
  pose proof (rep_writable _ _ Hrep) as Hw. unfold GetWritableSize in Hw.
  destruct Hrep as [[[Hc H64] Hb Hh Ht] Hm Hs Htl Hby].
  assert (0 <= queue_size q) by (unfold queue_size; lia).
  unfold Push. rewrite Hw.
  destruct ((zlen m =? 0) || (u64 (capacity_ rb - 1) <? zlen m)) eqn:E1; [done|].
  rewrite (u64_id (4 + zlen m)) by lia. reflect_bools.
  destruct (capacity_ rb - 1 - queue_size q <? 4 + zlen m) eqn:E2; [done|].
  reflect_bools. destruct Hfit; reflect_bools; lia.
Qed.

(** The header of the oldest message, as [Pop] reads it. *)
Lemma rep_head_record rb m q : ring_rep rb (m :: q) ->
  load_bytes (capacity_ rb) (head_ rb) 0 4 (buffer_ rb) = be_push 4 (zlen m) /\
  load_bytes (capacity_ rb) (head_ rb) 4 (length m) (buffer_ rb) = m /\
  load_bytes (capacity_ rb) (head_ rb) (4 + zlen m) (length (queue_bytes q)) (buffer_ rb)
    = queue_bytes q.
Proof.
  intros [Hok Hm Hs Htl Hby].
  assert (queue_bytes (m :: q) = be_push 4 (zlen m) ++ m ++ queue_bytes q) as Hq.
  { rewrite queue_bytes_cons. unfold record_bytes. by rewrite <- app_assoc. }
  rewrite Hq, !length_app, length_be_push in Hby.
  rewrite (load_bytes_app _ _ _ 4), (load_bytes_app _ _ _ (length m)) in Hby.
  apply app_inj_1 in Hby as [H1 Hby]; [|by rewrite length_load_bytes, length_be_push].
  apply app_inj_1 in Hby as [H2 H3]; [|by rewrite length_load_bytes].
  split; [done|]. split; [done|]. rewrite <- H3 at 2. f_equal.
Qed.

Lemma rep_pop_message rb m q : ring_rep rb (m :: q) -> zlen m <= kMaxPayloadSize ->
  exists rb', Pop rb = (Some m, rb') /\ ring_rep rb' q /\ capacity_ rb' = capacity_ rb.
Proof.
  intros Hrep Hmax. pose proof (rep_empty _ _ Hrep) as He.
  destruct (rep_head_record _ _ _ Hrep) as (Hhd & Hbody & Hrest).
  pose proof (rep_msgs _ _ Hrep) as Hm. apply Forall_cons in Hm as [[Hm1 Hm2] Hq].
  unfold Empty in He. rewrite bool_decide_false in He by done.
  unfold Pop. rewrite He, Hhd. rewrite be_read_push by lia.
  destruct ((zlen m =? 0) || (kMaxPayloadSize <? zlen m)) eqn:E; [reflect_bools; lia|].
  rewrite Nat2Z.id, Hbody. eexists; split; [done|]. split; [|done].
  by apply rep_advance.
Qed.

(** A message over the limit is never returned, and nothing moves. *)
Lemma rep_pop_oversize rb m q : ring_rep rb (m :: q) -> kMaxPayloadSize < zlen m ->
  Pop rb = (None, rb).
Proof.
  intros Hrep Hmax. pose proof (rep_empty _ _ Hrep) as He.
  destruct (rep_head_record _ _ _ Hrep) as (Hhd & _ & _).
  pose proof (rep_msgs _ _ Hrep) as Hm. apply Forall_cons in Hm as [[Hm1 Hm2] _].
  unfold Empty in He. rewrite bool_decide_false in He by done.
  unfold Pop. rewrite He, Hhd. rewrite be_read_push by lia.
  assert ((kMaxPayloadSize <? zlen m) = true) as -> by (apply Z.ltb_lt; lia).
  by rewrite orb_true_r.
Qed.

Lemma rep_pop_empty rb : ring_rep rb [] -> Pop rb = (None, rb).
Proof.
  intros Hrep. pose proof (rep_empty _ _ Hrep) as He. unfold Empty in He.
  rewrite bool_decide_true in He by done. unfold Pop. by rewrite He.
Qed.

#[export] Hint Resolve ring_rep_new rep_push_refused rep_pop_oversize rep_pop_empty : pmq.

(** [ring_rep] at a given usable capacity, the relation clients see. *)
Definition ring_represents (c : Z) (rb : SpscRingBuffer) (q : list (list byte)) : Prop :=
  capacity_ rb = c + 1 /\ ring_rep rb q.

Lemma represents_new c : 0 <= c -> 2 * (c + 1) <= 2 ^ 64 ->
  ring_represents c (SpscRingBuffer_new c) [].
Proof. split; [simpl; apply u64_id; lia|eauto with pmq]. Qed.

Lemma represents_push c rb q m : ring_represents c rb q -> zlen m < 2 ^ 32 ->
  exists rb', Push m rb = (fst (fifo_push c q m), rb') /\
    ring_represents c rb' (snd (fifo_push c q m)).
Proof.
  intros [Hc Hrep] Hm. unfold fifo_push. replace c with (capacity_ rb - 1) by lia.
  destruct (fits _ q m) eqn:Hf.
  - destruct (rep_push_fits _ _ _ Hrep Hm Hf) as (rb' & Hp & Hr & Hc').
    exists rb'. split; [done|]. split; simpl; [lia|done].
  - exists rb. split; [by apply rep_push_refused with q|]. split; simpl; [lia|done].
Qed.

Lemma represents_pop c rb q : ring_represents c rb q ->
  exists rb', Pop rb = (fst (fifo_pop q), rb') /\ ring_represents c rb' (snd (fifo_pop q)).
Proof.
  intros [Hc Hrep]. destruct q as [|m q]; simpl.
  - exists rb. split; [by apply rep_pop_empty|done].
  - destruct (zlen m <=? kMaxPayloadSize) eqn:E; reflect_bools; simpl.
    + destruct (rep_pop_message _ _ _ Hrep E) as (rb' & Hp & Hr & Hc').
      exists rb'. split; [done|]. split; [lia|done].
    + exists rb. split; [by eapply rep_pop_oversize|done].
Qed.

Lemma represents_fits c rb q : ring_represents c rb q -> queue_size q <= c.
Proof. intros [Hc Hrep]. pose proof (rep_size _ _ Hrep). lia. Qed.

Lemma length_queue_size q : Z.of_nat (length q) <= queue_size q.
Proof.
  induction q as [|m q IH]; [done|]. rewrite queue_size_cons. simpl. lia.
Qed.

Lemma represents_bound c rb q : ring_represents c rb q ->
  (length q <= Z.to_nat (GetReadableSize rb))%nat.
Proof.
  intros [_ Hrep]. rewrite (rep_used rb q) by done. pose proof (length_queue_size q). lia.
Qed.

#[export] Instance SpscRing_FifoBuffer : FifoBuffer SpscRingBuffer := {
  fb_new := SpscRingBuffer_new;
  fb_push := Push;
  fb_pop := Pop;
  fb_bound := λ rb, Z.to_nat (GetReadableSize rb);
  fb_rep := ring_represents;
  fb_new_rep := represents_new;
  fb_push_rep := represents_push;
  fb_pop_rep := represents_pop;
  fb_rep_fits := represents_fits;
  fb_bound_rep := represents_bound;
}.

(** ** Runs of operations *)

Inductive ring_op := OpPush (m : list byte) | OpPop.
Inductive ring_result := RPush (ok : bool) | RPop (r : option (list byte)).

#[export] Instance ring_result_eq_dec : EqDecision ring_result.
Proof. solve_decision. Defined.

(** The results a client sees when it runs [ops] on the ring. *)
Fixpoint ring_run (rb : SpscRingBuffer) (ops : list ring_op) : list ring_result :=
  match ops with
  | [] => []
  | OpPush m :: ops => let '(b, rb') := Push m rb in RPush b :: ring_run rb' ops
  | OpPop :: ops => let '(r, rb') := Pop rb in RPop r :: ring_run rb' ops
  end.

(** The same run on the abstract queue. *)
Fixpoint fifo_run (c : Z) (q : list (list byte)) (ops : list ring_op) : list ring_result :=
  match ops with
  | [] => []
  | OpPush m :: ops => let '(b, q') := fifo_push c q m in RPush b :: fifo_run c q' ops
  | OpPop :: ops => let '(r, q') := fifo_pop q in RPop r :: fifo_run c q' ops
  end.

(** The length header is a 32-bit integer. *)
Definition op_ok (op : ring_op) : Prop :=
  match op with OpPush m => zlen m < 2 ^ 32 | OpPop => True end.

#[export] Instance op_ok_dec op : Decision (op_ok op).
Proof. destruct op; simpl; apply _. Defined.

Lemma represents_run c rb q ops : ring_represents c rb q -> Forall op_ok ops ->
  ring_run rb ops = fifo_run c q ops.
Proof.
  revert rb q. induction ops as [|[m|] ops IH]; intros rb q Hr Hok; simpl; [done|..];
    apply Forall_cons in Hok as [Hop Hok].
  - destruct (represents_push _ _ _ m Hr Hop) as (rb' & -> & Hr').
    destruct (fifo_push c q m) as [b q']. f_equal. by apply IH.
  - destruct (represents_pop _ _ _ Hr) as (rb' & -> & Hr').
    destruct (fifo_pop q) as [r q']. f_equal. by apply IH.
Qed.

(** C1: on every sequence of operations, a fresh ring buffer of [c] usable
    bytes returns exactly what a bounded FIFO queue of messages returns: no
    message is lost, duplicated, reordered or altered, whatever the
    wrap-arounds, and a push is refused exactly when the bytes do not fit. *)
Theorem ring_refines_fifo c ops :
  0 <= c -> 2 * (c + 1) <= 2 ^ 64 -> Forall op_ok ops ->
  ring_run (SpscRingBuffer_new c) ops = fifo_run c [] ops.
Proof. intros. apply represents_run; [by apply represents_new|done]. Qed.

Definition sample_ops : list ring_op :=
  [OpPush [Byte.x01; Byte.x02]; OpPush [Byte.x03; Byte.x04]; OpPush [Byte.x05]; OpPop;
   OpPush [Byte.x06; Byte.x07; Byte.x08]; OpPop; OpPop; OpPop].

Lemma ring_refines_fifo_witness :
  ring_run (SpscRingBuffer_new 13) sample_ops = fifo_run 13 [] sample_ops /\
  fifo_run 13 [] sample_ops =
    [RPush true; RPush true; RPush false; RPop (Some [Byte.x01; Byte.x02]); RPush true;
     RPop (Some [Byte.x03; Byte.x04]); RPop (Some [Byte.x06; Byte.x07; Byte.x08]); RPop None].
Proof.
  split; [|reflexivity].
  apply ring_refines_fifo; [lia|lia|]. by apply (bool_decide_unpack _); vm_compute.
Defined.

(** The size queries report the represented queue: [Size] is the number of
    bytes the stored records take, [GetWritableSize] the rest of the usable
    capacity, [Empty] and [Full] the two extremes. *)
Theorem ring_observers rb q :
  ring_rep rb q ->
  Size rb = queue_size q /\
  GetWritableSize rb = capacity_ rb - 1 - queue_size q /\
  (Empty rb = true <-> q = []) /\
  (Full rb = true <-> queue_size q = capacity_ rb - 1).
Proof.
  intros Hrep. pose proof (rep_used _ _ Hrep) as Hu. pose proof (rep_writable _ _ Hrep) as Hw.
  split; [done|]. split; [done|]. split.
  - rewrite (rep_empty _ _ Hrep). apply bool_decide_eq_true.
  - destruct Hrep as [[[Hc H64] Hb Hh Ht] Hm Hs Htl Hby].
    unfold Full, GetReadableSize in *. rewrite Z.eqb_eq. clear Hw.
    rewrite u64_id in Hu by lia. rewrite u64_id by lia.
    pose proof (Z.div_mod (tail_ rb + capacity_ rb - head_ rb) (capacity_ rb) ltac:(lia)).
    pose proof (Z.div_mod (tail_ rb + 1) (capacity_ rb) ltac:(lia)).
    pose proof (Z.mod_pos_bound (tail_ rb + 1) (capacity_ rb) ltac:(lia)).
    pose proof (Z.mod_pos_bound (tail_ rb + capacity_ rb - head_ rb) (capacity_ rb) ltac:(lia)).
    assert (forall x, 0 <= x < 2 * capacity_ rb ->
      x / capacity_ rb = 0 \/ x / capacity_ rb = 1) as Hdiv.
    { intros x Hx. assert (0 <= x / capacity_ rb < 2); [|lia].
      split; [apply Z.div_pos|apply Z.div_lt_upper_bound]; lia. }
    destruct (Hdiv (tail_ rb + 1)) as [E1|E1]; [lia|..];
    destruct (Hdiv (tail_ rb + capacity_ rb - head_ rb)) as [E2|E2]; try lia;
    rewrite E1 in *; rewrite E2 in *; split; intros; lia.
Qed.

Lemma ring_observers_witness :
  Size (SpscRingBuffer_new 8) = queue_size [] /\ Full (SpscRingBuffer_new 0) = true.
Proof.
  split.
  - apply (ring_observers (SpscRingBuffer_new 8) []). apply ring_rep_new; lia.
  - apply (ring_observers (SpscRingBuffer_new 0) []); [apply ring_rep_new; lia|reflexivity].
Defined.

Definition pops_nothing (r : ring_result) : Prop :=
  match r with RPop (Some _) => False | _ => True end.

Lemma fifo_blocked c m q ops : kMaxPayloadSize < zlen m ->
  Forall pops_nothing (fifo_run c (m :: q) ops).
Proof.
  intros Hm. revert q. induction ops as [|[m'|] ops IH]; intros q; simpl; [constructor|..].
  - unfold fifo_push. destruct (fits c (m :: q) m'); simpl; constructor; try done; apply IH.
  - assert ((zlen m <=? kMaxPayloadSize) = false) as -> by (apply Z.leb_gt; lia).
    constructor; [done|apply IH].
Qed.

(** [Push] takes messages that [Pop] never gives back: once a message of
    more than [kMaxPayloadSize] bytes is the oldest of the buffer, no later
    operation ever returns a message again. *)
Theorem ring_oversize_blocks c rb m q ops :
  ring_represents c rb (m :: q) -> kMaxPayloadSize < zlen m -> Forall op_ok ops ->
  Forall pops_nothing (ring_run rb ops).
Proof. intros Hr Hm Hok. rewrite (represents_run c rb (m :: q)) by done. by apply fifo_blocked. Qed.

Lemma oversize_message_exists : exists m : list byte, zlen m = kMaxPayloadSize + 1.
Proof.
  exists (replicate (Z.to_nat (kMaxPayloadSize + 1)) Byte.x00).
  rewrite length_replicate. unfold kMaxPayloadSize. lia.
Qed.

Lemma ring_oversize_blocks_witness :
  exists m rb, zlen m = kMaxPayloadSize + 1 /\
    Push m (SpscRingBuffer_new (2 ^ 25)) = (true, rb) /\
    Forall pops_nothing (ring_run rb [OpPop; OpPush [Byte.x01]; OpPop]).
Proof.
  destruct oversize_message_exists as [m Hlen].
  destruct (represents_push (2 ^ 25) (SpscRingBuffer_new (2 ^ 25)) [] m)
    as (rb' & Hp & Hr).
  { apply represents_new; lia. }
  { rewrite Hlen. unfold kMaxPayloadSize. lia. }
  assert (fits (2 ^ 25) [] m = true) as Hfit.
  { unfold fits. rewrite Hlen. apply andb_true_iff.
    change (queue_size []) with 0. split; apply Z.leb_le; unfold kMaxPayloadSize; lia. }
  unfold fifo_push in Hp, Hr. rewrite Hfit in Hp, Hr.
  exists m, rb'. split; [exact Hlen|]. split; [exact Hp|].
  apply (ring_oversize_blocks (2 ^ 25) rb' m []);
    [exact Hr|rewrite Hlen; unfold kMaxPayloadSize; lia|by repeat constructor].
Defined.
