(* ===== verification/RingConcurrent.v ===== *)
(** * The ring buffer under two threads

    [ring_buffer/spsc_ring_buffer.cpp] runs [Push] in one thread and [Pop] in
    another with no lock.  Here each atomic load, each atomic store and each
    access to one byte of [buffer_] is a step of its own, and the steps of the
    two threads interleave freely.  Every operation emits its result at one
    step (its linearization point: the index load that decides a failure, the
    index store of a success).  The accesses of [buffer_] are shown free of
    races, which is what lets the release/acquire pairs of the code give the
    sequentially consistent interleavings modelled here. *)

From S2P Require Import Prelude Types RingBuffer.

(** Where the producer stands in [Push(m)]. *)
Inductive producer_pc :=
  | PIdle
  | PTail (m : list byte) (tail : Z)            (** [tail_] loaded *)
  | PWrite (m : list byte) (tail : Z) (k : nat). (** space found, [k] bytes written *)

(** Where the consumer stands in [Pop()]. *)
Inductive consumer_pc :=
  | CIdle
  | CHead (head : Z)                              (** [head_] loaded *)
  | CHeader (head : Z) (acc : list byte)          (** reading the length *)
  | CData (head : Z) (len : Z) (acc : list byte). (** reading the payload *)

Record spsc := mkSpsc {
  shared : SpscRingBuffer;
  prod : producer_pc;
  cons : consumer_pc;
}.

Inductive event := EPush (m : list byte) (ok : bool) | EPop (r : option (list byte)).

Definition set_tail (rb : SpscRingBuffer) (t : Z) : SpscRingBuffer :=
  mkRing (capacity_ rb) (buffer_ rb) (head_ rb) t.
Definition set_head (rb : SpscRingBuffer) (h : Z) : SpscRingBuffer :=
  mkRing (capacity_ rb) (buffer_ rb) h (tail_ rb).
Definition set_byte (rb : SpscRingBuffer) (i : nat) (b : byte) : SpscRingBuffer :=
  mkRing (capacity_ rb) (<[i := b]> (buffer_ rb)) (head_ rb) (tail_ rb).

(** The bytes a [Push(m)] writes from [tail] on, header first. *)
Definition push_bytes (m : list byte) : list byte := len_header (u32 (zlen m)) ++ m.

(** The entry test of [Push] and its space test. *)
Definition push_rejects (cap : Z) (m : list byte) : bool :=
  (zlen m =? 0) || (u64 (cap - 1) <? zlen m).
Definition push_no_space (cap head tail : Z) (m : list byte) : bool :=
  u64 (head + cap - tail - 1) mod cap <? u64 (4 + zlen m).
(** The corruption test of [Pop]. *)
Definition pop_rejects (len : Z) : bool := (len =? 0) || (kMaxPayloadSize <? len).

(** One step of the producer, with the result it emits. *)
Inductive producer_step : spsc -> option event -> spsc -> Prop :=
  | P_reject rb c m :
      zlen m < 2 ^ 32 -> push_rejects (capacity_ rb) m = true ->
      producer_step (mkSpsc rb PIdle c) (Some (EPush m false)) (mkSpsc rb PIdle c)
  | P_load_tail rb c m :
      zlen m < 2 ^ 32 -> push_rejects (capacity_ rb) m = false ->
      producer_step (mkSpsc rb PIdle c) None (mkSpsc rb (PTail m (tail_ rb)) c)
  | P_load_head_full rb c m tail :
      push_no_space (capacity_ rb) (head_ rb) tail m = true ->
      producer_step (mkSpsc rb (PTail m tail) c) (Some (EPush m false)) (mkSpsc rb PIdle c)
  | P_load_head rb c m tail :
      push_no_space (capacity_ rb) (head_ rb) tail m = false ->
      producer_step (mkSpsc rb (PTail m tail) c) None (mkSpsc rb (PWrite m tail 0) c)
  | P_write rb c m tail k b :
      push_bytes m !! k = Some b ->
      producer_step (mkSpsc rb (PWrite m tail k) c) None
        (mkSpsc (set_byte rb (slot (capacity_ rb) tail (Z.of_nat k)) b) (PWrite m tail (S k)) c)
  | P_publish rb c m tail k :
      k = length (push_bytes m) ->
      producer_step (mkSpsc rb (PWrite m tail k) c) (Some (EPush m true))
        (mkSpsc (set_tail rb (u64 (tail + u64 (4 + zlen m)) mod capacity_ rb)) PIdle c).

Inductive consumer_step : spsc -> option event -> spsc -> Prop :=
  | C_load_head rb p :
      consumer_step (mkSpsc rb p CIdle) None (mkSpsc rb p (CHead (head_ rb)))
  | C_load_tail_empty rb p head :
      head = tail_ rb ->
      consumer_step (mkSpsc rb p (CHead head)) (Some (EPop None)) (mkSpsc rb p CIdle)
  | C_load_tail rb p head :
      head <> tail_ rb ->
      consumer_step (mkSpsc rb p (CHead head)) None (mkSpsc rb p (CHeader head []))
  | C_read_header rb p head acc :
      (length acc < 4)%nat ->
      consumer_step (mkSpsc rb p (CHeader head acc)) None
        (mkSpsc rb p (CHeader head
          (acc ++ [buffer_ rb !!! slot (capacity_ rb) head (zlen acc)])))
  | C_corrupt rb p head acc :
      length acc = 4%nat -> pop_rejects (be_read 32 acc) = true ->
      consumer_step (mkSpsc rb p (CHeader head acc)) (Some (EPop None)) (mkSpsc rb p CIdle)
  | C_length rb p head acc :
      length acc = 4%nat -> pop_rejects (be_read 32 acc) = false ->
      consumer_step (mkSpsc rb p (CHeader head acc)) None
        (mkSpsc rb p (CData head (be_read 32 acc) []))
  | C_read_data rb p head len acc :
      zlen acc < len ->
      consumer_step (mkSpsc rb p (CData head len acc)) None
        (mkSpsc rb p (CData head len
          (acc ++ [buffer_ rb !!! slot (capacity_ rb) head (4 + zlen acc)])))
  | C_publish rb p head len acc :
      zlen acc = len ->
      consumer_step (mkSpsc rb p (CData head len acc)) (Some (EPop (Some acc)))
        (mkSpsc (set_head rb (u64 (head + 4 + len) mod capacity_ rb)) p CIdle).

(** The two threads interleave. *)
Inductive spsc_step (s : spsc) (e : option event) (s' : spsc) : Prop :=
  | step_producer : producer_step s e s' -> spsc_step s e s'
  | step_consumer : consumer_step s e s' -> spsc_step s e s'.

(** Executions, with the events emitted in order. *)
Inductive spsc_exec (s : spsc) : list event -> spsc -> Prop :=
  | exec_nil : spsc_exec s [] s
  | exec_step evs s1 e s2 :
      spsc_exec s evs s1 -> spsc_step s1 e s2 ->
      spsc_exec s (evs ++ option_list e) s2.

Definition spsc_init (c : Z) : spsc := mkSpsc (SpscRingBuffer_new c) PIdle CIdle.

(** A history of results is legal when the FIFO gives the same results. *)
Definition fifo_event (c : Z) (e : event) (q : list (list byte)) : option (list (list byte)) :=
  match e with
  | EPush m ok => let '(ok', q') := fifo_push c q m in if Bool.eqb ok ok' then Some q' else None
  | EPop r => let '(r', q') := fifo_pop q in if decide (r = r') then Some q' else None
  end.

Definition fifo_history (c : Z) (evs : list event) : option (list (list byte)) :=
  foldl (λ oq e, q ← oq; fifo_event c e q) (Some []) evs.

(** ** The invariant, with the queue as ghost state *)

Definition producer_inv (rb : SpscRingBuffer) (q : list (list byte)) (p : producer_pc) : Prop :=
  match p with
  | PIdle => True
  | PTail m tail => tail = tail_ rb /\ msg_ok m
  | PWrite m tail k =>
      tail = tail_ rb /\ msg_ok m /\ (k <= length (record_bytes m))%nat /\
      queue_size q + 4 + zlen m <= capacity_ rb - 1 /\
      load_bytes (capacity_ rb) tail 0 k (buffer_ rb) = take k (record_bytes m)
  end.

Definition consumer_inv (rb : SpscRingBuffer) (q : list (list byte)) (c : consumer_pc) : Prop :=
  match c with
  | CIdle => True
  | CHead head => head = head_ rb
  | CHeader head acc =>
      head = head_ rb /\ exists m q', q = m :: q' /\ acc = take (length acc) (be_push 4 (zlen m))
  | CData head len acc =>
      head = head_ rb /\ exists m q', q = m :: q' /\ len = zlen m /\
      acc = take (length acc) m /\ zlen m <= kMaxPayloadSize
  end.

Record spsc_inv (c : Z) (s : spsc) (q : list (list byte)) : Prop := {
  inv_cap : capacity_ (shared s) = c + 1;
  inv_rep : ring_rep (shared s) q;
  inv_prod : producer_inv (shared s) q (prod s);
  inv_cons : consumer_inv (shared s) q (cons s);
}.

#[local] Arguments push_bytes : simpl never.
#[local] Arguments load_bytes : simpl never.
#[local] Arguments take : simpl never.

(** ** Preservation *)

Lemma load_bytes_lookup cap pos i n k buf : (k < n)%nat ->
  load_bytes cap pos i n buf !! k = Some (buf !!! slot cap pos (i + Z.of_nat k)).
Proof.
  revert i k. induction n as [|n IH]; intros i k Hk; [lia|].
  change (load_bytes cap pos i (S n) buf)
    with (buf !!! slot cap pos i :: load_bytes cap pos (i + 1) n buf).
  destruct k as [|k]; simpl; [by rewrite Z.add_0_r|].
  rewrite IH by lia. do 3 f_equal. lia.
Qed.

(** The consumer's next byte extends the prefix it has read. *)
Lemma load_prefix_next cap pos i buf l acc :
  load_bytes cap pos i (length l) buf = l -> acc = take (length acc) l ->
  (length acc < length l)%nat ->
  acc ++ [buf !!! slot cap pos (i + zlen acc)] =
    take (length (acc ++ [buf !!! slot cap pos (i + zlen acc)])) l.
Proof.
  intros Hload Hacc Hlt. rewrite length_app, Nat.add_1_r.
  rewrite (take_S_r _ _ (buf !!! slot cap pos (i + zlen acc))); [by rewrite <- Hacc|].
  rewrite <- Hload at 1. by apply load_bytes_lookup.
Qed.

Lemma push_bytes_record m : msg_ok m -> push_bytes m = record_bytes m.
Proof.
  intros [? ?]. unfold push_bytes, record_bytes. by rewrite u32_id, len_header_push by lia.
Qed.

Lemma consumer_inv_push rb rb' q m cc :
  head_ rb' = head_ rb -> consumer_inv rb q cc -> consumer_inv rb' (q ++ [m]) cc.
Proof.
  intros Hh. destruct cc; simpl; rewrite ?Hh; [done|done|..].
  - intros (-> & m' & q' & -> & Hacc). split; [done|]. by exists m', (q' ++ [m]).
  - intros (-> & m' & q' & -> & Hrest). split; [done|]. by exists m', (q' ++ [m]).
Qed.

Lemma consumer_inv_same rb rb' q cc :
  head_ rb' = head_ rb -> consumer_inv rb q cc -> consumer_inv rb' q cc.
Proof. intros Hh. by destruct cc; simpl; rewrite ?Hh. Qed.

Lemma producer_inv_pop rb rb' m q p :
  capacity_ rb' = capacity_ rb -> tail_ rb' = tail_ rb -> buffer_ rb' = buffer_ rb ->
  producer_inv rb (m :: q) p -> producer_inv rb' q p.
Proof.
  intros Hc Ht Hb. destruct p; simpl; rewrite ?Hc, ?Ht, ?Hb; [done|done|].
  intros (-> & Hok & Hk & Hfit & Hload). rewrite queue_size_cons in Hfit.
  repeat split; try apply Hok; try done. lia.
Qed.

(** The producer's test of a full buffer is exact when it is made. *)
Lemma no_space_fits rb q m : ring_rep rb q -> msg_ok m ->
  push_no_space (capacity_ rb) (head_ rb) (tail_ rb) m = negb (fits (capacity_ rb - 1) q m).
Proof.
  intros Hrep [Hm1 Hm2]. pose proof (rep_writable _ _ Hrep) as Hw. unfold GetWritableSize in Hw.
  unfold push_no_space, fits. rewrite Hw, u64_id by lia.
  rewrite (proj2 (Z.leb_le 1 (zlen m))) by lia. simpl.
  rewrite <- Z.ltb_antisym. apply eq_true_iff_eq. rewrite !Z.ltb_lt. lia.
Qed.

Lemma rejects_fits rb q m : ring_rep rb q -> push_rejects (capacity_ rb) m = true ->
  fits (capacity_ rb - 1) q m = false.
Proof.
  intros [[[Hc H64] _ _ _] _ _ _ _] Hr. unfold push_rejects in Hr. unfold fits.
  assert (0 <= queue_size q) by (unfold queue_size; lia).
  rewrite u64_id in Hr by lia. apply andb_false_iff. reflect_bools.
  destruct Hr; reflect_bools; [left|right]; apply Z.leb_gt; lia.
Qed.

(** Writing the next byte of the record. *)
Lemma write_byte_inv rb q m k b : ring_rep rb q ->
  producer_inv rb q (PWrite m (tail_ rb) k) -> record_bytes m !! k = Some b ->
  let rb' := set_byte rb (slot (capacity_ rb) (tail_ rb) (Z.of_nat k)) b in
  ring_rep rb' q /\ producer_inv rb' q (PWrite m (tail_ rb) (S k)).
Proof.
  intros Hrep (_ & Hok & Hk & Hfit & Hload) Hb rb'.
  pose proof (length_record_bytes m) as Hlr. apply lookup_lt_Some in Hb as Hkl.
  pose proof Hrep as [[[Hc H64] Hbuf Hh Ht] _ _ _ _].
  assert (0 <= queue_size q) by (unfold queue_size; lia).
  split; [apply (rep_write_free rb q (Z.of_nat k) [b] Hrep); simpl; lia|].
  split; [done|]. split; [done|]. split; [lia|]. split; [done|].
  unfold rb', set_byte. cbn [capacity_ buffer_ tail_].
  replace (S k) with (k + 1)%nat by lia.
  rewrite load_bytes_app, load_insert_ne by lia. rewrite Hload.
  replace (k + 1)%nat with (S k) by lia. rewrite (take_S_r _ _ b) by done. f_equal.
  cbv [load_bytes]. f_equal. rewrite Z.add_0_l. apply list_lookup_total_insert_eq.
  pose proof (slot_lt (capacity_ rb) Hc H64 (tail_ rb) (Z.of_nat k)). lia.
Qed.

(** What an event does to the ghost queue. *)
Definition ghost_step (c : Z) (e : option event) (q q' : list (list byte)) : Prop :=
  match e with None => q' = q | Some ev => fifo_event c ev q = Some q' end.

Lemma producer_step_inv c s e s' q : spsc_inv c s q -> producer_step s e s' ->
  exists q', ghost_step c e q q' /\ spsc_inv c s' q'.
Proof.
  intros [Hcap Hrep Hp Hcs] Hstep. destruct Hstep; simpl in *;
    replace c with (capacity_ rb - 1) in * by lia.
  - exists q. split; [|done]. unfold fifo_push. by erewrite rejects_fits.
  - exists q. split; [done|]. split; simpl; try done. split; [done|].
    unfold push_rejects in *. reflect_bools. unfold msg_ok. lia.
  - destruct Hp as [-> Hok]. rewrite (no_space_fits _ q) in H by done.
    apply negb_true_iff in H.
    exists q. split; [|done]. unfold fifo_push. by rewrite H.
  - destruct Hp as [-> Hok]. rewrite (no_space_fits _ q) in H by done.
    apply negb_false_iff in H.
    exists q. split; [done|]. split; simpl; try done.
    unfold fits in H. reflect_bools. destruct Hok. repeat split; try done; lia.
  - pose proof Hp as (-> & Hok & _). rewrite push_bytes_record in H by done.
    destruct (write_byte_inv rb q m k b Hrep Hp H) as [Hrep' Hp'].
    exists q. split; [done|]. by split.
  - destruct Hp as (-> & Hok & Hk & Hfit & Hload).
    pose proof (length_record_bytes m).
    replace k with (length (record_bytes m)) in Hload by lia.
    rewrite take_ge in Hload by done.
    pose proof Hrep as [[[Hc H64] _ _ Ht] _ _ _ _]. pose proof Hok as [Hm1 Hm2].
    assert (0 <= queue_size q) by (unfold queue_size; lia).
    exists (q ++ [m]). rewrite (u64_id (4 + zlen m)), u64_id by lia. split.
    + unfold fifo_push, fits.
      rewrite (proj2 (Z.leb_le 1 (zlen m))), (proj2 (Z.leb_le _ (capacity_ rb - 1))) by lia.
      done.
    + split; simpl; try done; [|by apply consumer_inv_push with rb].
      by apply (rep_extend rb q m Hrep Hok).
Qed.

Lemma consumer_step_inv c s e s' q : spsc_inv c s q -> consumer_step s e s' ->
  exists q', ghost_step c e q q' /\ spsc_inv c s' q'.
Proof.
  intros [Hcap Hrep Hp Hcs] Hstep. destruct Hstep; simpl in *;
    try (exists q; split; [done|split; done]).
  - subst head. pose proof (rep_empty _ _ Hrep) as He. unfold Empty in He.
    rewrite H, Z.eqb_refl in He. symmetry in He. apply bool_decide_eq_true in He as ->.
    exists []. done.
  - subst head. pose proof (rep_empty _ _ Hrep) as He. unfold Empty in He.
    apply Z.eqb_neq in H. rewrite H in He. symmetry in He. apply bool_decide_eq_false in He.
    destruct q as [|m q]; [done|]. exists (m :: q). split; [done|]. split; try done.
    split; [done|]. by exists m, q.
  - destruct Hcs as (-> & m & q' & -> & Hacc). exists (m :: q'). split; [done|].
    split; try done. split; [done|]. exists m, q'. split; [done|].
    destruct (rep_head_record _ _ _ Hrep) as (Hhd & _ & _).
    apply (load_prefix_next _ _ 0); rewrite ?length_be_push; done.
  - destruct Hcs as (-> & m & q' & -> & Hacc). exists (m :: q'). split; [|done].
    rewrite H, take_ge in Hacc by (by rewrite length_be_push). subst acc.
    pose proof (rep_msgs _ _ Hrep) as Hm. apply Forall_cons in Hm as [[Hm1 Hm2] _].
    unfold pop_rejects in H0. rewrite be_read_push in H0 by lia. simpl.
    reflect_bools. destruct H0; reflect_bools; [lia|].
    by rewrite (proj2 (Z.leb_gt _ _)).
  - destruct Hcs as (-> & m & q' & -> & Hacc). exists (m :: q'). split; [done|].
    rewrite H, take_ge in Hacc by (by rewrite length_be_push). subst acc.
    pose proof (rep_msgs _ _ Hrep) as Hm. apply Forall_cons in Hm as [[Hm1 Hm2] _].
    rewrite be_read_push in * by lia. unfold pop_rejects in H0. reflect_bools.
    split; try done. split; [done|]. by exists m, q'.
  - destruct Hcs as (-> & m & q' & -> & -> & Hacc & Hmax). exists (m :: q'). split; [done|].
    split; try done. split; [done|]. exists m, q'. split; [done|]. split; [done|]. split; [|done].
    destruct (rep_head_record _ _ _ Hrep) as (_ & Hbody & _).
    apply (load_prefix_next _ _ 4); try done. lia.
  - destruct Hcs as (-> & m & q' & -> & Hlen & Hacc & Hmax).
    rewrite take_ge in Hacc by lia. subst acc len. exists q'. split.
    + simpl. rewrite (proj2 (Z.leb_le _ _)) by done. by rewrite decide_True.
    + destruct (rep_head_record _ _ _ Hrep) as (_ & _ & Hrest).
      split; simpl; try done; [by apply (rep_advance rb m)|by apply (producer_inv_pop rb _ m)].
Qed.

Lemma spsc_step_inv c s e s' q : spsc_inv c s q -> spsc_step s e s' ->
  exists q', ghost_step c e q q' /\ spsc_inv c s' q'.
Proof. intros Hinv []; eauto using producer_step_inv, consumer_step_inv. Qed.

Lemma spsc_init_inv c : 0 <= c -> 2 * (c + 1) <= 2 ^ 64 -> spsc_inv c (spsc_init c) [].
Proof. intros. split; simpl; [by rewrite u64_id by lia|by apply ring_rep_new|done|done]. Qed.

Lemma spsc_exec_inv c evs s : 0 <= c -> 2 * (c + 1) <= 2 ^ 64 -> spsc_exec (spsc_init c) evs s ->
  exists q, fifo_history c evs = Some q /\ spsc_inv c s q.
Proof.
  intros Hc H64. induction 1 as [|evs s1 e s2 _ (q & Hq & Hinv) Hstep].
  - exists []. split; [done|]. by apply spsc_init_inv.
  - destruct (spsc_step_inv _ _ _ _ _ Hinv Hstep) as (q' & Hg & Hinv').
    exists q'. split; [|done]. unfold fifo_history in *. rewrite foldl_app, Hq.
    destruct e; simpl in *; [done|by subst].
Qed.

(** Where the two threads touch [buffer_] next. *)
Definition producer_writes (s : spsc) : option nat :=
  match prod s with
  | PWrite m tail k =>
      if decide (k < length (push_bytes m))%nat
      then Some (slot (capacity_ (shared s)) tail (Z.of_nat k)) else None
  | _ => None
  end.

Definition consumer_reads (s : spsc) : option nat :=
  match cons s with
  | CHeader head acc =>
      if decide (length acc < 4)%nat
      then Some (slot (capacity_ (shared s)) head (zlen acc)) else None
  | CData head len acc =>
      if decide (zlen acc < len)
      then Some (slot (capacity_ (shared s)) head (4 + zlen acc)) else None
  | _ => None
  end.

Lemma inv_writes_free c s q i : spsc_inv c s q -> producer_writes s = Some i ->
  exists j, queue_size q <= j < capacity_ (shared s) /\
    i = slot (capacity_ (shared s)) (head_ (shared s)) j.
Proof.
  intros [Hcap Hrep Hp _] Hw. unfold producer_writes in Hw.
  destruct (prod s) as [| |m tail k]; try done. case_decide as Hk; [|done]. simplify_eq.
  destruct Hp as (-> & Hok & _ & Hfit & _). rewrite push_bytes_record in Hk by done.
  pose proof (length_record_bytes m). destruct Hrep as [[[Hc H64] _ Hh _] _ _ Htl _].
  assert (0 <= queue_size q) by (unfold queue_size; lia).
  exists (queue_size q + Z.of_nat k). split; [lia|].
  rewrite Htl. apply slot_shift; lia.
Qed.

Lemma inv_reads_used c s q i : spsc_inv c s q -> consumer_reads s = Some i ->
  exists j, 0 <= j < queue_size q /\ i = slot (capacity_ (shared s)) (head_ (shared s)) j.
Proof.
  intros [Hcap Hrep _ Hcs] Hr. unfold consumer_reads in Hr.
  destruct (cons s) as [| |head acc|head len acc]; try done; case_decide as Hk; try done;
    simplify_eq.
  - destruct Hcs as (-> & m & q' & -> & _). rewrite queue_size_cons.
    assert (0 <= queue_size q') by (unfold queue_size; lia).
    exists (zlen acc). split; [lia|done].
  - destruct Hcs as (-> & m & q' & -> & -> & _). rewrite queue_size_cons.
    assert (0 <= queue_size q') by (unfold queue_size; lia).
    exists (4 + zlen acc). split; [lia|done].
Qed.

(** C2: linearizability.  In every interleaving of a producer and a consumer
    on a fresh ring buffer, the results of the operations, in the order of
    their linearization points, are the results of the bounded FIFO queue. *)
Theorem spsc_linearizable c evs s :
  0 <= c -> 2 * (c + 1) <= 2 ^ 64 -> spsc_exec (spsc_init c) evs s ->
  is_Some (fifo_history c evs).
Proof. intros. destruct (spsc_exec_inv c evs s) as (q & -> & _); by try eexists. Qed.

(** C3: race freedom.  In no reachable state do the producer's next write and
    the consumer's next read touch the same byte of [buffer_]. *)
Theorem spsc_race_free c evs s i j :
  0 <= c -> 2 * (c + 1) <= 2 ^ 64 -> spsc_exec (spsc_init c) evs s ->
  producer_writes s = Some i -> consumer_reads s = Some j -> i <> j.
Proof.
  intros Hc H64 Hex Hw Hr. destruct (spsc_exec_inv c evs s) as (q & _ & Hinv); [done..|].
  destruct (inv_writes_free _ _ _ _ Hinv Hw) as (a & Ha & ->).
  destruct (inv_reads_used _ _ _ _ Hinv Hr) as (b & Hb & ->).
  destruct Hinv as [Hcap [[[? ?] _ Hh _] _ _ _ _] _ _].
  apply not_eq_sym, slot_ne; lia.
Qed.

(** The steps a thread has left, at most, in its current operation. *)
Definition producer_left (s : spsc) : nat :=
  match prod s with
  | PIdle => 0
  | PTail m _ => S (S (length (push_bytes m)))
  | PWrite m _ k => S (length (push_bytes m) - k)
  end.

Definition consumer_left (s : spsc) : nat :=
  match cons s with
  | CIdle => 0
  | CHead _ => Z.to_nat kMaxPayloadSize + 8
  | CHeader _ acc => Z.to_nat kMaxPayloadSize + 7 - length acc
  | CData _ len acc => S (Z.to_nat len - length acc)
  end.

Lemma producer_progress c s q : spsc_inv c s q -> prod s <> PIdle ->
  exists e s', producer_step s e s' /\ (producer_left s' < producer_left s)%nat.
Proof.
  intros [Hcap Hrep Hp _] Hidle. unfold producer_left.
  destruct s as [rb [|m tail|m tail k] cc]; cbn [prod shared] in *; [done|..].
  - destruct (push_no_space (capacity_ rb) (head_ rb) tail m) eqn:E; do 2 eexists;
      (split; [by econstructor|]); cbn [prod]; lia.
  - destruct Hp as (-> & Hok & Hk & _).
    destruct (decide (k < length (push_bytes m))%nat) as [Hlt|].
    + destruct (lookup_lt_is_Some_2 _ _ Hlt) as [b Hb]. do 2 eexists.
      split; [by apply P_write|]. cbn [prod]. lia.
    + rewrite <- push_bytes_record in Hk by done. do 2 eexists.
      split; [apply P_publish; lia|]. cbn [prod]. lia.
Qed.

Lemma consumer_progress c s q : spsc_inv c s q -> cons s <> CIdle ->
  exists e s', consumer_step s e s' /\ (consumer_left s' < consumer_left s)%nat.
Proof.
  intros [Hcap Hrep _ Hcs] Hidle. unfold consumer_left.
  destruct s as [rb p [|head|head acc|head len acc]]; cbn [cons shared] in *; [done|..].
  - destruct (decide (head = tail_ rb)); do 2 eexists; (split; [by econstructor|]);
      cbn [cons length]; lia.
  - destruct Hcs as (_ & m & q' & _ & Hacc). apply (f_equal length) in Hacc.
    rewrite length_take, length_be_push in Hacc.
    destruct (decide (length acc < 4)%nat).
    + do 2 eexists. split; [by econstructor|]. cbn [cons]. rewrite length_app. cbn [length]. lia.
    + destruct (pop_rejects (be_read 32 acc)) eqn:E; do 2 eexists;
        (split; [econstructor; [lia|done]|]); cbn [cons length]; [lia|].
      unfold pop_rejects in E. reflect_bools. lia.
  - destruct Hcs as (_ & m & q' & _ & -> & Hacc & Hmax).
    apply (f_equal length) in Hacc. rewrite length_take in Hacc.
    destruct (decide (zlen acc < zlen m)).
    + do 2 eexists. split; [by econstructor|]. cbn [cons]. rewrite length_app. cbn [length]. lia.
    + do 2 eexists. split; [econstructor; lia|]. cbn [cons]. lia.
Qed.

(** C4: wait-freedom.  A thread inside an operation can always take its next
    step, whatever the other thread does, and each step brings it closer to
    the end of the operation. *)
Theorem spsc_wait_free c evs s :
  0 <= c -> 2 * (c + 1) <= 2 ^ 64 -> spsc_exec (spsc_init c) evs s ->
  (prod s <> PIdle ->
    exists e s', producer_step s e s' /\ (producer_left s' < producer_left s)%nat) /\
  (cons s <> CIdle ->
    exists e s', consumer_step s e s' /\ (consumer_left s' < consumer_left s)%nat).
Proof.
  intros Hc H64 Hex. destruct (spsc_exec_inv c evs s) as (q & _ & Hinv); [done..|].
  split; eauto using producer_progress, consumer_progress.
Qed.

(** ** A concrete interleaving, for the witnesses: the first message is
    published, the consumer reads its length while the producer writes the
    second. *)

Ltac producer_does H c := eapply exec_step in H; [|apply step_producer, c; vm_compute; done].
Ltac consumer_does H c := eapply exec_step in H; [|apply step_consumer, c; vm_compute; done].

Lemma busy_ring : exists s, spsc_exec (spsc_init 12) [EPush [Byte.x01] true] s /\
  producer_writes s = Some 5%nat /\ consumer_reads s = Some 0%nat.
Proof.
  pose proof (exec_nil (spsc_init 12)) as H.
  producer_does H (P_load_tail (SpscRingBuffer_new 12) CIdle [Byte.x01]).
  producer_does H P_load_head.
  do 5 producer_does H P_write.
  producer_does H P_publish.
  producer_does H (λ rb c, P_load_tail rb c [Byte.x02]).
  consumer_does H C_load_head.
  producer_does H P_load_head.
  consumer_does H C_load_tail.
  eexists. split; [exact H|]. split; vm_compute; reflexivity.
Qed.

Lemma spsc_linearizable_witness :
  exists s, spsc_exec (spsc_init 12) [EPush [Byte.x01] true] s /\
    is_Some (fifo_history 12 [EPush [Byte.x01] true]).
Proof.
  destruct busy_ring as (s & Hs & _). exists s. split; [exact Hs|].
  apply (spsc_linearizable 12 _ s); [lia|lia|exact Hs].
Defined.

Lemma spsc_race_free_witness :
  exists s, producer_writes s = Some 5%nat /\ consumer_reads s = Some 0%nat /\ 5%nat <> 0%nat.
Proof.
  destruct busy_ring as (s & Hs & Hw & Hr). exists s. split; [exact Hw|]. split; [exact Hr|].
  apply (spsc_race_free 12 [EPush [Byte.x01] true] s); [lia|lia|exact Hs|exact Hw|exact Hr].
Defined.

Lemma spsc_wait_free_witness :
  exists s e s', prod s <> PIdle /\ producer_step s e s' /\
    (producer_left s' < producer_left s)%nat.
Proof.
  destruct busy_ring as (s & Hs & Hw & Hr). exists s.
  assert (prod s <> PIdle) as Hp by (intros E; unfold producer_writes in Hw; by rewrite E in Hw).
  destruct (spsc_wait_free 12 [EPush [Byte.x01] true] s) as [Hwf _]; [lia|lia|exact Hs|].
  destruct (Hwf Hp) as (e & s' & Hstep & Hlt). exists e, s'.
  split; [exact Hp|]. split; [exact Hstep|exact Hlt].
Defined.
