(* ===== verification/Frame.v ===== *)
(** * The wire frame and its stateless codec:
    [protocol/frame_protocol.h], [protocol/frame_codec.{h,cpp}]

    A frame on the wire is a 10-byte header (magic, version, message type,
    payload length, big-endian) followed by the payload. *)

From S2P Require Import Prelude Types.

Definition kFrameMagic : Z := 0xDEADBEEF.
Definition kFrameVersion : byte := Byte.x01.
Definition kFrameHeaderSize : Z := 10.

(** [enum class FrameMessageType : uint8_t]: the underlying type is fixed, so
    every byte is a value of the type; the enumerators are constants. *)
Abbreviation FrameMessageType := byte (only parsing).
Module FrameType.
Definition Unknown : FrameMessageType := Byte.x00.
Definition Publish : FrameMessageType := Byte.x01.
Definition Subscribe : FrameMessageType := Byte.x02.
Definition Unsubscribe : FrameMessageType := Byte.x03.
Definition Pull : FrameMessageType := Byte.x04.
Definition Ack : FrameMessageType := Byte.x05.
Definition Response : FrameMessageType := Byte.x06.
Definition Push : FrameMessageType := Byte.x07.
Definition BatchPublish : FrameMessageType := Byte.x09.
Definition BatchPush : FrameMessageType := Byte.x0a.
Definition Ping : FrameMessageType := Byte.x0b.
Definition Pong : FrameMessageType := Byte.x0c.
Definition Admin : FrameMessageType := Byte.x0d.
End FrameType.

(** [struct Frame], with its default member initialisers in [Frame_default]. *)
Record Frame := mkFrame {
  magic : Z;
  version : byte;
  msg_type : FrameMessageType;
  frame_length : Z;
  frame_payload : list byte;
}.

Definition Frame_default : Frame := mkFrame kFrameMagic kFrameVersion FrameType.Unknown 0 [].

#[export] Instance Frame_eq_dec : EqDecision Frame.
Proof. solve_decision. Defined.

(** The bytes [(x >> 24) & 0xFF], ..., [x & 0xFF]. *)
Definition put_u32 (x : Z) : list byte :=
  [byte_of (Z.shiftr x 24); byte_of (Z.shiftr x 16); byte_of (Z.shiftr x 8); byte_of x].

(** [(b0 << 24) | (b1 << 16) | (b2 << 8) | b3] on [uint32_t] operands. *)
Definition get_u32 (b0 b1 b2 b3 : byte) : Z :=
  Z.lor (Z.lor (Z.lor (u32 (Z.shiftl (byte.unsigned b0) 24))
                      (u32 (Z.shiftl (byte.unsigned b1) 16)))
               (u32 (Z.shiftl (byte.unsigned b2) 8)))
        (byte.unsigned b3).

Definition Encode (frame : Frame) : list byte :=
  put_u32 (magic frame)
  ++ [version frame]
  ++ [msg_type frame]
  ++ put_u32 (u32 (zlen (frame_payload frame)))
  ++ frame_payload frame.

(** Writes [bs] from [offset] on: [buffer[offset++] = b]. *)
Fixpoint poke (buffer : list byte) (offset : nat) (bs : list byte) : list byte :=
  match bs with
  | [] => buffer
  | b :: bs => poke (<[offset := b]> buffer) (S offset) bs
  end.

(** The header into a caller's buffer of [buffer_size] bytes; the result is the
    number of bytes written. *)
Definition EncodeHeaderToBuffer (frame : Frame) (buffer : list byte) (buffer_size : Z)
    : Z * list byte :=
  if buffer_size <? kFrameHeaderSize then (0, buffer)
  else
    let buffer := poke buffer 0 (put_u32 (magic frame)) in
    let buffer := poke buffer 4 [version frame] in
    let buffer := poke buffer 5 [msg_type frame] in
    let buffer := poke buffer 6 (put_u32 (u32 (zlen (frame_payload frame)))) in
    (10, buffer).

(** [buffer[i]] for an index the code has checked. *)
Abbreviation at_index buffer i := ((buffer : list byte) !!! (i : nat)).

(** The length field, bytes 6 to 9. *)
Definition header_length (buffer : list byte) : Z :=
  get_u32 (at_index buffer 6) (at_index buffer 7) (at_index buffer 8) (at_index buffer 9).

(** The pair is the returned optional and [consumed_bytes]. *)
Definition TryDecode (buffer : list byte) : option Frame * Z :=
  if zlen buffer <? kFrameHeaderSize then (None, 0)
  else
    let mg := get_u32 (at_index buffer 0) (at_index buffer 1) (at_index buffer 2)
                      (at_index buffer 3) in
    if negb (mg =? kFrameMagic) then (None, 0)
    else
      let ver := at_index buffer 4 in
      if negb (bool_decide (ver = kFrameVersion)) then (None, 0)
      else
        let ty := at_index buffer 5 in
        let length := header_length buffer in
        if kMaxPayloadSize <? length then (None, 0)
        else if zlen buffer <? u64 (kFrameHeaderSize + length) then (None, 0)
        else
          (Some (mkFrame mg ver ty length (take (Z.to_nat length) (drop 10 buffer))),
           u64 (kFrameHeaderSize + length)).

Definition HasCompleteFrame (buffer : list byte) : bool :=
  if zlen buffer <? kFrameHeaderSize then false
  else u64 (kFrameHeaderSize + header_length buffer) <=? zlen buffer.

Definition PeekPayloadLength (buffer : list byte) : option Z :=
  if zlen buffer <? kFrameHeaderSize then None else Some (header_length buffer).

(** ** Lemmas *)

Lemma put_u32_push x : put_u32 x = be_push 4 x.
Proof.
  change (be_push 4 x) with [byte_of (Z.shiftr x 24); byte_of (Z.shiftr x 16);
    byte_of (Z.shiftr x 8); byte_of (Z.shiftr x 0)].
  rewrite (Z.shiftr_0_r x). reflexivity.
Qed.

Lemma get_u32_value a b c d : get_u32 a b c d = be_value [a; b; c; d].
Proof.
  rewrite be_value_4. unfold get_u32.
  pose proof (byte.unsigned_range a). pose proof (byte.unsigned_range b).
  pose proof (byte.unsigned_range c).
  rewrite !u32_id by (rewrite Z.shiftl_mul_pow2 by lia; lia). done.
Qed.

Lemma get_u32_range a b c d : 0 <= get_u32 a b c d < 2 ^ 32.
Proof. rewrite get_u32_value. apply be_value_range. Qed.

Lemma header_length_range buffer : 0 <= header_length buffer < 2 ^ 32.
Proof. unfold header_length. apply get_u32_range. Qed.

#[export] Hint Resolve get_u32_range header_length_range : pmq.

(** Ten header bytes laid out as a list. *)
Definition header_bytes (f : Frame) : list byte :=
  put_u32 (magic f) ++ [version f; msg_type f] ++ put_u32 (u32 (zlen (frame_payload f))).

Lemma Encode_header f : Encode f = header_bytes f ++ frame_payload f.
Proof. unfold Encode, header_bytes. by rewrite <- !app_assoc. Qed.

Lemma length_header_bytes f : length (header_bytes f) = 10%nat.
Proof. done. Qed.

Lemma length_Encode f : zlen (Encode f) = kFrameHeaderSize + zlen (frame_payload f).
Proof. rewrite Encode_header, length_app, length_header_bytes. unfold kFrameHeaderSize. lia. Qed.

(** Reading back the four bytes of a 32-bit integer. *)
Lemma get_put_u32 x l :
  0 <= x < 2 ^ 32 ->
  let bs := put_u32 x ++ l in
  get_u32 (at_index bs 0) (at_index bs 1) (at_index bs 2) (at_index bs 3) = x.
Proof.
  intros Hx. cbv zeta. rewrite get_u32_value.
  change (be_value (put_u32 x) = x).
  rewrite put_u32_push, be_value_push. by apply Z.mod_small.
Qed.

(** A frame the sender may put on the wire: the protocol's magic and version,
    and a payload the receiver accepts. *)
Definition sendable (f : Frame) : Prop :=
  magic f = kFrameMagic /\ version f = kFrameVersion /\
  zlen (frame_payload f) <= kMaxPayloadSize.

#[export] Instance sendable_dec f : Decision (sendable f).
Proof. unfold sendable. apply _. Defined.

(** What the receiver gets: the same frame with its [length] field filled in. *)
Definition received (f : Frame) : Frame :=
  mkFrame (magic f) (version f) (msg_type f) (zlen (frame_payload f)) (frame_payload f).

(** The fields of a header, whatever follows it. *)
Lemma header_fields f rest : sendable f ->
  let bs := header_bytes f ++ rest in
  get_u32 (at_index bs 0) (at_index bs 1) (at_index bs 2) (at_index bs 3) = kFrameMagic /\
  at_index bs 4 = kFrameVersion /\ at_index bs 5 = msg_type f /\
  header_length bs = zlen (frame_payload f).
Proof.
  intros (Hm & Hv & Hp). cbv zeta.
  assert (0 <= zlen (frame_payload f) < 2 ^ 32) by (unfold kMaxPayloadSize in Hp; lia).
  split; [|split; [done|split; [done|]]].
  - rewrite <- Hm. apply (get_put_u32 (magic f)). by rewrite Hm.
  - rewrite <- (u32_id (zlen (frame_payload f))) by done.
    exact (get_put_u32 (u32 (zlen (frame_payload f))) rest (u32_range _)).
Qed.

Lemma TryDecode_Encode f rest : sendable f ->
  TryDecode (Encode f ++ rest) = (Some (received f), zlen (Encode f)).
Proof.
  intros Hs. destruct (header_fields f (frame_payload f ++ rest) Hs) as (Hm & Hv & Ht & Hl).
  pose proof Hs as (Hm' & Hv' & Hp). unfold kMaxPayloadSize in Hp.
  rewrite length_Encode. rewrite Encode_header, <- app_assoc. unfold TryDecode.
  set (bs := header_bytes f ++ frame_payload f ++ rest) in *.
  assert (zlen bs = 10 + zlen (frame_payload f) + zlen rest) as Hlen
    by (unfold bs; rewrite !length_app, length_header_bytes; lia).
  rewrite Hm, Hv, Ht, Hl, Hlen. unfold kFrameHeaderSize, kMaxPayloadSize in *.
  rewrite u64_id by lia. rewrite bool_decide_true by done. simpl negb. cbv iota.
  rewrite (proj2 (Z.ltb_ge _ 10)), (proj2 (Z.ltb_ge (16 * 1024 * 1024) _)),
    (proj2 (Z.ltb_ge (10 + zlen (frame_payload f) + zlen rest) _)) by lia.
  f_equal. f_equal. unfold received. rewrite Hm', Hv', Nat2Z.id. f_equal.
  change (drop 10 bs) with (frame_payload f ++ rest).
  apply take_app_length.
Qed.

(** A list of at least ten bytes, by its header bytes. *)
Lemma header_cases (bs : list byte) : 10 <= zlen bs ->
  exists b0 b1 b2 b3 b4 b5 b6 b7 b8 b9 rest,
    bs = b0 :: b1 :: b2 :: b3 :: b4 :: b5 :: b6 :: b7 :: b8 :: b9 :: rest.
Proof.
  intros H. do 10 (destruct bs as [|? bs]; [simpl in H; lia|]). by repeat eexists.
Qed.

Lemma put_get_u32 a b c d : put_u32 (get_u32 a b c d) = [a; b; c; d].
Proof. rewrite get_u32_value, put_u32_push. apply (be_push_value [a; b; c; d]). Qed.

(** A decoded frame is what an encoder would have sent. *)
Lemma TryDecode_inv bs f n : TryDecode bs = (Some f, n) ->
  sendable f /\ received f = f /\ n = zlen (Encode f) /\ exists rest, bs = Encode f ++ rest.
Proof.
  unfold TryDecode. repeat (case_if; [done|]). intros [= <- <-]. reflect_bools.
  unfold kFrameHeaderSize in *.
  destruct (header_cases bs) as (b0&b1&b2&b3&b4&b5&b6&b7&b8&b9&rest&->); [lia|].
  set (len := header_length _) in *. pose proof (header_length_range
    (b0::b1::b2::b3::b4::b5::b6::b7::b8::b9::rest)) as Hr. fold len in Hr.
  rewrite u64_id in * by lia. cbn [length] in *.
  assert (zlen (take (Z.to_nat len) rest) = len) as Hpl by (rewrite length_take; lia).
  change (drop 10 _) with rest. unfold sendable, received. cbn [magic version frame_payload].
  split; [|split; [|split]].
  - rewrite Hpl. repeat split; try done; lia.
  - f_equal. done.
  - rewrite length_Encode. cbn [frame_payload]. rewrite Hpl. done.
  - exists (drop (Z.to_nat len) rest). unfold Encode.
    cbn [magic version msg_type frame_payload]. rewrite Hpl, u32_id by lia.
    unfold len, header_length. rewrite <- !app_assoc. fold len.
    cbn [lookup_total list_lookup_total]. rewrite !put_get_u32. simpl.
    rewrite take_drop. done.
Qed.

Lemma EncodeHeaderToBuffer_bytes f buffer :
  kFrameHeaderSize <= zlen buffer ->
  EncodeHeaderToBuffer f buffer (zlen buffer) = (10, header_bytes f ++ drop 10 buffer).
Proof.
  intros Hb. unfold EncodeHeaderToBuffer. rewrite (proj2 (Z.ltb_ge _ _)) by done. f_equal.
  destruct (header_cases buffer) as (b0&b1&b2&b3&b4&b5&b6&b7&b8&b9&rest&->); [done|].
  done.
Qed.

(** ** Properties *)

(** C5: decoding inverts encoding, and only encodings decode: [TryDecode]
    returns a frame exactly when the buffer starts with the encoding of a
    frame with the protocol's magic and version and an admissible payload, and
    it then reports the length of that encoding as consumed. *)
Theorem TryDecode_iff_Encode bs f n :
  TryDecode bs = (Some f, n) <->
  exists g rest, sendable g /\ f = received g /\ bs = Encode g ++ rest /\ n = zlen (Encode g).
Proof.
  split.
  - intros H. destruct (TryDecode_inv _ _ _ H) as (Hs & Hr & Hn & rest & Hbs).
    exists f, rest. done.
  - intros (g & rest & Hs & -> & -> & ->). by apply TryDecode_Encode.
Qed.

(** The header the zero-copy path writes, followed by the payload, is the
    frame the copying path sends; a buffer shorter than a header is refused
    and left alone. *)
Theorem zero_copy_header_is_encoding f buffer :
  (kFrameHeaderSize <= zlen buffer ->
    take 10 (snd (EncodeHeaderToBuffer f buffer (zlen buffer))) ++ frame_payload f = Encode f /\
    drop 10 (snd (EncodeHeaderToBuffer f buffer (zlen buffer))) = drop 10 buffer) /\
  (zlen buffer < kFrameHeaderSize -> EncodeHeaderToBuffer f buffer (zlen buffer) = (0, buffer)).
Proof.
  split.
  - intros Hb. rewrite EncodeHeaderToBuffer_bytes by done. by rewrite Encode_header.
  - intros Hb. unfold EncodeHeaderToBuffer. by rewrite (proj2 (Z.ltb_lt _ _)).
Qed.

Definition sample_frame : Frame :=
  mkFrame kFrameMagic kFrameVersion FrameType.Publish 0 [Byte.x61; Byte.x62].

Lemma zero_copy_header_is_encoding_witness :
  take 10 (snd (EncodeHeaderToBuffer sample_frame (replicate 10 Byte.x00) 10)) ++ [Byte.x61; Byte.x62]
  = Encode sample_frame.
Proof. apply (zero_copy_header_is_encoding sample_frame (replicate 10 Byte.x00)). done. Defined.
