(* ===== verification/StreamingCodec.v ===== *)
(** * The streaming frame decoder: [protocol/streaming_frame_codec.{h,cpp}]

    A state machine over an internal buffer: synchronise on the magic, parse
    the header, wait for the payload.  [ref_decode] is the specification, a
    decoder that looks at one prefix of the input at a time and keeps no state
    but the undecided bytes; the state machine is shown to compute it. *)

From S2P Require Import Prelude Types Frame.
From Equations Require Import Equations.

(** ** The code *)

Inductive ParseState := WaitingMagic | WaitingHeader | WaitingPayload.

Record StreamingFrameCodec := mkCodec {
  state_ : ParseState;
  codec_buffer : list byte;
  partial_frame_ : Frame;
  payload_length_ : Z;
}.

#[export] Instance ParseState_eq_dec : EqDecision ParseState.
Proof. solve_decision. Defined.

#[export] Instance StreamingFrameCodec_eq_dec : EqDecision StreamingFrameCodec.
Proof. solve_decision. Defined.

Definition codec_new : StreamingFrameCodec := mkCodec WaitingMagic [] Frame_default 0.

Definition AppendData (data : list byte) (c : StreamingFrameCodec) : StreamingFrameCodec :=
  if 0 <? zlen data
  then mkCodec (state_ c) (codec_buffer c ++ data) (partial_frame_ c) (payload_length_ c)
  else c.

Definition GetBufferSize (c : StreamingFrameCodec) : Z := zlen (codec_buffer c).

Definition Reset (c : StreamingFrameCodec) : StreamingFrameCodec := codec_new.

Definition set_state (s : ParseState) (c : StreamingFrameCodec) : StreamingFrameCodec :=
  mkCodec s (codec_buffer c) (partial_frame_ c) (payload_length_ c).

(** [buffer_.erase(buffer_.begin(), buffer_.begin() + n)]. *)
Definition erase_front (n : nat) (c : StreamingFrameCodec) : StreamingFrameCodec :=
  mkCodec (state_ c) (drop n (codec_buffer c)) (partial_frame_ c) (payload_length_ c).

Definition magic_at (buffer : list byte) (i : nat) : Z :=
  get_u32 (at_index buffer i) (at_index buffer (i + 1)) (at_index buffer (i + 2))
    (at_index buffer (i + 3)).

(** The search loop of [SyncMagic]: [n] positions left, from [i] on. *)
Fixpoint find_magic (n i : nat) (buffer : list byte) : option nat :=
  match n with
  | O => None
  | S n => if magic_at buffer i =? kFrameMagic then Some i else find_magic n (S i) buffer
  end.

Definition SyncMagic (c : StreamingFrameCodec) : bool * StreamingFrameCodec :=
  let size := length (codec_buffer c) in
  if (size <? 4)%nat then (false, c)
  else
    match find_magic (size - 4 + 1) 0 (codec_buffer c) with
    | Some i => (true, if (0 <? i)%nat then erase_front i c else c)
    | None => (false, if (3 <? size)%nat then erase_front (size - 3) c else c)
    end.

Definition ParseHeader (c : StreamingFrameCodec) : bool * StreamingFrameCodec :=
  let buffer := codec_buffer c in
  if zlen buffer <? kFrameHeaderSize then (false, c)
  else
    let ver := at_index buffer 4 in
    if negb (bool_decide (ver = kFrameVersion))
    then (false, set_state WaitingMagic (erase_front 1 c))
    else
      let ty := at_index buffer 5 in
      let length := header_length buffer in
      if kMaxPayloadSize <? length
      then (false, set_state WaitingMagic (erase_front 1 c))
      else
        (true, mkCodec (state_ c) buffer
          (mkFrame kFrameMagic ver ty length (frame_payload (partial_frame_ c))) length).

(** The result carries [out_frame] on success. *)
Definition ParsePayload (c : StreamingFrameCodec) : option Frame * StreamingFrameCodec :=
  let total_needed := u64 (kFrameHeaderSize + payload_length_ c) in
  if zlen (codec_buffer c) <? total_needed then (None, c)
  else
    let p := partial_frame_ c in
    let out_frame := mkFrame (magic p) (version p) (msg_type p) (frame_length p)
      (take (Z.to_nat (payload_length_ c)) (drop 10 (codec_buffer c))) in
    (Some out_frame,
     mkCodec (state_ c) (drop (Z.to_nat total_needed) (codec_buffer c)) Frame_default 0).

(** One iteration of the loop of [TryParseFrame]: it returns, or goes on. *)
Inductive loop_result :=
  | Return (r : option Frame) (c : StreamingFrameCodec)
  | Continue (c : StreamingFrameCodec).

Definition parse_step (c : StreamingFrameCodec) : loop_result :=
  match state_ c with
  | WaitingMagic =>
      let '(ok, c1) := SyncMagic c in
      if negb ok then Return None c1 else Continue (set_state WaitingHeader c1)
  | WaitingHeader =>
      let '(ok, c1) := ParseHeader c in
      if negb ok then
        if decide (state_ c1 = WaitingMagic) then Continue c1 else Return None c1
      else Continue (set_state WaitingPayload c1)
  | WaitingPayload =>
      match ParsePayload c with
      | (None, c1) => Return None c1
      | (Some frame, c1) => Return (Some frame) (set_state WaitingMagic c1)
      end
  end.

(** The measure that bounds the loop: a lost synchronisation costs a byte. *)
Definition parse_measure (c : StreamingFrameCodec) : nat :=
  3 * length (codec_buffer c) +
  match state_ c with WaitingMagic => 2 | WaitingHeader => 1 | WaitingPayload => 0 end.

Lemma SyncMagic_shape c :
  exists n, snd (SyncMagic c) = mkCodec (state_ c) (drop n (codec_buffer c))
              (partial_frame_ c) (payload_length_ c).
Proof.
  destruct c as [s b p l]. unfold SyncMagic, erase_front. simpl.
  destruct (length b <? 4)%nat; [by exists 0%nat|].
  destruct (find_magic _ _ _) as [i|]; simpl.
  - destruct (0 <? i)%nat; [by exists i|by exists 0%nat].
  - destruct (3 <? length b)%nat; [by exists (length b - 3)%nat|by exists 0%nat].
Qed.

Lemma parse_step_decreases c c' : parse_step c = Continue c' ->
  (parse_measure c' < parse_measure c)%nat.
Proof.
  unfold parse_step, parse_measure. destruct (state_ c) eqn:Es.
  - destruct (SyncMagic_shape c) as [n Hn]. destruct (SyncMagic c) as [ok c1]. simpl in Hn.
    destruct ok; simpl; [|done]. intros [= <-]. subst c1. unfold set_state.
    cbn [codec_buffer state_]. rewrite length_drop. lia.
  - assert (forall c1, Continue (set_state WaitingMagic (erase_front 1 c)) = Continue c1 ->
      kFrameHeaderSize <= zlen (codec_buffer c) ->
      (3 * length (codec_buffer c1) +
       match state_ c1 with WaitingMagic => 2 | WaitingHeader => 1 | WaitingPayload => 0 end
       < 3 * length (codec_buffer c) + 1)%nat) as Hlost.
    { intros c1 [= <-] Hb. unfold set_state, erase_front, kFrameHeaderSize in *.
      cbn [codec_buffer state_]. rewrite length_drop. lia. }
    unfold ParseHeader. case_if; [simpl; case_decide; congruence|].
    apply Z.ltb_ge in Heqb.
    repeat (case_if; [simpl; intros H; by apply Hlost in H|]).
    simpl. intros [= <-]. simpl. lia.
  - destruct (ParsePayload c) as [[f|] c1]; done.
Qed.

Equations? TryParseFrame (c : StreamingFrameCodec) : option Frame * StreamingFrameCodec
  by wf (parse_measure c) lt :=
TryParseFrame c with inspect (parse_step c) := {
  | exist _ (Return r c1) _ => (r, c1)
  | exist _ (Continue c1) H => TryParseFrame c1 }.
Proof. by apply parse_step_decreases. Qed.

(** The read path of [Connection::OnRead]: decode until no frame is complete.
    [fuel] bounds the number of frames; [None] is running out of it. *)
Fixpoint drain (fuel : nat) (c : StreamingFrameCodec)
    : option (list Frame * StreamingFrameCodec) :=
  match fuel with
  | O => None
  | S fuel =>
      match TryParseFrame c with
      | (None, c1) => Some ([], c1)
      | (Some frame, c1) =>
          match drain fuel c1 with
          | Some (frames, c2) => Some (frame :: frames, c2)
          | None => None
          end
      end
  end.

Definition feed (chunk : list byte) (c : StreamingFrameCodec)
    : option (list Frame * StreamingFrameCodec) :=
  let c := AppendData chunk c in
  drain (S (length (codec_buffer c))) c.

Fixpoint feed_all (chunks : list (list byte)) (c : StreamingFrameCodec)
    : option (list Frame * StreamingFrameCodec) :=
  match chunks with
  | [] => Some ([], c)
  | chunk :: chunks =>
      '(fs, c1) ← feed chunk c;
      '(gs, c2) ← feed_all chunks c1;
      Some (fs ++ gs, c2)
  end.

(** ** The specification: a decoder without state *)

Inductive prefix_verdict := NeedMore | SkipByte | EmitFrame (f : Frame) (n : nat).

(** What the first bytes of the stream are. *)
Definition decide_prefix (bs : list byte) : prefix_verdict :=
  if (length bs <? 4)%nat then NeedMore
  else if negb (magic_at bs 0 =? kFrameMagic) then SkipByte
  else if zlen bs <? kFrameHeaderSize then NeedMore
  else if negb (bool_decide (at_index bs 4 = kFrameVersion)) then SkipByte
  else if kMaxPayloadSize <? header_length bs then SkipByte
  else if zlen bs <? kFrameHeaderSize + header_length bs then NeedMore
  else EmitFrame
    (mkFrame kFrameMagic kFrameVersion (at_index bs 5) (header_length bs)
       (take (Z.to_nat (header_length bs)) (drop 10 bs)))
    (Z.to_nat (kFrameHeaderSize + header_length bs)).

Lemma decide_prefix_skip bs : decide_prefix bs = SkipByte -> (length (drop 1 bs) < length bs)%nat.
Proof.
  unfold decide_prefix. case_if; [done|]. apply Nat.ltb_ge in Heqb.
  intros _. rewrite length_drop. lia.
Qed.

Lemma decide_prefix_emit bs f n : decide_prefix bs = EmitFrame f n ->
  (10 <= n <= length bs)%nat.
Proof.
  unfold decide_prefix. repeat (case_if; [done|]). intros [= _ <-]. reflect_bools.
  unfold kFrameHeaderSize in *. pose proof (header_length_range bs). lia.
Qed.

Equations? ref_decode (bs : list byte) : list Frame * list byte by wf (length bs) lt :=
ref_decode bs with inspect (decide_prefix bs) := {
  | exist _ NeedMore _ => ([], bs)
  | exist _ SkipByte H => ref_decode (drop 1 bs)
  | exist _ (EmitFrame f n) H => let r := ref_decode (drop n bs) in (f :: fst r, snd r) }.
Proof.
  - by apply decide_prefix_skip.
  - apply decide_prefix_emit in H. rewrite length_drop. lia.
Qed.

(** ** Lemmas on the specification *)

Lemma ref_decode_eq bs : ref_decode bs =
  match decide_prefix bs with
  | NeedMore => ([], bs)
  | SkipByte => ref_decode (drop 1 bs)
  | EmitFrame f n => (f :: fst (ref_decode (drop n bs)), snd (ref_decode (drop n bs)))
  end.
Proof.
  rewrite ref_decode_equation_1. destruct (inspect (decide_prefix bs)) as [v Hv].
  transitivity (match v with NeedMore => ([], bs) | SkipByte => ref_decode (drop 1 bs)
    | EmitFrame f n => (f :: fst (ref_decode (drop n bs)), snd (ref_decode (drop n bs))) end);
    [by destruct v|by rewrite Hv].
Qed.

Lemma TryParseFrame_eq c : TryParseFrame c =
  match parse_step c with Return r c1 => (r, c1) | Continue c1 => TryParseFrame c1 end.
Proof.
  rewrite TryParseFrame_equation_1. destruct (inspect (parse_step c)) as [v Hv].
  transitivity (match v with Return r c1 => (r, c1) | Continue c1 => TryParseFrame c1 end);
    [by destruct v|by rewrite Hv].
Qed.

(** A verdict other than waiting does not depend on what follows. *)
Lemma at_index_app (bs more : list byte) i : (i < length bs)%nat ->
  at_index (bs ++ more) i = at_index bs i.
Proof. apply lookup_total_app_l. Qed.

Lemma header_length_app bs more : 10 <= zlen bs ->
  header_length (bs ++ more) = header_length bs.
Proof. intros. unfold header_length. by rewrite !at_index_app by lia. Qed.

Lemma decide_prefix_app bs more : decide_prefix bs <> NeedMore ->
  decide_prefix (bs ++ more) = decide_prefix bs.
Proof.
  unfold decide_prefix. rewrite length_app. intros H.
  destruct (length bs <? 4)%nat eqn:E4; [done|]. apply Nat.ltb_ge in E4.
  rewrite (proj2 (Nat.ltb_ge _ 4)) by lia.
  assert (magic_at (bs ++ more) 0 = magic_at bs 0) as ->
    by (unfold magic_at; by rewrite !at_index_app by lia).
  destruct (negb (magic_at bs 0 =? kFrameMagic)); [done|].
  destruct (zlen bs <? kFrameHeaderSize) eqn:E10; [done|]. apply Z.ltb_ge in E10.
  unfold kFrameHeaderSize in *. rewrite (proj2 (Z.ltb_ge _ 10)) by lia.
  rewrite !at_index_app, header_length_app by lia.
  destruct (negb _); [done|]. destruct (kMaxPayloadSize <? header_length bs); [done|].
  destruct (zlen bs <? 10 + header_length bs) eqn:E; [done|]. apply Z.ltb_ge in E.
  rewrite (proj2 (Z.ltb_ge _ _)) by lia.
  rewrite drop_app_le, take_app_le by (rewrite ?length_drop; lia). done.
Qed.

(** Decoding more bytes continues from the bytes left over. *)
Lemma ref_decode_app bs more :
  ref_decode (bs ++ more) =
  (fst (ref_decode bs) ++ fst (ref_decode (snd (ref_decode bs) ++ more)),
   snd (ref_decode (snd (ref_decode bs) ++ more))).
Proof.
  induction bs as [bs IH] using (well_founded_induction (Wf_nat.well_founded_ltof _ (@length byte))).
  unfold Wf_nat.ltof in IH. rewrite (ref_decode_eq bs).
  destruct (decide_prefix bs) as [| |f n] eqn:E; simpl.
  - by destruct (ref_decode (bs ++ more)).
  - rewrite ref_decode_eq, decide_prefix_app, E by congruence.
    pose proof (decide_prefix_skip bs E) as Hl.
    destruct bs as [|b bs]; [simpl in Hl; lia|]. apply (IH bs). simpl. lia.
  - rewrite ref_decode_eq, decide_prefix_app, E by congruence.
    pose proof (decide_prefix_emit bs f n E). rewrite drop_app_le by lia.
    rewrite IH by (rewrite length_drop; lia). done.
Qed.

(** What is left over is an undecided prefix. *)
Lemma ref_decode_rest bs : decide_prefix (snd (ref_decode bs)) = NeedMore.
Proof.
  induction bs as [bs IH] using (well_founded_induction (Wf_nat.well_founded_ltof _ (@length byte))).
  unfold Wf_nat.ltof in IH. rewrite (ref_decode_eq bs).
  destruct (decide_prefix bs) as [| |f n] eqn:E; simpl; [done| |].
  - apply IH. by apply decide_prefix_skip.
  - apply IH. apply decide_prefix_emit in E. rewrite length_drop. lia.
Qed.

Lemma need_more_small bs : decide_prefix bs = NeedMore ->
  zlen bs < kFrameHeaderSize + kMaxPayloadSize.
Proof.
  unfold decide_prefix, kFrameHeaderSize, kMaxPayloadSize.
  pose proof (header_length_range bs).
  repeat case_if; try done; reflect_bools; intros _; try lia.
  apply Nat.ltb_lt in Heqb. lia.
Qed.

(** Positions that hold no magic are skipped. *)
Lemma magic_at_drop bs i k : magic_at (drop i bs) k = magic_at bs (i + k).
Proof. unfold magic_at. by rewrite !lookup_total_drop, !Nat.add_assoc. Qed.

Lemma ref_decode_skip n bs : (n + 3 <= length bs)%nat ->
  (forall k, (k < n)%nat -> magic_at bs k <> kFrameMagic) ->
  ref_decode bs = ref_decode (drop n bs).
Proof.
  revert bs. induction n as [|n IH]; intros bs Hn Hk; [done|].
  rewrite ref_decode_eq. unfold decide_prefix at 1.
  rewrite (proj2 (Nat.ltb_ge _ 4)), (proj2 (Z.eqb_neq _ _)) by (try apply Hk; lia).
  simpl negb. cbv iota. rewrite IH; [by rewrite drop_drop| |].
  - rewrite length_drop. lia.
  - intros k Hlt. rewrite magic_at_drop. apply Hk. lia.
Qed.

(** A magic starts with the byte 0xDE. *)
Lemma magic_first_byte bs i : magic_at bs i = kFrameMagic -> at_index bs i = Byte.xde.
Proof.
  unfold magic_at. intros H.
  pose proof (put_get_u32 (at_index bs i) (at_index bs (i + 1)) (at_index bs (i + 2))
    (at_index bs (i + 3))) as Hp.
  rewrite H in Hp. vm_compute (put_u32 kFrameMagic) in Hp. congruence.
Qed.

Lemma decide_prefix_Encode f rest : sendable f ->
  decide_prefix (Encode f ++ rest) = EmitFrame (received f) (length (Encode f)).
Proof.
  intros Hs. destruct (header_fields f (frame_payload f ++ rest) Hs) as (Hm & Hv & Ht & Hl).
  pose proof Hs as (Hm' & Hv' & Hp). pose proof (length_Encode f) as Hlen.
  unfold kMaxPayloadSize, kFrameHeaderSize in *. unfold decide_prefix, magic_at.
  rewrite length_app. rewrite Encode_header, <- app_assoc, <- Encode_header.
  set (bs := header_bytes f ++ frame_payload f ++ rest) in *.
  rewrite (proj2 (Nat.ltb_ge _ 4)) by lia. simpl plus.
  rewrite Hm, Hv, Ht, Hl, Z.eqb_refl. unfold kMaxPayloadSize, kFrameHeaderSize.
  rewrite bool_decide_true by done. simpl negb. cbv iota.
  rewrite (proj2 (Z.ltb_ge _ 10)), (proj2 (Z.ltb_ge (16 * 1024 * 1024) _)),
    (proj2 (Z.ltb_ge _ (10 + zlen (frame_payload f)))) by lia.
  f_equal; [|lia]. unfold received. rewrite Hm', Hv', Nat2Z.id. f_equal.
  change (drop 10 bs) with (frame_payload f ++ rest). apply take_app_length.
Qed.

(** ** The state machine computes the specification *)

Lemma find_magic_spec n i buffer :
  match find_magic n i buffer with
  | Some j => (i <= j < i + n)%nat /\ magic_at buffer j = kFrameMagic /\
      forall k, (i <= k < j)%nat -> magic_at buffer k <> kFrameMagic
  | None => forall k, (i <= k < i + n)%nat -> magic_at buffer k <> kFrameMagic
  end.
Proof.
  revert i. induction n as [|n IH]; intros i; simpl; [lia|].
  destruct (magic_at buffer i =? kFrameMagic) eqn:E.
  - apply Z.eqb_eq in E. repeat split; [lia|lia|done|lia].
  - apply Z.eqb_neq in E. specialize (IH (S i)). destruct (find_magic n (S i) buffer).
    + destruct IH as (? & ? & Hk). repeat split; [lia|lia|done|].
      intros k ?. destruct (decide (k = i)) as [->|]; [done|]. apply Hk. lia.
    + intros k ?. destruct (decide (k = i)) as [->|]; [done|]. apply IH. lia.
Qed.

(** The invariant: what each state knows of the buffer's first bytes. *)
Definition codec_ok (c : StreamingFrameCodec) : Prop :=
  let buf := codec_buffer c in
  match state_ c with
  | WaitingMagic => True
  | WaitingHeader => 4 <= zlen buf /\ magic_at buf 0 = kFrameMagic
  | WaitingPayload =>
      10 <= zlen buf /\ magic_at buf 0 = kFrameMagic /\ at_index buf 4 = kFrameVersion /\
      header_length buf <= kMaxPayloadSize /\
      payload_length_ c = header_length buf /\
      exists old, partial_frame_ c =
        mkFrame kFrameMagic kFrameVersion (at_index buf 5) (header_length buf) old
  end.

Lemma codec_ok_new : codec_ok codec_new.
Proof. done. Qed.

Lemma codec_ok_append data c : codec_ok c -> codec_ok (AppendData data c).
Proof.
  unfold AppendData. case_if; [|done]. unfold codec_ok.
  cbn [codec_buffer state_ payload_length_ partial_frame_].
  destruct (state_ c); rewrite ?length_app; [done|..]; unfold magic_at.
  - intros [H ?]. rewrite !at_index_app by lia. split; [lia|done].
  - intros [H ?]. rewrite header_length_app, !at_index_app by lia. split; [lia|done].
Qed.

Lemma codec_buffer_append data c :
  codec_buffer (AppendData data c) = codec_buffer c ++ data.
Proof.
  unfold AppendData. case_if; [done|]. apply Z.ltb_ge in Heqb.
  destruct data; [by rewrite app_nil_r|simpl in Heqb; lia].
Qed.

(** What [SyncMagic] does to a buffer, in terms of the specification. *)
Lemma SyncMagic_spec c : let '(ok, c1) := SyncMagic c in
  ref_decode (codec_buffer c1) = ref_decode (codec_buffer c) /\ state_ c1 = state_ c /\
  if ok then 4 <= zlen (codec_buffer c1) /\ magic_at (codec_buffer c1) 0 = kFrameMagic
  else (length (codec_buffer c1) < 4)%nat.
Proof.
  unfold SyncMagic. set (buf := codec_buffer c).
  destruct (length buf <? 4)%nat eqn:E4; [by apply Nat.ltb_lt in E4|].
  apply Nat.ltb_ge in E4. pose proof (find_magic_spec (length buf - 4 + 1) 0 buf) as Hf.
  destruct (find_magic _ _ _) as [j|].
  - destruct Hf as (Hj & Hm & Hk).
    assert (codec_buffer (if (0 <? j)%nat then erase_front j c else c) = drop j buf /\
      state_ (if (0 <? j)%nat then erase_front j c else c) = state_ c) as [-> ->]
      by (destruct j; done).
    rewrite magic_at_drop, Nat.add_0_r, length_drop. repeat split; [|lia|done].
    symmetry. apply ref_decode_skip; [lia|]. intros k ?. apply Hk. lia.
  - rewrite (proj2 (Nat.ltb_lt 3 _)) by lia. simpl. fold buf.
    rewrite length_drop. repeat split; [|lia].
    symmetry. apply ref_decode_skip; [lia|]. intros k ?. apply Hf. lia.
Qed.

(** A byte that starts a frame with a bad header is skipped. *)
Lemma ref_decode_bad_header buf :
  10 <= zlen buf -> magic_at buf 0 = kFrameMagic ->
  negb (bool_decide (at_index buf 4 = kFrameVersion)) = true \/
  (kMaxPayloadSize <? header_length buf) = true ->
  ref_decode buf = ref_decode (drop 1 buf).
Proof.
  intros Hl Hm Hbad. rewrite (ref_decode_eq buf). unfold decide_prefix.
  rewrite (proj2 (Nat.ltb_ge _ 4)) by lia. rewrite Hm, Z.eqb_refl. simpl negb. cbv iota.
  rewrite (proj2 (Z.ltb_ge _ kFrameHeaderSize)) by done.
  destruct (negb (bool_decide _)); [done|]. destruct Hbad as [|Hbad]; [done|]. by rewrite Hbad.
Qed.

Lemma parse_step_continue c c1 : codec_ok c -> parse_step c = Continue c1 ->
  codec_ok c1 /\ ref_decode (codec_buffer c1) = ref_decode (codec_buffer c).
Proof.
  unfold parse_step, codec_ok. destruct (state_ c) eqn:Es.
  - intros _. pose proof (SyncMagic_spec c) as Hs. destruct (SyncMagic c) as [[] c'];
      simpl; [|done]. intros [= <-]. simpl. tauto.
  - intros [Hl Hm]. unfold ParseHeader. unfold kFrameHeaderSize.
    destruct (zlen (codec_buffer c) <? 10) eqn:E10.
    { simpl. case_decide; congruence. }
    apply Z.ltb_ge in E10.
    destruct (negb (bool_decide _)) eqn:Ev.
    { simpl. intros [= <-]. simpl. split; [done|]. symmetry.
      apply ref_decode_bad_header; auto. }
    destruct (kMaxPayloadSize <? _) eqn:Emax.
    { simpl. intros [= <-]. simpl. split; [done|]. symmetry.
      apply ref_decode_bad_header; auto. }
    reflect_bools. simpl. intros [= <-]. simpl.
    repeat split; try done. rewrite Ev. by eexists.
  - intros _. by destruct (ParsePayload c) as [[f|] c'].
Qed.

Lemma parse_step_return c r c1 : codec_ok c -> parse_step c = Return r c1 ->
  codec_ok c1 /\
  ref_decode (codec_buffer c) =
    match r with
    | Some f => (f :: fst (ref_decode (codec_buffer c1)), snd (ref_decode (codec_buffer c1)))
    | None => ([], codec_buffer c1)
    end /\
  (r <> None -> (length (codec_buffer c1) < length (codec_buffer c))%nat).
Proof.
  unfold parse_step, codec_ok. destruct (state_ c) eqn:Es.
  - intros _. pose proof (SyncMagic_spec c) as Hs. destruct (SyncMagic c) as [[] c'];
      simpl; [done|]. intros [= <- <-]. destruct Hs as (<- & Hst & Hlt). rewrite Hst, Es.
    split; [done|]. split; [|done]. rewrite ref_decode_eq. unfold decide_prefix.
    by rewrite (proj2 (Nat.ltb_lt _ 4)).
  - intros [Hl Hm]. unfold ParseHeader.
    destruct (zlen (codec_buffer c) <? kFrameHeaderSize) eqn:E10.
    { simpl. case_decide; [congruence|]. intros [= <- <-]. rewrite Es.
      split; [done|]. split; [|done]. rewrite ref_decode_eq. unfold decide_prefix.
      rewrite (proj2 (Nat.ltb_ge _ 4)) by lia. rewrite Hm, Z.eqb_refl. simpl negb. cbv iota.
      by rewrite E10. }
    by repeat case_if.
  - intros (Hl & Hm & Hv & Hmax & Hpl & old & Hpf). unfold ParsePayload. rewrite Hpl, Hpf.
    pose proof (header_length_range (codec_buffer c)) as Hr.
    unfold kFrameHeaderSize. rewrite u64_id by lia.
    rewrite (ref_decode_eq (codec_buffer c)). unfold decide_prefix.
    rewrite (proj2 (Nat.ltb_ge _ 4)) by lia. rewrite Hm, Hv, Z.eqb_refl.
    rewrite bool_decide_true by done. simpl negb. cbv iota. unfold kFrameHeaderSize.
    rewrite (proj2 (Z.ltb_ge _ 10)), (proj2 (Z.ltb_ge kMaxPayloadSize _)) by lia.
    destruct (zlen (codec_buffer c) <? _) eqn:Et; intros [= <- <-].
    + rewrite Es. split; [|done]. eauto 8.
    + simpl. split; [done|]. split; [done|]. intros _. apply Z.ltb_ge in Et.
      rewrite length_drop. lia.
Qed.

Lemma TryParseFrame_spec c : codec_ok c -> let '(r, c1) := TryParseFrame c in
  codec_ok c1 /\
  ref_decode (codec_buffer c) =
    match r with
    | Some f => (f :: fst (ref_decode (codec_buffer c1)), snd (ref_decode (codec_buffer c1)))
    | None => ([], codec_buffer c1)
    end /\
  (r <> None -> (length (codec_buffer c1) < length (codec_buffer c))%nat).
Proof.
  induction c as [c IH] using
    (well_founded_induction (Wf_nat.well_founded_ltof _ parse_measure)).
  unfold Wf_nat.ltof in IH. intros Hok. rewrite TryParseFrame_eq.
  destruct (parse_step c) as [r c1|c1] eqn:E.
  - by apply parse_step_return.
  - destruct (parse_step_continue c c1 Hok E) as [Hok1 Hr].
    specialize (IH c1 (parse_step_decreases _ _ E) Hok1).
    destruct (TryParseFrame c1) as [r c2]. destruct IH as (? & Heq & Hlen).
    split; [done|]. split; [congruence|]. intros Hn.
    specialize (Hlen Hn).
    assert (length (codec_buffer c1) <= length (codec_buffer c))%nat; [|lia].
    apply parse_step_decreases in E. unfold parse_measure in E.
    destruct (state_ c1), (state_ c); lia.
Qed.

Lemma drain_spec fuel c : codec_ok c -> (length (codec_buffer c) < fuel)%nat ->
  exists c1, drain fuel c = Some (fst (ref_decode (codec_buffer c)), c1) /\ codec_ok c1 /\
    codec_buffer c1 = snd (ref_decode (codec_buffer c)).
Proof.
  revert c. induction fuel as [|fuel IH]; intros c Hok Hf; [lia|]. simpl.
  pose proof (TryParseFrame_spec c Hok) as Hs. destruct (TryParseFrame c) as [[f|] c1].
  - destruct Hs as (Hok1 & -> & Hlen). specialize (Hlen ltac:(done)).
    destruct (IH c1 Hok1 ltac:(lia)) as (c2 & -> & ? & ?). by exists c2.
  - destruct Hs as (Hok1 & -> & _). by exists c1.
Qed.

Lemma feed_spec chunk c : codec_ok c -> exists c1,
  feed chunk c = Some (fst (ref_decode (codec_buffer c ++ chunk)), c1) /\ codec_ok c1 /\
  codec_buffer c1 = snd (ref_decode (codec_buffer c ++ chunk)).
Proof.
  intros Hok. unfold feed. rewrite <- codec_buffer_append.
  apply drain_spec; [by apply codec_ok_append|lia].
Qed.

Lemma feed_all_spec chunks c : codec_ok c -> decide_prefix (codec_buffer c) = NeedMore ->
  exists c1,
    feed_all chunks c = Some (fst (ref_decode (codec_buffer c ++ concat chunks)), c1) /\
    codec_ok c1 /\ codec_buffer c1 = snd (ref_decode (codec_buffer c ++ concat chunks)).
Proof.
  revert c. induction chunks as [|chunk chunks IH]; intros c Hok Hd; simpl.
  - exists c. rewrite app_nil_r, ref_decode_eq, Hd. done.
  - destruct (feed_spec chunk c Hok) as (c1 & -> & Hok1 & Hb1). simpl.
    destruct (IH c1 Hok1) as (c2 & -> & Hok2 & Hb2).
    { rewrite Hb1. apply ref_decode_rest. }
    simpl. exists c2. rewrite app_assoc, (ref_decode_app (_ ++ chunk)), <- Hb1. done.
Qed.

(** Encodings with garbage between them decode to the frames. *)
Lemma ref_decode_garbage g f rest : Byte.xde ∉ g -> sendable f ->
  ref_decode (g ++ Encode f ++ rest) =
  (received f :: fst (ref_decode rest), snd (ref_decode rest)).
Proof.
  intros Hg Hs. pose proof (length_Encode f) as Hlen. unfold kFrameHeaderSize in Hlen.
  rewrite (ref_decode_skip (length g)).
  - rewrite drop_app_length, ref_decode_eq, decide_prefix_Encode by done.
    by rewrite drop_app_length.
  - rewrite !length_app. lia.
  - intros k Hk Hm. apply magic_first_byte in Hm. rewrite at_index_app in Hm by done.
    apply Hg. rewrite <- Hm. by apply list_elem_of_lookup_total_2.
Qed.

Lemma ref_decode_items (items : list (list byte * Frame)) :
  Forall (λ gf, (Byte.xde ∉ gf.1) /\ sendable gf.2) items ->
  ref_decode (concat (map (λ gf, gf.1 ++ Encode gf.2) items)) =
  (map (λ gf, received gf.2) items, []).
Proof.
  induction 1 as [|[g f] items [Hg Hs] Hitems IH]; [done|].
  simpl in *. by rewrite <- app_assoc, ref_decode_garbage, IH.
Qed.

Lemma ref_decode_frames fs : Forall sendable fs ->
  ref_decode (concat (Encode <$> fs)) = (received <$> fs, []).
Proof.
  intros Hfs. pose proof (ref_decode_items ((λ f, ([], f)) <$> fs)) as Hitems.
  rewrite !map_map in Hitems. apply Hitems.
  clear Hitems. induction Hfs as [|f fs Hf Hfs IH]; [done|].
  constructor; [|done]. split; [apply not_elem_of_nil|done].
Qed.

Lemma decide_prefix_emit_inv bs f n : decide_prefix bs = EmitFrame f n ->
  sendable f /\ received f = f /\ bs = Encode f ++ drop n bs.
Proof.
  intros H. assert (TryDecode bs = (Some f, Z.of_nat n)) as Ht.
  { pose proof (header_length_range bs). revert H.
    unfold decide_prefix, TryDecode, magic_at, kFrameHeaderSize.
    rewrite u64_id by lia. simpl plus. repeat (case_if; [done|]). intros [= <- <-].
    reflect_bools. f_equal; [|lia]. by rewrite Heqb0, Heqb2. }
  apply TryDecode_inv in Ht as (Hs & Hr & Hn & rest & ->).
  split; [done|]. split; [done|]. f_equal.
  replace n with (length (Encode f)) by lia. by rewrite drop_app_length.
Qed.

(** A stream made of skipped bytes and encodings of [fs], ending in [rest]. *)
Fixpoint interleaved (gaps : list (list byte)) (fs : list Frame) (rest : list byte) : list byte :=
  match gaps, fs with
  | g :: gaps, f :: fs => g ++ Encode f ++ interleaved gaps fs rest
  | g :: _, [] => g ++ rest
  | [], _ => rest
  end.

Lemma ref_decode_interleaved bs : exists gaps,
  length gaps = S (length (fst (ref_decode bs))) /\
  bs = interleaved gaps (fst (ref_decode bs)) (snd (ref_decode bs)) /\
  Forall (λ f, sendable f /\ received f = f) (fst (ref_decode bs)).
Proof.
  induction bs as [bs IH] using (well_founded_induction (Wf_nat.well_founded_ltof _ (@length byte))).
  unfold Wf_nat.ltof in IH. rewrite (ref_decode_eq bs).
  destruct (decide_prefix bs) as [| |f n] eqn:E; simpl.
  - by exists [[]].
  - pose proof (decide_prefix_skip bs E) as Hlen.
    destruct (IH _ Hlen) as (gaps & Hl & Hb & Hfs).
    destruct bs as [|b bs]; [simpl in Hlen; lia|]. change (drop 1 (b :: bs)) with bs in *.
    destruct gaps as [|g gaps]; [done|]. exists ((b :: g) :: gaps).
    split; [done|]. split; [|done]. rewrite Hb at 1.
    by destruct (fst (ref_decode bs)).
  - pose proof (decide_prefix_emit bs f n E).
    destruct (decide_prefix_emit_inv bs f n E) as (Hs & Hr & Hbs).
    destruct (IH (drop n bs)) as (gaps & Hl & Hb & Hfs); [rewrite length_drop; lia|].
    exists ([] :: gaps). simpl. split; [by rewrite Hl|]. split; [|by constructor].
    by rewrite <- Hb.
Qed.

(** ** Properties *)

(** C6: the streaming decoder is a function of the byte stream alone.  However
    the bytes are cut into reads, draining the codec after each read always
    ends, yields the frames and leaves the undecoded bytes that the stateless
    specification gives for the concatenation, and never keeps as much as one
    maximal frame. *)
Theorem codec_decodes_stream chunks : exists c,
  feed_all chunks codec_new = Some (fst (ref_decode (concat chunks)), c) /\
  codec_buffer c = snd (ref_decode (concat chunks)) /\
  GetBufferSize c < kFrameHeaderSize + kMaxPayloadSize.
Proof.
  destruct (feed_all_spec chunks codec_new codec_ok_new eq_refl) as (c & H & _ & Hb).
  exists c. split; [done|]. split; [done|]. unfold GetBufferSize.
  apply need_more_small. rewrite Hb. apply ref_decode_rest.
Qed.

(** Round trip and resynchronisation.  Frames sent one after the other,
    each possibly preceded by garbage that does not contain the first magic
    byte, are all received, in order, whatever the reads, and nothing is left
    in the buffer. *)
Theorem codec_roundtrip (items : list (list byte * Frame)) chunks :
  Forall (λ gf, (Byte.xde ∉ gf.1) /\ sendable gf.2) items ->
  concat chunks = concat (map (λ gf, gf.1 ++ Encode gf.2) items) ->
  exists c, feed_all chunks codec_new = Some (map (λ gf, received gf.2) items, c) /\
    GetBufferSize c = 0.
Proof.
  intros Hitems Hc.
  destruct (feed_all_spec chunks codec_new codec_ok_new eq_refl) as (c & H & _ & Hb).
  change (codec_buffer codec_new ++ concat chunks) with (concat chunks) in *. rewrite Hc in *.
  pose proof (ref_decode_items items Hitems) as Href.
  rewrite Href in H, Hb. exists c. split; [done|]. unfold GetBufferSize. by rewrite Hb.
Qed.

Lemma codec_roundtrip_witness : exists c,
  feed_all [[Byte.x00]; take 7 (Encode sample_frame);
            drop 7 (Encode sample_frame) ++ [Byte.xad; Byte.xbe] ++ Encode sample_frame]
    codec_new = Some ([received sample_frame; received sample_frame], c) /\ GetBufferSize c = 0.
Proof.
  apply (codec_roundtrip [([Byte.x00], sample_frame); ([Byte.xad; Byte.xbe], sample_frame)]).
  - apply (bool_decide_eq_true_1 _). vm_compute. reflexivity.
  - reflexivity.
Defined.

(** No frame is invented.  The bytes received are exactly the encodings
    of the frames delivered, in order, separated by the bytes the decoder
    dropped and followed by the bytes it keeps; every frame delivered has the
    protocol's magic and version, an admissible payload and a [length] field
    that is its payload's length. *)
Theorem codec_no_invented_frame chunks : exists fs c gaps,
  feed_all chunks codec_new = Some (fs, c) /\
  length gaps = S (length fs) /\
  concat chunks = interleaved gaps fs (codec_buffer c) /\
  Forall (λ f, sendable f /\ received f = f) fs.
Proof.
  destruct (feed_all_spec chunks codec_new codec_ok_new eq_refl) as (c & H & _ & Hb).
  change (codec_buffer codec_new ++ concat chunks) with (concat chunks) in *.
  destruct (ref_decode_interleaved (concat chunks)) as (gaps & Hl & Hg & Hfs).
  eexists _, c, gaps. split; [exact H|]. rewrite Hb. done.
Qed.
