(* ===== verification/Store.v ===== *)
(** * The in-memory message store: [storage/message_store.h],
    [storage/memory_message_store.{h,cpp}]

    One definition per operation, over any bounded message buffer
    ([FifoBuffer]); the state of a topic is a record with the code's fields.
    Each operation is atomic, as the topic's mutex makes it; readings of the
    clocks are arguments. *)

From S2P Require Import Prelude Types RingBuffer.

(** ** Data *)

Record PendingMessage := mkPending {
  pm_msg : StoredMessage;
  pull_time : Z; (* steady clock, in nanoseconds *)
}.

Record TopicData (B : Type) := mkTopicData {
  td_topic_name : TopicName;
  ring_buffer : B;
  message_log : list StoredMessage;
  retry_queue : list StoredMessage;
  subscriber_offsets : gmap string MessageId;
  group_offsets : gmap string MessageId;
  pending_acks : gmap string (gmap MessageId PendingMessage);
  next_msg_id : MessageId;
}.
#[global] Arguments mkTopicData {B}.
#[global] Arguments td_topic_name {B}.
#[global] Arguments ring_buffer {B}.
#[global] Arguments message_log {B}.
#[global] Arguments retry_queue {B}.
#[global] Arguments subscriber_offsets {B}.
#[global] Arguments group_offsets {B}.
#[global] Arguments pending_acks {B}.
#[global] Arguments next_msg_id {B}.

Record MemoryMessageStore (B : Type) := mkStore {
  topics_ : gmap TopicName (TopicData B);
  dlq_storage_ : gmap TopicName (list StoredMessage);
  default_buffer_size_ : Z;
  max_retry_count_ : Z;
  pending_timeout_ms_ : Z;
}.
#[global] Arguments mkStore {B}.
#[global] Arguments topics_ {B}.
#[global] Arguments dlq_storage_ {B}.
#[global] Arguments default_buffer_size_ {B}.
#[global] Arguments max_retry_count_ {B}.
#[global] Arguments pending_timeout_ms_ {B}.

Definition with_topics {B} (f : gmap TopicName (TopicData B) -> gmap TopicName (TopicData B))
    (st : MemoryMessageStore B) : MemoryMessageStore B :=
  mkStore (f (topics_ st)) (dlq_storage_ st) (default_buffer_size_ st) (max_retry_count_ st)
    (pending_timeout_ms_ st).

Definition with_dlq {B} (dlq : gmap TopicName (list StoredMessage))
    (st : MemoryMessageStore B) : MemoryMessageStore B :=
  mkStore (topics_ st) dlq (default_buffer_size_ st) (max_retry_count_ st)
    (pending_timeout_ms_ st).

(** ** Names *)

Definition MakeDlqName (topic : TopicName) : TopicName := ("__dlq." +:+ topic)%string.

Definition MakeConsumerKey (is_group : bool) (id : string) : string :=
  if is_group then ("grp:" +:+ id)%string else ("sub:" +:+ id)%string.

(** [m.expires_at > 0 && now_ms > m.expires_at]. *)
Definition expired (now_ms : Z) (m : StoredMessage) : bool :=
  (0 <? sm_expires_at m) && (sm_expires_at m <? now_ms).

(** The static helper, on the current time. *)
Definition IsMessageExpired (now_ms : Z) (m : StoredMessage) : bool :=
  if sm_expires_at m =? 0 then false else sm_expires_at m <? now_ms.

(** ** The record in the ring buffer *)

(** msg_id(8) + timestamp(8) + expires_at(8) + payload_size(4) + payload. *)
Definition serialize (msg_id timestamp expires_at : Z) (payload : Payload) : list byte :=
  be_push 8 msg_id ++ be_push 8 timestamp ++ be_push 8 expires_at
  ++ be_push 4 (u32 (zlen payload)) ++ payload.

(** The body of the loop of [DrainRingBuffer]; [None] is [continue]. *)
Definition parse_record (buf : list byte) : option StoredMessage :=
  if zlen buf <? 28 then None
  else
    let msg_id := be_read 64 (take 8 buf) in
    let timestamp := be_read 64 (take 8 (drop 8 buf)) in
    let expires_at := be_read 64 (take 8 (drop 16 buf)) in
    let payload_size := be_read 32 (take 4 (drop 24 buf)) in
    if zlen buf <? u64 (28 + payload_size) then None
    else Some (mkStoredMessage msg_id "" (take (Z.to_nat payload_size) (drop 28 buf))
                 timestamp 0 expires_at).

Section store.
Context {B : Type} `{FifoBuffer B}.

Definition TopicData_new (buffer_size : Z) (topic : TopicName) : TopicData B :=
  mkTopicData topic (fb_new buffer_size) [] [] ∅ ∅ ∅ 1.

Definition MemoryMessageStore_new (buffer_size max_retry timeout : Z) : MemoryMessageStore B :=
  mkStore ∅ ∅ buffer_size max_retry timeout.

(** ** Topic management *)

Definition CreateTopic (topic : TopicName) (st : MemoryMessageStore B)
    : bool * MemoryMessageStore B :=
  match topics_ st !! topic with
  | Some _ => (false, st)
  | None => (true, with_topics (insert topic (TopicData_new (default_buffer_size_ st) topic)) st)
  end.

Definition DeleteTopic (topic : TopicName) (st : MemoryMessageStore B)
    : bool * MemoryMessageStore B :=
  match topics_ st !! topic with
  | None => (false, st)
  | Some _ =>
      (true, with_dlq (delete (MakeDlqName topic) (dlq_storage_ st))
               (with_topics (delete topic) st))
  end.

Definition HasTopic (topic : TopicName) (st : MemoryMessageStore B) : bool :=
  bool_decide (is_Some (topics_ st !! topic)).

(** ** Publishing *)

(** On a topic: takes an id, serialises, pushes. The result is the pushed flag
    and [out_msg_id]; [now_expiry] and [now] are the two clock readings. *)
Definition publish_topic (payload : Payload) (ttl_ms now_expiry now : Z) (td : TopicData B)
    : (bool * MessageId) * TopicData B :=
  let msg_id := next_msg_id td in
  let expires_at := if 0 <? ttl_ms then u64 (now_expiry + ttl_ms) else 0 in
  let '(ok, ring) := fb_push (serialize msg_id now expires_at payload) (ring_buffer td) in
  ((ok, msg_id),
   mkTopicData (td_topic_name td) ring (message_log td) (retry_queue td)
     (subscriber_offsets td) (group_offsets td) (pending_acks td) (u64 (msg_id + 1))).

Definition Publish (topic : TopicName) (payload : Payload) (ttl_ms now_expiry now : Z)
    (st : MemoryMessageStore B) : (bool * MessageId) * MemoryMessageStore B :=
  let td := default (TopicData_new (default_buffer_size_ st) topic) (topics_ st !! topic) in
  let '(res, td') := publish_topic payload ttl_ms now_expiry now td in
  (res, with_topics (insert topic td') st).

(** ** Draining the ring buffer into the log *)

Fixpoint drain_ring (fuel : nat) (ring : B) (log : list StoredMessage) : B * list StoredMessage :=
  match fuel with
  | O => (ring, log)
  | S fuel =>
      match fb_pop ring with
      | (None, ring') => (ring', log)
      | (Some buf, ring') =>
          match parse_record buf with
          | Some msg => drain_ring fuel ring' (log ++ [msg])
          | None => drain_ring fuel ring' log
          end
      end
  end.

Definition DrainRingBuffer (td : TopicData B) : TopicData B :=
  let '(ring, log) := drain_ring (S (fb_bound (ring_buffer td))) (ring_buffer td)
                        (message_log td) in
  mkTopicData (td_topic_name td) ring log (retry_queue td) (subscriber_offsets td)
    (group_offsets td) (pending_acks td) (next_msg_id td).

(** ** Pulling *)

Section pull.
Context (max_messages now_ms : Z) (steady_now : nat -> Z) (consumer_key : string).

(** The loop over the log: result, offset and pending maps. [steady_now n] is
    the clock read for the [n]-th delivery. *)
Fixpoint pull_log (log result : list StoredMessage) (offset : MessageId)
    (acks : gmap string (gmap MessageId PendingMessage))
    : list StoredMessage * MessageId * gmap string (gmap MessageId PendingMessage) :=
  match log with
  | [] => (result, offset, acks)
  | msg :: log =>
      if max_messages <=? zlen result then (result, offset, acks)
      else if offset <=? sm_id msg then
        if expired now_ms msg then pull_log log result (u64 (sm_id msg + 1)) acks
        else
          let pending_map := default ∅ (acks !! consumer_key) in
          match pending_map !! sm_id msg with
          | None =>
              pull_log log (result ++ [msg]) (u64 (sm_id msg + 1))
                (<[consumer_key :=
                   <[sm_id msg := mkPending msg (steady_now (length result))]> pending_map]> acks)
          | Some _ => pull_log log result offset (<[consumer_key := pending_map]> acks)
          end
      else pull_log log result offset acks
  end.

(** The loop over the retry queue: result, remaining queue and pending maps. *)
Fixpoint pull_retry (queue result : list StoredMessage)
    (acks : gmap string (gmap MessageId PendingMessage))
    : list StoredMessage * list StoredMessage * gmap string (gmap MessageId PendingMessage) :=
  match queue with
  | [] => (result, [], acks)
  | msg :: queue' =>
      if max_messages <=? zlen result then (result, queue, acks)
      else if expired now_ms msg then pull_retry queue' result acks
      else
        let pending_map := default ∅ (acks !! consumer_key) in
        match pending_map !! sm_id msg with
        | None =>
            pull_retry queue' (result ++ [msg])
              (<[consumer_key :=
                 <[sm_id msg := mkPending msg (steady_now (length result))]> pending_map]> acks)
        | Some _ =>
            let '(result', kept, acks') :=
              pull_retry queue' result (<[consumer_key := pending_map]> acks) in
            (result', msg :: kept, acks')
        end
  end.
End pull.

(** The offset a consumer's next pull starts from. *)
Definition offset_of (is_group : bool) (consumer_key : string) (td : TopicData B) : MessageId :=
  let o := default 0 ((if is_group then group_offsets td else subscriber_offsets td)
                        !! consumer_key) in
  if o =? 0 then 1 else o.

Definition pull_topic (consumer_id : string) (max_messages : Z) (is_group : bool)
    (now_ms : Z) (steady_now : nat -> Z) (td : TopicData B)
    : list StoredMessage * TopicData B :=
  let td := DrainRingBuffer td in
  let consumer_key := MakeConsumerKey is_group consumer_id in
  let '(result, offset, acks) :=
    pull_log max_messages now_ms steady_now consumer_key (message_log td) []
      (offset_of is_group consumer_key td) (pending_acks td) in
  let '(result, queue, acks) :=
    pull_retry max_messages now_ms steady_now consumer_key (retry_queue td) result acks in
  (result,
   mkTopicData (td_topic_name td) (ring_buffer td) (message_log td) queue
     (if is_group then subscriber_offsets td else <[consumer_key := offset]> (subscriber_offsets td))
     (if is_group then <[consumer_key := offset]> (group_offsets td) else group_offsets td)
     acks (next_msg_id td)).

Definition Pull (topic : TopicName) (consumer_id : string) (max_messages : Z) (is_group : bool)
    (now_ms : Z) (steady_now : nat -> Z) (st : MemoryMessageStore B)
    : list StoredMessage * MemoryMessageStore B :=
  match topics_ st !! topic with
  | None => ([], st)
  | Some td =>
      let '(result, td') := pull_topic consumer_id max_messages is_group now_ms steady_now td in
      (result, with_topics (insert topic td') st)
  end.

(** ** Acknowledging *)

Definition with_pending (acks : gmap string (gmap MessageId PendingMessage)) (td : TopicData B)
    : TopicData B :=
  mkTopicData (td_topic_name td) (ring_buffer td) (message_log td) (retry_queue td)
    (subscriber_offsets td) (group_offsets td) acks (next_msg_id td).

Definition ack_topic (consumer_id : string) (msg_id : MessageId) (is_group : bool)
    (td : TopicData B) : bool * TopicData B :=
  let consumer_key := MakeConsumerKey is_group consumer_id in
  let pending_map := default ∅ (pending_acks td !! consumer_key) in
  match pending_map !! msg_id with
  | None => (false, with_pending (<[consumer_key := pending_map]> (pending_acks td)) td)
  | Some _ =>
      (true, with_pending (<[consumer_key := delete msg_id pending_map]> (pending_acks td)) td)
  end.

Definition Ack (topic : TopicName) (consumer_id : string) (msg_id : MessageId) (is_group : bool)
    (st : MemoryMessageStore B) : bool * MemoryMessageStore B :=
  match topics_ st !! topic with
  | None => (false, st)
  | Some td =>
      let '(ok, td') := ack_topic consumer_id msg_id is_group td in
      (ok, with_topics (insert topic td') st)
  end.

(** ** The dead-letter queue *)

Definition PullDlq (topic : TopicName) (max_messages : Z) (st : MemoryMessageStore B)
    : list StoredMessage * MemoryMessageStore B :=
  match dlq_storage_ st !! MakeDlqName topic with
  | None => ([], st)
  | Some dlq =>
      let count := Z.to_nat (Z.min max_messages (zlen dlq)) in
      (take count dlq, with_dlq (<[MakeDlqName topic := drop count dlq]> (dlq_storage_ st)) st)
  end.

(** ** The background scans *)

Definition set_retry_count (n : Z) (m : StoredMessage) : StoredMessage :=
  mkStoredMessage (sm_id m) (sm_topic_name m) (sm_payload m) (sm_timestamp m) n (sm_expires_at m).

Section retries.
Context (max_retry timeout_ms now now_ms : Z) (dlq_name : TopicName).

(** Milliseconds since the message was handed out; the cast truncates. *)
Definition timed_out (p : PendingMessage) : bool :=
  timeout_ms <=? Z.quot (now - pull_time p) 1000000.

(** One pending message: the retry queue and the dead-letter storage. *)
Definition retry_one (rq : list StoredMessage * gmap TopicName (list StoredMessage))
    (entry : MessageId * PendingMessage)
    : list StoredMessage * gmap TopicName (list StoredMessage) :=
  let '(queue, dlq) := rq in
  let '(msg_id, p) := entry in
  if timed_out p then
    if expired now_ms (pm_msg p) then rq
    else if max_retry <=? sm_retry_count (pm_msg p) then
      (queue, <[dlq_name := default [] (dlq !! dlq_name) ++ [pm_msg p]]> dlq)
    else
      (filter (λ m, sm_id m <> msg_id) queue
         ++ [set_retry_count (u32 (sm_retry_count (pm_msg p) + 1)) (pm_msg p)], dlq)
  else rq.

(** One consumer: its messages in the order [t] meets them, then the removals. *)
Definition retry_consumer (t : Traversal MessageId)
    (acc : gmap string (gmap MessageId PendingMessage) *
           (list StoredMessage * gmap TopicName (list StoredMessage)))
    (entry : string * gmap MessageId PendingMessage)
    : gmap string (gmap MessageId PendingMessage) *
      (list StoredMessage * gmap TopicName (list StoredMessage)) :=
  let '(acks, rq) := acc in
  let '(consumer_key, pending_map) := entry in
  let to_remove := (filter (λ e, timed_out e.2) (entries t pending_map)).*1 in
  let pending_map' := foldl (λ m id, delete id m) pending_map to_remove in
  (<[consumer_key := pending_map']> acks, foldl retry_one rq (entries t pending_map)).
End retries.

(** Erases the consumers left without pending messages. *)
Definition drop_empty (acks : gmap string (gmap MessageId PendingMessage))
    : gmap string (gmap MessageId PendingMessage) :=
  filter (λ e, e.2 <> ∅) acks.

Definition ProcessPendingRetries (max_retry timeout_ms : Z) (keys : Traversal string)
    (ids : Traversal MessageId) (now now_ms : Z) (td : TopicData B)
    (dlq : gmap TopicName (list StoredMessage))
    : TopicData B * gmap TopicName (list StoredMessage) :=
  let '(acks, (queue, dlq')) :=
    foldl (retry_consumer max_retry timeout_ms now now_ms (MakeDlqName (td_topic_name td)) ids)
      (pending_acks td, (retry_queue td, dlq)) (entries keys (pending_acks td)) in
  (mkTopicData (td_topic_name td) (ring_buffer td) (message_log td) queue
     (subscriber_offsets td) (group_offsets td) (drop_empty acks) (next_msg_id td), dlq').

Definition ExpireTopicMessages (now_ms : Z) (td : TopicData B) : TopicData B :=
  let keep (m : StoredMessage) := (sm_expires_at m =? 0) || (now_ms <=? sm_expires_at m) in
  mkTopicData (td_topic_name td) (ring_buffer td)
    (filter (λ m, keep m = true) (message_log td))
    (filter (λ m, expired now_ms m = false) (retry_queue td))
    (subscriber_offsets td) (group_offsets td)
    (drop_empty (filter (λ e, expired now_ms (pm_msg e.2) = false) <$> pending_acks td))
    (next_msg_id td).

(** One round of [RetryLoop]: the topics in the order they are met, each with
    its own clock readings ([now], [now_ms]) and orders. *)
Record scan := mkScan {
  scan_keys : Traversal string;
  scan_ids : Traversal MessageId;
  scan_now : Z;
  scan_now_ms : Z;
}.

Definition retry_topic (st : MemoryMessageStore B) (entry : TopicName * scan)
    : MemoryMessageStore B :=
  let '(topic, s) := entry in
  match topics_ st !! topic with
  | None => st
  | Some td =>
      let '(td', dlq') := ProcessPendingRetries (max_retry_count_ st) (pending_timeout_ms_ st)
        (scan_keys s) (scan_ids s) (scan_now s) (scan_now_ms s) td (dlq_storage_ st) in
      with_dlq dlq' (with_topics (insert topic td') st)
  end.

Definition RetryLoop_round (t : Traversal TopicName) (scans : TopicName -> scan)
    (st : MemoryMessageStore B) : MemoryMessageStore B :=
  foldl retry_topic st ((λ e, (e.1, scans e.1)) <$> entries t (topics_ st)).

Definition expire_topic (st : MemoryMessageStore B) (entry : TopicName * Z)
    : MemoryMessageStore B :=
  let '(topic, now_ms) := entry in
  match topics_ st !! topic with
  | None => st
  | Some td => with_topics (insert topic (ExpireTopicMessages now_ms td)) st
  end.

Definition ExpirationLoop_round (t : Traversal TopicName) (now_ms : TopicName -> Z)
    (st : MemoryMessageStore B) : MemoryMessageStore B :=
  foldl expire_topic st ((λ e, (e.1, now_ms e.1)) <$> entries t (topics_ st)).

End store.
