(* ===== verification/StoreSpec.v ===== *)
(** * The message store: what its loops compute, and its invariant

    [pull_log_spec] and [pull_retry_spec] give the loops of [Pull] as list
    functions; [topic_inv] is the invariant of a topic and every operation
    preserves it; [store_step] runs the operations one after the other. *)

From S2P Require Import Prelude Types RingBuffer Store.

(** ** The record format round-trips *)

(** A message as [Publish] creates it and [DrainRingBuffer] reads it back. *)
Record fresh (m : StoredMessage) : Prop := {
  fresh_id : 0 <= sm_id m < 2 ^ 64;
  fresh_topic : sm_topic_name m = "";
  fresh_payload : zlen (sm_payload m) + 28 < 2 ^ 32;
  fresh_timestamp : 0 <= sm_timestamp m < 2 ^ 64;
  fresh_retry : sm_retry_count m = 0;
  fresh_expires : 0 <= sm_expires_at m < 2 ^ 64;
}.

Definition serialize_msg (m : StoredMessage) : list byte :=
  serialize (sm_id m) (sm_timestamp m) (sm_expires_at m) (sm_payload m).

Lemma length_serialize id ts ex payload :
  zlen (serialize id ts ex payload) = 28 + zlen payload.
Proof. unfold serialize. rewrite !length_app, !length_be_push. lia. Qed.

Lemma parse_serialize m : fresh m -> parse_record (serialize_msg m) = Some m.
Proof.
  intros [Hid Ht Hp Hts Hr Hex]. destruct m as [id topic payload ts r ex].
  cbn [sm_id sm_topic_name sm_payload sm_timestamp sm_retry_count sm_expires_at] in *. subst.
  unfold serialize_msg, parse_record. rewrite length_serialize.
  rewrite (proj2 (Z.ltb_ge _ 28)) by lia.
  unfold serialize. cbn [sm_id sm_timestamp sm_expires_at sm_payload].
  assert (forall n x (l : list byte), take n (be_push n x ++ l) = be_push n x) as Htake.
  { intros. rewrite <- (length_be_push n x) at 1. apply take_app_length. }
  assert (forall n x (l : list byte), drop n (be_push n x ++ l) = l) as Hdrop.
  { intros. rewrite <- (length_be_push n x) at 1. apply drop_app_length. }
  change 28%nat with (8 + (8 + (8 + 4)))%nat. change 24%nat with (8 + (8 + 8))%nat.
  change 16%nat with (8 + 8)%nat. rewrite <- !drop_drop.
  repeat rewrite ?Hdrop, ?Htake.
  rewrite !be_read_push by (try lia; apply u32_range || done).
  rewrite u32_id by lia. rewrite u64_id by lia.
  rewrite (proj2 (Z.ltb_ge _ _)) by lia. rewrite Nat2Z.id, firstn_all. done.
Qed.

Section spec.
Context {B : Type} `{FifoBuffer B}.

(** ** Draining *)

Lemma fifo_pop_fits c q m : c <= kMaxPayloadSize -> queue_size (m :: q) <= c ->
  fifo_pop (m :: q) = (Some m, q).
Proof.
  intros Hc Hs. rewrite queue_size_cons in Hs. simpl.
  assert (0 <= queue_size q) by (unfold queue_size; lia).
  by rewrite (proj2 (Z.leb_le _ _)) by lia.
Qed.

(** The loop empties the ring into the log, and stops because the ring is empty. *)
Lemma drain_ring_spec c fuel ring log ms :
  c <= kMaxPayloadSize -> fb_rep c ring (serialize_msg <$> ms) -> Forall fresh ms ->
  (length ms < fuel)%nat ->
  exists ring', drain_ring fuel ring log = (ring', log ++ ms) /\ fb_rep c ring' [] /\
    fst (fb_pop ring') = None.
Proof.
  intros Hc. revert ring log ms. induction fuel as [|fuel IH]; intros ring log ms Hrep Hms Hf;
    [lia|]. simpl. destruct (fb_pop_rep c ring _ Hrep) as (ring1 & -> & Hrep1).
  destruct ms as [|m ms].
  - exists ring1. rewrite app_nil_r. split; [done|]. split; [done|].
    destruct (fb_pop_rep c ring1 _ Hrep1) as (ring2 & -> & _). done.
  - apply Forall_cons in Hms as [Hm Hms]. rewrite fmap_cons in *.
    rewrite (fifo_pop_fits c) in * by eauto using fb_rep_fits. cbn [fst snd] in *.
    rewrite parse_serialize by done. cbn [length] in Hf.
    destruct (IH ring1 (log ++ [m]) ms) as (ring2 & -> & ? & ?); [done|done|lia|].
    exists ring2. by rewrite <- app_assoc.
Qed.

Lemma DrainRingBuffer_spec c (td : TopicData B) ms :
  c <= kMaxPayloadSize -> fb_rep c (ring_buffer td) (serialize_msg <$> ms) -> Forall fresh ms ->
  exists ring', DrainRingBuffer td = mkTopicData (td_topic_name td) ring' (message_log td ++ ms)
      (retry_queue td) (subscriber_offsets td) (group_offsets td) (pending_acks td)
      (next_msg_id td) /\
    fb_rep c ring' [] /\ fst (fb_pop ring') = None.
Proof.
  intros Hc Hrep Hms. unfold DrainRingBuffer.
  pose proof (fb_bound_rep c _ _ Hrep) as Hb. rewrite length_fmap in Hb.
  destruct (drain_ring_spec c (S (fb_bound (ring_buffer td))) (ring_buffer td) (message_log td) ms)
    as (ring' & -> & ? & ?); [done..|lia|]. by exists ring'.
Qed.

End spec.

(** ** The loops of [Pull] *)

(** What a consumer has pending. *)
Definition pending_of (acks : gmap string (gmap MessageId PendingMessage)) (key : string)
    : gmap MessageId PendingMessage := default ∅ (acks !! key).

(** [acks'] is [acks] with the messages [ms] handed out to [key]. *)
Record handed_out (key : string) (ms : list StoredMessage)
    (acks acks' : gmap string (gmap MessageId PendingMessage)) : Prop := {
  ho_other : forall k, k <> key -> acks' !! k = acks !! k;
  ho_new : forall m, m ∈ ms -> exists t,
    pending_of acks' key !! sm_id m = Some (mkPending m t);
  ho_old : forall id, id ∉ sm_id <$> ms -> pending_of acks' key !! id = pending_of acks key !! id;
}.

Lemma pending_of_insert acks key P : pending_of (<[key := P]> acks) key = P.
Proof. unfold pending_of. by rewrite lookup_insert_eq. Qed.

Lemma handed_out_nil key acks acks' :
  (forall k, k <> key -> acks' !! k = acks !! k) -> pending_of acks' key = pending_of acks key ->
  handed_out key [] acks acks'.
Proof. intros Ho Hp. split; [done|set_solver|intros; by rewrite Hp]. Qed.

Lemma handed_out_refl key acks : handed_out key [] acks acks.
Proof. by apply handed_out_nil. Qed.

Lemma handed_out_touch key ms acks acks' :
  handed_out key ms (<[key := pending_of acks key]> acks) acks' -> handed_out key ms acks acks'.
Proof.
  intros [Ho Hn Hold]. split.
  - intros k Hk. rewrite Ho by done. by rewrite lookup_insert_ne.
  - done.
  - intros id Hid. rewrite Hold by done. by rewrite pending_of_insert.
Qed.

Lemma handed_out_cons key m ms t acks acks' : sm_id m ∉ sm_id <$> ms ->
  handed_out key ms (<[key := <[sm_id m := mkPending m t]> (pending_of acks key)]> acks) acks' ->
  handed_out key (m :: ms) acks acks'.
Proof.
  intros Hm [Ho Hn Hold]. split.
  - intros k Hk. rewrite Ho by done. by rewrite lookup_insert_ne.
  - intros m' [->|Hin]%elem_of_cons; [|by apply Hn].
    exists t. rewrite Hold by done. by rewrite pending_of_insert, lookup_insert_eq.
  - intros id Hid. rewrite fmap_cons, not_elem_of_cons in Hid. destruct Hid as [Hne Hid].
    rewrite Hold by done. by rewrite pending_of_insert, lookup_insert_ne.
Qed.

Lemma handed_out_app key ms1 ms2 a1 a2 a3 :
  (forall m, m ∈ ms1 -> sm_id m ∉ sm_id <$> ms2) ->
  handed_out key ms1 a1 a2 -> handed_out key ms2 a2 a3 -> handed_out key (ms1 ++ ms2) a1 a3.
Proof.
  intros Hd [Ho1 Hn1 Hold1] [Ho2 Hn2 Hold2]. split.
  - intros k Hk. by rewrite Ho2, Ho1.
  - intros m [Hin|Hin]%elem_of_app; [|by apply Hn2].
    rewrite Hold2 by by apply Hd. by apply Hn1.
  - intros id Hid. rewrite fmap_app, not_elem_of_app in Hid. destruct Hid.
    by rewrite Hold2, Hold1.
Qed.

(** Ids in increasing order. *)
Definition id_sorted : list StoredMessage -> Prop := StronglySorted (λ a b, sm_id a < sm_id b).

(** The messages of the log a pull at [offset] hands out, if there is room. *)
Definition deliverable (now_ms offset : Z) (m : StoredMessage) : bool :=
  (offset <=? sm_id m) && negb (expired now_ms m).

Section loops.
Context (max now : Z) (steady : nat -> Z) (key : string).

Lemma deliverable_later off m log :
  id_sorted (m :: log) -> off <= sm_id m ->
  filter (λ x, deliverable now off x = true) log =
  filter (λ x, deliverable now (sm_id m + 1) x = true) log.
Proof.
  intros Hs Hm. apply StronglySorted_inv in Hs as [_ Hs].
  induction Hs as [|x log Hx Hs IH]; [done|].
  rewrite !filter_bool_cons, IH.
  assert (deliverable now off x = deliverable now (sm_id m + 1) x) as ->; [|done].
  unfold deliverable.
  by rewrite (proj2 (Z.leb_le off _)), (proj2 (Z.leb_le (sm_id m + 1) _)) by lia.
Qed.

(** The loop over the log hands out the first deliverable messages there is
    room for, and leaves an offset past everything it went over. *)
Lemma pull_log_spec log res off acks :
  id_sorted log -> Forall (λ m, 0 <= sm_id m < 2 ^ 64 - 1) log ->
  (forall id, is_Some (pending_of acks key !! id) -> id < off) ->
  let ds := take (Z.to_nat (max - zlen res)) (filter (λ m, deliverable now off m = true) log) in
  exists off' acks',
    pull_log max now steady key log res off acks = (res ++ ds, off', acks') /\
    handed_out key ds acks acks' /\
    off <= off' /\ Forall (λ m, sm_id m < off') ds /\
    (off' = off \/ exists m, m ∈ log /\ off' = sm_id m + 1) /\
    (zlen (res ++ ds) < max -> Forall (λ m, sm_id m < off') log).
Proof.
  revert res off acks. induction log as [|msg log IH]; intros res off acks Hs Hids Hp; cbv zeta.
  { exists off, acks. rewrite filter_nil, take_nil, app_nil_r.
    split; [done|]. split; [apply handed_out_refl|]. eauto using Forall_nil_2, Z.le_refl. }
  cbn [pull_log]. pose proof (deliverable_later off msg log Hs) as Hlater.
  pose proof Hs as Hs0. apply StronglySorted_inv in Hs as [Hs Hlt].
  apply Forall_cons in Hids as [Hid Hids].
  destruct (max <=? zlen res) eqn:Hfull.
  { apply Z.leb_le in Hfull. exists off, acks. 
    replace (Z.to_nat (max - zlen res)) with 0%nat by lia. rewrite take_0, app_nil_r.
    split; [done|]. split; [apply handed_out_refl|]. split; [lia|]. split; [done|].
    split; [by left|]. lia. }
  apply Z.leb_gt in Hfull. rewrite filter_bool_cons.
  assert (deliverable now off msg = (off <=? sm_id msg) && negb (expired now msg)) as -> by done.
  destruct (off <=? sm_id msg) eqn:Hoff; cbn [andb].
  - apply Z.leb_le in Hoff. rewrite u64_id by lia.
    rewrite Hlater by done.
    destruct (expired now msg); cbn [negb].
    + destruct (IH res (sm_id msg + 1) acks) as (off' & acks' & -> & Hh & Hle & Hds & Hcase & Hall);
        [done|done|intros id Hi; specialize (Hp id Hi); lia|].
      exists off', acks'. split; [done|]. split; [done|].
      split; [lia|]. split; [done|]. split.
      { right. destruct Hcase as [->|(m & ? & ->)]; [exists msg|exists m];
          rewrite elem_of_cons; auto. }
      intros Hr. constructor; [lia|by apply Hall].
    + destruct (pending_of acks key !! sm_id msg) eqn:Hpend.
      { specialize (Hp (sm_id msg) ltac:(by eexists)). lia. }
      unfold pending_of in Hpend. rewrite Hpend. fold (pending_of acks key) in *.
      replace (Z.to_nat (max - zlen res)) with (S (Z.to_nat (max - zlen (res ++ [msg]))))
        by (rewrite length_app; cbn [length]; lia).
      rewrite firstn_cons.
      set (acks1 := <[key := _]> acks).
      destruct (IH (res ++ [msg]) (sm_id msg + 1) acks1)
        as (off' & acks' & -> & Hh & Hle & Hds & Hcase & Hall); [done|done| |].
      { intros id. unfold acks1. rewrite pending_of_insert.
        destruct (decide (id = sm_id msg)) as [->|Hne]; [lia|].
        rewrite lookup_insert_ne by done. intros Hi. specialize (Hp id Hi). lia. }
      rewrite <- app_assoc in *. cbn [app] in *. exists off', acks'.
      split; [done|]. split.
      { eapply handed_out_cons; [|exact Hh]. intros (m & Heq & Hin)%list_elem_of_fmap.
        apply subseteq_take, list_elem_of_filter in Hin as [_ Hin].
        rewrite Forall_forall in Hlt. apply Hlt in Hin. lia. }
      split; [lia|]. split; [by constructor; [lia|]|]. split.
      { right. destruct Hcase as [->|(m & ? & ->)]; [exists msg|exists m];
          rewrite elem_of_cons; auto. }
      intros Hr. constructor; [lia|by apply Hall].
  - apply Z.leb_gt in Hoff.
    destruct (IH res off acks) as (off' & acks' & -> & Hh & Hle & Hds & Hcase & Hall); [done..|].
    exists off', acks'. split; [done|]. split; [done|].
    split; [lia|]. split; [done|]. split.
    { destruct Hcase as [->|(m & ? & ->)]; [by left|right; exists m; rewrite elem_of_cons; auto]. }
    intros Hr. constructor; [lia|by apply Hall].
Qed.

(** A retried message a pull hands out, if there is room. *)
Definition retriable (P : gmap MessageId PendingMessage) (m : StoredMessage) : bool :=
  negb (expired now m) && bool_decide (P !! sm_id m = None).

Lemma retriable_insert P msg p (queue : list StoredMessage) : sm_id msg ∉ sm_id <$> queue ->
  filter (λ m, retriable (<[sm_id msg := p]> P) m = true) queue =
  filter (λ m, retriable P m = true) queue.
Proof.
  induction queue as [|x queue IH]; [done|]. rewrite fmap_cons, not_elem_of_cons.
  intros [Hne Hq]. rewrite !filter_bool_cons, IH by done.
  assert (retriable (<[sm_id msg := p]> P) x = retriable P x) as ->; [|done].
  unfold retriable. by rewrite lookup_insert_ne.
Qed.

(** The loop over the retry queue hands out the first retriable messages there
    is room for; it keeps the order of the others and loses only expired ones. *)
Lemma pull_retry_spec (queue res : list StoredMessage) acks :
  NoDup (sm_id <$> queue) ->
  let ds := take (Z.to_nat (max - zlen res))
              (filter (λ m, retriable (pending_of acks key) m = true) queue) in
  exists kept acks',
    pull_retry max now steady key queue res acks = (res ++ ds, kept, acks') /\
    handed_out key ds acks acks' /\
    sublist kept queue /\
    (forall m, m ∈ queue -> expired now m = true \/ m ∈ ds \/ m ∈ kept) /\
    (forall m, m ∈ ds -> m ∉ kept).
Proof.
  revert res acks. induction queue as [|msg queue IH]; intros res acks Hnd; cbv zeta.
  { exists [], acks. rewrite filter_nil, take_nil, app_nil_r.
    split; [done|]. split; [apply handed_out_refl|]. split; [done|].
    split; intros m Hm; by apply not_elem_of_nil in Hm. }
  cbn [pull_retry]. rewrite fmap_cons in Hnd. apply NoDup_cons in Hnd as [Hnew Hnd].
  destruct (max <=? zlen res) eqn:Hfull.
  { apply Z.leb_le in Hfull. exists (msg :: queue), acks.
    replace (Z.to_nat (max - zlen res)) with 0%nat by lia. rewrite take_0, app_nil_r.
    split; [done|]. split; [apply handed_out_refl|]. split; [done|].
    split; [by auto|]. intros m Hm; by apply not_elem_of_nil in Hm. }
  apply Z.leb_gt in Hfull. rewrite filter_bool_cons.
  assert (retriable (pending_of acks key) msg = negb (expired now msg) &&
    bool_decide (pending_of acks key !! sm_id msg = None)) as -> by done.
  assert (forall m, m ∈ queue -> m <> msg) as Hdiff.
  { intros m Hm ->. apply Hnew. by apply list_elem_of_fmap_2. }
  destruct (expired now msg) eqn:Hexp; cbn [negb andb].
  { destruct (IH res acks Hnd) as (kept & acks' & -> & Hh & Hsub & Hcov & Hdis).
    exists kept, acks'. split; [done|]. split; [done|]. split; [by apply sublist_cons|].
    split; [|done]. intros m [->|Hm]%elem_of_cons; auto. }
  fold (pending_of acks key).
  destruct (pending_of acks key !! sm_id msg) eqn:Hpend.
  - rewrite bool_decide_false by done. unfold pending_of. fold (pending_of acks key).
    destruct (IH res (<[key := pending_of acks key]> acks) Hnd)
      as (kept & acks' & -> & Hh & Hsub & Hcov & Hdis). rewrite pending_of_insert in *.
    exists (msg :: kept), acks'. split; [done|]. split; [by apply handed_out_touch|].
    split; [by apply sublist_skip|]. split.
    + intros m [->|Hm]%elem_of_cons; [rewrite !elem_of_cons; auto|].
      destruct (Hcov m Hm) as [|[|]]; rewrite ?elem_of_cons; auto.
    + intros m Hm [->|Hk]%elem_of_cons; [|by eapply Hdis].
      apply subseteq_take, list_elem_of_filter in Hm as [_ Hm]. by eapply Hdiff.
  - rewrite bool_decide_true by done.
    replace (Z.to_nat (max - zlen res)) with (S (Z.to_nat (max - zlen (res ++ [msg]))))
      by (rewrite length_app; cbn [length]; lia).
    rewrite firstn_cons. set (acks1 := <[key := _]> acks).
    destruct (IH (res ++ [msg]) acks1 Hnd) as (kept & acks' & -> & Hh & Hsub & Hcov & Hdis).
    unfold acks1 in *. rewrite pending_of_insert, retriable_insert in * by done.
    rewrite <- app_assoc. exists kept, acks'. split; [done|]. split.
    { eapply handed_out_cons; [|exact Hh].
      intros (m & Heq & Hin)%list_elem_of_fmap. apply Hnew.
      apply subseteq_take, list_elem_of_filter in Hin as [_ Hin].
      rewrite Heq. by apply list_elem_of_fmap_2. }
    split; [by apply sublist_cons|]. split.
    + intros m [->|Hm]%elem_of_cons; [rewrite !elem_of_cons; auto|].
      destruct (Hcov m Hm) as [|[|]]; rewrite ?elem_of_cons; auto.
    + intros m [->|Hm]%elem_of_cons Hk; [|by eapply Hdis].
      apply (sublist_subseteq _ _ Hsub) in Hk. by eapply Hdiff.
Qed.
End loops.

(** ** The invariant of a topic *)

(** [m] is a copy of a message of the log, retried at most [maxr] times. *)
Definition from_log (log : list StoredMessage) (maxr : Z) (m : StoredMessage) : Prop :=
  0 <= sm_retry_count m <= maxr /\ set_retry_count 0 m ∈ log.

(** What is pending for a consumer was handed out from the log or the retry
    queue, and its offset is past it. *)
Definition pending_ok (maxr : Z) (log : list StoredMessage) (offs : bool -> string -> Z)
    (acks : gmap string (gmap MessageId PendingMessage)) : Prop :=
  forall k id p, pending_of acks k !! id = Some p ->
    sm_id (pm_msg p) = id /\ from_log log maxr (pm_msg p) /\
    exists g i, k = MakeConsumerKey g i /\ id < offs g k.

Section inv.
Context {B : Type} `{FifoBuffer B} (c maxr : Z).

(** [ms] are the messages still in the ring buffer. *)
Record topic_inv (td : TopicData B) (ms : list StoredMessage) : Prop := {
  ti_ring : fb_rep c (ring_buffer td) (serialize_msg <$> ms);
  ti_fresh : Forall fresh (message_log td ++ ms);
  ti_sorted : id_sorted (message_log td ++ ms);
  ti_ids : Forall (λ m, 1 <= sm_id m < next_msg_id td) (message_log td ++ ms);
  ti_next : 1 <= next_msg_id td < 2 ^ 64;
  ti_retry_nodup : NoDup (sm_id <$> retry_queue td);
  ti_retry : Forall (λ m, from_log (message_log td) maxr m) (retry_queue td);
  ti_offsets : forall g k, 1 <= offset_of g k td <= next_msg_id td;
  ti_pending : pending_ok maxr (message_log td) (λ g k, offset_of g k td) (pending_acks td);
}.

Lemma MakeConsumerKey_inj g1 i1 g2 i2 :
  MakeConsumerKey g1 i1 = MakeConsumerKey g2 i2 -> g1 = g2 /\ i1 = i2.
Proof. destruct g1, g2; intros [=]; done. Qed.

Lemma from_log_app log ms m : from_log log maxr m -> from_log (log ++ ms) maxr m.
Proof. intros [? ?]. split; [done|]. rewrite elem_of_app. by left. Qed.

Lemma from_log_fresh log m : Forall fresh log -> 0 <= maxr -> m ∈ log -> from_log log maxr m.
Proof.
  intros Hf Hr Hm. rewrite Forall_forall in Hf. destruct (Hf m Hm) as [_ _ _ _ Hret _].
  split; [lia|]. destruct m; cbn in *. by subst.
Qed.

Lemma from_log_id log m : from_log log maxr m ->
  exists l, l ∈ log /\ sm_id l = sm_id m /\ sm_expires_at l = sm_expires_at m.
Proof. intros [_ Hm]. by exists (set_retry_count 0 m). Qed.

Lemma id_sorted_app_inv l1 l2 a b : id_sorted (l1 ++ l2) -> a ∈ l1 -> b ∈ l2 -> sm_id a < sm_id b.
Proof.
  induction l1 as [|x l1 IH]; simpl; [intros _ Hx; by apply not_elem_of_nil in Hx|].
  intros [Hs Hall]%StronglySorted_inv Ha Hb. rewrite Forall_forall in Hall.
  apply elem_of_cons in Ha as [->|Ha]; [apply Hall; set_solver|by apply IH].
Qed.

Lemma id_sorted_NoDup l : id_sorted l -> NoDup (sm_id <$> l).
Proof.
  induction 1 as [|x l Hs IH Hall]; [constructor|]. rewrite fmap_cons. constructor; [|done].
  intros (y & Heq & Hy)%list_elem_of_fmap. rewrite Forall_forall in Hall.
  apply Hall in Hy. lia.
Qed.

Lemma id_sorted_inj l a b : id_sorted l -> a ∈ l -> b ∈ l -> sm_id a = sm_id b -> a = b.
Proof.
  intros Hs%id_sorted_NoDup [i Hi]%list_elem_of_lookup [j Hj]%list_elem_of_lookup Hab.
  assert (i = j) as ->; [|congruence].
  apply (NoDup_lookup _ i j (sm_id a) Hs); rewrite list_lookup_fmap, ?Hi, ?Hj; simpl; congruence.
Qed.

(** ** Publishing keeps the invariant and appends to the log's future *)

Lemma topic_inv_new topic : 0 <= c -> 2 * (c + 1) <= 2 ^ 64 ->
  topic_inv (TopicData_new c topic) [].
Proof.
  intros Hc H64. split; simpl; try constructor; try lia.
  - by apply fb_new_rep.
  - unfold offset_of. destruct g; simpl; rewrite lookup_empty; simpl; lia.
  - unfold offset_of. destruct g; simpl; rewrite lookup_empty; simpl; lia.
  - unfold pending_of in *. rewrite lookup_empty in *. simpl in *. by rewrite lookup_empty in *.
  - unfold pending_of in *. rewrite lookup_empty in *. simpl in *. by rewrite lookup_empty in *.
Qed.

(** The message a publish creates. *)
Definition published (td : TopicData B) (payload : Payload) (ttl_ms now_expiry now : Z)
    : StoredMessage :=
  mkStoredMessage (next_msg_id td) "" payload now 0
    (if 0 <? ttl_ms then u64 (now_expiry + ttl_ms) else 0).

Lemma publish_topic_spec td ms payload ttl now1 now2 :
  topic_inv td ms -> next_msg_id td < 2 ^ 64 - 1 -> zlen payload + 28 < 2 ^ 32 ->
  0 <= now2 < 2 ^ 64 ->
  let m := published td payload ttl now1 now2 in
  let ok := fits c (serialize_msg <$> ms) (serialize_msg m) in
  exists td', publish_topic payload ttl now1 now2 td = ((ok, next_msg_id td), td') /\
    topic_inv td' (if ok then ms ++ [m] else ms) /\
    td_topic_name td' = td_topic_name td /\
    message_log td' = message_log td /\ retry_queue td' = retry_queue td /\
    pending_acks td' = pending_acks td /\ next_msg_id td' = next_msg_id td + 1 /\
    (forall g k, offset_of g k td' = offset_of g k td).
Proof.
  intros [Hring Hfresh Hsort Hids Hnext Hnd Hretry Hoff Hpend] Hmax Hpl Hnow. cbv zeta.
  set (m := published td payload ttl now1 now2). unfold publish_topic.
  change (serialize (next_msg_id td) _ _ _) with (serialize_msg m).
  destruct (fb_push_rep c (ring_buffer td) (serialize_msg <$> ms) (serialize_msg m))
    as (ring' & -> & Hrep'); [done| |].
  { unfold serialize_msg. rewrite length_serialize. cbn. lia. }
  rewrite u64_id by lia. unfold fifo_push in *.
  set (ok := fits _ _ _) in *.
  assert (0 <= sm_expires_at m < 2 ^ 64).
  { unfold m, published. cbn. destruct (0 <? ttl); [apply u64_range|lia]. }
  assert (fresh m) as Hm by (split; cbn; try done; lia).
  eexists. split; [by destruct ok|].
  assert (forall ms', Forall (λ x, 1 <= sm_id x < next_msg_id td) ms' ->
    Forall (λ x, 1 <= sm_id x < next_msg_id td + 1) ms') as Hmono.
  { intros ms' Hf. induction Hf; constructor; [lia|done]. }
  split; [|split; [done|]; split; [done|]; split; [done|]; split; [done|]; split; done].
  split; cbn [ring_buffer message_log next_msg_id retry_queue pending_acks]; try done.
  - destruct ok; cbn [snd] in Hrep'; [|done]. by rewrite fmap_app.
  - destruct ok; [|done]. rewrite app_assoc, Forall_app. auto.
  - destruct ok; [|done]. rewrite app_assoc. revert Hsort Hids.
    generalize (message_log td ++ ms). intros l Hsort Hids.
    induction Hsort as [|x l Hs IH Hall]; simpl; [repeat constructor|].
    apply Forall_cons in Hids as [Hx Hids]. constructor; [by apply IH|].
    apply Forall_app. split; [done|]. constructor; [cbn; lia|done].
  - destruct ok; [|by apply Hmono]. rewrite app_assoc, Forall_app. split; [by apply Hmono|].
    constructor; [cbn; lia|done].
  - lia.
  - intros g k. specialize (Hoff g k). unfold offset_of in *.
    cbn [group_offsets subscriber_offsets]. lia.
Qed.
End inv.
