(* ===== verification/StoreInv.v ===== *)
(** * The message store: every operation keeps the invariant

    Pull, Ack, the retry scan and the expiration scan on one topic, each with
    the functional description of what it does. *)

From S2P Require Import Prelude Types RingBuffer Store StoreSpec.

Lemma pending_of_handed_out key ds acks acks' k id p :
  handed_out key ds acks acks' -> NoDup (sm_id <$> ds) ->
  pending_of acks' k !! id = Some p ->
  pending_of acks k !! id = Some p \/
  (k = key /\ exists m, m ∈ ds /\ sm_id m = id /\ pm_msg p = m).
Proof.
  intros [Ho Hn Hold] Hnd Hp. destruct (decide (k = key)) as [->|Hk].
  - destruct (decide (id ∈ sm_id <$> ds)) as [(m & -> & Hm)%list_elem_of_fmap|Hid].
    + right. split; [done|]. destruct (Hn m Hm) as [t Ht]. exists m. rewrite Hp in Ht.
      by simplify_eq.
    + left. by rewrite <- Hold.
  - left. unfold pending_of in *. by rewrite <- Ho.
Qed.

Lemma handed_out_none key (ds : list StoredMessage) acks acks' id :
  handed_out key ds acks acks' ->
  pending_of acks' key !! id = None <-> pending_of acks key !! id = None /\ id ∉ (sm_id <$> ds).
Proof.
  intros [_ Hn Hold]. split.
  - intros Hnone. assert (id ∉ sm_id <$> ds) as Hid.
    { intros (m & -> & Hm)%list_elem_of_fmap. destruct (Hn m Hm) as [t Ht]. congruence. }
    split; [by rewrite <- Hold|done].
  - intros [Hnone Hid]. by rewrite Hold.
Qed.

Section pull.
Context {B : Type} `{FifoBuffer B} (c maxr : Z).
Context (Hc : c <= kMaxPayloadSize) (Hmaxr : 0 <= maxr < 2 ^ 32).

(** Messages a consumer gets from the log, and from the retry queue after them. *)
Definition pull_fresh (max now off : Z) (log : list StoredMessage) : list StoredMessage :=
  take (Z.to_nat max) (filter (λ m, deliverable now off m = true) log).

Definition pull_again (max now : Z) (P : gmap MessageId PendingMessage)
    (ds queue : list StoredMessage) : list StoredMessage :=
  take (Z.to_nat (max - zlen ds))
    (filter (λ m : StoredMessage, retriable now P m && bool_decide (sm_id m ∉ (sm_id <$> ds)) = true) queue).

(** The effect of a pull on a topic whose ring buffer holds [ms]. *)
Record pull_effect (max now : Z) (g : bool) (id : string) (td : TopicData B)
    (ms result : list StoredMessage) (td' : TopicData B) : Prop := {
  pe_result : result =
    let ds := pull_fresh max now (offset_of g (MakeConsumerKey g id) td) (message_log td ++ ms) in
    ds ++ pull_again max now (pending_of (pending_acks td) (MakeConsumerKey g id)) ds
            (retry_queue td);
  pe_inv : topic_inv c maxr td' [];
  pe_log : message_log td' = message_log td ++ ms;
  pe_name : td_topic_name td' = td_topic_name td;
  pe_next : next_msg_id td' = next_msg_id td;
  pe_handed : handed_out (MakeConsumerKey g id) result (pending_acks td) (pending_acks td');
  pe_nodup : NoDup (sm_id <$> result);
  pe_retry : sublist (retry_queue td') (retry_queue td);
  pe_retry_kept : forall m, m ∈ retry_queue td ->
    expired now m = true \/ m ∈ result \/ m ∈ retry_queue td';
  pe_retry_gone : forall m, m ∈ result -> sm_id m < offset_of g (MakeConsumerKey g id) td ->
    m ∉ retry_queue td';
  pe_offset : forall m, m ∈ result -> sm_id m < offset_of g (MakeConsumerKey g id) td';
  pe_offset_mono : forall h k, offset_of h k td <= offset_of h k td';
  pe_offset_other : forall h k, h <> g \/ k <> MakeConsumerKey g id ->
    offset_of h k td' = offset_of h k td;
}.

Lemma offset_of_set (td td' : TopicData B) (g : bool) (key : string) (o : Z) :
  1 <= o ->
  subscriber_offsets td' =
    (if g then subscriber_offsets td else <[key := o]> (subscriber_offsets td)) ->
  group_offsets td' = (if g then <[key := o]> (group_offsets td) else group_offsets td) ->
  forall h k, offset_of h k td' = if bool_decide (h = g /\ k = key) then o else offset_of h k td.
Proof.
  intros Ho Hs Hg h k. unfold offset_of. rewrite Hs, Hg.
  case_bool_decide as Hhk.
  - destruct Hhk as [-> ->]. destruct g; rewrite lookup_insert_eq; simpl;
      by rewrite (proj2 (Z.eqb_neq o 0)) by lia.
  - destruct g, h; try done; rewrite lookup_insert_ne by (intros ->; tauto); done.
Qed.

Lemma pull_fresh_sorted max now off log : id_sorted log ->
  NoDup (sm_id <$> pull_fresh max now off log).
Proof.
  intros Hs. apply id_sorted_NoDup in Hs. eapply NoDup_sublist; [|exact Hs].
  apply sublist_fmap, sublist_take_filter.
Qed.

Lemma elem_of_pull_fresh max now off log m : m ∈ pull_fresh max now off log ->
  m ∈ log /\ off <= sm_id m /\ expired now m = false.
Proof.
  intros [Hd Hm]%subseteq_take%list_elem_of_filter. unfold deliverable in Hd.
  reflect_bools. done.
Qed.

Lemma elem_of_pull_again max now P ds queue m : m ∈ pull_again max now P ds queue ->
  m ∈ queue /\ expired now m = false /\ P !! sm_id m = None /\ sm_id m ∉ (sm_id <$> ds).
Proof.
  intros [Hd Hm]%subseteq_take%list_elem_of_filter. unfold retriable in Hd.
  reflect_bools. done.
Qed.

(** Handing out [ds] to [key] keeps what is known of pending messages. *)
Lemma pending_ok_handed log log' (offs offs' : bool -> string -> Z) key
    (ds : list StoredMessage) g id acks acks' :
  handed_out key ds acks acks' -> NoDup (sm_id <$> ds) -> pending_ok maxr log offs acks ->
  key = MakeConsumerKey g id ->
  (forall m, from_log log maxr m -> from_log log' maxr m) ->
  (forall h k, offs h k <= offs' h k) ->
  (forall m, m ∈ ds -> from_log log' maxr m) ->
  (forall m, m ∈ ds -> sm_id m < offs' g key) ->
  pending_ok maxr log' offs' acks'.
Proof.
  intros Hh Hnd Hok Hkey Hlog Hmono Hds Hpast k i p Hp.
  destruct (pending_of_handed_out _ _ _ _ _ _ _ Hh Hnd Hp) as [Hold|(-> & m & Hm & <- & <-)].
  - destruct (Hok _ _ _ Hold) as (? & ? & g' & i' & ? & Hi). split; [done|].
    split; [by apply Hlog|]. exists g', i'. split; [done|]. specialize (Hmono g' k). lia.
  - split; [done|]. split; [by apply Hds|]. exists g, id. split; [done|]. by apply Hpast.
Qed.

Lemma pull_topic_spec td ms id max g now steady : topic_inv c maxr td ms -> 0 <= max ->
  exists result td', pull_topic id max g now steady td = (result, td') /\
    pull_effect max now g id td ms result td'.
Proof.
  intros Hinv Hmax. pose proof Hinv as [Hring Hfresh Hsort Hids Hnext Hnd Hretry Hoff Hpend].
  set (key := MakeConsumerKey g id). unfold pull_topic. fold key.
  apply Forall_app in Hfresh as Hf2. destruct Hf2 as [_ Hfms].
  destruct (DrainRingBuffer_spec c td ms) as (ring' & -> & Hring' & _); [done..|].
  cbn [message_log pending_acks retry_queue]. set (log := message_log td ++ ms) in *.
  set (off := offset_of g key td) in *.
  assert (offset_of g key (mkTopicData (td_topic_name td) ring' log (retry_queue td)
    (subscriber_offsets td) (group_offsets td) (pending_acks td) (next_msg_id td)) = off) as ->
    by done.
  assert (forall i, is_Some (pending_of (pending_acks td) key !! i) -> i < off) as Hpoff.
  { intros i [p Hp]. destruct (Hpend _ _ _ Hp) as (_ & _ & g' & i' & Hk & Hi).
    apply MakeConsumerKey_inj in Hk as [<- _]. done. }
  assert (Forall (λ m, 0 <= sm_id m < 2 ^ 64 - 1) log) as Hwide.
  { clear -Hids Hnext. induction Hids; constructor; [lia|done]. }
  destruct (pull_log_spec max now steady key log [] off (pending_acks td) Hsort Hwide Hpoff)
    as (off' & acks1 & -> & Hh1 & Hoff1 & Hds & Hcase & Hall).
  change (zlen []) with 0 in *. rewrite Z.sub_0_r in *. cbn [app] in *.
  fold (pull_fresh max now off log) in *. set (ds := pull_fresh max now off log) in *.
  destruct (pull_retry_spec max now steady key (retry_queue td) ds acks1 Hnd)
    as (kept & acks2 & -> & Hh2 & Hsub & Hcov & Hdis).
  set (P := pending_of (pending_acks td) key) in *.
  assert (filter (λ m, retriable now (pending_of acks1 key) m = true) (retry_queue td) =
    filter (λ m : StoredMessage, retriable now P m && bool_decide (sm_id m ∉ (sm_id <$> ds)) = true)
      (retry_queue td)) as Hfilter.
  { apply filter_ext_in. intros m Hm. unfold retriable. fold P.
    rewrite !andb_true_iff, !bool_decide_eq_true, (handed_out_none _ _ _ _ _ Hh1). fold P. tauto. }
  rewrite Hfilter in *. fold (pull_again max now P ds (retry_queue td)) in *.
  set (rs := pull_again max now P ds (retry_queue td)) in *.
  assert (NoDup (sm_id <$> ds)) as Hnd1 by by apply pull_fresh_sorted.
  assert (NoDup (sm_id <$> ds ++ rs)) as Hnd2.
  { rewrite fmap_app. apply NoDup_app. split; [done|]. split.
    - intros i Hi (m & -> & Hm)%list_elem_of_fmap. by apply elem_of_pull_again in Hm as (_&_&_&?).
    - eapply NoDup_sublist; [|exact Hnd]. apply sublist_fmap, sublist_take_filter. }
  assert (handed_out key (ds ++ rs) (pending_acks td) acks2) as Hh.
  { eapply handed_out_app; [|done..]. intros m Hm Hin.
    apply list_elem_of_fmap in Hin as (m2 & Heq & Hm2).
    apply elem_of_pull_again in Hm2 as (_ & _ & _ & Hno). apply Hno. rewrite <- Heq.
    by apply list_elem_of_fmap_2. }
  assert (forall m, m ∈ rs -> sm_id m < off') as Hrs.
  { intros m Hm. assert (zlen ds < max) as Hroom.
    { unfold rs, pull_again in Hm. destruct (decide (zlen ds < max)); [done|].
      replace (Z.to_nat (max - zlen ds)) with 0%nat in Hm by lia.
      rewrite take_0 in Hm. by apply not_elem_of_nil in Hm. }
    specialize (Hall Hroom). apply elem_of_pull_again in Hm as (Hm & _).
    rewrite Forall_forall in Hretry. destruct (from_log_id maxr _ _ (Hretry m Hm)) as (l & Hl & <- & _).
    rewrite Forall_forall in Hall. apply Hall. unfold log. rewrite elem_of_app. by left. }
  pose proof (Hoff g key) as Hoffg. fold off in Hoffg.
  assert (1 <= off' <= next_msg_id td) as Hoff'.
  { split; [lia|]. destruct Hcase as [->|(m & Hm & ->)]; [lia|].
    rewrite Forall_forall in Hids. specialize (Hids m Hm). lia. }
  set (td' := mkTopicData _ _ _ kept _ _ _ _).
  assert (forall h k, offset_of h k td' =
    if bool_decide (h = g /\ k = key) then off' else offset_of h k td) as Hset.
  { apply offset_of_set; [lia|by destruct g..]. }
  assert (forall h k, offset_of h k td <= offset_of h k td') as Hmono.
  { intros h k. rewrite Hset. case_bool_decide as Hhk; [|lia]. by destruct Hhk as [-> ->]. }
  assert (forall m, m ∈ ds ++ rs -> sm_id m < offset_of g key td') as Hpast.
  { intros m Hm. rewrite Hset, bool_decide_true by done.
    apply elem_of_app in Hm as [Hm|Hm]; [|by apply Hrs].
    rewrite Forall_forall in Hds. by apply Hds. }
  eexists _, td'. split; [reflexivity|]. split; try done.
  - split; try done.
    + by rewrite app_nil_r.
    + by rewrite app_nil_r.
    + by rewrite app_nil_r.
    + eapply NoDup_sublist; [|exact Hnd]. by apply sublist_fmap.
    + apply Forall_forall. intros m Hm. apply (sublist_subseteq _ _ Hsub) in Hm.
      rewrite Forall_forall in Hretry. by apply from_log_app, Hretry.
    + intros h k. rewrite Hset. case_bool_decide; [done|]. apply Hoff.
    + apply (pending_ok_handed _ _ _ _ key (ds ++ rs) g id _ _ Hh Hnd2 Hpend); try done.
      * intros m. apply from_log_app.
      * apply Forall_app in Hfresh as Hf. intros m [Hm|Hm]%elem_of_app.
        -- apply elem_of_pull_fresh in Hm as [Hm _]. by apply from_log_fresh; [|lia|].
        -- apply elem_of_pull_again in Hm as [Hm _]. rewrite Forall_forall in Hretry.
           by apply from_log_app, Hretry.
  - intros m Hm. destruct (Hcov m Hm) as [|[|]]; auto. right. left. rewrite elem_of_app. auto.
  - intros m [Hm|Hm]%elem_of_app Hlt; [|by apply Hdis].
    apply elem_of_pull_fresh in Hm. fold key off in Hlt. lia.
  - intros h k Hhk. rewrite Hset, bool_decide_false; [done|]. fold key in Hhk. tauto.
Qed.

(** A pull that is not filled up returns everything it may return. *)
Lemma pull_complete_fresh max now g id td ms result td' m :
  pull_effect max now g id td ms result td' -> zlen result < max ->
  m ∈ message_log td ++ ms -> expired now m = false ->
  offset_of g (MakeConsumerKey g id) td <= sm_id m -> m ∈ result.
Proof.
  intros Heff Hroom Hm Hexp Hoff. rewrite (pe_result _ _ _ _ _ _ _ _ Heff) in *. cbv zeta in *.
  rewrite length_app in Hroom. rewrite elem_of_app. left. unfold pull_fresh in *.
  rewrite length_take in Hroom. rewrite take_ge by lia.
  apply list_elem_of_filter. split; [|done]. unfold deliverable.
  by rewrite (proj2 (Z.leb_le _ _)), Hexp by lia.
Qed.

Lemma pull_complete_retry max now g id td ms result td' m :
  pull_effect max now g id td ms result td' -> zlen result < max ->
  m ∈ retry_queue td -> expired now m = false ->
  pending_of (pending_acks td) (MakeConsumerKey g id) !! sm_id m = None ->
  sm_id m ∈ (sm_id <$> result).
Proof.
  intros Heff Hroom Hm Hexp Hp. rewrite (pe_result _ _ _ _ _ _ _ _ Heff) in *. cbv zeta in *.
  set (ds := pull_fresh _ _ _ _) in *. rewrite fmap_app, elem_of_app.
  destruct (decide (sm_id m ∈ (sm_id <$> ds))) as [Hin|Hin]; [by left|right].
  apply list_elem_of_fmap_2. rewrite length_app in Hroom. unfold pull_again in *.
  rewrite length_take in Hroom. rewrite take_ge by lia.
  apply list_elem_of_filter. split; [|done]. unfold retriable.
  by rewrite Hexp, !bool_decide_true.
Qed.
End pull.

(** ** Acknowledging *)

Lemma pending_of_set acks key P k :
  pending_of (<[key := P]> acks) k = if decide (k = key) then P else pending_of acks k.
Proof.
  case_decide as Hk; [by rewrite Hk, pending_of_insert|].
  unfold pending_of. by rewrite lookup_insert_ne.
Qed.

Section ack.
Context {B : Type} `{FifoBuffer B} (c maxr : Z).

(** Changing only what is pending, to a part of what was. *)
Lemma topic_inv_with_pending td ms acks : topic_inv c maxr td ms ->
  (forall k id p, pending_of acks k !! id = Some p ->
     pending_of (pending_acks td) k !! id = Some p) ->
  topic_inv c maxr (with_pending acks td) ms.
Proof.
  intros [Hring Hfresh Hsort Hids Hnext Hnd Hretry Hoff Hpend] Hsub. split; try done.
  intros k id p Hp. by apply Hpend, Hsub.
Qed.

Lemma ack_topic_spec td ms id mid g : topic_inv c maxr td ms ->
  let key := MakeConsumerKey g id in
  exists td', ack_topic id mid g td =
      (bool_decide (is_Some (pending_of (pending_acks td) key !! mid)), td') /\
    topic_inv c maxr td' ms /\
    (forall k, pending_of (pending_acks td') k =
       if decide (k = key) then delete mid (pending_of (pending_acks td) k)
       else pending_of (pending_acks td) k) /\
    (exists acks, td' = with_pending acks td).
Proof.
  intros Hinv. cbv zeta. set (key := MakeConsumerKey g id). unfold ack_topic. fold key.
  fold (pending_of (pending_acks td) key).
  assert (forall P, (forall i p, P !! i = Some p -> pending_of (pending_acks td) key !! i = Some p) ->
    topic_inv c maxr (with_pending (<[key := P]> (pending_acks td)) td) ms) as Hset.
  { intros P HP. apply topic_inv_with_pending; [done|]. intros k i p.
    rewrite pending_of_set. case_decide as Hk; [rewrite Hk; apply HP|done]. }
  destruct (pending_of (pending_acks td) key !! mid) as [p|] eqn:Hp.
  - rewrite bool_decide_true by by eexists. eexists. split; [done|]. split.
    { apply Hset. intros i q Hq. by apply lookup_delete_Some in Hq as [_ ?]. }
    split; [|by eexists]. intros k. cbn [pending_acks with_pending].
    rewrite pending_of_set. by case_decide as Hk; [rewrite Hk|].
  - rewrite bool_decide_false by by intros [? ?]. eexists. split; [done|]. split.
    { by apply Hset. }
    split; [|by eexists]. intros k. cbn [pending_acks with_pending].
    rewrite pending_of_set. case_decide as Hk; [rewrite Hk|done].
    by rewrite delete_id.
Qed.
End ack.

(** ** The retry scan *)

Section retry.
Context (maxr timeout now now_ms : Z) (dlq_name : TopicName).

Abbreviation is_timed_out := (timed_out timeout now).
Abbreviation process_one := (retry_one maxr timeout now now_ms dlq_name).

(** Timed out, still alive. *)
Definition overdue (p : PendingMessage) : bool :=
  is_timed_out p && negb (expired now_ms (pm_msg p)).

(** What the scan sends to the dead-letter queue. *)
Definition dead_letters (es : list (MessageId * PendingMessage)) : list StoredMessage :=
  (λ e, pm_msg e.2) <$>
    filter (λ e, overdue e.2 && (maxr <=? sm_retry_count (pm_msg e.2)) = true) es.

(** The entries put back for a retry. *)
Definition put_back (es : list (MessageId * PendingMessage)) : list (MessageId * PendingMessage) :=
  filter (λ e, overdue e.2 && (sm_retry_count (pm_msg e.2) <? maxr) = true) es.

(** The message of an entry put back: one more retry. *)
Definition raised (e : MessageId * PendingMessage) : StoredMessage :=
  set_retry_count (sm_retry_count (pm_msg e.2) + 1) (pm_msg e.2).

Lemma put_back_filter es :
  put_back es = filter (λ e, sm_retry_count (pm_msg e.2) < maxr) (filter (λ e, overdue e.2 = true) es).
Proof.
  unfold put_back. rewrite list_filter_filter. apply list_filter_iff. intros e.
  rewrite andb_true_iff, Z.ltb_lt. tauto.
Qed.

Lemma dead_letters_filter es : dead_letters es =
  (λ e, pm_msg e.2) <$>
    filter (λ e, maxr <= sm_retry_count (pm_msg e.2)) (filter (λ e, overdue e.2 = true) es).
Proof.
  unfold dead_letters. rewrite list_filter_filter. f_equal. apply list_filter_iff. intros e.
  rewrite andb_true_iff, Z.leb_le. tauto.
Qed.

(** One pending entry whose record is consistent. *)
Definition entry_ok (log : list StoredMessage) (e : MessageId * PendingMessage) : Prop :=
  sm_id (pm_msg e.2) = e.1 /\ from_log log maxr (pm_msg e.2).

Record retry_effect (log queue : list StoredMessage) (dlq : gmap TopicName (list StoredMessage))
    (es : list (MessageId * PendingMessage)) (queue' : list StoredMessage)
    (dlq' : gmap TopicName (list StoredMessage)) : Prop := {
  re_nodup : NoDup (sm_id <$> queue');
  re_from_log : Forall (from_log log maxr) queue';
  re_dlq : default [] (dlq' !! dlq_name) = default [] (dlq !! dlq_name) ++ dead_letters es;
  re_dlq_other : forall n, n <> dlq_name -> dlq' !! n = dlq !! n;
  re_queue_kept : forall m, m ∈ queue -> sm_id m ∈ sm_id <$> queue';
  re_retried : forall id p, (id, p) ∈ es -> overdue p = true ->
    sm_retry_count (pm_msg p) < maxr -> id ∈ sm_id <$> queue';
  re_queue_new : forall m, m ∈ queue' -> m ∈ queue \/
    exists id p, (id, p) ∈ es /\ overdue p = true /\
      m = set_retry_count (sm_retry_count (pm_msg p) + 1) (pm_msg p);
}.

Lemma set_retry_count_twice a b m : set_retry_count a (set_retry_count b m) = set_retry_count a m.
Proof. done. Qed.

Lemma retry_one_spec log queue dlq id p queue1 dlq1 :
  0 <= maxr < 2 ^ 32 -> NoDup (sm_id <$> queue) -> Forall (from_log log maxr) queue ->
  sm_id (pm_msg p) = id -> from_log log maxr (pm_msg p) ->
  process_one (queue, dlq) (id, p) = (queue1, dlq1) ->
  NoDup (sm_id <$> queue1) /\ Forall (from_log log maxr) queue1 /\
  default [] (dlq1 !! dlq_name) = default [] (dlq !! dlq_name) ++
    (if overdue p && (maxr <=? sm_retry_count (pm_msg p)) then [pm_msg p] else []) /\
  (forall n, n <> dlq_name -> dlq1 !! n = dlq !! n) /\
  (forall m, m ∈ queue -> sm_id m ∈ sm_id <$> queue1) /\
  (overdue p = true -> sm_retry_count (pm_msg p) < maxr -> id ∈ sm_id <$> queue1) /\
  (forall m, m ∈ queue1 -> m ∈ queue \/ (overdue p = true /\
     m = set_retry_count (sm_retry_count (pm_msg p) + 1) (pm_msg p))).
Proof.
  intros Hmaxr Hnd Hq Hid Hp. unfold retry_one, overdue.
  destruct (is_timed_out p); cbn [andb];
    [destruct (expired now_ms (pm_msg p)); cbn [andb negb]|].
  1,3: intros [= <- <-]; rewrite app_nil_r;
    split_and!; auto using list_elem_of_fmap_2; done.
  destruct (maxr <=? sm_retry_count (pm_msg p)) eqn:Hmax; intros [= <- <-].
  { apply Z.leb_le in Hmax. rewrite lookup_insert_eq. split_and!; auto using list_elem_of_fmap_2.
    - intros n Hn. by rewrite lookup_insert_ne.
    - lia. }
  apply Z.leb_gt in Hmax. destruct Hp as [Hrange Hp]. rewrite u32_id by lia. rewrite app_nil_r.
  set (m' := set_retry_count _ _). assert (sm_id m' = id) as Hid' by done.
  split_and!; try done.
  - rewrite fmap_app. apply NoDup_app. split_and!.
    + eapply NoDup_sublist; [|exact Hnd]. apply sublist_fmap.
      apply sublist_filter.
    + intros i (m & -> & [Hne _]%list_elem_of_filter)%list_elem_of_fmap.
      cbn. rewrite list_elem_of_singleton. congruence.
    + cbn. repeat constructor. by apply not_elem_of_nil.
  - apply Forall_app. split.
    + apply Forall_forall. intros m [_ Hm]%list_elem_of_filter. rewrite Forall_forall in Hq. auto.
    + repeat constructor; cbn; [lia|lia|done].
  - intros m Hm. rewrite fmap_app, elem_of_app.
    destruct (decide (sm_id m = id)) as [Heq|Hne].
    + right. cbn. rewrite list_elem_of_singleton. congruence.
    + left. by apply list_elem_of_fmap_2, list_elem_of_filter.
  - intros _ _. rewrite fmap_app, elem_of_app. right. cbn. by rewrite list_elem_of_singleton.
  - intros m [[_ Hm]%list_elem_of_filter|Hm]%elem_of_app; [by left|right].
    by apply list_elem_of_singleton in Hm.
Qed.

Lemma retry_fold_spec log queue dlq es :
  0 <= maxr < 2 ^ 32 -> NoDup (sm_id <$> queue) -> Forall (from_log log maxr) queue ->
  Forall (entry_ok log) es ->
  let '(queue', dlq') := foldl process_one (queue, dlq) es in
  retry_effect log queue dlq es queue' dlq'.
Proof.
  intros Hmaxr. revert queue dlq. induction es as [|[id p] es IH]; intros queue dlq Hnd Hq Hes.
  { cbn [foldl]. split; try done.
    - by rewrite app_nil_r.
    - intros m Hm. by apply list_elem_of_fmap_2.
    - intros i p Hin. by apply not_elem_of_nil in Hin.
    - by left. }
  apply Forall_cons in Hes as [[Hid Hp] Hes]. cbn [fst snd] in *. cbn [foldl].
  assert (forall queue1 dlq1, process_one (queue, dlq) (id, p) = (queue1, dlq1) ->
    NoDup (sm_id <$> queue1) /\ Forall (from_log log maxr) queue1 /\
    default [] (dlq1 !! dlq_name) = default [] (dlq !! dlq_name) ++
      (if overdue p && (maxr <=? sm_retry_count (pm_msg p)) then [pm_msg p] else []) /\
    (forall n, n <> dlq_name -> dlq1 !! n = dlq !! n) /\
    (forall m, m ∈ queue -> sm_id m ∈ sm_id <$> queue1) /\
    (overdue p = true -> sm_retry_count (pm_msg p) < maxr -> id ∈ sm_id <$> queue1) /\
    (forall m, m ∈ queue1 -> m ∈ queue \/ (overdue p = true /\
       m = set_retry_count (sm_retry_count (pm_msg p) + 1) (pm_msg p)))) as Hone.
  { intros queue1 dlq1. by apply retry_one_spec. }
  destruct (process_one (queue, dlq) (id, p)) as [queue1 dlq1].
  destruct (Hone _ _ eq_refl) as (Hnd1 & Hq1 & Hd1 & Ho1 & Hk1 & Hr1 & Hn1). clear Hone.
  specialize (IH queue1 dlq1 Hnd1 Hq1 Hes). destruct (foldl process_one (queue1, dlq1) es) as [queue' dlq'].
  destruct IH as [Hnd' Hq' Hd' Ho' Hk' Hr' Hn']. split; try done.
  - rewrite Hd', Hd1, <- app_assoc. f_equal. unfold dead_letters. rewrite filter_bool_cons.
    cbn [snd]. by destruct (_ && _).
  - intros n Hn. by rewrite Ho', Ho1.
  - intros m Hm. apply Hk1, list_elem_of_fmap in Hm as (m1 & -> & Hm1). by apply Hk'.
  - intros i q [[= -> ->]|Hin]%elem_of_cons Hov Hlt; [|by eapply Hr'].
    apply Hr1, list_elem_of_fmap in Hov as (m1 & -> & Hm1); [by apply Hk'|done].
  - intros m [Hm|(i & q & Hin & ? & ?)]%Hn'.
    + apply Hn1 in Hm as [?|[? ?]]; [by left|]. right. exists id, p. split; [by left|done].
    + right. exists i, q. split; [by right|done].
Qed.

(** The retry queue after a scan, exactly: a message put back replaces what was
    queued under its id, by an earlier scan or earlier in this one. *)
Lemma retry_fold_queue log queue dlq es :
  0 <= maxr < 2 ^ 32 -> Forall (entry_ok log) es ->
  (foldl process_one (queue, dlq) es).1 =
    filter (λ m, sm_id m ∉ (put_back es).*1) queue ++ (raised <$> latest (put_back es)).
Proof.
  intros Hmaxr. induction es as [|[id p] es IH] using rev_ind; intros Hes.
  { cbn. rewrite app_nil_r. induction queue as [|m queue IH]; [done|].
    by rewrite filter_cons, decide_True, <- IH by apply not_elem_of_nil. }
  apply Forall_app in Hes as [Hes [[Hid [Hcount _]] _]%Forall_cons]. cbn [fst snd] in *.
  rewrite foldl_app. cbn [foldl]. specialize (IH Hes).
  assert (Forall (λ e, sm_id (raised e) = e.1) (latest (put_back es))) as Hraised.
  { apply Forall_forall. intros e He%elem_of_latest. apply list_elem_of_filter in He as [_ He].
    rewrite Forall_forall in Hes. by destruct (Hes e He). }
  destruct (foldl process_one (queue, dlq) es) as [q d]. cbn [fst] in IH. subst q.
  unfold put_back in *. rewrite filter_app, filter_bool_cons, filter_nil. cbn [snd].
  set (again := filter _ es) in *. unfold retry_one, overdue.
  destruct (is_timed_out p); cbn [andb fst]; [|by rewrite app_nil_r].
  destruct (expired now_ms (pm_msg p)); cbn [andb negb fst]; [by rewrite app_nil_r|].
  destruct (maxr <=? sm_retry_count (pm_msg p)) eqn:Hmax; reflect_bools.
  { rewrite (proj2 (Z.ltb_ge _ _)) by lia. by rewrite app_nil_r. }
  rewrite (proj2 (Z.ltb_lt _ _)) by lia. cbn [fst]. rewrite u32_id by lia.
  rewrite latest_snoc, fmap_app, fmap_app, filter_app, list_filter_filter, <- app_assoc.
  f_equal; [|f_equal].
  - apply list_filter_iff. intros m. cbn [fmap list_fmap fst].
    rewrite not_elem_of_app, list_elem_of_singleton. tauto.
  - clear -Hraised. induction Hraised as [|e l He Hl IH]; [done|].
    rewrite fmap_cons, !filter_cons, He, IH. by case_decide.
Qed.
End retry.

Lemma pending_of_drop_empty acks k : pending_of (drop_empty acks) k = pending_of acks k.
Proof.
  unfold pending_of, drop_empty. destruct (acks !! k) as [P|] eqn:HP.
  - destruct (decide (P = ∅)) as [->|Hne].
    + rewrite map_lookup_filter_None_2; [done|]. right. intros P' HP' Hne. simpl in *. congruence.
    + by rewrite (map_lookup_filter_Some_2 _ _ _ P).
  - by rewrite map_lookup_filter_None_2 by by left.
Qed.

Section scan.
Context {B : Type} `{FifoBuffer B} (c maxr timeout now now_ms : Z).
Context (keys : Traversal string) (ids : Traversal MessageId).

(** All pending entries in the order the scan meets them. *)
Definition scanned (acks : gmap string (gmap MessageId PendingMessage))
    : list (MessageId * PendingMessage) :=
  concat ((λ e, entries ids e.2) <$> entries keys acks).

Lemma elem_of_scanned acks id p :
  (id, p) ∈ scanned acks <-> exists k, pending_of acks k !! id = Some p.
Proof.
  unfold scanned. rewrite list_elem_of_In, in_concat. split.
  - intros (l & Hl & Hin). apply list_elem_of_In in Hl, Hin.
    apply list_elem_of_fmap in Hl as ([k P] & -> & HP). exists k.
    apply elem_of_entries in HP, Hin. unfold pending_of. by rewrite HP.
  - intros [k Hk]. unfold pending_of in Hk. destruct (acks !! k) as [P|] eqn:HP.
    + exists (entries ids P). rewrite <- !list_elem_of_In. split.
      * apply list_elem_of_fmap. exists (k, P). split; [done|]. by apply elem_of_entries.
      * by apply elem_of_entries.
    + simpl in Hk. by rewrite lookup_empty in Hk.
Qed.

(** The pending entries of a consumer the scan leaves. *)
Definition remaining (P : gmap MessageId PendingMessage) : gmap MessageId PendingMessage :=
  foldl (λ m id, delete id m) P
    (filter (λ e : MessageId * PendingMessage, timed_out timeout now e.2) (entries ids P)).*1.

Lemma lookup_remaining P id :
  remaining P !! id = p ← P !! id; if timed_out timeout now p then None else Some p.
Proof.
  unfold remaining. rewrite lookup_foldl_delete. case_decide as Hin.
  - apply list_elem_of_fmap in Hin as ([id' p] & -> & [Ht Hin]%list_elem_of_filter).
    apply elem_of_entries in Hin. cbn in *. rewrite Hin. simpl.
    by destruct (timed_out timeout now p).
  - destruct (P !! id) as [p|] eqn:Hp; [|done]. simpl.
    destruct (timed_out timeout now p) eqn:Ht; [|done]. exfalso. apply Hin.
    apply list_elem_of_fmap. exists (id, p). split; [done|]. apply list_elem_of_filter.
    cbn [snd]. split; [by rewrite Ht|]. by apply elem_of_entries.
Qed.

Lemma retry_consumers_fold name acks rq es :
  foldl (retry_consumer maxr timeout now now_ms name ids) (acks, rq) es =
  (foldl (λ a e, <[e.1 := remaining e.2]> a) acks es,
   foldl (retry_one maxr timeout now now_ms name) rq (concat ((λ e, entries ids e.2) <$> es))).
Proof.
  revert acks rq. induction es as [|[k P] es IH]; intros acks rq; [done|].
  transitivity (foldl (retry_consumer maxr timeout now now_ms name ids)
    (<[k := remaining P]> acks,
     foldl (retry_one maxr timeout now now_ms name) rq (entries ids P)) es); [done|].
  rewrite IH. cbn [fmap list_fmap concat fst snd]. by rewrite foldl_app.
Qed.

Lemma pending_of_remaining acks k :
  pending_of (foldl (λ a e, <[e.1 := remaining e.2]> a) acks (entries keys acks)) k =
  remaining (pending_of acks k).
Proof.
  assert (forall es a, NoDup es.*1 ->
    pending_of (foldl (λ a e, <[e.1 := remaining e.2]> a) a es) k =
    match list_to_map (M := gmap string _) es !! k with
    | Some P => remaining P | None => pending_of a k end) as Hfold.
  { induction es as [|[k' P] es IH]; intros a Hnd; [done|].
    cbn [fmap list_fmap fst] in Hnd. apply NoDup_cons in Hnd as [Hk' Hnd].
    cbn [foldl fst snd]. rewrite list_to_map_cons, IH by done.
    destruct (decide (k = k')) as [->|Hne].
    - rewrite lookup_insert_eq, not_elem_of_list_to_map_1 by done. by rewrite pending_of_insert.
    - rewrite lookup_insert_ne by done. rewrite pending_of_set, decide_False by done. done. }
  rewrite Hfold by apply NoDup_entries_keys.
  assert (list_to_map (M := gmap string _) (entries keys acks) = acks) as ->.
  { transitivity (list_to_map (M := gmap string _) (map_to_list acks)).
    - apply list_to_map_proper; [apply NoDup_entries_keys|apply entries_perm].
    - apply list_to_map_to_list. }
  unfold pending_of. destruct (acks !! k); [done|]. simpl.
  apply map_eq. intros id. by rewrite lookup_remaining, lookup_empty.
Qed.

(** The effect of the scan on a topic. *)
Record scan_effect (td : TopicData B) (dlq : gmap TopicName (list StoredMessage))
    (ms : list StoredMessage) (td' : TopicData B)
    (dlq' : gmap TopicName (list StoredMessage)) : Prop := {
  se_inv : topic_inv c maxr td' ms;
  se_log : message_log td' = message_log td;
  se_name : td_topic_name td' = td_topic_name td;
  se_next : next_msg_id td' = next_msg_id td;
  se_offset : forall g k, offset_of g k td' = offset_of g k td;
  se_retry : retry_effect maxr timeout now now_ms (MakeDlqName (td_topic_name td))
    (message_log td) (retry_queue td) dlq (scanned (pending_acks td)) (retry_queue td') dlq';
  se_pending : forall k id, pending_of (pending_acks td') k !! id =
    p ← pending_of (pending_acks td) k !! id; if timed_out timeout now p then None else Some p;
  se_queue : let again := put_back maxr timeout now now_ms (scanned (pending_acks td)) in
    retry_queue td' =
      filter (λ m, sm_id m ∉ again.*1) (retry_queue td) ++ (raised <$> latest again);
}.

Lemma ProcessPendingRetries_spec td ms dlq : 0 <= maxr < 2 ^ 32 -> topic_inv c maxr td ms ->
  exists td' dlq', ProcessPendingRetries maxr timeout keys ids now now_ms td dlq = (td', dlq') /\
    scan_effect td dlq ms td' dlq'.
Proof.
  intros Hmaxr [Hring Hfresh Hsort Hids Hnext Hnd Hretry Hoff Hpend].
  unfold ProcessPendingRetries. rewrite retry_consumers_fold. fold (scanned (pending_acks td)).
  pose proof (retry_fold_spec maxr timeout now now_ms (MakeDlqName (td_topic_name td))
    (message_log td) (retry_queue td) dlq (scanned (pending_acks td)) Hmaxr Hnd Hretry) as Hfold.
  assert (Forall (entry_ok maxr (message_log td)) (scanned (pending_acks td))) as Hentries.
  { apply Forall_forall. intros [id p] [k Hk]%elem_of_scanned.
    destruct (Hpend _ _ _ Hk) as (? & ? & _). done. }
  pose proof (retry_fold_queue maxr timeout now now_ms (MakeDlqName (td_topic_name td))
    (message_log td) (retry_queue td) dlq _ Hmaxr Hentries) as Hqueue.
  destruct (foldl (retry_one _ _ _ _ _) _ _) as [queue' dlq'].
  assert (retry_effect maxr timeout now now_ms (MakeDlqName (td_topic_name td))
    (message_log td) (retry_queue td) dlq (scanned (pending_acks td)) queue' dlq') as Heff
    by by apply Hfold.
  assert (forall k id, pending_of (drop_empty
    (foldl (λ a e, <[e.1 := remaining e.2]> a) (pending_acks td) (entries keys (pending_acks td))))
    k !! id = p ← pending_of (pending_acks td) k !! id;
              if timed_out timeout now p then None else Some p) as Hpo.
  { intros k id. by rewrite pending_of_drop_empty, pending_of_remaining, lookup_remaining. }
  eexists _, _. split; [reflexivity|]. split; try done.
  split; try done; [apply Heff|apply Heff|].
  intros k id p. cbn [pending_acks message_log]. rewrite Hpo.
  destruct (pending_of (pending_acks td) k !! id) as [q|] eqn:Hq; [|done]. simpl.
  destruct (timed_out timeout now q); [done|]. intros [= ->]. by apply Hpend.
Qed.
End scan.

(** ** The expiration scan *)

Section expire.
Context {B : Type} `{FifoBuffer B} (c maxr : Z).

Record expire_effect (now_ms : Z) (td td' : TopicData B) : Prop := {
  ee_log : message_log td' = filter (λ m, expired now_ms m = false) (message_log td);
  ee_retry : retry_queue td' = filter (λ m, expired now_ms m = false) (retry_queue td);
  ee_pending : forall k id, pending_of (pending_acks td') k !! id =
    p ← pending_of (pending_acks td) k !! id;
    if expired now_ms (pm_msg p) then None else Some p;
  ee_name : td_topic_name td' = td_topic_name td;
  ee_next : next_msg_id td' = next_msg_id td;
  ee_offset : forall g k, offset_of g k td' = offset_of g k td;
}.

Lemma from_log_alive now_ms log m : from_log log maxr m -> expired now_ms m = false ->
  from_log (filter (λ m, expired now_ms m = false) log) maxr m.
Proof. intros [? ?] He. split; [done|]. by apply list_elem_of_filter. Qed.

Lemma id_sorted_filter (P : StoredMessage -> Prop) `{forall m, Decision (P m)} l1 l2 :
  id_sorted (l1 ++ l2) -> id_sorted (filter P l1 ++ l2).
Proof.
  induction l1 as [|m l1 IH]; [done|]. simpl. intros [Hs Hall]%StronglySorted_inv.
  rewrite filter_cons. case_decide; [|by apply IH]. simpl. constructor; [by apply IH|].
  rewrite Forall_app in *. destruct Hall as [Hl1 Hl2]. split; [|done].
  apply Forall_forall. intros x [_ Hx]%list_elem_of_filter. rewrite Forall_forall in Hl1. auto.
Qed.

Lemma Forall_filter_app {A} (P : A -> Prop) (Q : A -> Prop) `{forall m, Decision (Q m)} l1 l2 :
  Forall P (l1 ++ l2) -> Forall P (filter Q l1 ++ l2).
Proof.
  rewrite !Forall_app. intros [Hl1 Hl2]. split; [|done].
  apply Forall_forall. intros x [_ Hx]%list_elem_of_filter. rewrite Forall_forall in Hl1. auto.
Qed.

Lemma ExpireTopicMessages_spec now_ms td ms : topic_inv c maxr td ms ->
  topic_inv c maxr (ExpireTopicMessages now_ms td) ms /\
  expire_effect now_ms td (ExpireTopicMessages now_ms td).
Proof.
  intros [Hring Hfresh Hsort Hids Hnext Hnd Hretry Hoff Hpend].
  assert (expire_effect now_ms td (ExpireTopicMessages now_ms td)) as Heff.
  { split; try done.
    - unfold ExpireTopicMessages. cbn [message_log]. apply filter_ext_in. intros m Hm.
      rewrite Forall_forall in Hfresh. destruct (Hfresh m) as [_ _ _ _ _ He];
        [by rewrite elem_of_app; left|].
      unfold expired. rewrite orb_true_iff, andb_false_iff, Z.eqb_eq, Z.leb_le, !Z.ltb_ge. lia.
    - intros k id. unfold ExpireTopicMessages. cbn [pending_acks].
      rewrite pending_of_drop_empty. unfold pending_of. rewrite lookup_fmap.
      destruct (pending_acks td !! k) as [P|]; simpl; [|by rewrite lookup_empty].
      rewrite map_lookup_filter. destruct (P !! id) as [p|]; [|done]. simpl.
      destruct (expired now_ms (pm_msg p)); [by rewrite option_guard_False|].
      by rewrite option_guard_True. }
  split; [|done]. destruct Heff as [Hel Her Hep _ Hen Heo].
  split; try done.
  - rewrite Hel. by apply Forall_filter_app.
  - rewrite Hel. by apply id_sorted_filter.
  - rewrite Hel. by apply Forall_filter_app.
  - rewrite Her. eapply NoDup_sublist; [|exact Hnd]. apply sublist_fmap.
    apply sublist_filter.
  - rewrite Her, Hel. apply Forall_forall. intros m [He Hm]%list_elem_of_filter.
    rewrite Forall_forall in Hretry. apply from_log_alive; [by apply Hretry|done].
  - intros k id p Hp. rewrite Hep in Hp.
    destruct (pending_of (pending_acks td) k !! id) as [q|] eqn:Hq; [|done]. simpl in Hp.
    destruct (expired now_ms (pm_msg q)) eqn:He; [done|]. simplify_eq.
    destruct (Hpend _ _ _ Hq) as (? & Hlog & g & i & ? & ?).
    split; [done|]. split; [rewrite Hel; by apply from_log_alive|]. eauto.
Qed.
End expire.
