(* ===== verification/StoreProps.v ===== *)
(** * The message store: reachable states and properties *)

From S2P Require Import Prelude Types RingBuffer Store StoreSpec StoreInv.

(** ** Runs of operations *)

Inductive store_event :=
  | EvCreate (topic : TopicName)
  | EvDelete (topic : TopicName)
  | EvPublish (topic : TopicName) (payload : Payload) (ttl_ms now_expiry now : Z)
  | EvPull (topic : TopicName) (consumer : string) (max_messages : Z) (is_group : bool)
      (now_ms : Z) (steady_now : nat -> Z)
  | EvAck (topic : TopicName) (consumer : string) (msg_id : MessageId) (is_group : bool)
  | EvPullDlq (topic : TopicName) (max_messages : Z)
  | EvRetry (topic : TopicName) (s : scan)
  | EvExpire (topic : TopicName) (now_ms : Z).

Section props.
Context {B : Type} `{FifoBuffer B}.

Definition store_step (st : MemoryMessageStore B) (e : store_event) : MemoryMessageStore B :=
  match e with
  | EvCreate topic => snd (CreateTopic topic st)
  | EvDelete topic => snd (DeleteTopic topic st)
  | EvPublish topic payload ttl now1 now2 => snd (Publish topic payload ttl now1 now2 st)
  | EvPull topic consumer max g now steady => snd (Pull topic consumer max g now steady st)
  | EvAck topic consumer mid g => snd (Ack topic consumer mid g st)
  | EvPullDlq topic max => snd (PullDlq topic max st)
  | EvRetry topic s => retry_topic st (topic, s)
  | EvExpire topic now => expire_topic st (topic, now)
  end.

Definition store_run (st : MemoryMessageStore B) (evs : list store_event) : MemoryMessageStore B :=
  foldl store_step st evs.

(** Arguments in the ranges of their C++ types; a payload's record must not
    exceed the 32-bit length header (frames are at most 16 MB). *)
Definition event_ok (e : store_event) : Prop :=
  match e with
  | EvPublish _ payload _ _ now => zlen payload + 28 < 2 ^ 32 /\ 0 <= now < 2 ^ 64
  | EvPull _ _ max _ _ _ => 0 <= max
  | _ => True
  end.

#[export] Instance event_ok_dec e : Decision (event_ok e).
Proof. destruct e; apply _. Defined.

(** The parameters a store is made with: a ring no larger than a message the
    ring hands out, and a 32-bit retry limit. *)
Definition params_ok (c maxr : Z) : Prop := 0 <= c <= kMaxPayloadSize /\ 0 <= maxr < 2 ^ 32.

(** The messages of a topic, delivered or not: the log and the ring buffer. *)
Definition contents (td : TopicData B) : list StoredMessage := message_log (DrainRingBuffer td).

(** [n] bounds the number of messages published so far. *)
Record store_inv (c maxr : Z) (n : Z) (st : MemoryMessageStore B) : Prop := {
  si_buffer : default_buffer_size_ st = c;
  si_retry : max_retry_count_ st = maxr;
  si_topic : forall topic td, topics_ st !! topic = Some td ->
    td_topic_name td = topic /\ next_msg_id td <= n + 1 /\ exists ms, topic_inv c maxr td ms;
  si_dlq : forall name l, dlq_storage_ st !! name = Some l ->
    Forall (λ m, sm_retry_count m = maxr) l;
}.

Lemma contents_eq c maxr td ms : c <= kMaxPayloadSize -> topic_inv c maxr td ms ->
  contents td = message_log td ++ ms.
Proof.
  intros Hc [Hring Hfresh _ _ _ _ _ _ _]. apply Forall_app in Hfresh as [_ Hms].
  unfold contents. by destruct (DrainRingBuffer_spec c td ms Hc Hring Hms) as (r & -> & _).
Qed.

(** Replacing one topic. *)
Lemma store_inv_insert c maxr n st topic td ms :
  store_inv c maxr n st -> td_topic_name td = topic -> next_msg_id td <= n + 1 ->
  topic_inv c maxr td ms -> store_inv c maxr n (with_topics (insert topic td) st).
Proof.
  intros [Hb Hr Ht Hd] Hname Hn Hinv. split; try done.
  intros topic' td'. cbn. destruct (decide (topic' = topic)) as [->|Hne].
  - rewrite lookup_insert_eq. intros [= <-]. eauto.
  - rewrite lookup_insert_ne by done. apply Ht.
Qed.

Lemma store_inv_weaken c maxr n n' st : n <= n' -> store_inv c maxr n st -> store_inv c maxr n' st.
Proof.
  intros Hn [Hb Hr Ht Hd]. split; try done. intros topic td Htd.
  destruct (Ht _ _ Htd) as (? & ? & ?). split; [done|]. split; [lia|done].
Qed.

Lemma store_inv_dlq c maxr n st dlq : store_inv c maxr n st ->
  (forall name l, dlq !! name = Some l -> Forall (λ m, sm_retry_count m = maxr) l) ->
  store_inv c maxr n (with_dlq dlq st).
Proof. by intros [Hb Hr Ht Hd] Hdlq. Qed.

Lemma dead_letters_retry timeout now now_ms maxr log es :
  Forall (entry_ok maxr log) es ->
  Forall (λ m, sm_retry_count m = maxr) (dead_letters maxr timeout now now_ms es).
Proof.
  intros Hes. apply Forall_forall. intros m ([id p] & -> & [Hp Hin]%list_elem_of_filter)%list_elem_of_fmap.
  rewrite Forall_forall in Hes. destruct (Hes _ Hin) as [_ [Hrange _]]. cbn in *.
  reflect_bools. lia.
Qed.

Lemma params_ring c : 0 <= c <= kMaxPayloadSize -> 2 * (c + 1) <= 2 ^ 64.
Proof. unfold kMaxPayloadSize. lia. Qed.

(** The topic a publish works on, existing or new. *)
Lemma publish_target c maxr n st topic : params_ok c maxr -> store_inv c maxr n st -> 0 <= n ->
  let td := default (TopicData_new (default_buffer_size_ st) topic) (topics_ st !! topic) in
  td_topic_name td = topic /\ next_msg_id td <= n + 1 /\ exists ms, topic_inv c maxr td ms.
Proof.
  intros [Hc Hr] [Hb _ Ht _] Hn. cbv zeta. destruct (topics_ st !! topic) as [td|] eqn:Htd.
  - by apply Ht.
  - simpl. split; [done|]. split; [lia|]. exists []. rewrite Hb.
    apply topic_inv_new; [lia|by apply params_ring].
Qed.

Lemma store_step_inv c maxr n st e :
  params_ok c maxr -> 0 <= n < 2 ^ 64 - 2 -> event_ok e -> store_inv c maxr n st ->
  store_inv c maxr (n + 1) (store_step st e).
Proof.
  intros Hpar Hn He Hst. pose proof Hpar as [Hc Hr]. pose proof Hst as [Hb Hmr Ht Hd].
  apply (store_inv_weaken c maxr n (n + 1)) in Hst as Hst1; [|lia].
  destruct e as [topic|topic|topic payload ttl now1 now2|topic cons max g now steady
    |topic cons mid g|topic max|topic s|topic now]; cbn [store_step].
  - unfold CreateTopic. destruct (topics_ st !! topic) eqn:Htd; [done|].
    apply (store_inv_insert _ _ _ _ _ _ []); [done|done|simpl; lia|].
    rewrite Hb. apply topic_inv_new; [lia|by apply params_ring].
  - unfold DeleteTopic. destruct (topics_ st !! topic) eqn:Htd; [|done].
    apply store_inv_dlq.
    + destruct Hst1 as [? ? Ht1 ?]. split; try done. intros topic' td'. cbn.
      intros [_ ?]%lookup_delete_Some. by apply Ht1.
    + intros name l [_ ?]%lookup_delete_Some. by apply (Hd name).
  - destruct He as [Hpl Hnow].
    destruct (publish_target c maxr n st topic Hpar Hst) as (Hname & Hid & ms & Hinv); [lia|].
    unfold Publish. set (td := default _ _) in *.
    destruct (publish_topic_spec c maxr td ms payload ttl now1 now2 Hinv)
      as (td' & -> & Hinv' & Hname' & _ & _ & _ & Hnext & _); [lia|done|done|].
    eapply store_inv_insert; [done|congruence|lia|done].
  - unfold Pull. destruct (topics_ st !! topic) as [td|] eqn:Htd; [|done].
    destruct (Ht _ _ Htd) as (Hname & Hid & ms & Hinv).
    destruct (pull_topic_spec c maxr ltac:(lia) ltac:(lia) td ms cons max g now steady Hinv He)
      as (res & td' & -> & [_ Hinv' _ Hname' Hnext' _ _ _ _ _ _ _]).
    eapply store_inv_insert; [done|congruence|lia|done].
  - unfold Ack. destruct (topics_ st !! topic) as [td|] eqn:Htd; [|done].
    destruct (Ht _ _ Htd) as (Hname & Hid & ms & Hinv).
    destruct (ack_topic_spec c maxr td ms cons mid g Hinv) as (td' & -> & Hinv' & _ & acks & ->).
    eapply store_inv_insert; [done|done|cbn; lia|done].
  - unfold PullDlq. destruct (dlq_storage_ st !! MakeDlqName topic) as [l|] eqn:Hl; [|done].
    apply store_inv_dlq; [done|]. intros name l'.
    destruct (decide (name = MakeDlqName topic)) as [->|Hne].
    + rewrite lookup_insert_eq. intros [= <-]. apply Forall_drop. by eapply Hd.
    + rewrite lookup_insert_ne by done. apply Hd.
  - unfold retry_topic. destruct (topics_ st !! topic) as [td|] eqn:Htd; [|done].
    destruct (Ht _ _ Htd) as (Hname & Hid & ms & Hinv). rewrite Hmr.
    destruct (ProcessPendingRetries_spec c maxr (pending_timeout_ms_ st) (scan_now s) (scan_now_ms s)
      (scan_keys s) (scan_ids s) td ms (dlq_storage_ st) Hr Hinv)
      as (td' & dlq' & -> & [Hinv' _ Hname' Hnext' _ Hre _]).
    apply store_inv_dlq; [eapply store_inv_insert; [done|congruence|lia|done]|].
    intros name l Hl. destruct (decide (name = MakeDlqName (td_topic_name td))) as [->|Hne].
    + pose proof (re_dlq _ _ _ _ _ _ _ _ _ _ _ Hre) as Hdlq. rewrite Hl in Hdlq. simpl in Hdlq.
      rewrite Hdlq. apply Forall_app. split.
      * destruct (dlq_storage_ st !! MakeDlqName (td_topic_name td)) eqn:Hold; [|by constructor].
        by eapply Hd.
      * eapply dead_letters_retry, Forall_forall. intros [i p] [k Hk]%elem_of_scanned.
        destruct Hinv as [_ _ _ _ _ _ _ _ Hpend]. destruct (Hpend _ _ _ Hk) as (? & ? & _). done.
    + rewrite (re_dlq_other _ _ _ _ _ _ _ _ _ _ _ Hre) in Hl by done. by eapply Hd.
  - unfold expire_topic. destruct (topics_ st !! topic) as [td|] eqn:Htd; [|done].
    destruct (Ht _ _ Htd) as (Hname & Hid & ms & Hinv).
    destruct (ExpireTopicMessages_spec c maxr now td ms Hinv) as [Hinv' _].
    eapply store_inv_insert; [done|done|cbn; lia|done].
Qed.

Lemma store_run_inv c maxr n st evs :
  params_ok c maxr -> 0 <= n -> n + zlen evs < 2 ^ 64 - 2 -> Forall event_ok evs ->
  store_inv c maxr n st -> store_inv c maxr (n + zlen evs) (store_run st evs).
Proof.
  intros Hp. revert n st. induction evs as [|e evs IH]; intros n st Hn Hlen Hev Hst.
  - simpl. by rewrite Z.add_0_r.
  - apply Forall_cons in Hev as [He Hev]. cbn [length] in *. cbn [store_run foldl].
    replace (n + Z.of_nat (S (length evs))) with (n + 1 + zlen evs) by lia.
    apply IH; [lia|lia|done|]. apply store_step_inv; [done|lia|done|done].
Qed.

Lemma store_inv_new c maxr timeout : store_inv c maxr 0 (MemoryMessageStore_new c maxr timeout).
Proof.
  split; try done; cbn; intros; by rewrite lookup_empty in *.
Qed.

(** ** What the operations do to a topic's contents *)

Definition same_topic_event (topic : TopicName) (e : store_event) : bool :=
  match e with
  | EvCreate t | EvDelete t | EvPublish t _ _ _ _ | EvPull t _ _ _ _ _ | EvAck t _ _ _
  | EvPullDlq t _ | EvRetry t _ | EvExpire t _ => bool_decide (t = topic)
  end.

Definition deletes (topic : TopicName) (e : store_event) : bool :=
  match e with EvDelete t => bool_decide (t = topic) | _ => false end.

Definition pulls (topic : TopicName) (g : bool) (cons : string) (e : store_event) : bool :=
  match e with
  | EvPull t c _ h _ _ => bool_decide (t = topic /\ c = cons /\ h = g)
  | _ => false
  end.

(** Every step but a deletion takes a topic to a topic, by one of these. *)
Inductive topic_step (maxr : Z) (timeout : Z) (e : store_event) (td td' : TopicData B) : Prop :=
  | TS_same : td' = td -> topic_step maxr timeout e td td'
  | TS_publish t payload ttl now1 now2 : e = EvPublish t payload ttl now1 now2 ->
      snd (publish_topic payload ttl now1 now2 td) = td' -> topic_step maxr timeout e td td'
  | TS_pull t cons max g now steady : e = EvPull t cons max g now steady ->
      snd (pull_topic cons max g now steady td) = td' -> topic_step maxr timeout e td td'
  | TS_ack t cons mid g : e = EvAck t cons mid g ->
      snd (ack_topic cons mid g td) = td' -> topic_step maxr timeout e td td'
  | TS_retry t s dlq : e = EvRetry t s ->
      fst (ProcessPendingRetries maxr timeout (scan_keys s) (scan_ids s) (scan_now s)
             (scan_now_ms s) td dlq) = td' -> topic_step maxr timeout e td td'
  | TS_expire t now : e = EvExpire t now -> ExpireTopicMessages now td = td' ->
      topic_step maxr timeout e td td'.

Lemma store_step_topic st e topic td :
  topics_ st !! topic = Some td -> deletes topic e = false ->
  exists td', topics_ (store_step st e) !! topic = Some td' /\
    (td' = td \/ same_topic_event topic e = true) /\
    topic_step (max_retry_count_ st) (pending_timeout_ms_ st) e td td'.
Proof.
  intros Htd Hdel.
  assert (forall t (x : TopicData B), t <> topic -> (<[t := x]> (topics_ st)) !! topic = Some td)
    as Hother by (intros; by rewrite lookup_insert_ne).
  assert (forall td', topics_ (store_step st e) !! topic = Some td -> td' = td ->
    exists td', topics_ (store_step st e) !! topic = Some td' /\
    (td' = td \/ same_topic_event topic e = true) /\
    topic_step (max_retry_count_ st) (pending_timeout_ms_ st) e td td') as Hsame.
  { intros td' Ht _. exists td. split; [done|]. split; [by left|by apply TS_same]. }
  specialize (Hsame td).
  destruct e as [t|t|t payload ttl now1 now2|t cons max g now steady|t cons mid g|t max|t s|t now];
    cbn [store_step deletes same_topic_event] in *.
  - apply Hsame; [|done]. unfold CreateTopic. destruct (topics_ st !! t) eqn:Ht; [done|].
    apply Hother. congruence.
  - apply Hsame; [|done]. unfold DeleteTopic. destruct (topics_ st !! t) eqn:Ht; [|done].
    apply bool_decide_eq_false in Hdel. cbn. by rewrite lookup_delete_ne.
  - unfold Publish in *. destruct (decide (t = topic)) as [->|Hne].
    + rewrite Htd. cbn [default from_option id].
      destruct (publish_topic payload ttl now1 now2 td) as [r td'] eqn:E. exists td'. cbn.
      rewrite lookup_insert_eq. split; [done|]. split; [right; by apply bool_decide_true|].
      eapply TS_publish; [done|]. by rewrite E.
    + apply Hsame; [|done]. destruct (publish_topic _ _ _ _ _). by apply Hother.
  - unfold Pull in *. destruct (decide (t = topic)) as [->|Hne].
    + rewrite Htd. destruct (pull_topic cons max g now steady td) as [r td'] eqn:E. exists td'. cbn.
      rewrite lookup_insert_eq. split; [done|]. split; [right; by apply bool_decide_true|].
      eapply TS_pull; [done|]. by rewrite E.
    + apply Hsame; [|done]. destruct (topics_ st !! t); [|done].
      destruct (pull_topic _ _ _ _ _ _). by apply Hother.
  - unfold Ack in *. destruct (decide (t = topic)) as [->|Hne].
    + rewrite Htd. destruct (ack_topic cons mid g td) as [r td'] eqn:E. exists td'. cbn.
      rewrite lookup_insert_eq. split; [done|]. split; [right; by apply bool_decide_true|].
      eapply TS_ack; [done|]. by rewrite E.
    + apply Hsame; [|done]. destruct (topics_ st !! t); [|done].
      destruct (ack_topic _ _ _ _). by apply Hother.
  - apply Hsame; [|done]. unfold PullDlq. by destruct (dlq_storage_ st !! MakeDlqName t).
  - unfold retry_topic in *. destruct (decide (t = topic)) as [->|Hne].
    + rewrite Htd. destruct (ProcessPendingRetries _ _ _ _ _ _ td _) as [td' dlq'] eqn:E.
      exists td'. cbn. rewrite lookup_insert_eq. split; [done|].
      split; [right; by apply bool_decide_true|].
      eapply (TS_retry _ _ _ _ _ topic s (dlq_storage_ st)); [done|]. by rewrite E.
    + apply Hsame; [|done]. destruct (topics_ st !! t); [|done].
      destruct (ProcessPendingRetries _ _ _ _ _ _ _ _). by apply Hother.
  - unfold expire_topic in *. destruct (decide (t = topic)) as [->|Hne].
    + rewrite Htd. exists (ExpireTopicMessages now td). cbn.
      rewrite lookup_insert_eq. split; [done|]. split; [right; by apply bool_decide_true|].
      by eapply TS_expire.
    + apply Hsame; [|done]. destruct (topics_ st !! t); [|done]. by apply Hother.
Qed.

(** Contents and offsets under a step of the topic. *)
Lemma topic_step_contents c maxr timeout e td td' ms :
  0 <= c <= kMaxPayloadSize -> 0 <= maxr < 2 ^ 32 -> event_ok e ->
  topic_inv c maxr td ms -> next_msg_id td < 2 ^ 64 - 1 -> topic_step maxr timeout e td td' ->
  forall m, m ∈ contents td ->
    (forall t now, e = EvExpire t now -> expired now m = false) -> m ∈ contents td'.
Proof.
  intros Hc Hr He Hinv Hn Hstep m Hm Hexp.
  assert (Hcm : c <= kMaxPayloadSize) by lia.
  pose proof (contents_eq c maxr td ms Hcm Hinv) as Hcont. rewrite Hcont in Hm.
  destruct Hstep as [->|t payload ttl now1 now2 -> <-|t cons max g now steady -> <-
    |t cons mid g -> <-|t s dlq -> <-|t now -> <-].
  - by rewrite Hcont.
  - destruct He as [Hpl Hnow].
    destruct (publish_topic_spec c maxr td ms payload ttl now1 now2 Hinv Hn Hpl Hnow)
      as (td' & -> & Hinv' & _ & Hlog & _). cbn [snd].
    rewrite (contents_eq _ _ _ _ Hcm Hinv'), Hlog.
    destruct (fits _ _ _); [|done]. rewrite app_assoc, elem_of_app. by left.
  - destruct (pull_topic_spec c maxr ltac:(lia) ltac:(lia) td ms cons max g now steady Hinv He)
      as (res & td' & -> & Heff). cbn [snd].
    rewrite (contents_eq _ _ _ _ Hcm (pe_inv _ _ _ _ _ _ _ _ _ _ Heff)).
    by rewrite (pe_log _ _ _ _ _ _ _ _ _ _ Heff), app_nil_r.
  - destruct (ack_topic_spec c maxr td ms cons mid g Hinv) as (td' & -> & Hinv' & _ & acks & ->).
    cbn [snd]. by rewrite (contents_eq _ _ _ _ Hcm Hinv').
  - destruct (ProcessPendingRetries_spec c maxr timeout (scan_now s) (scan_now_ms s)
      (scan_keys s) (scan_ids s) td ms dlq Hr Hinv) as (td' & dlq' & -> & Heff). cbn [fst].
    rewrite (contents_eq _ _ _ _ Hcm (se_inv _ _ _ _ _ _ _ _ _ _ _ _ Heff)).
    by rewrite (se_log _ _ _ _ _ _ _ _ _ _ _ _ Heff).
  - destruct (ExpireTopicMessages_spec c maxr now td ms Hinv) as [Hinv' Heff].
    rewrite (contents_eq _ _ _ _ Hcm Hinv'), (ee_log _ _ _ Heff).
    apply elem_of_app in Hm as [Hm|Hm]; rewrite elem_of_app; [left|by right].
    apply list_elem_of_filter. split; [by eapply Hexp|done].
Qed.

Lemma topic_step_offset c maxr timeout e td td' ms g cons :
  0 <= c <= kMaxPayloadSize -> 0 <= maxr < 2 ^ 32 -> event_ok e ->
  topic_inv c maxr td ms -> next_msg_id td < 2 ^ 64 - 1 -> topic_step maxr timeout e td td' ->
  (forall t max now steady, e <> EvPull t cons max g now steady) ->
  offset_of g (MakeConsumerKey g cons) td' = offset_of g (MakeConsumerKey g cons) td.
Proof.
  intros Hc Hr He Hinv Hn Hstep Hpull.
  destruct Hstep as [->|t payload ttl now1 now2 -> <-|t cons' max g' now steady -> <-
    |t cons' mid g' -> <-|t s dlq -> <-|t now -> <-].
  - done.
  - destruct He as [Hpl Hnow].
    destruct (publish_topic_spec c maxr td ms payload ttl now1 now2 Hinv Hn Hpl Hnow)
      as (td' & -> & _ & _ & _ & _ & _ & _ & Hoff). apply Hoff.
  - destruct (pull_topic_spec c maxr ltac:(lia) ltac:(lia) td ms cons' max g' now steady Hinv He)
      as (res & td' & -> & Heff). cbn [snd]. apply (pe_offset_other _ _ _ _ _ _ _ _ _ _ Heff).
    destruct (decide (g = g')) as [->|]; [right|by left].
    intros [_ ->]%MakeConsumerKey_inj. by eapply Hpull.
  - destruct (ack_topic_spec c maxr td ms cons' mid g' Hinv) as (td' & -> & _ & _ & acks & ->). done.
  - destruct (ProcessPendingRetries_spec c maxr timeout (scan_now s) (scan_now_ms s)
      (scan_keys s) (scan_ids s) td ms dlq Hr Hinv) as (td' & dlq' & -> & Heff). apply Heff.
  - destruct (ExpireTopicMessages_spec c maxr now td ms Hinv) as [_ Heff]. apply Heff.
Qed.

(** ** A message stays in its topic; an acknowledged one stays settled *)

(** [m] is in the topic, ahead of the consumer's offset. *)
Definition awaits (topic : TopicName) (g : bool) (cons : string) (m : StoredMessage)
    (st : MemoryMessageStore B) : Prop :=
  exists td, topics_ st !! topic = Some td /\ m ∈ contents td /\
    offset_of g (MakeConsumerKey g cons) td <= sm_id m.

(** The only consumer of a topic is [g], [cons]. *)
Record sole_consumer (g : bool) (cons : string) (td : TopicData B) : Prop := {
  so_pending : forall k, k <> MakeConsumerKey g cons -> pending_of (pending_acks td) k = ∅;
  so_retry : forall m, m ∈ retry_queue td ->
    sm_id m < offset_of g (MakeConsumerKey g cons) td /\
    pending_of (pending_acks td) (MakeConsumerKey g cons) !! sm_id m = None;
}.

(** Handed out, acknowledged or dropped: neither pending nor to be retried. *)
Definition settled (g : bool) (cons : string) (id : MessageId) (td : TopicData B) : Prop :=
  id < offset_of g (MakeConsumerKey g cons) td /\
  (id ∉ (sm_id <$> retry_queue td)) /\
  pending_of (pending_acks td) (MakeConsumerKey g cons) !! id = None.

Definition only_pulled_by (topic : TopicName) (g : bool) (cons : string) (e : store_event) : Prop :=
  forall c max h now steady, e = EvPull topic c max h now steady -> c = cons /\ h = g.

Lemma awaits_step c maxr n st e topic g cons m :
  params_ok c maxr -> 0 <= n < 2 ^ 64 - 2 -> store_inv c maxr n st -> event_ok e ->
  deletes topic e = false -> pulls topic g cons e = false -> sm_expires_at m = 0 ->
  awaits topic g cons m st -> awaits topic g cons m (store_step st e).
Proof.
  intros [Hc Hr] Hn Hst He Hdel Hpull Hexp (td & Htd & Hm & Hoff).
  destruct (store_step_topic st e topic td Htd Hdel) as (td' & Htd' & Hsame & Hstep).
  exists td'. split; [done|]. destruct Hsame as [->|Hsame]; [done|].
  destruct Hst as [_ Hmr Ht _]. rewrite Hmr in Hstep.
  destruct (Ht _ _ Htd) as (_ & Hnext & ms & Hinv). split.
  - eapply topic_step_contents; [done..|lia|done|done|].
    intros t now _. unfold expired. by rewrite Hexp.
  - erewrite topic_step_offset; [done|done..|lia|done|].
    intros t max now steady ->. cbn in *. reflect_bools. subst.
    tauto.
Qed.

Lemma awaits_run c maxr n st evs topic g cons m :
  params_ok c maxr -> 0 <= n -> n + zlen evs < 2 ^ 64 - 2 -> store_inv c maxr n st ->
  Forall event_ok evs ->
  Forall (λ e, deletes topic e = false /\ pulls topic g cons e = false) evs ->
  sm_expires_at m = 0 -> awaits topic g cons m st -> awaits topic g cons m (store_run st evs).
Proof.
  intros Hp. revert n st. induction evs as [|e evs IH]; intros n st Hn Hlen Hst Hok Hev Hexp Ha;
    [done|].
  apply Forall_cons in Hok as [He Hok]. apply Forall_cons in Hev as [[Hd Hpl] Hev].
  cbn [length store_run foldl] in *.
  apply (IH (n + 1)); [lia|lia| |done|done|done|].
  - apply store_step_inv; [done|lia|done|done].
  - eapply awaits_step; eauto with lia.
Qed.

Lemma sole_consumer_new (topic : TopicName) c g cons : sole_consumer g cons (TopicData_new c topic).
Proof.
  split; cbn.
  - intros k _. unfold pending_of. by rewrite lookup_empty.
  - intros m Hm. by apply not_elem_of_nil in Hm.
Qed.

Lemma sole_pull c maxr td ms g cons max now steady :
  c <= kMaxPayloadSize -> 0 <= maxr < 2 ^ 32 -> 0 <= max -> topic_inv c maxr td ms ->
  sole_consumer g cons td ->
  exists result td', pull_topic cons max g now steady td = (result, td') /\
    sole_consumer g cons td' /\
    forall id, settled g cons id td -> settled g cons id td' /\ id ∉ (sm_id <$> result).
Proof.
  intros Hc Hr Hmax Hinv [Hsp Hsr]. set (key := MakeConsumerKey g cons) in Hsp, Hsr |- *.
  destruct (pull_topic_spec c maxr Hc Hr td ms cons max g now steady Hinv Hmax)
    as (res & td' & Hpull & Heff). exists res, td'. split; [done|].
  destruct Heff as [Hres Hinv' _ _ _ Hh _ Hsub _ Hgone _ Hmono _].
  fold key in Hres, Hh, Hgone.
  assert (forall id, id ∈ (sm_id <$> res) ->
    offset_of g key td <= id \/ id ∈ (sm_id <$> retry_queue td)) as Hfrom.
  { intros id (m & -> & Hm)%list_elem_of_fmap. rewrite Hres in Hm.
    apply elem_of_app in Hm as [Hm|Hm].
    - left. by apply elem_of_pull_fresh in Hm as (_ & ? & _).
    - right. apply elem_of_pull_again in Hm as (Hm & _). by apply list_elem_of_fmap_2. }
  assert (forall m, m ∈ retry_queue td' -> m ∈ retry_queue td /\ sm_id m ∉ (sm_id <$> res)) as Hq.
  { intros m Hm. pose proof (sublist_subseteq _ _ Hsub _ Hm) as Hm0. split; [done|].
    intros (m2 & Heq & Hm2)%list_elem_of_fmap. destruct (Hsr m Hm0) as [Hlt _].
    assert (m2 ∉ retry_queue td') as Hno by (apply Hgone; [done|lia]). apply Hno.
    assert (m2 = m) as ->; [|done].
    rewrite Hres in Hm2. apply elem_of_app in Hm2 as [Hm2|Hm2].
    - apply elem_of_pull_fresh in Hm2 as (_ & ? & _). lia.
    - apply elem_of_pull_again in Hm2 as (Hm2 & _).
      destruct Hinv as [_ _ _ _ _ Hnd _ _ _].
      apply list_elem_of_lookup in Hm0 as [i Hi], Hm2 as [j Hj].
      assert (j = i) as ->; [|congruence].
      eapply (NoDup_lookup _ j i (sm_id m) Hnd); rewrite list_lookup_fmap, ?Hi, ?Hj; simpl; congruence. }
  split.
  - split.
    + intros k Hk. unfold pending_of. rewrite (ho_other _ _ _ _ Hh k Hk). by apply Hsp.
    + intros m Hm. apply Hq in Hm as [Hm Hno]. destruct (Hsr m Hm) as [Hlt Hnone].
      specialize (Hmono g key). split; [fold key; lia|].
      by rewrite (ho_old _ _ _ _ Hh).
  - intros id (Hlt & Hnq & Hnone).
    assert (id ∉ (sm_id <$> res)) as Hno by (intros [|]%Hfrom; [fold key in Hlt; lia|done]).
    split; [|done]. split; [specialize (Hmono g key); fold key in Hlt |- *; lia|]. split.
    + intros (m & -> & Hm)%list_elem_of_fmap. apply Hnq, list_elem_of_fmap_2. by apply Hq.
    + fold key. by rewrite (ho_old _ _ _ _ Hh).
Qed.

Lemma sole_ack c maxr td ms g cons mid td1 :
  topic_inv c maxr td ms -> sole_consumer g cons td -> ack_topic cons mid g td = (true, td1) ->
  sole_consumer g cons td1 /\ settled g cons mid td1.
Proof.
  intros Hinv [Hsp Hsr] Hack. set (key := MakeConsumerKey g cons) in Hsp, Hsr |- *.
  destruct (ack_topic_spec c maxr td ms cons mid g Hinv) as (td' & Heq & Hinv' & Hp & acks & ->).
  rewrite Hack in Heq. injection Heq as Hsome ->. symmetry in Hsome.
  apply bool_decide_eq_true in Hsome as [p Hpend]. fold key in Hpend.
  set (td' := with_pending acks td) in *.
  assert (mid ∉ (sm_id <$> retry_queue td)) as Hq.
  { intros (m & -> & Hm)%list_elem_of_fmap. destruct (Hsr m Hm) as [_ Hn]. congruence. }
  split; [split|split_and!].
  - intros k Hk. rewrite Hp, decide_False by done. by apply Hsp.
  - intros m Hm. destruct (Hsr m Hm) as [Hlt Hn]. split; [done|]. fold key. rewrite Hp.
    case_decide; [|done]. by apply lookup_delete_None; right.
  - destruct Hinv as [_ _ _ _ _ _ _ _ Hok].
    destruct (Hok _ _ _ Hpend) as (_ & _ & g' & i & [<- _]%MakeConsumerKey_inj & Hlt). done.
  - done.
  - fold key. rewrite Hp, decide_True by done. apply lookup_delete_eq.
Qed.

Lemma sole_step c maxr timeout e td td' ms topic g cons :
  0 <= c <= kMaxPayloadSize -> 0 <= maxr < 2 ^ 32 -> event_ok e ->
  topic_inv c maxr td ms -> next_msg_id td < 2 ^ 64 - 1 -> topic_step maxr timeout e td td' ->
  (td' = td \/ same_topic_event topic e = true) -> only_pulled_by topic g cons e ->
  sole_consumer g cons td ->
  sole_consumer g cons td' /\ forall id, settled g cons id td -> settled g cons id td'.
Proof.
  intros Hc Hr He Hinv Hn Hstep Hsame Hby Hsole.
  destruct Hsame as [->|Hsame]; [done|].
  assert (Hcm : c <= kMaxPayloadSize) by lia.
  destruct Hstep as [->|t payload ttl now1 now2 -> <-|t cons' max g' now steady -> <-
    |t cons' mid g' -> <-|t s dlq -> <-|t now -> <-]; [done|..].
  - destruct He as [Hpl Hnow].
    destruct (publish_topic_spec c maxr td ms payload ttl now1 now2 Hinv Hn Hpl Hnow)
      as (td' & -> & _ & _ & _ & Hq & Hp & _ & Hoff). cbn [snd].
    destruct Hsole as [Hsp Hsr]. unfold settled. rewrite !Hoff, Hq, Hp.
    split; [|done]. split; rewrite ?Hp, ?Hq, ?Hoff; done.
  - cbn in Hsame. apply bool_decide_eq_true in Hsame as ->.
    destruct (Hby _ _ _ _ _ eq_refl) as [-> ->].
    destruct (sole_pull c maxr td ms g cons max now steady Hcm Hr He Hinv Hsole)
      as (res & td' & -> & Hs & Hset). split; [done|]. intros id Hid. by apply Hset.
  - destruct (ack_topic_spec c maxr td ms cons' mid g' Hinv) as (td' & -> & _ & Hp & acks & ->).
    cbn [snd] in *. destruct Hsole as [Hsp Hsr]. unfold settled.
    assert (forall k id, pending_of (pending_acks td) k !! id = None ->
      pending_of (pending_acks (with_pending acks td)) k !! id = None) as Hnone.
    { intros k id Hk. rewrite Hp. case_decide; [|done]. by apply lookup_delete_None; right. }
    split; [split|].
    + intros k Hk. rewrite Hp, Hsp by done. case_decide; [|done]. apply delete_empty.
    + intros m Hm. destruct (Hsr m Hm). split; [done|]. by apply Hnone.
    + intros id (? & ? & ?). split_and!; try done. by apply Hnone.
  - destruct (ProcessPendingRetries_spec c maxr timeout (scan_now s) (scan_now_ms s)
      (scan_keys s) (scan_ids s) td ms dlq Hr Hinv) as (td' & dlq' & -> & Heff). cbn [fst].
    destruct Heff as [_ _ _ _ Hoff Hre Hp]. destruct Hsole as [Hsp Hsr]. unfold settled.
    set (key := MakeConsumerKey g cons) in *.
    assert (forall m, m ∈ retry_queue td' -> m ∈ retry_queue td \/
      exists p, pending_of (pending_acks td) key !! sm_id m = Some p /\
        timed_out timeout (scan_now s) p = true) as Hnew.
    { intros m Hm. destruct (re_queue_new _ _ _ _ _ _ _ _ _ _ _ Hre m Hm)
        as [?|(id & p & [k Hk]%elem_of_scanned & Hov & ->)]; [by left|right].
      destruct (decide (k = key)) as [->|Hne].
      - destruct Hinv as [_ _ _ _ _ _ _ _ Hpend]. destruct (Hpend _ _ _ Hk) as (Hid & _).
        exists p. cbn. rewrite Hid. split; [done|]. unfold overdue in Hov. by reflect_bools.
      - rewrite (Hsp k Hne), lookup_empty in Hk. done. }
    assert (forall id, pending_of (pending_acks td) key !! id = None ->
      pending_of (pending_acks td') key !! id = None) as Hnone
      by (intros id Hid; by rewrite Hp, Hid).
    assert (forall id p, pending_of (pending_acks td) key !! id = Some p -> id < offset_of g key td)
      as Hlt.
    { intros id p Hk. destruct Hinv as [_ _ _ _ _ _ _ _ Hpend].
      destruct (Hpend _ _ _ Hk) as (_ & _ & g' & i & [<- _]%MakeConsumerKey_inj & ?). done. }
    split; [split|].
    + intros k Hk. apply map_eq. intros id. rewrite Hp, Hsp by done. by rewrite lookup_empty.
    + intros m Hm. rewrite Hoff. destruct (Hnew m Hm) as [Hold|(p & Hpm & Hto)].
      * destruct (Hsr m Hold). split; [done|by apply Hnone].
      * split; [by eapply Hlt|]. fold key. rewrite Hp, Hpm. simpl. by rewrite Hto.
    + intros id (Hi & Hq & Hn0). rewrite Hoff. split_and!; [done| |by apply Hnone].
      intros (m & -> & Hm)%list_elem_of_fmap. destruct (Hnew m Hm) as [Hold|(p & Hpm & _)].
      * by apply Hq, list_elem_of_fmap_2.
      * fold key in Hn0. congruence.
  - destruct (ExpireTopicMessages_spec c maxr now td ms Hinv) as [_ [_ Hq Hp _ _ Hoff]].
    destruct Hsole as [Hsp Hsr]. unfold settled. set (key := MakeConsumerKey g cons) in *.
    assert (forall id, pending_of (pending_acks td) key !! id = None ->
      pending_of (pending_acks (ExpireTopicMessages now td)) key !! id = None) as Hnone
      by (intros id Hid; by rewrite Hp, Hid).
    split; [split|].
    + intros k Hk. apply map_eq. intros id. rewrite Hp, Hsp by done. by rewrite lookup_empty.
    + intros m Hm. rewrite Hq in Hm. apply list_elem_of_filter in Hm as [_ Hm].
      destruct (Hsr m Hm). rewrite Hoff. split; [done|by apply Hnone].
    + intros id (Hi & Hnq & Hn0). rewrite Hoff, Hq. split_and!; [done| |by apply Hnone].
      intros (m & -> & [_ Hm]%list_elem_of_filter)%list_elem_of_fmap.
      by apply Hnq, list_elem_of_fmap_2.
Qed.

End props.
