(* ===== verification/StoreTheorems.v ===== *)
(** * The message store: theorems

    On every state reachable from an empty store, over any bounded message
    buffer; the witnesses run the store on the ring buffer itself. *)

From S2P Require Import Prelude Types RingBuffer Store StoreSpec StoreInv StoreProps.

(** ** Runs used by the witnesses *)

Definition no_clock : nat -> Z := λ _, 0.
Definition late_scan : scan := mkScan key_order key_order 10000000000 1.

Definition demo_store : MemoryMessageStore SpscRingBuffer := MemoryMessageStore_new 200 1 5000.

Definition demo_events : list store_event :=
  [EvPublish "t" [Byte.x61] 0 0 7; EvPublish "t" [Byte.x62] 0 0 8;
   EvPull "t" "a" 1 false 9 no_clock].

Definition demo_state : MemoryMessageStore SpscRingBuffer := store_run demo_store demo_events.

Lemma demo_params : params_ok 200 1.
Proof. unfold params_ok, kMaxPayloadSize. lia. Qed.

Lemma demo_inv : store_inv 200 1 3 demo_state.
Proof.
  apply (store_run_inv 200 1 0 demo_store demo_events demo_params); [lia|cbn; lia| |].
  - by apply (bool_decide_eq_true_1 _).
  - apply store_inv_new.
Qed.

Section theorems.
Context {B : Type} `{FifoBuffer B}.
Implicit Types (st : MemoryMessageStore B) (td : TopicData B).

(** C7: the invariant.  Whatever operations run, in whatever order and with
    whatever clock readings, every topic of the store stays well formed: ids
    increase strictly along the log and the ring buffer and are below the next
    id; the ring holds exactly serialised messages; a message to be retried
    occurs once, with a count within the limit, and is a copy of a logged one,
    as is every pending message, which lies before its consumer's offset; dead
    letters were retried exactly the maximal number of times. *)
Theorem store_invariant c maxr timeout evs :
  params_ok c maxr -> Forall event_ok evs -> zlen evs < 2 ^ 64 - 2 ->
  store_inv c maxr (zlen evs)
    (store_run (MemoryMessageStore_new (B := B) c maxr timeout) evs).
Proof.
  intros Hp He Hlen. apply (store_run_inv c maxr 0); auto using store_inv_new; lia.
Qed.

(** C8: what [Pull] returns.  The oldest undelivered messages of the topic's
    contents that are not expired, at most the number asked for, in order;
    then, if there is room, the retried messages that are neither expired nor
    pending for this consumer; nothing for an unknown topic. *)
Theorem pull_exact c maxr n st topic cons max g now steady :
  params_ok c maxr -> store_inv c maxr n st -> 0 <= max ->
  fst (Pull topic cons max g now steady st) =
  match topics_ st !! topic with
  | None => []
  | Some td =>
      let key := MakeConsumerKey g cons in
      let ds := pull_fresh max now (offset_of g key td) (contents td) in
      ds ++ pull_again max now (pending_of (pending_acks td) key) ds (retry_queue td)
  end.
Proof.
  intros [Hc Hr] [_ _ Ht _] Hmax. unfold Pull. destruct (topics_ st !! topic) as [td|] eqn:Htd; [|done].
  destruct (Ht _ _ Htd) as (_ & _ & ms & Hinv).
  assert (Hcm : c <= kMaxPayloadSize) by lia.
  destruct (pull_topic_spec c maxr Hcm Hr td ms cons max g now steady Hinv Hmax)
    as (res & td' & -> & [-> _ _ _ _ _ _ _ _ _ _ _]).
  by rewrite (contents_eq c maxr td ms Hcm Hinv).
Qed.

(** C9: what a consumer may rely on.  A pull returns at most what was asked
    for, no message twice, none that is expired or still waiting for this
    consumer's acknowledgement; each one can then be acknowledged; and if there
    was room left, nothing deliverable was held back. *)
Theorem pull_safe c maxr n st topic td cons max g now steady :
  params_ok c maxr -> store_inv c maxr n st -> 0 <= max -> topics_ st !! topic = Some td ->
  let key := MakeConsumerKey g cons in
  let '(result, st') := Pull topic cons max g now steady st in
  NoDup (sm_id <$> result) /\ zlen result <= max /\
  (forall m, m ∈ result -> expired now m = false /\
     pending_of (pending_acks td) key !! sm_id m = None /\
     fst (Ack topic cons (sm_id m) g st') = true) /\
  (zlen result < max -> forall m, expired now m = false ->
     (m ∈ contents td /\ offset_of g key td <= sm_id m) \/
     (m ∈ retry_queue td /\ pending_of (pending_acks td) key !! sm_id m = None) ->
     sm_id m ∈ (sm_id <$> result)).
Proof.
  intros [Hc Hr] [_ _ Ht _] Hmax Htd key. unfold Pull. rewrite Htd.
  destruct (Ht _ _ Htd) as (_ & _ & ms & Hinv).
  assert (Hcm : c <= kMaxPayloadSize) by lia.
  destruct (pull_topic_spec c maxr Hcm Hr td ms cons max g now steady Hinv Hmax)
    as (res & td' & -> & Heff).
  pose proof Heff as [Hres Hinv' _ _ _ Hh Hnd _ _ _ _ _ _].
  rewrite (contents_eq c maxr td ms Hcm Hinv). fold key in Hres, Hh.
  set (ds := pull_fresh max now (offset_of g key td) (message_log td ++ ms)) in *.
  assert (zlen ds <= max) as Hds by (unfold ds, pull_fresh; rewrite length_take; lia).
  split; [done|]. split.
  { rewrite Hres. cbv zeta. rewrite length_app. unfold pull_again. rewrite length_take. lia. }
  split.
  - intros m Hm. split_and!.
    + rewrite Hres in Hm. apply elem_of_app in Hm as [Hm|Hm];
        [by apply elem_of_pull_fresh in Hm as (_ & _ & ?)|
         by apply elem_of_pull_again in Hm as (_ & ? & _)].
    + rewrite Hres in Hm. apply elem_of_app in Hm as [Hm|Hm];
        [|by apply elem_of_pull_again in Hm as (_ & _ & ? & _)].
      apply elem_of_pull_fresh in Hm as (_ & Hoff & _).
      destruct (pending_of (pending_acks td) key !! sm_id m) as [p|] eqn:Hp; [|done].
      destruct Hinv as [_ _ _ _ _ _ _ _ Hpend].
      destruct (Hpend _ _ _ Hp) as (_ & _ & g' & i & [<- _]%MakeConsumerKey_inj & ?). lia.
    + unfold Ack. cbn. rewrite lookup_insert_eq.
      destruct (ack_topic_spec c maxr td' [] cons (sm_id m) g Hinv') as (td2 & -> & _).
      cbn. apply bool_decide_true. fold key. destruct (ho_new _ _ _ _ Hh m Hm) as [t ->]. by eexists.
  - intros Hroom m Hexp [[Hm Hoff]|[Hm Hp]].
    + apply list_elem_of_fmap_2. by eapply pull_complete_fresh.
    + by eapply pull_complete_retry.
Qed.

(** C10: delivery.  A message published without expiry stays available: after
    any operations that do not delete the topic, the first pull of any consumer
    returns it with the payload that was published, unless the pull is filled
    up by other messages. *)
Theorem published_is_delivered c maxr n st topic payload now1 now2 id evs cons max g now steady st1 :
  params_ok c maxr -> 0 <= n -> n + 1 + zlen evs < 2 ^ 64 - 2 -> store_inv c maxr n st ->
  zlen payload + 28 < 2 ^ 32 -> 0 <= now2 < 2 ^ 64 -> 0 <= max ->
  Publish topic payload 0 now1 now2 st = ((true, id), st1) ->
  Forall event_ok evs ->
  Forall (λ e, deletes topic e = false /\ pulls topic g cons e = false) evs ->
  let result := fst (Pull topic cons max g now steady (store_run st1 evs)) in
  zlen result < max -> mkStoredMessage id "" payload now2 0 0 ∈ result.
Proof.
  intros Hp Hn Hlen Hst Hpl Hnow Hmax Hpub Hok Hev result Hroom.
  pose proof (store_step_inv c maxr n st (EvPublish topic payload 0 now1 now2) Hp
    ltac:(lia) (conj Hpl Hnow) Hst) as Hst1.
  cbn [store_step] in Hst1. rewrite Hpub in Hst1. cbn [snd] in Hst1.
  set (m := mkStoredMessage id "" payload now2 0 0).
  assert (awaits topic g cons m st1) as Haw.
  { destruct (publish_target c maxr n st topic Hp Hst) as (_ & Hid & ms & Hinv); [lia|].
    unfold Publish in Hpub. set (td := default _ _) in *.
    destruct (publish_topic_spec c maxr td ms payload 0 now1 now2 Hinv)
      as (td' & Heq & Hinv' & _ & Hlog & _ & _ & _ & Hoff); [lia|done|done|].
    rewrite Heq in Hpub. injection Hpub as Hfit <- <-. rewrite Hfit in Hinv'.
    exists td'. cbn. rewrite lookup_insert_eq. split; [done|]. split.
    - destruct Hp as [Hc _]. rewrite (contents_eq c maxr _ _ (proj2 Hc) Hinv'), Hlog.
      rewrite !elem_of_app. right. right. by apply list_elem_of_singleton.
    - rewrite Hoff. cbn. apply (ti_offsets _ _ _ _ Hinv). }
  apply (awaits_run c maxr (n + 1) st1 evs) in Haw; try done; [|lia].
  destruct Haw as (td & Htd & Hm & Hoff).
  apply (store_run_inv c maxr (n + 1)) with (evs := evs) in Hst1; try done; [|lia].
  destruct Hst1 as [_ _ Ht _]. destruct (Ht _ _ Htd) as (_ & _ & ms & Hinv).
  unfold result, Pull in *. rewrite Htd in *. destruct Hp as [[_ Hcm] Hr].
  destruct (pull_topic_spec c maxr Hcm Hr td ms cons max g now steady Hinv Hmax)
    as (res & td' & Heq & Heff). rewrite Heq in *. cbn [fst] in *.
  rewrite (contents_eq c maxr td ms Hcm Hinv) in Hm.
  by eapply pull_complete_fresh.
Qed.

(** C11: acknowledgements are final.  On a topic with a single consumer (a
    subscriber or a consumer group), a message that it has acknowledged is
    never handed out again, whatever else happens, until the topic is deleted. *)
Theorem ack_is_final c maxr n st topic td td1 cons mid g evs max now steady :
  params_ok c maxr -> 0 <= n -> n + 1 + zlen evs < 2 ^ 64 - 2 -> store_inv c maxr n st ->
  topics_ st !! topic = Some td -> sole_consumer g cons td ->
  ack_topic cons mid g td = (true, td1) ->
  Forall event_ok evs -> Forall (λ e, deletes topic e = false) evs ->
  Forall (only_pulled_by topic g cons) evs -> 0 <= max ->
  mid ∉ (sm_id <$> fst (Pull topic cons max g now steady
                          (store_run (snd (Ack topic cons mid g st)) evs))).
Proof.
  intros Hp Hn Hlen Hst Htd Hsole Hack Hok Hdel Hby Hmax. pose proof Hp as [Hc Hr].
  pose proof (store_step_inv c maxr n st (EvAck topic cons mid g) Hp ltac:(lia) I Hst) as Hst1.
  cbn [store_step] in Hst1.
  assert (exists td', topics_ (snd (Ack topic cons mid g st)) !! topic = Some td' /\
    sole_consumer g cons td' /\ settled g cons mid td') as Hset.
  { unfold Ack. rewrite Htd, Hack. exists td1. cbn. rewrite lookup_insert_eq. split; [done|].
    destruct Hst as [_ _ Ht _]. destruct (Ht _ _ Htd) as (_ & _ & ms & Hinv).
    by eapply sole_ack. }
  revert Hst1 Hset. generalize (snd (Ack topic cons mid g st)). clear Hack td td1 Htd Hsole Hst st.
  revert n Hn Hlen. induction evs as [|e evs IH]; intros n Hn Hlen st Hst (td & Htd & Hsole & Hset).
  - destruct Hst as [_ _ Ht _]. destruct (Ht _ _ Htd) as (_ & _ & ms & Hinv).
    cbn [store_run foldl]. unfold Pull. rewrite Htd.
    destruct (sole_pull c maxr td ms g cons max now steady ltac:(lia) Hr Hmax Hinv Hsole)
      as (res & td' & -> & _ & Hno). by apply Hno.
  - apply Forall_cons in Hok as [He Hok], Hdel as [Hd Hdel], Hby as [Hb Hby].
    cbn [length store_run foldl] in *.
    apply (IH Hok Hdel Hby (n + 1)); [lia|lia| |].
    + apply store_step_inv; [done|lia|done|done].
    + destruct (store_step_topic st e topic td Htd Hd) as (td' & Htd' & Hsame & Hstep).
      destruct Hst as [_ Hmr Ht _]. rewrite Hmr in Hstep.
      destruct (Ht _ _ Htd) as (_ & Hnext & ms & Hinv).
      destruct (sole_step c maxr _ e td td' ms topic g cons Hc Hr He Hinv ltac:(lia) Hstep Hsame Hb
        Hsole) as [Hs' Hset']. exists td'. auto.
Qed.

(** C12: retries and dead letters, exactly.  A message pending for a consumer
    stays pending if it has not timed out, and no longer is if it has.  In the
    order in which the scan meets them, those that timed out and are not expired
    go, after the maximal number of retries, unchanged to the end of the topic's
    dead-letter queue, and before it to the end of the retry queue, with one more
    retry counted, in place of any message with the same id queued before; so
    nothing queued for a retry disappears.  Expired ones go nowhere.  The log, the
    offsets, other topics and their dead letters are untouched. *)
Theorem retry_scan_accounts c maxr n st topic td s :
  params_ok c maxr -> store_inv c maxr n st -> topics_ st !! topic = Some td ->
  let st' := retry_topic st (topic, s) in
  let late := timed_out (pending_timeout_ms_ st) (scan_now s) in
  let found := filter (λ e, late e.2 && negb (expired (scan_now_ms s) (pm_msg e.2)) = true)
                 (scanned (scan_keys s) (scan_ids s) (pending_acks td)) in
  let again := filter (λ e, sm_retry_count (pm_msg e.2) < maxr) found in
  let dead := filter (λ e, maxr <= sm_retry_count (pm_msg e.2)) found in
  exists td', topics_ st' !! topic = Some td' /\
    (forall k id, pending_of (pending_acks td') k !! id =
       p ← pending_of (pending_acks td) k !! id; if late p then None else Some p) /\
    retry_queue td' = filter (λ m, sm_id m ∉ again.*1) (retry_queue td) ++
      ((λ e, set_retry_count (sm_retry_count (pm_msg e.2) + 1) (pm_msg e.2)) <$> latest again) /\
    default [] (dlq_storage_ st' !! MakeDlqName topic) =
      default [] (dlq_storage_ st !! MakeDlqName topic) ++ ((λ e, pm_msg e.2) <$> dead) /\
    (forall m, m ∈ retry_queue td -> sm_id m ∈ (sm_id <$> retry_queue td')) /\
    message_log td' = message_log td /\
    (forall g k, offset_of g k td' = offset_of g k td) /\
    (forall t, t <> topic -> topics_ st' !! t = topics_ st !! t /\
       dlq_storage_ st' !! MakeDlqName t = dlq_storage_ st !! MakeDlqName t).
Proof.
  intros [Hc Hr] [_ Hmr Ht _] Htd. cbv zeta. destruct (Ht _ _ Htd) as (Hname & _ & ms & Hinv).
  unfold retry_topic. rewrite Htd, Hmr.
  destruct (ProcessPendingRetries_spec c maxr (pending_timeout_ms_ st) (scan_now s) (scan_now_ms s)
    (scan_keys s) (scan_ids s) td ms (dlq_storage_ st) Hr Hinv) as (td' & dlq' & -> & Heff).
  destruct Heff as [_ Hlog _ _ Hoff Hre Hpe Hqueue]. rewrite Hname in Hre. cbv zeta in Hqueue.
  exists td'. cbn. rewrite lookup_insert_eq. split_and!; [done|exact Hpe| | | |done|done|].
  - by rewrite Hqueue, put_back_filter.
  - rewrite (re_dlq _ _ _ _ _ _ _ _ _ _ _ Hre). by rewrite dead_letters_filter.
  - apply (re_queue_kept _ _ _ _ _ _ _ _ _ _ _ Hre).
  - intros t Hne. split; [by rewrite lookup_insert_ne|].
    apply (re_dlq_other _ _ _ _ _ _ _ _ _ _ _ Hre). intros [=]. done.
Qed.

(** C13: expiration.  One round of the expiration thread, in whatever order it
    meets the topics, removes exactly the expired messages from the log, the
    retry queue and the pending messages of every topic; offsets, the next id
    and the dead letters stay, and no topic appears or disappears. *)
Theorem expiration_round_exact c maxr n st t now topic :
  params_ok c maxr -> store_inv c maxr n st ->
  let st' := ExpirationLoop_round t now st in
  dlq_storage_ st' = dlq_storage_ st /\
  match topics_ st !! topic, topics_ st' !! topic with
  | Some td, Some td' => expire_effect (now topic) td td'
  | None, None => True
  | _, _ => False
  end.
Proof.
  intros Hp Hst. cbv zeta. unfold ExpirationLoop_round.
  assert (forall l st1, NoDup l.*1 ->
    (forall tp, tp ∈ l.*1 -> topics_ st1 !! tp = topics_ st !! tp) ->
    let st2 := foldl expire_topic st1 l in
    dlq_storage_ st2 = dlq_storage_ st1 /\
    topics_ st2 !! topic =
      match list_to_map (M := gmap string Z) l !! topic with
      | Some now_ms => ExpireTopicMessages now_ms <$> topics_ st !! topic
      | None => topics_ st1 !! topic
      end) as Hfold.
  { induction l as [|[tp nw] l IH]; intros st1 Hnd Heq; [done|].
    cbn [fmap list_fmap fst] in *. apply NoDup_cons in Hnd as [Hnew Hnd].
    cbn [foldl]. rewrite list_to_map_cons.
    assert (dlq_storage_ (expire_topic st1 (tp, nw)) = dlq_storage_ st1 /\
      (forall x, topics_ (expire_topic st1 (tp, nw)) !! x =
        if decide (x = tp) then ExpireTopicMessages nw <$> topics_ st !! x
        else topics_ st1 !! x)) as [Hd Hx].
    { unfold expire_topic. rewrite Heq by by left.
      destruct (topics_ st !! tp) as [td|] eqn:Htd.
      - split; [done|]. intros x. cbn. case_decide as Hxt.
        + subst. by rewrite lookup_insert_eq, Htd.
        + by rewrite lookup_insert_ne.
      - split; [done|]. intros x. case_decide as Hxt; [|done]. subst.
        rewrite Heq by by left. by rewrite Htd. }
    destruct (IH (expire_topic st1 (tp, nw)) Hnd) as [Hd2 Ht2].
    { intros x Hin. rewrite Hx. case_decide as Hxt; [by subst|]. apply Heq. by right. }
    split; [by rewrite Hd2|]. rewrite Ht2.
    destruct (decide (topic = tp)) as [->|Hne].
    - rewrite lookup_insert_eq, (not_elem_of_list_to_map_1 l tp) by done.
      by rewrite Hx, decide_True by done.
    - rewrite lookup_insert_ne by done. rewrite Hx, decide_False by done. done. }
  destruct (Hfold ((λ e, (e.1, now e.1)) <$> entries t (topics_ st)) st) as [Hd Ht].
  { rewrite <- list_fmap_compose. apply NoDup_entries_keys. }
  { done. }
  split; [done|]. rewrite Ht. clear Hfold.
  destruct (topics_ st !! topic) as [td|] eqn:Htd.
  - assert (list_to_map (M := gmap string Z) ((λ e, (e.1, now e.1)) <$> entries t (topics_ st))
      !! topic = Some (now topic)) as ->.
    { apply elem_of_list_to_map_1.
      - rewrite <- list_fmap_compose. apply NoDup_entries_keys.
      - apply list_elem_of_fmap. exists (topic, td). split; [done|]. by apply elem_of_entries. }
    destruct Hst as [_ _ Hall _]. destruct (Hall _ _ Htd) as (_ & _ & ms & Hinv).
    simpl. by apply (ExpireTopicMessages_spec c maxr (now topic) td ms).
  - rewrite not_elem_of_list_to_map_1; [done|].
    rewrite <- list_fmap_compose. intros ([x td] & -> & Hin)%list_elem_of_fmap.
    apply elem_of_entries in Hin. cbn in Htd. congruence.
Qed.

(** Deleting a topic forgets it.  Its messages, pending records and dead
    letters are gone, pulls return nothing, ids start again at 1; the other
    topics and their dead letters are untouched. *)
Theorem delete_forgets st topic st' payload ttl now1 now2 cons max g now steady mid :
  DeleteTopic topic st = (true, st') ->
  HasTopic topic st' = false /\ Pull topic cons max g now steady st' = ([], st') /\
  Ack topic cons mid g st' = (false, st') /\ PullDlq topic max st' = ([], st') /\
  DeleteTopic topic st' = (false, st') /\
  snd (fst (Publish topic payload ttl now1 now2 st')) = 1 /\
  (forall t, t <> topic -> topics_ st' !! t = topics_ st !! t /\
     PullDlq t max st' = (fst (PullDlq t max st), snd (PullDlq t max st'))).
Proof.
  unfold DeleteTopic. destruct (topics_ st !! topic) as [td|] eqn:Htd; [|done].
  intros [= <-].
  set (st' := with_dlq _ _).
  assert (topics_ st' !! topic = None) as Hnone by (cbn; apply lookup_delete_eq).
  assert (dlq_storage_ st' !! MakeDlqName topic = None) as Hdlq by (cbn; apply lookup_delete_eq).
  unfold HasTopic, Pull, Ack, PullDlq, Publish. rewrite Hnone, Hdlq.
  split_and!; try done.
  - cbn [default from_option]. unfold publish_topic. by destruct (fb_push _ _).
  - intros t Hne. assert (topics_ st' !! t = topics_ st !! t) as -> by (cbn; by rewrite lookup_delete_ne).
    assert (dlq_storage_ st' !! MakeDlqName t = dlq_storage_ st !! MakeDlqName t) as ->
      by (cbn; rewrite lookup_delete_ne; [done|]; intros Heq; apply Hne; by injection Heq).
    split; [done|]. by destruct (dlq_storage_ st !! MakeDlqName t).
Qed.

(** Dead letters are handed out in order, each once: two pulls return
    what one pull of both sizes would. *)
Theorem dlq_fifo st topic a b : 0 <= a -> 0 <= b ->
  let '(first, st1) := PullDlq topic a st in
  let '(second, st2) := PullDlq topic b st1 in
  PullDlq topic (a + b) st = (first ++ second, st2) /\
  zlen first <= a /\ topics_ st2 = topics_ st.
Proof.
  intros Ha Hb. unfold PullDlq. destruct (dlq_storage_ st !! MakeDlqName topic) as [l|] eqn:Hl.
  2: { rewrite Hl. done. }
  cbn. rewrite lookup_insert_eq, insert_insert_eq, length_drop, drop_drop.
  set (i := Z.to_nat (Z.min a (zlen l))). set (j := Z.to_nat (Z.min b _)).
  replace (Z.to_nat (Z.min (a + b) (zlen l))) with (i + j)%nat by lia.
  split; [|split; [rewrite length_take; lia|done]].
  f_equal. by rewrite take_take_drop.
Qed.

(** A retry goes to whoever pulls first.  A message that one consumer let
    time out is handed, after the retry scan, to the next pull of any other
    consumer with room for it and without it pending, also one that has
    already acknowledged the message. *)
Theorem retry_crosses_consumers c maxr n st topic td s k id p cons max g now steady :
  params_ok c maxr -> 0 <= n < 2 ^ 64 - 2 -> store_inv c maxr n st -> 0 <= max ->
  topics_ st !! topic = Some td ->
  pending_of (pending_acks td) k !! id = Some p ->
  timed_out (pending_timeout_ms_ st) (scan_now s) p = true ->
  expired (scan_now_ms s) (pm_msg p) = false -> sm_retry_count (pm_msg p) < maxr ->
  pending_of (pending_acks td) (MakeConsumerKey g cons) !! id = None ->
  expired now (pm_msg p) = false ->
  let result := fst (Pull topic cons max g now steady (retry_topic st (topic, s))) in
  zlen result < max -> id ∈ (sm_id <$> result).
Proof.
  intros [Hc Hr] Hn Hst Hmax Htd Hp Hlate Hexp Hcount Hfree Halive result Hroom.
  destruct Hst as [_ Hmr Ht _]. destruct (Ht _ _ Htd) as (Hname & _ & ms & Hinv).
  unfold result, Pull, retry_topic in *. rewrite Htd, Hmr in *.
  destruct (ProcessPendingRetries_spec c maxr (pending_timeout_ms_ st) (scan_now s) (scan_now_ms s)
    (scan_keys s) (scan_ids s) td ms (dlq_storage_ st) Hr Hinv) as (td' & dlq' & Heq & Heff).
  rewrite Heq in *. destruct Heff as [Hinv' Hlog _ _ _ Hre Hpe].
  cbn [topics_ with_dlq with_topics] in *. rewrite lookup_insert_eq in *.
  assert ((id, p) ∈ scanned (scan_keys s) (scan_ids s) (pending_acks td)) as Hin
    by (apply elem_of_scanned; by exists k).
  assert (id ∈ (sm_id <$> retry_queue td')) as (m & -> & Hm)%list_elem_of_fmap.
  { eapply (re_retried _ _ _ _ _ _ _ _ _ _ _ Hre); [done| |done].
    unfold overdue. by rewrite Hlate, Hexp. }
  assert (sm_expires_at m = sm_expires_at (pm_msg p)) as Hex.
  { pose proof Hinv' as [_ _ Hsort _ _ _ Hq _ _]. rewrite Forall_forall in Hq.
    destruct (from_log_id maxr _ _ (Hq m Hm)) as (l1 & Hl1 & Hid1 & <-).
    destruct Hinv as [_ _ _ _ _ _ _ _ Hpend]. destruct (Hpend _ _ _ Hp) as (Hid & Hfl & _).
    rewrite <- Hlog in Hfl. destruct (from_log_id maxr _ _ Hfl) as (l2 & Hl2 & Hid2 & <-).
    f_equal. apply (id_sorted_inj (message_log td' ++ ms)); [done|..|congruence];
      rewrite elem_of_app; by left. }
  destruct (pull_topic_spec c maxr ltac:(lia) Hr td' ms cons max g now steady Hinv' Hmax)
    as (res & td2 & Heq2 & Heff2). rewrite Heq2 in *. cbn [fst] in *.
  eapply pull_complete_retry; [done|done|done| |].
  - unfold expired in *. by rewrite Hex.
  - by rewrite Hpe, Hfree.
Qed.
End theorems.

(** ** Witnesses *)

Definition demo_topic : TopicData SpscRingBuffer :=
  default (TopicData_new 200 "t") (topics_ demo_state !! "t").

Lemma demo_lookup : topics_ demo_state !! "t" = Some demo_topic.
Proof. by vm_compute. Qed.

Lemma store_invariant_witness : store_inv 200 1 3 demo_state.
Proof.
  apply (store_invariant 200 1 5000 demo_events demo_params); [|cbn; lia].
  by apply (bool_decide_eq_true_1 _).
Defined.

Lemma pull_exact_witness :
  fst (Pull "t" "a" 5 false 9 no_clock demo_state) =
    [mkStoredMessage 2 "" [Byte.x62] 8 0 0].
Proof.
  rewrite (pull_exact 200 1 3 demo_state "t" "a" 5 false 9 no_clock demo_params demo_inv);
    [by vm_compute|lia].
Defined.

Lemma pull_safe_witness :
  let '(result, st') := Pull "t" "a" 5 false 9 no_clock demo_state in
  NoDup (sm_id <$> result) /\ zlen result <= 5.
Proof.
  pose proof (pull_safe 200 1 3 demo_state "t" demo_topic "a" 5 false 9 no_clock demo_params
    demo_inv ltac:(lia) demo_lookup) as Hsafe. cbv zeta in Hsafe.
  destruct (Pull "t" "a" 5 false 9 no_clock demo_state). split; apply Hsafe.
Defined.

Lemma published_is_delivered_witness :
  mkStoredMessage 3 "" [Byte.x63] 10 0 0 ∈
    fst (Pull "t" "b" 9 true 20 no_clock
      (store_run (snd (Publish "t" [Byte.x63] 0 0 10 demo_state))
         [EvPull "t" "a" 2 false 11 no_clock; EvRetry "t" late_scan])).
Proof.
  apply (published_is_delivered 200 1 3 demo_state "t" [Byte.x63] 0 10 3); try (cbn; lia).
  - apply demo_params.
  - apply demo_inv.
  - by vm_compute.
  - by apply (bool_decide_eq_true_1 _).
  - by apply (bool_decide_eq_true_1 _).
  - by vm_compute.
Defined.

Lemma demo_sole : sole_consumer false "a" demo_topic.
Proof.
  split.
  - intros k Hk. unfold pending_of.
    destruct (pending_acks demo_topic !! k) as [P|] eqn:HP; [|done].
    exfalso. apply Hk. apply elem_of_map_to_list in HP. vm_compute in HP.
    by apply list_elem_of_singleton in HP as [= -> _].
  - intros m Hm. vm_compute in Hm. by apply not_elem_of_nil in Hm.
Qed.

Lemma ack_is_final_witness :
  1 ∉ (sm_id <$> fst (Pull "t" "a" 9 false 20 no_clock
    (store_run (snd (Ack "t" "a" 1 false demo_state)) [EvRetry "t" late_scan]))).
Proof.
  eapply (ack_is_final 200 1 3 demo_state "t" demo_topic); try (cbn; lia).
  - apply demo_params.
  - apply demo_inv.
  - apply demo_lookup.
  - apply demo_sole.
  - by vm_compute.
  - by repeat constructor.
  - by repeat constructor.
  - constructor; [by intros|constructor].
Defined.

Definition demo_pending : PendingMessage := mkPending (mkStoredMessage 1 "" [Byte.x61] 7 0 0) 0.

Lemma retry_scan_accounts_witness : exists td',
  topics_ (retry_topic demo_state ("t", late_scan)) !! "t" = Some td' /\
  retry_queue td' = [set_retry_count 1 (pm_msg demo_pending)].
Proof.
  destruct (retry_scan_accounts 200 1 3 demo_state "t" demo_topic late_scan
    demo_params demo_inv demo_lookup) as (td' & Htd & _ & Hqueue & _).
  exists td'. split; [exact Htd|]. rewrite Hqueue. vm_compute. reflexivity.
Defined.

Lemma expiration_round_exact_witness :
  dlq_storage_ (ExpirationLoop_round key_order (λ _, 100) demo_state) = dlq_storage_ demo_state.
Proof.
  pose proof (expiration_round_exact 200 1 3 demo_state key_order (λ _, 100) "t" demo_params
    demo_inv) as Hround. cbv zeta in Hround. destruct Hround as [Hdlq _]. exact Hdlq.
Defined.

Lemma delete_forgets_witness : HasTopic "t" (snd (DeleteTopic "t" demo_state)) = false.
Proof.
  refine (proj1 (delete_forgets demo_state "t" (snd (DeleteTopic "t" demo_state)) [] 0 0 0 "a" 1
    false 0 no_clock 1 _)). by vm_compute.
Defined.

Lemma dlq_fifo_witness :
  let '(first, st1) := PullDlq "t" 1 demo_state in
  let '(second, st2) := PullDlq "t" 2 st1 in
  PullDlq "t" 3 demo_state = (first ++ second, st2).
Proof.
  pose proof (dlq_fifo demo_state "t" 1 2 ltac:(lia) ltac:(lia)) as Hfifo.
  destruct (PullDlq "t" 1 demo_state) as [first st1]. destruct (PullDlq "t" 2 st1).
  exact (proj1 Hfifo).
Defined.

(** Both consumers pull message 1; [b] acknowledges it; [a] lets it time out. *)
Definition shared_events : list store_event :=
  [EvPublish "t" [Byte.x61] 0 0 7; EvPull "t" "a" 1 false 9 no_clock;
   EvPull "t" "b" 1 false 9 no_clock; EvAck "t" "b" 1 false].

Definition shared_state : MemoryMessageStore SpscRingBuffer := store_run demo_store shared_events.

Definition shared_topic : TopicData SpscRingBuffer :=
  default (TopicData_new 200 "t") (topics_ shared_state !! "t").

Lemma shared_inv : store_inv 200 1 4 shared_state.
Proof.
  apply (store_run_inv 200 1 0 demo_store shared_events demo_params); [lia|cbn; lia| |].
  - by apply (bool_decide_eq_true_1 _).
  - apply store_inv_new.
Qed.

Lemma retry_crosses_consumers_witness :
  1 ∈ (sm_id <$> fst (Pull "t" "b" 5 false 9 no_clock (retry_topic shared_state ("t", late_scan)))).
Proof.
  pose proof (retry_crosses_consumers 200 1 4 shared_state "t" shared_topic late_scan "sub:a" 1
    demo_pending "b" 5 false 9 no_clock demo_params ltac:(lia) shared_inv ltac:(lia)) as Hcross.
  cbv zeta in Hcross. apply Hcross; by vm_compute.
Defined.
