(* ===== verification/Config.v ===== *)
(** * The configuration: [common/config.h] and the manager of [common/config.cpp]

    The settings of the broker and of a topic, with their defaults, and the
    manager that keeps one configuration per topic. *)

From S2P Require Import Prelude Types.

Record TopicConfig := mkTopicConfig {
  ring_buffer_size : Z;
  tc_default_ttl_ms : Z;
  tc_compression_enabled : bool;
}.

Definition TopicConfig_default : TopicConfig := mkTopicConfig 0 0 false.

Record BrokerConfig := mkBrokerConfig {
  port : Z;
  batch_publish_enabled : bool;
  batch_push_enabled : bool;
  max_batch_size : Z;
  heartbeat_enabled : bool;
  heartbeat_interval_ms : Z;
  heartbeat_timeout_ms : Z;
  heartbeat_check_interval_ms : Z;
  rate_limit_enabled : bool;
  global_publish_rate : Z;
  conn_publish_rate : Z;
  rate_limit_burst : Z;
  max_write_buffer_size : Z;
  ttl_enabled : bool;
  default_ttl_ms : Z;
  expiration_check_interval_ms : Z;
  compression_enabled : bool;
  compression_threshold_bytes : Z;
  zero_copy_enabled : bool;
  dedup_enabled : bool;
  dedup_window_size : Z;
  default_ring_buffer_size : Z;
  max_retry_count : Z;
  pending_timeout_ms : Z;
  retry_interval_ms : Z;
}.

Definition BrokerConfig_default : BrokerConfig := {|
  port := 9090;
  batch_publish_enabled := true;
  batch_push_enabled := true;
  max_batch_size := 100;
  heartbeat_enabled := true;
  heartbeat_interval_ms := 5000;
  heartbeat_timeout_ms := 15000;
  heartbeat_check_interval_ms := 5000;
  rate_limit_enabled := true;
  global_publish_rate := 10000;
  conn_publish_rate := 1000;
  rate_limit_burst := 100;
  max_write_buffer_size := 8 * 1024 * 1024;
  ttl_enabled := true;
  default_ttl_ms := 0;
  expiration_check_interval_ms := 10000;
  compression_enabled := false;
  compression_threshold_bytes := 1024;
  zero_copy_enabled := true;
  dedup_enabled := true;
  dedup_window_size := 100000;
  default_ring_buffer_size := 1024 * 1024;
  max_retry_count := 3;
  pending_timeout_ms := 5000;
  retry_interval_ms := 1000;
|}.

#[export] Instance TopicConfig_eq_dec : EqDecision TopicConfig.
Proof. solve_decision. Defined.
#[export] Instance BrokerConfig_eq_dec : EqDecision BrokerConfig.
Proof. solve_decision. Defined.

(** ** The manager *)
Module ConfigManager.

Record t := mk {
  global_config_ : BrokerConfig;
  topic_configs_ : gmap string TopicConfig;
}.

Definition new (global_config : BrokerConfig) : t := mk global_config ∅.
Definition GetGlobalConfig (m : t) : BrokerConfig := global_config_ m.

Definition SetTopicConfig (topic : string) (config : TopicConfig) (m : t) : t :=
  mk (global_config_ m) (<[topic := config]> (topic_configs_ m)).

Definition GetTopicConfig (topic : string) (m : t) : TopicConfig :=
  default TopicConfig_default (topic_configs_ m !! topic).

Definition HasTopicConfig (topic : string) (m : t) : bool :=
  bool_decide (is_Some (topic_configs_ m !! topic)).

End ConfigManager.
