(* ===== verification/ConfigFile.v ===== *)
(** * The configuration file: [common/config.cpp]

    The reader and the writer of [BrokerConfig], on the text of the file. *)

From Stdlib Require Import Ascii String.
From S2P Require Import Prelude Config.
#[local] Open Scope string_scope.
#[local] Open Scope Z_scope.

(** ** Characters and searching *)

Definition dquote : ascii := "034"%char.
Definition newline : ascii := "010"%char.

(** The characters of [" \t\r\n"]. *)
Definition is_blank (c : ascii) : bool :=
  bool_decide (c ∈ [" "%char; "009"%char; "013"%char; newline]).

Fixpoint ltrim (s : string) : string :=
  match s with
  | EmptyString => EmptyString
  | String c s' => if is_blank c then ltrim s' else s
  end.

Fixpoint rtrim (s : string) : string :=
  match s with
  | EmptyString => EmptyString
  | String c s' =>
      let r := rtrim s' in
      if is_blank c && bool_decide (r = EmptyString) then EmptyString else String c r
  end.

Definition Trim (s : string) : string := rtrim (ltrim s).

(** [s.find(p)], as the suffix of [s] from the first occurrence on. *)
Fixpoint find_str (p s : string) : option string :=
  if String.prefix p s then Some s
  else match s with
       | EmptyString => None
       | String _ s' => find_str p s'
       end.

(** What follows the first [c], and what precedes it. *)
Fixpoint after_char (c : ascii) (s : string) : option string :=
  match s with
  | EmptyString => None
  | String c' s' => if bool_decide (c' = c) then Some s' else after_char c s'
  end.

Fixpoint before_char (c : ascii) (s : string) : option string :=
  match s with
  | EmptyString => None
  | String c' s' => if bool_decide (c' = c) then Some EmptyString
                    else String c' <$> before_char c s'
  end.

Definition quoted (key : string) : string := String dquote (key ++ String dquote "")%string.

Definition ExtractValue (line key : string) : string :=
  match find_str (quoted key) line with
  | None => ""
  | Some at_key =>
      match after_char ":" at_key with
      | None => ""
      | Some value =>
          match before_char "," value with
          | Some v => Trim v
          | None =>
              match before_char "}" value with
              | Some v => Trim v
              | None => Trim value
              end
          end
      end
  end.

(** ** Numbers and booleans *)

Definition digit_value (c : ascii) : option Z :=
  let n := Z.of_nat (nat_of_ascii c) - 48 in
  if (0 <=? n) && (n <=? 9) then Some n else None.

(** The digits at the front of [s], continuing [v]. *)
Fixpoint read_digits (v : Z) (s : string) : Z :=
  match s with
  | EmptyString => v
  | String c s' =>
      match digit_value c with
      | Some d => read_digits (v * 10 + d) s'
      | None => v
      end
  end.

Definition read_number (s : string) : option Z :=
  match s with
  | EmptyString => None
  | String c _ => match digit_value c with Some _ => Some (read_digits 0 s) | None => None end
  end.

(** The blanks [strtoul] skips: [isspace]. *)
Definition is_space (c : ascii) : bool :=
  is_blank c || bool_decide (c = "011"%char) || bool_decide (c = "012"%char).

Fixpoint skip_space (s : string) : string :=
  match s with
  | EmptyString => EmptyString
  | String c s' => if is_space c then skip_space s' else s
  end.

(** [std::stoul] and [std::stoull], where [unsigned long] has 64 bits: [None]
    is an exception; a minus sign negates modulo [2^64]. *)
Definition stoul (s : string) : option Z :=
  let s := skip_space s in
  let '(negative, digits) :=
    match s with
    | String c s' => if bool_decide (c = "-"%char) then (true, s')
                     else if bool_decide (c = "+"%char) then (false, s') else (false, s)
    | EmptyString => (false, s)
    end in
  match read_number digits with
  | None => None
  | Some n => if 2 ^ 64 <=? n then None else Some (if negative then u64 (- n) else n)
  end.

(** A value as a 32-bit [int]. *)
Definition int32_of (z : Z) : Z := let w := u32 z in if w <? 2 ^ 31 then w else w - 2 ^ 32.

(** [std::atoi]: [strtol], which saturates at 64 bits, converted to [int]; zero
    if there is no number. *)
Definition atoi (s : string) : Z :=
  let s := skip_space s in
  let '(negative, digits) :=
    match s with
    | String c s' => if bool_decide (c = "-"%char) then (true, s')
                     else if bool_decide (c = "+"%char) then (false, s') else (false, s)
    | EmptyString => (false, s)
    end in
  let n := default 0 (read_number digits) in
  int32_of (Z.max (- 2 ^ 63) (Z.min (if negative then - n else n) (2 ^ 63 - 1))).

Definition ParseBool (value : string) : option bool :=
  let v := Trim value in
  if bool_decide (v = "true") || bool_decide (v = "1") then Some true
  else if bool_decide (v = "false") || bool_decide (v = "0") then Some false
  else None.

Definition ParseUint32 (value : string) : option Z := u32 <$> stoul (Trim value).
Definition ParseSizeT (value : string) : option Z := stoul (Trim value).
Definition ParseUint16 (value : string) : option Z := u16 <$> stoul (Trim value).

(** ** Loading *)

(** Removes the line comments outside strings; [prev] is the character before
    [s] in the file, [skipping] is set inside a comment. *)
Fixpoint strip_comments (prev : option ascii) (in_string skipping : bool) (s : string) : string :=
  match s with
  | EmptyString => EmptyString
  | String c s' =>
      if skipping then strip_comments (Some c) in_string (negb (bool_decide (c = newline))) s'
      else
        let in_string :=
          if bool_decide (c = dquote) && negb (bool_decide (prev = Some "\"%char))
          then negb in_string else in_string in
        let next_is_slash :=
          match s' with String c' _ => bool_decide (c' = "/"%char) | EmptyString => false end in
        if negb in_string && bool_decide (c = "/"%char) && next_is_slash
        then strip_comments (Some c) in_string true s'
        else String c (strip_comments (Some c) in_string false s')
  end.

(** [GetVal]: the field keeps its value if the key is missing or malformed. *)
Definition GetVal {A} (json key : string) (parser : string -> option A) (field : A) : A :=
  let val := ExtractValue json key in
  if bool_decide (val = "") then field else default field (parser val).

Definition GetBool (json key : string) (field : bool) : bool :=
  default field (ParseBool (ExtractValue json key)).

(** [None] is a file that cannot be opened. *)
Definition LoadFromFile (content : option string) (c : BrokerConfig) : bool * BrokerConfig :=
  match content with
  | None => (false, c)
  | Some content =>
      let json := strip_comments None false false content in
      (true, {|
        port := GetVal json "port" ParseUint16 (port c);
        batch_publish_enabled := GetBool json "batch_publish_enabled" (batch_publish_enabled c);
        batch_push_enabled := GetBool json "batch_push_enabled" (batch_push_enabled c);
        max_batch_size := GetVal json "max_batch_size" ParseUint32 (max_batch_size c);
        heartbeat_enabled := GetBool json "heartbeat_enabled" (heartbeat_enabled c);
        heartbeat_interval_ms :=
          GetVal json "heartbeat_interval_ms" ParseUint32 (heartbeat_interval_ms c);
        heartbeat_timeout_ms :=
          GetVal json "heartbeat_timeout_ms" ParseUint32 (heartbeat_timeout_ms c);
        heartbeat_check_interval_ms :=
          GetVal json "heartbeat_check_interval_ms" ParseUint32 (heartbeat_check_interval_ms c);
        rate_limit_enabled := GetBool json "rate_limit_enabled" (rate_limit_enabled c);
        global_publish_rate :=
          GetVal json "global_publish_rate" ParseUint32 (global_publish_rate c);
        conn_publish_rate := GetVal json "conn_publish_rate" ParseUint32 (conn_publish_rate c);
        rate_limit_burst := GetVal json "rate_limit_burst" ParseUint32 (rate_limit_burst c);
        max_write_buffer_size :=
          GetVal json "max_write_buffer_size" ParseSizeT (max_write_buffer_size c);
        ttl_enabled := GetBool json "ttl_enabled" (ttl_enabled c);
        default_ttl_ms := GetVal json "default_ttl_ms" ParseUint32 (default_ttl_ms c);
        expiration_check_interval_ms :=
          GetVal json "expiration_check_interval_ms" ParseUint32 (expiration_check_interval_ms c);
        compression_enabled := GetBool json "compression_enabled" (compression_enabled c);
        compression_threshold_bytes :=
          GetVal json "compression_threshold_bytes" ParseUint32 (compression_threshold_bytes c);
        zero_copy_enabled := GetBool json "zero_copy_enabled" (zero_copy_enabled c);
        dedup_enabled := GetBool json "dedup_enabled" (dedup_enabled c);
        dedup_window_size := GetVal json "dedup_window_size" ParseSizeT (dedup_window_size c);
        default_ring_buffer_size :=
          GetVal json "default_ring_buffer_size" ParseSizeT (default_ring_buffer_size c);
        max_retry_count := GetVal json "max_retry_count" ParseUint32 (max_retry_count c);
        pending_timeout_ms := GetVal json "pending_timeout_ms" ParseUint32 (pending_timeout_ms c);
        retry_interval_ms := GetVal json "retry_interval_ms" ParseUint32 (retry_interval_ms c);
      |})
  end.

(** ** Saving *)

(** [file << n]: the decimal digits; twenty are enough for 64 bits. *)
Fixpoint decimal_go (fuel : nat) (n : Z) (acc : string) : string :=
  match fuel with
  | O => acc
  | S fuel =>
      let acc := String (ascii_of_nat (Z.to_nat (n mod 10 + 48))) acc in
      if n <? 10 then acc else decimal_go fuel (n / 10) acc
  end.

Definition decimal (n : Z) : string := decimal_go 20 n "".
Definition show_bool (b : bool) : string := if b then "true" else "false".

(** The keys and values [SaveToFile] writes, line by line. *)
Definition config_fields (c : BrokerConfig) : list (string * string) := [
  ("port", decimal (port c));
  ("batch_publish_enabled", show_bool (batch_publish_enabled c));
  ("batch_push_enabled", show_bool (batch_push_enabled c));
  ("max_batch_size", decimal (max_batch_size c));
  ("heartbeat_enabled", show_bool (heartbeat_enabled c));
  ("heartbeat_interval_ms", decimal (heartbeat_interval_ms c));
  ("heartbeat_timeout_ms", decimal (heartbeat_timeout_ms c));
  ("heartbeat_check_interval_ms", decimal (heartbeat_check_interval_ms c));
  ("rate_limit_enabled", show_bool (rate_limit_enabled c));
  ("global_publish_rate", decimal (global_publish_rate c));
  ("conn_publish_rate", decimal (conn_publish_rate c));
  ("rate_limit_burst", decimal (rate_limit_burst c));
  ("max_write_buffer_size", decimal (max_write_buffer_size c));
  ("ttl_enabled", show_bool (ttl_enabled c));
  ("default_ttl_ms", decimal (default_ttl_ms c));
  ("expiration_check_interval_ms", decimal (expiration_check_interval_ms c));
  ("compression_enabled", show_bool (compression_enabled c));
  ("compression_threshold_bytes", decimal (compression_threshold_bytes c));
  ("zero_copy_enabled", show_bool (zero_copy_enabled c));
  ("dedup_enabled", show_bool (dedup_enabled c));
  ("dedup_window_size", decimal (dedup_window_size c));
  ("default_ring_buffer_size", decimal (default_ring_buffer_size c));
  ("max_retry_count", decimal (max_retry_count c));
  ("pending_timeout_ms", decimal (pending_timeout_ms c));
  ("retry_interval_ms", decimal (retry_interval_ms c))
].

Fixpoint write_fields (fields : list (string * string)) : string :=
  match fields with
  | [] => ""
  | (key, value) :: fields =>
      "  " ++ quoted key ++ ": " ++ value
      ++ (match fields with [] => "" | _ => "," end)
      ++ String newline (write_fields fields)
  end%string.

Definition SaveToFile (c : BrokerConfig) : string :=
  (String "{" (String newline (write_fields (config_fields c) ++ String "}" (String newline ""))))%string.

(** ** Searching a written file *)

Fixpoint all_chars (p : ascii -> bool) (s : string) : bool :=
  match s with
  | EmptyString => true
  | String c s' => p c && all_chars p s'
  end.

(** The characters of keys and values: none of those the reader looks for. *)
Definition plain (c : ascii) : bool :=
  negb (is_blank c) &&
  negb (bool_decide (c ∈ [dquote; ":"%char; ","%char; "}"%char; "/"%char])).

#[local] Arguments String.append !_ _ / : simpl nomatch.
#[local] Arguments dquote : simpl never.
#[local] Arguments newline : simpl never.

Lemma string_app_assoc (a b c : string) : ((a ++ b) ++ c = a ++ (b ++ c))%string.
Proof. induction a as [|x a IH]; [done|]. cbn. by rewrite IH. Qed.

Lemma string_app_nil_r (a : string) : (a ++ "" = a)%string.
Proof. induction a as [|x a IH]; [done|]. cbn. by rewrite IH. Qed.

Lemma all_chars_app p (a b : string) : all_chars p (a ++ b)%string = all_chars p a && all_chars p b.
Proof. induction a as [|x a IH]; [done|]. cbn. by rewrite IH, andb_assoc. Qed.

Lemma all_chars_impl (p q : ascii -> bool) s :
  (forall c, p c = true -> q c = true) -> all_chars p s = true -> all_chars q s = true.
Proof.
  intros Hpq. induction s as [|c s IH]; [done|]. cbn. intros [H1 H2]%andb_true_iff.
  by rewrite Hpq, IH.
Qed.

Lemma plain_facts c : plain c = true ->
  is_blank c = false /\ c <> dquote /\ c <> ":"%char /\ c <> ","%char /\ c <> "}"%char /\
  c <> "/"%char.
Proof.
  unfold plain. intros [H1 H2]%andb_true_iff. apply negb_true_iff in H1, H2.
  apply bool_decide_eq_false in H2. split; [done|].
  repeat split; intros ->; apply H2; repeat (first [by left|right]).
Qed.

Ltac plain_char H :=
  let Hp := fresh in
  apply andb_true_iff in H as [Hp H]; apply plain_facts in Hp as (? & ? & ? & ? & ? & ?).

Lemma prefix_quoted k k1 r : all_chars plain k = true -> all_chars plain k1 = true ->
  String.prefix (k ++ String dquote "")%string (k1 ++ String dquote r)%string = true -> k = k1.
Proof.
  revert k1. induction k as [|c k IH]; intros [|c1 k1] Hk Hk1; cbn in *.
  - done.
  - plain_char Hk1. destruct (ascii_dec dquote c1); [congruence|done].
  - plain_char Hk. destruct (ascii_dec c dquote); [congruence|done].
  - plain_char Hk. plain_char Hk1. destruct (ascii_dec c c1) as [->|]; [|done].
    intros Hp. by rewrite (IH k1).
Qed.

Lemma prefix_refl_app (p r : string) : String.prefix p (p ++ r)%string = true.
Proof.
  induction p as [|c p IH]; [by destruct r|]. cbn. destruct (ascii_dec c c); [exact IH|done].
Qed.

Lemma find_str_unfold p s : find_str p s =
  if String.prefix p s then Some s
  else match s with EmptyString => None | String _ s' => find_str p s' end.
Proof. by destruct s. Qed.

Lemma find_skip k (s1 s2 : string) : all_chars (λ c, negb (bool_decide (c = dquote))) s1 = true ->
  find_str (quoted k) (s1 ++ s2) = find_str (quoted k) s2.
Proof.
  induction s1 as [|c s1 IH]; [done|]. cbn. intros [H1 H2]%andb_true_iff.
  apply negb_true_iff, bool_decide_eq_false in H1.
  destruct (ascii_dec dquote c); [congruence|]. by apply IH.
Qed.

Lemma find_here k rest : find_str (quoted k) (quoted k ++ rest) = Some (quoted k ++ rest)%string.
Proof. rewrite find_str_unfold. by rewrite prefix_refl_app. Qed.

Lemma plain_no_quote s : all_chars plain s = true ->
  all_chars (λ c, negb (bool_decide (c = dquote))) s = true.
Proof.
  apply all_chars_impl. intros c (_ & Hc & _)%plain_facts. by rewrite bool_decide_false.
Qed.

Lemma find_other k k1 rest :
  k <> "" -> k <> k1 -> all_chars plain k = true -> all_chars plain k1 = true ->
  find_str (quoted k) (quoted k1 ++ String ":" rest) = find_str (quoted k) rest.
Proof.
  intros Hne Hk Hp Hp1.
  change (quoted k1 ++ String ":" rest)%string
    with (String dquote ((k1 ++ String dquote "") ++ String ":" rest)%string).
  rewrite string_app_assoc. cbn [append]. cbn [find_str].
  destruct (String.prefix (quoted k) _) eqn:E.
  { cbn in E. destruct (ascii_dec dquote dquote); [|done].
    by apply prefix_quoted in E. }
  rewrite (find_skip k k1) by (by apply plain_no_quote).
  destruct k as [|c k]; [done|]. plain_char Hp. cbn.
  destruct (ascii_dec c ":"); [congruence|]. done.
Qed.

Lemma after_colon k rest : all_chars plain k = true ->
  after_char ":" (quoted k ++ String ":" rest) = Some rest.
Proof.
  intros Hp. cbn. rewrite bool_decide_false by done. rewrite string_app_assoc. cbn.
  induction k as [|c k IH]; [done|]. plain_char Hp. cbn. rewrite bool_decide_false by done.
  by apply IH.
Qed.

Lemma before_here (c : ascii) (s rest : string) :
  all_chars (λ x, negb (bool_decide (x = c))) s = true ->
  before_char c (s ++ String c rest) = Some s.
Proof.
  induction s as [|x s IH]; cbn.
  - intros _. by rewrite bool_decide_true.
  - intros [H1 H2]%andb_true_iff. apply negb_true_iff in H1. by rewrite H1, IH.
Qed.

Lemma before_none (c : ascii) (s : string) :
  all_chars (λ x, negb (bool_decide (x = c))) s = true -> before_char c s = None.
Proof.
  induction s as [|x s IH]; [done|]. cbn. intros [H1 H2]%andb_true_iff.
  apply negb_true_iff in H1. by rewrite H1, IH.
Qed.

Lemma ltrim_plain v rest : v <> "" -> all_chars plain v = true ->
  ltrim (v ++ rest) = (v ++ rest)%string.
Proof.
  destruct v as [|c v]; [done|]. intros _ Hp. plain_char Hp. cbn.
  by destruct (is_blank c).
Qed.

Lemma rtrim_plain v rest : all_chars plain v = true -> rtrim rest = "" -> rtrim (v ++ rest) = v.
Proof.
  intros Hp Hr. induction v as [|c v IH]; [done|]. plain_char Hp. cbn. rewrite IH by done.
  destruct (is_blank c); done.
Qed.

Lemma Trim_plain v rest : v <> "" -> all_chars plain v = true -> rtrim rest = "" ->
  Trim (String " " (v ++ rest)) = v.
Proof. intros Hv Hp Hr. unfold Trim. cbn. rewrite ltrim_plain by done. by apply rtrim_plain. Qed.

(** ** What is written is found *)

Definition field_ok (f : string * string) : Prop :=
  f.1 <> "" /\ all_chars plain f.1 = true /\ f.2 <> "" /\ all_chars plain f.2 = true.

(** The end of the file. *)
Definition closing : string := String "}" (String newline "").

(** What follows a field's value. *)
Definition field_end (after : string) : Prop :=
  (exists rest, after = String "," (String newline rest)) \/ after = String newline closing.

Lemma write_fields_find fields key value :
  Forall field_ok fields -> NoDup fields.*1 -> (key, value) ∈ fields ->
  exists after, find_str (quoted key) (write_fields fields ++ closing) =
    Some (quoted key ++ String ":" (String " " (value ++ after)))%string /\ field_end after.
Proof.
  intros Hok Hnd Hin. assert (field_ok (key, value)) as (Hne & Hkey & _).
  { by apply (proj1 (Forall_forall _ _) Hok). }
  cbn in Hne, Hkey.
  induction fields as [|[k v] fields IH]; [by apply not_elem_of_nil in Hin|].
  apply Forall_cons in Hok as [(Hk1 & Hk2 & Hv1 & Hv2) Hok]. cbn in Hk1, Hk2, Hv1, Hv2.
  rewrite fmap_cons in Hnd. apply NoDup_cons in Hnd as [Hk Hnd]. cbn [fst] in Hk.
  set (sep := match fields with [] => "" | _ => "," end).
  assert ((write_fields ((k, v) :: fields) ++ closing)%string =
    ("  " ++ (quoted k ++ String ":" (String " " (v ++ sep ++ String newline
      (write_fields fields ++ closing)))))%string) as ->.
  { cbn [write_fields]. fold sep. rewrite !string_app_assoc. cbn. by rewrite !string_app_assoc. }
  rewrite find_skip by done. destruct (decide (key = k)) as [->|Hne'].
  - rewrite find_here. apply elem_of_cons in Hin as [[= ->]|Hin].
    2:{ destruct Hk. by apply (list_elem_of_fmap_2 fst) in Hin. }
    eexists. split; [done|]. unfold sep, field_end. destruct fields; [right|left]; [done|].
    by eexists.
  - apply elem_of_cons in Hin as [[= -> ->]|Hin]; [done|].
    rewrite find_other by done.
    destruct (IH Hok Hnd Hin) as (after & Hfind & Hend). exists after. split; [|done].
    rewrite <- Hfind.
    change (String " " (v ++ sep ++ String newline (write_fields fields ++ closing)))%string
      with (" " ++ (v ++ (sep ++ String newline (write_fields fields ++ closing))))%string.
    rewrite find_skip by done. rewrite find_skip by (by apply plain_no_quote).
    rewrite find_skip by (unfold sep; by destruct fields).
    exact (find_skip key (String newline "") _ eq_refl).
Qed.

Lemma plain_no (c : ascii) s :
  c ∈ [dquote; ":"%char; ","%char; "}"%char; "/"%char] -> all_chars plain s = true ->
  all_chars (λ x, negb (bool_decide (x = c))) s = true.
Proof.
  intros Hc. apply all_chars_impl. intros x Hx. apply negb_true_iff, bool_decide_eq_false.
  intros ->. unfold plain in Hx. rewrite (bool_decide_true (c ∈ _)) in Hx by done.
  by rewrite andb_false_r in Hx.
Qed.

Lemma ExtractValue_written head fields key value :
  all_chars (λ c, negb (bool_decide (c = dquote))) head = true ->
  Forall field_ok fields -> NoDup fields.*1 -> (key, value) ∈ fields ->
  ExtractValue (head ++ write_fields fields ++ closing) key = value.
Proof.
  intros Hhead Hok Hnd Hin. unfold ExtractValue. rewrite find_skip by done.
  destruct (write_fields_find fields key value Hok Hnd Hin) as (after & -> & Hend).
  assert (field_ok (key, value)) as (Hk1 & Hk2 & Hv1 & Hv2).
  { by apply (proj1 (Forall_forall _ _) Hok). }
  cbn [fst snd] in *. rewrite after_colon by done. destruct Hend as [[rest ->]| ->].
  - change (String " " (value ++ String "," (String newline rest)))
      with ((String " " value) ++ String "," (String newline rest))%string.
    rewrite before_here by (cbn; rewrite plain_no; [done|set_solver|done]).
    rewrite <- (string_app_nil_r value) at 1. by apply Trim_plain.
  - rewrite before_none
      by (cbn; rewrite all_chars_app, plain_no; [done|set_solver|done]).
    change (String " " (value ++ String newline closing))
      with ((String " " value) ++ (String newline "" ++ String "}" (String newline "")))%string.
    rewrite <- string_app_assoc. rewrite before_here.
    + by apply Trim_plain.
    + cbn. rewrite all_chars_app, plain_no; [done|set_solver|done].
Qed.

(** ** Numbers *)

Lemma digit_char n : 0 <= n <= 9 ->
  digit_value (ascii_of_nat (Z.to_nat (n + 48))) = Some n /\
  plain (ascii_of_nat (Z.to_nat (n + 48))) = true /\
  is_space (ascii_of_nat (Z.to_nat (n + 48))) = false /\
  ascii_of_nat (Z.to_nat (n + 48)) <> "-"%char /\
  ascii_of_nat (Z.to_nat (n + 48)) <> "+"%char.
Proof.
  intros Hn. rewrite <- (Z2Nat.id n) in * by lia. generalize dependent (Z.to_nat n). clear n.
  intros k Hk. do 10 (destruct k as [|k]; [by vm_compute|]). lia.
Qed.

Lemma read_decimal_go fuel n acc : 0 <= n < 10 ^ Z.of_nat fuel -> (0 < fuel)%nat ->
  read_digits 0 (decimal_go fuel n acc) = read_digits n acc.
Proof.
  revert n acc. induction fuel as [|fuel IH]; intros n acc Hn Hf; [lia|]. cbn [decimal_go].
  pose proof (Z.mod_pos_bound n 10 ltac:(lia)) as Hmod.
  destruct (digit_char (n mod 10)) as (Hd & _); [lia|].
  destruct (n <? 10) eqn:E; reflect_bools.
  - cbn [read_digits]. rewrite Hd. f_equal. rewrite Z.mod_small; lia.
  - rewrite Nat2Z.inj_succ, Z.pow_succ_r in Hn by lia.
    assert (0 < fuel)%nat by (destruct fuel; [change (10 ^ Z.of_nat 0) with 1 in Hn; lia|lia]).
    rewrite IH; [|split; [apply Z.div_pos; lia|apply Z.div_lt_upper_bound; lia]|done].
    cbn [read_digits]. rewrite Hd. f_equal. pose proof (Z_div_mod_eq_full n 10). lia.
Qed.

Lemma decimal_go_chars fuel n acc : 0 <= n -> (0 < fuel)%nat -> all_chars plain acc = true ->
  all_chars plain (decimal_go fuel n acc) = true /\
  exists d s, 0 <= d <= 9 /\ decimal_go fuel n acc = String (ascii_of_nat (Z.to_nat (d + 48))) s.
Proof.
  revert n acc. induction fuel as [|fuel IH]; intros n acc Hn Hf Hacc; [lia|].
  cbn [decimal_go]. pose proof (Z.mod_pos_bound n 10 ltac:(lia)) as Hmod.
  destruct (digit_char (n mod 10)) as (_ & Hp & _); [lia|].
  assert (all_chars plain (String (ascii_of_nat (Z.to_nat (n mod 10 + 48))) acc) = true) as Hacc'.
  { cbn [all_chars]. by rewrite Hp. }
  destruct (n <? 10); [split; [done|]; exists (n mod 10), acc; split; [lia|done]|].
  destruct fuel; [split; [done|]; exists (n mod 10), acc; split; [lia|done]|].
  apply IH; [apply Z.div_pos; lia|lia|done].
Qed.

(** A written number is a plain text that [stoul] reads back. *)
Lemma decimal_spec n : 0 <= n < 2 ^ 64 ->
  decimal n <> "" /\ all_chars plain (decimal n) = true /\ stoul (decimal n) = Some n.
Proof.
  intros Hn. unfold decimal.
  destruct (decimal_go_chars 20 n "") as (Hp & d & s & Hd & Heq); [lia|lia|done|].
  pose proof (read_decimal_go 20 n "" ltac:(lia) ltac:(lia)) as Hread.
  split; [by rewrite Heq|]. split; [done|]. rewrite Heq in *.
  destruct (digit_char d Hd) as (Hv & _ & Hsp & Hm & Hpl).
  unfold stoul. cbn [skip_space]. rewrite Hsp. rewrite !bool_decide_false by done.
  unfold read_number. rewrite Hv, Hread. cbn [read_digits].
  destruct (2 ^ 64 <=? n) eqn:E; reflect_bools; [lia|done].
Qed.

Lemma Trim_id v : v <> "" -> all_chars plain v = true -> Trim v = v.
Proof.
  intros Hv Hp. unfold Trim. rewrite <- (string_app_nil_r v) at 1.
  rewrite ltrim_plain by done. by apply rtrim_plain.
Qed.

Lemma ParseBool_show b : ParseBool (show_bool b) = Some b.
Proof. by destruct b. Qed.

(** ** The round trip *)

(** The fields in the ranges of their types. *)
Record config_ok (c : BrokerConfig) : Prop := {
  ok_port : 0 <= port c < 2 ^ 16;
  ok_uint32 : Forall (λ n, 0 <= n < 2 ^ 32)
    [max_batch_size c; heartbeat_interval_ms c; heartbeat_timeout_ms c;
     heartbeat_check_interval_ms c; global_publish_rate c; conn_publish_rate c;
     rate_limit_burst c; default_ttl_ms c; expiration_check_interval_ms c;
     compression_threshold_bytes c; max_retry_count c; pending_timeout_ms c;
     retry_interval_ms c];
  ok_size_t : Forall (λ n, 0 <= n < 2 ^ 64)
    [max_write_buffer_size c; dedup_window_size c; default_ring_buffer_size c];
}.

Lemma strip_comments_id prev in_string s :
  all_chars (λ c, negb (bool_decide (c = "/"%char))) s = true ->
  strip_comments prev in_string false s = s.
Proof.
  revert prev in_string. induction s as [|c s IH]; intros prev in_string; [done|].
  cbn [all_chars strip_comments]. intros [H1 H2]%andb_true_iff. apply negb_true_iff in H1.
  rewrite H1, andb_false_r. cbn [andb]. by rewrite IH.
Qed.

Lemma number_field key n : 0 <= n < 2 ^ 64 -> key <> "" -> all_chars plain key = true ->
  field_ok (key, decimal n).
Proof. intros Hn Hk Hp. by destruct (decimal_spec n Hn) as (? & ? & _). Qed.

Lemma bool_field key b : key <> "" -> all_chars plain key = true -> field_ok (key, show_bool b).
Proof. intros Hk Hp. by destruct b. Qed.

Lemma config_fields_ok c : config_ok c -> Forall field_ok (config_fields c).
Proof.
  intros [Hport H32 H64]. repeat rewrite Forall_cons in H32. repeat rewrite Forall_cons in H64.
  unfold config_fields. repeat (constructor; [first [apply bool_field|apply number_field]; done || lia|]).
  constructor.
Qed.

Lemma write_fields_no_slash fields : Forall field_ok fields ->
  all_chars (λ c, negb (bool_decide (c = "/"%char))) (write_fields fields) = true.
Proof.
  induction fields as [|[k v] fields IH]; [done|].
  intros [(_ & Hk & _ & Hv) Hok]%Forall_cons. cbn [fst snd write_fields] in *.
  assert (all_chars (λ c, negb (bool_decide (c = "/"%char))) (quoted k) = true) as Hq.
  { unfold quoted. cbn [all_chars]. rewrite all_chars_app, plain_no; [done|set_solver|done]. }
  rewrite !all_chars_app, Hq. rewrite (plain_no _ v); [|set_solver|done].
  cbn [all_chars]. rewrite IH by done. by destruct fields.
Qed.

(** The value written for a key. *)
Fixpoint field_value (key : string) (fields : list (string * string)) : option string :=
  match fields with
  | [] => None
  | (k, v) :: fields => if String.eqb k key then Some v else field_value key fields
  end.

Lemma field_value_in key v fields : field_value key fields = Some v -> (key, v) ∈ fields.
Proof.
  induction fields as [|[k w] fields IH]; [done|]. cbn [field_value].
  destruct (String.eqb_spec k key) as [->|]; [intros [= ->]; left|intros Hv; right; by apply IH].
Qed.

Section saved.
Variable c : BrokerConfig.
Hypothesis Hok : config_ok c.

Lemma SaveToFile_stripped : strip_comments None false false (SaveToFile c) = SaveToFile c.
Proof.
  apply strip_comments_id. unfold SaveToFile. cbn [all_chars].
  rewrite all_chars_app, write_fields_no_slash; [done|]. by apply config_fields_ok.
Qed.

Lemma ExtractValue_saved key value :
  (key, value) ∈ config_fields c -> ExtractValue (SaveToFile c) key = value.
Proof.
  intros Hin. apply (ExtractValue_written (String "{" (String newline "")) (config_fields c));
    [done|by apply config_fields_ok| |done].
  cbn. apply (bool_decide_eq_true_1 _). by vm_compute.
Qed.

Lemma GetBool_saved key b field :
  field_value key (config_fields c) = Some (show_bool b) -> GetBool (SaveToFile c) key field = b.
Proof.
  intros Hin%field_value_in. unfold GetBool. rewrite (ExtractValue_saved _ _ Hin). by rewrite ParseBool_show.
Qed.

Lemma GetVal_saved key parser n field :
  field_value key (config_fields c) = Some (decimal n) -> 0 <= n < 2 ^ 64 -> parser (decimal n) = Some n ->
  GetVal (SaveToFile c) key parser field = n.
Proof.
  intros Hin%field_value_in Hn Hp. unfold GetVal. rewrite (ExtractValue_saved _ _ Hin).
  destruct (decimal_spec n Hn) as (Hne & _). rewrite bool_decide_false by done. by rewrite Hp.
Qed.

Lemma ParseSizeT_saved n : 0 <= n < 2 ^ 64 -> ParseSizeT (decimal n) = Some n.
Proof.
  intros Hn. destruct (decimal_spec n Hn) as (Hne & Hp & Hs). unfold ParseSizeT. by rewrite Trim_id.
Qed.

Lemma ParseUint32_saved n : 0 <= n < 2 ^ 32 -> ParseUint32 (decimal n) = Some n.
Proof.
  intros Hn. unfold ParseUint32. fold (ParseSizeT (decimal n)).
  rewrite ParseSizeT_saved by lia. cbn. by rewrite u32_id.
Qed.

Lemma ParseUint16_saved n : 0 <= n < 2 ^ 16 -> ParseUint16 (decimal n) = Some n.
Proof.
  intros Hn. unfold ParseUint16. fold (ParseSizeT (decimal n)).
  rewrite ParseSizeT_saved by lia. cbn. by rewrite u16_id.
Qed.
End saved.

Lemma BrokerConfig_eta c : c =
    mkBrokerConfig (port c) (batch_publish_enabled c) (batch_push_enabled c) (max_batch_size c)
      (heartbeat_enabled c) (heartbeat_interval_ms c) (heartbeat_timeout_ms c)
      (heartbeat_check_interval_ms c) (rate_limit_enabled c) (global_publish_rate c)
      (conn_publish_rate c) (rate_limit_burst c) (max_write_buffer_size c) (ttl_enabled c)
      (default_ttl_ms c) (expiration_check_interval_ms c) (compression_enabled c)
      (compression_threshold_bytes c) (zero_copy_enabled c) (dedup_enabled c)
      (dedup_window_size c) (default_ring_buffer_size c) (max_retry_count c)
      (pending_timeout_ms c) (retry_interval_ms c).
Proof. by destruct c. Qed.

Lemma LoadFromFile_SaveToFile c c0 : config_ok c ->
  LoadFromFile (Some (SaveToFile c)) c0 = (true, c).
Proof.
  intros Hok. unfold LoadFromFile. cbv zeta. rewrite SaveToFile_stripped by done.
  pose proof Hok as [Hport H32 H64].
  repeat rewrite Forall_cons in H32. repeat rewrite Forall_cons in H64.
  pose proof (GetBool_saved c Hok) as Hbool. pose proof (GetVal_saved c Hok) as Hval.
  revert Hbool Hval. generalize (SaveToFile c) as json. intros json Hbool Hval.
  f_equal. etransitivity; [|symmetry; apply BrokerConfig_eta].
  f_equal; lazymatch goal with
    | |- GetBool _ _ _ = _ => apply Hbool; reflexivity
    | |- GetVal _ _ ?parser _ = _ => apply Hval; [reflexivity|lia|];
        lazymatch parser with
        | ParseUint16 => apply ParseUint16_saved
        | ParseUint32 => apply ParseUint32_saved
        | ParseSizeT => apply ParseSizeT_saved
        end; lia
    end.
Qed.

(** Loading a saved configuration restores it: every one of the 25 fields,
    whatever configuration it is loaded over; a file that cannot be opened
    leaves that one as it is and is reported. *)
Theorem config_roundtrip c c0 : config_ok c ->
  LoadFromFile (Some (SaveToFile c)) c0 = (true, c) /\ LoadFromFile None c0 = (false, c0).
Proof. intros Hok. split; [by apply LoadFromFile_SaveToFile|done]. Qed.

Lemma config_roundtrip_witness :
  LoadFromFile (Some (SaveToFile BrokerConfig_default))
    (mkBrokerConfig 1 false false 2 false 3 4 5 false 6 7 8 9 false 10 11 true 12 false false
       13 14 15 16 17) = (true, BrokerConfig_default).
Proof. apply config_roundtrip. split; repeat constructor; cbn; lia. Defined.

(** A comment, a missing key and a port that does not fit 16 bits. *)
Example load_partial :
  let text := (String "{" (" // port"
    ++ String newline (quoted "port" ++ ": 70000, " ++ quoted "max_retry_count" ++ ": -1 }")))%string in
  let '(ok, c) := LoadFromFile (Some text) BrokerConfig_default in
  ok = true /\ port c = 4464 /\ max_retry_count c = 2 ^ 32 - 1 /\ rate_limit_burst c = 100.
Proof. by vm_compute. Qed.

(** ** What is loaded is in range *)

Lemma read_digits_nonneg v s : 0 <= v -> 0 <= read_digits v s.
Proof.
  revert v. induction s as [|c s IH]; intros v Hv; [done|]. cbn [read_digits].
  unfold digit_value. cbv zeta. destruct (_ && _) eqn:E; [|done]. reflect_bools. apply IH. lia.
Qed.

Lemma stoul_range s n : stoul s = Some n -> 0 <= n < 2 ^ 64.
Proof.
  unfold stoul. cbv zeta. destruct (match skip_space s with EmptyString => _ | String _ _ => _ end)
    as [negative digits].
  destruct (read_number digits) as [k|] eqn:Hk; [|done].
  assert (0 <= k) as Hk0.
  { unfold read_number in Hk. destruct digits as [|c d]; [done|].
    destruct (digit_value c); [|done]. injection Hk as <-. exact (read_digits_nonneg 0 (String c d) ltac:(done)). }
  destruct (2 ^ 64 <=? k) eqn:E; [done|]. reflect_bools. intros [= <-].
  destruct negative; [apply u64_range|lia].
Qed.

Lemma GetVal_range (P : Z -> Prop) json key parser field :
  (forall s n, parser s = Some n -> P n) -> P field -> P (GetVal json key parser field).
Proof.
  intros Hp Hf. unfold GetVal. cbv zeta. case_if; [done|].
  destruct (parser _) as [n|] eqn:E; [by eapply Hp|done].
Qed.

Lemma ParseUint16_range s n : ParseUint16 s = Some n -> 0 <= n < 2 ^ 16.
Proof. intros (k & _ & ->)%fmap_Some. by apply wrap_in_width. Qed.

Lemma ParseUint32_range s n : ParseUint32 s = Some n -> 0 <= n < 2 ^ 32.
Proof. intros (k & _ & ->)%fmap_Some. apply u32_range. Qed.

Lemma LoadFromFile_ok content c : config_ok c -> config_ok (LoadFromFile content c).2.
Proof.
  intros Hok. destruct content as [content|]; [|done]. destruct Hok as [Hport H32 H64].
  repeat rewrite Forall_cons in H32. repeat rewrite Forall_cons in H64.
  cbn [LoadFromFile]. cbv zeta. generalize (strip_comments None false false content) as json.
  intros json. cbn [snd]. split; cbn [port max_batch_size heartbeat_interval_ms heartbeat_timeout_ms
    heartbeat_check_interval_ms global_publish_rate conn_publish_rate rate_limit_burst
    default_ttl_ms expiration_check_interval_ms compression_threshold_bytes max_retry_count
    pending_timeout_ms retry_interval_ms max_write_buffer_size dedup_window_size
    default_ring_buffer_size].
  - apply GetVal_range; [apply ParseUint16_range|done].
  - repeat (constructor; [apply GetVal_range; [apply ParseUint32_range|lia]|]). constructor.
  - repeat (constructor; [apply GetVal_range; [intros s n; apply stoul_range|lia]|]). constructor.
Qed.
