(* ===== verification/TopicManager.v ===== *)
(** * Topics and subscriptions: [mq/topic_manager.{h,cpp}]

    Topics, broadcast subscribers, consumer groups with round-robin selection,
    and the per-topic configuration. *)

From S2P Require Import Prelude Types Config.

(** ** Data *)

Record ConsumerGroupMember := mkMember {
  subscriber_id : SubscriberId;
  member_conn_id : ConnectionId;
}.

Record ConsumerGroup := mkGroup {
  group_id : string;
  group_topic_name : string;
  members : list ConsumerGroupMember;
  round_robin_index : Z;
}.

Record TopicManager := mkTopicManager {
  tm_topics : gmap string TopicInfo;
  subscribers_ : gmap string (list SubscriberInfo);
  consumer_groups_ : gmap string (gmap string ConsumerGroup);
  tm_topic_configs : gmap string TopicConfig;
}.

#[export] Instance ConsumerGroupMember_eq_dec : EqDecision ConsumerGroupMember.
Proof. solve_decision. Defined.
#[export] Instance ConsumerGroup_eq_dec : EqDecision ConsumerGroup.
Proof. solve_decision. Defined.

Definition TopicManager_new : TopicManager := mkTopicManager ∅ ∅ ∅ ∅.

Definition set_tm_topics (t : gmap string TopicInfo) (tm : TopicManager) : TopicManager :=
  mkTopicManager t (subscribers_ tm) (consumer_groups_ tm) (tm_topic_configs tm).
Definition set_subscribers (s : gmap string (list SubscriberInfo)) (tm : TopicManager)
    : TopicManager :=
  mkTopicManager (tm_topics tm) s (consumer_groups_ tm) (tm_topic_configs tm).
Definition set_groups (g : gmap string (gmap string ConsumerGroup)) (tm : TopicManager)
    : TopicManager :=
  mkTopicManager (tm_topics tm) (subscribers_ tm) g (tm_topic_configs tm).
Definition set_members (ms : list ConsumerGroupMember) (g : ConsumerGroup) : ConsumerGroup :=
  mkGroup (group_id g) (group_topic_name g) ms (round_robin_index g).

(** ** Topics *)

Definition RegisterTopic (topic : TopicInfo) (tm : TopicManager) : bool * TopicManager :=
  match tm_topics tm !! ti_name topic with
  | Some _ => (false, tm)
  | None => (true, set_tm_topics (<[ti_name topic := topic]> (tm_topics tm)) tm)
  end.

Definition UnregisterTopic (topic_name : string) (tm : TopicManager) : bool * TopicManager :=
  (true, mkTopicManager (delete topic_name (tm_topics tm)) (delete topic_name (subscribers_ tm))
           (delete topic_name (consumer_groups_ tm)) (tm_topic_configs tm)).

Definition GetTopic (topic_name : string) (tm : TopicManager) : option TopicInfo :=
  tm_topics tm !! topic_name.

Definition GetAllTopics (order : Traversal string) (tm : TopicManager) : list TopicInfo :=
  (entries order (tm_topics tm)).*2.

Definition TM_HasTopic (topic_name : string) (tm : TopicManager) : bool :=
  bool_decide (is_Some (tm_topics tm !! topic_name)).

(** ** Subscriptions *)

(** The empty [group_id] means a broadcast subscription. *)
Definition Subscribe (topic_name : string) (subscriber : SubscriberInfo) (group : string)
    (tm : TopicManager) : bool * TopicManager :=
  let tm :=
    match tm_topics tm !! topic_name with
    | Some _ => tm
    | None => set_tm_topics (<[topic_name := mkTopicInfo topic_name 0 0]> (tm_topics tm)) tm
    end in
  if bool_decide (group = "") then
    let subs := default [] (subscribers_ tm !! topic_name) in
    if existsb (λ info, bool_decide (sub_id info = sub_id subscriber)) subs
    then (false, set_subscribers (<[topic_name := subs]> (subscribers_ tm)) tm)
    else (true, set_subscribers (<[topic_name := subs ++ [subscriber]]> (subscribers_ tm)) tm)
  else
    let groups := default ∅ (consumer_groups_ tm !! topic_name) in
    let new_member := mkMember (sub_id subscriber) (sub_conn_id subscriber) in
    match groups !! group with
    | None =>
        (true, set_groups (<[topic_name :=
           <[group := mkGroup group topic_name [new_member] 0]> groups]> (consumer_groups_ tm)) tm)
    | Some g =>
        if existsb (λ m, bool_decide (subscriber_id m = sub_id subscriber)) (members g)
        then (false, set_groups (<[topic_name := groups]> (consumer_groups_ tm)) tm)
        else (true, set_groups (<[topic_name :=
           <[group := set_members (members g ++ [new_member]) g]> groups]>
             (consumer_groups_ tm)) tm)
    end.

Definition Unsubscribe (topic_name : string) (sid : SubscriberId) (group : string)
    (tm : TopicManager) : bool * TopicManager :=
  if bool_decide (group = "") then
    match subscribers_ tm !! topic_name with
    | None => (false, tm)
    | Some subs =>
        let kept := filter (λ info, sub_id info <> sid) subs in
        if (length kept =? length subs)%nat then (false, tm)
        else (true, set_subscribers (<[topic_name := kept]> (subscribers_ tm)) tm)
    end
  else
    match consumer_groups_ tm !! topic_name with
    | None => (false, tm)
    | Some groups =>
        match groups !! group with
        | None => (false, tm)
        | Some g =>
            let kept := filter (λ m, subscriber_id m <> sid) (members g) in
            if (length kept =? length (members g))%nat then (false, tm)
            else
              let groups' :=
                if bool_decide (kept = []) then delete group groups
                else <[group := set_members kept g]> groups in
              (true, set_groups (<[topic_name := groups']> (consumer_groups_ tm)) tm)
        end
    end.

Definition GetSubscribers (topic_name : string) (tm : TopicManager) : list SubscriberInfo :=
  default [] (subscribers_ tm !! topic_name).

Definition GetConsumerGroups (order : Traversal string) (topic_name : string) (tm : TopicManager)
    : list ConsumerGroup :=
  match consumer_groups_ tm !! topic_name with
  | Some groups => (entries order groups).*2
  | None => []
  end.

Definition GetConsumerGroup (topic_name group : string) (tm : TopicManager)
    : option ConsumerGroup :=
  groups ← consumer_groups_ tm !! topic_name; groups !! group.

(** Round robin; the empty string when there is nobody. *)
Definition SelectNextMember (topic_name group : string) (tm : TopicManager)
    : string * TopicManager :=
  match consumer_groups_ tm !! topic_name with
  | None => ("", tm)
  | Some groups =>
      match groups !! group with
      | None => ("", tm)
      | Some g =>
          if bool_decide (members g = []) then ("", tm)
          else
            let n := zlen (members g) in
            let idx := round_robin_index g mod n in
            let g' := mkGroup (group_id g) (group_topic_name g) (members g)
                        (u64 (round_robin_index g + 1) mod n) in
            (default "" (subscriber_id <$> members g !! Z.to_nat idx),
             set_groups (<[topic_name := <[group := g']> groups]> (consumer_groups_ tm)) tm)
      end
  end.

(** Removes the subscriptions of a connection; empty lists, groups and topics
    of the two maps go with them. *)
Definition keep_groups (conn_id : ConnectionId) (groups : gmap string ConsumerGroup)
    : gmap string ConsumerGroup :=
  omap (λ g, let kept := filter (λ m, member_conn_id m <> conn_id) (members g) in
             if bool_decide (kept = []) then None else Some (set_members kept g)) groups.

Definition UnsubscribeByConnId (conn_id : ConnectionId) (tm : TopicManager)
    : bool * TopicManager :=
  let subs' := omap (λ subs, let kept := filter (λ info, sub_conn_id info <> conn_id) subs in
                             if bool_decide (kept = []) then None else Some kept)
                 (subscribers_ tm) in
  let groups' := omap (λ groups, let kept := keep_groups conn_id groups in
                                 if bool_decide (kept = ∅) then None else Some kept)
                   (consumer_groups_ tm) in
  let removed_sub := existsb (λ e, existsb (λ info, sub_conn_id info =? conn_id) e.2)
                       (map_to_list (subscribers_ tm)) in
  let removed_member :=
    existsb (λ e, existsb (λ e', existsb (λ m, member_conn_id m =? conn_id) (members e'.2))
                    (map_to_list e.2))
      (map_to_list (consumer_groups_ tm)) in
  (removed_sub || removed_member,
   mkTopicManager (tm_topics tm) subs' groups' (tm_topic_configs tm)).

(** ** Per-topic configuration *)

Definition TM_SetTopicConfig (topic_name : string) (config : TopicConfig) (tm : TopicManager)
    : TopicManager :=
  mkTopicManager (tm_topics tm) (subscribers_ tm) (consumer_groups_ tm)
    (<[topic_name := config]> (tm_topic_configs tm)).

Definition TM_GetTopicConfig (topic_name : string) (tm : TopicManager) : TopicConfig :=
  default TopicConfig_default (tm_topic_configs tm !! topic_name).

Definition TM_HasTopicConfig (topic_name : string) (tm : TopicManager) : bool :=
  bool_decide (is_Some (tm_topic_configs tm !! topic_name)).

(** ** Runs of operations *)

Inductive tm_op :=
  | OpRegister (topic : TopicInfo)
  | OpUnregister (topic_name : string)
  | OpSubscribe (topic_name : string) (s : SubscriberInfo) (group : string)
  | OpUnsubscribe (topic_name : string) (sid : SubscriberId) (group : string)
  | OpSelect (topic_name group : string)
  | OpUnsubscribeConn (conn_id : ConnectionId)
  | OpConfigure (topic_name : string) (config : TopicConfig).

Definition tm_step (tm : TopicManager) (op : tm_op) : TopicManager :=
  match op with
  | OpRegister topic => snd (RegisterTopic topic tm)
  | OpUnregister t => snd (UnregisterTopic t tm)
  | OpSubscribe t s g => snd (Subscribe t s g tm)
  | OpUnsubscribe t sid g => snd (Unsubscribe t sid g tm)
  | OpSelect t g => snd (SelectNextMember t g tm)
  | OpUnsubscribeConn c => snd (UnsubscribeByConnId c tm)
  | OpConfigure t config => TM_SetTopicConfig t config tm
  end.

(** ** The invariant *)

Record group_ok (topic name : string) (g : ConsumerGroup) : Prop := {
  go_id : group_id g = name;
  go_topic : group_topic_name g = topic;
  go_name : name <> "";
  go_members : members g <> [];
  go_nodup : NoDup (subscriber_id <$> members g);
  go_index : 0 <= round_robin_index g < 2 ^ 64;
}.

Definition groups_ok (topic : string) (groups : gmap string ConsumerGroup) : Prop :=
  map_Forall (group_ok topic) groups.

Record tm_ok (tm : TopicManager) : Prop := {
  to_topics : map_Forall (λ name t, ti_name t = name) (tm_topics tm);
  to_subs : map_Forall (λ topic subs, is_Some (tm_topics tm !! topic) /\
    NoDup (sub_id <$> subs)) (subscribers_ tm);
  to_groups : map_Forall (λ topic groups, is_Some (tm_topics tm !! topic) /\
    groups_ok topic groups) (consumer_groups_ tm);
}.

Lemma existsb_false_notin {A} (f : A -> string) x (l : list A) :
  existsb (λ y, bool_decide (f y = x)) l = false -> x ∉ (f <$> l).
Proof.
  intros He (y & -> & Hy)%list_elem_of_fmap.
  assert (existsb (λ z, bool_decide (f z = f y)) l = true); [|congruence].
  apply existsb_exists. exists y. split; [by apply list_elem_of_In|by apply bool_decide_true].
Qed.

Lemma existsb_true_in {A} (f : A -> string) x (l : list A) :
  existsb (λ y, bool_decide (f y = x)) l = true -> x ∈ (f <$> l).
Proof.
  intros (y & Hy & Hx)%existsb_exists. apply bool_decide_eq_true in Hx as <-.
  apply list_elem_of_fmap_2. by apply list_elem_of_In.
Qed.

Lemma NoDup_snoc {A} (l : list A) x : NoDup l -> x ∉ l -> NoDup (l ++ [x]).
Proof.
  intros Hl Hx. apply NoDup_app. split; [done|]. split.
  - intros y Hy ->%list_elem_of_singleton. done.
  - apply NoDup_singleton.
Qed.

Lemma NoDup_fmap_filter {A C} (f : A -> C) (P : A -> Prop) `{forall x, Decision (P x)} (l : list A) :
  NoDup (f <$> l) -> NoDup (f <$> filter P l).
Proof. apply NoDup_sublist, sublist_fmap, sublist_filter. Qed.

(** [tm] with the topic's groups or subscribers replaced. *)
Lemma tm_ok_set_subs tm topic subs :
  tm_ok tm -> is_Some (tm_topics tm !! topic) -> NoDup (sub_id <$> subs) ->
  tm_ok (set_subscribers (<[topic := subs]> (subscribers_ tm)) tm).
Proof. intros [Ht Hs Hg] Htop Hnd. split; try done. by apply map_Forall_insert_2. Qed.

Lemma tm_ok_set_groups tm topic groups :
  tm_ok tm -> is_Some (tm_topics tm !! topic) -> groups_ok topic groups ->
  tm_ok (set_groups (<[topic := groups]> (consumer_groups_ tm)) tm).
Proof. intros [Ht Hs Hg] Htop Hok. split; try done. by apply map_Forall_insert_2. Qed.

Lemma tm_ok_set_topics tm t : tm_ok tm ->
  tm_ok (set_tm_topics (<[ti_name t := t]> (tm_topics tm)) tm).
Proof.
  intros [Ht Hs Hg]. split; cbn.
  - by apply map_Forall_insert_2.
  - intros topic subs Hsub. destruct (Hs topic subs Hsub) as [? ?]. split; [|done].
    apply lookup_insert_is_Some'. by right.
  - intros topic groups Hgr. destruct (Hg topic groups Hgr) as [? ?]. split; [|done].
    apply lookup_insert_is_Some'. by right.
Qed.

Lemma groups_ok_default tm topic : tm_ok tm ->
  groups_ok topic (default ∅ (consumer_groups_ tm !! topic)).
Proof.
  intros [_ _ Hg]. destruct (consumer_groups_ tm !! topic) as [groups|] eqn:E.
  - by apply (Hg topic groups E).
  - apply map_Forall_empty.
Qed.

Lemma subs_nodup_default tm topic : tm_ok tm ->
  NoDup (sub_id <$> default [] (subscribers_ tm !! topic)).
Proof.
  intros [_ Hs _]. destruct (subscribers_ tm !! topic) as [subs|] eqn:E.
  - by apply (Hs topic subs E).
  - apply NoDup_nil_2.
Qed.

(** The first statement of [Subscribe]. *)
Definition ensure_topic (topic_name : string) (tm : TopicManager) : TopicManager :=
  match tm_topics tm !! topic_name with
  | Some _ => tm
  | None => set_tm_topics (<[topic_name := mkTopicInfo topic_name 0 0]> (tm_topics tm)) tm
  end.

Lemma ensure_topic_ok topic tm : tm_ok tm ->
  tm_ok (ensure_topic topic tm) /\ is_Some (tm_topics (ensure_topic topic tm) !! topic) /\
  subscribers_ (ensure_topic topic tm) = subscribers_ tm /\
  consumer_groups_ (ensure_topic topic tm) = consumer_groups_ tm.
Proof.
  intros Hok. unfold ensure_topic. destruct (tm_topics tm !! topic) eqn:E; [by eauto|].
  split; [by apply (tm_ok_set_topics tm (mkTopicInfo topic 0 0))|].
  split; [|done]. cbn. rewrite lookup_insert_eq. by eexists.
Qed.

Lemma Subscribe_ok topic s g tm : tm_ok tm -> tm_ok (snd (Subscribe topic s g tm)).
Proof.
  intros Hok. unfold Subscribe. fold (ensure_topic topic tm).
  destruct (ensure_topic_ok topic tm Hok) as (Hok' & Htop & _ & _).
  set (tm' := ensure_topic topic tm) in *. clearbody tm'.
  destruct (bool_decide (g = "")) eqn:Hg.
  - pose proof (subs_nodup_default tm' topic Hok') as Hnd.
    destruct (existsb _ _) eqn:He; cbn [snd]; apply tm_ok_set_subs; try done.
    apply existsb_false_notin in He. rewrite fmap_app. by apply NoDup_snoc.
  - apply bool_decide_eq_false in Hg.
    pose proof (groups_ok_default tm' topic Hok') as Hgs.
    destruct (default ∅ (consumer_groups_ tm' !! topic) !! g) as [gr|] eqn:Egr.
    + destruct (Hgs g gr Egr) as [Hid Htn Hne Hmem Hnd Hidx].
      destruct (existsb _ _) eqn:He; cbn [snd]; apply tm_ok_set_groups; try done.
      apply map_Forall_insert_2; [|done]. split; try done; cbn.
      * by intros []%app_eq_nil.
      * apply existsb_false_notin in He. rewrite fmap_app. by apply NoDup_snoc.
    + cbn [snd]. apply tm_ok_set_groups; try done.
      apply map_Forall_insert_2; [|done]. split; try done; cbn; first [apply NoDup_singleton|lia].
Qed.

Lemma Unsubscribe_ok topic sid g tm : tm_ok tm -> tm_ok (snd (Unsubscribe topic sid g tm)).
Proof.
  intros Hok. pose proof Hok as [Ht Hs Hgm]. unfold Unsubscribe. case_if.
  - destruct (subscribers_ tm !! topic) as [subs|] eqn:E; [|done].
    destruct (Hs topic subs E) as [? ?]. case_if; [done|].
    apply tm_ok_set_subs; [done..|]. by apply NoDup_fmap_filter.
  - destruct (consumer_groups_ tm !! topic) as [groups|] eqn:E; [|done].
    destruct (groups !! g) as [gr|] eqn:Egr; [|done]. destruct (Hgm topic groups E) as [? Hgs].
    case_if; [done|]. cbn [snd]. apply tm_ok_set_groups; [done..|].
    destruct (Hgs g gr Egr) as [Hid Htn Hne Hmem Hnd Hidx].
    destruct (bool_decide (filter _ (members gr) = [])) eqn:Hk; [by apply map_Forall_delete|].
    apply bool_decide_eq_false in Hk.
    apply map_Forall_insert_2; [|done]. split; try done. by apply NoDup_fmap_filter.
Qed.

Lemma group_ok_select topic name g : group_ok topic name g ->
  group_ok topic name (mkGroup (group_id g) (group_topic_name g) (members g)
    (u64 (round_robin_index g + 1) mod zlen (members g))).
Proof.
  intros [Hid Htn Hne Hmem Hnd Hidx]. split; try done. cbn.
  assert (0 < zlen (members g)) by (destruct (members g); [done|simpl; lia]).
  pose proof (u64_range (round_robin_index g + 1)).
  pose proof (Z.mod_le (u64 (round_robin_index g + 1)) (zlen (members g))).
  pose proof (Z.mod_pos_bound (u64 (round_robin_index g + 1)) (zlen (members g))). lia.
Qed.

Lemma SelectNextMember_ok topic g tm : tm_ok tm -> tm_ok (snd (SelectNextMember topic g tm)).
Proof.
  intros Hok. pose proof Hok as [Ht Hs Hgm]. unfold SelectNextMember.
  destruct (consumer_groups_ tm !! topic) as [groups|] eqn:E; [|done].
  destruct (groups !! g) as [gr|] eqn:Egr; [|done]. destruct (Hgm topic groups E) as [? Hgs].
  case_if; [done|]. cbn [snd]. apply tm_ok_set_groups; [done..|].
  apply map_Forall_insert_2; [|done]. by apply group_ok_select, Hgs.
Qed.

Lemma keep_groups_ok topic c groups : groups_ok topic groups -> groups_ok topic (keep_groups c groups).
Proof.
  intros Hgs name g. unfold keep_groups. rewrite lookup_omap_Some.
  intros (g0 & Hg & Hg0). case_bool_decide; simplify_eq/=.
  destruct (Hgs name g0 Hg0) as [Hid Htn Hne Hmem Hnd Hidx].
  split; try done. by apply NoDup_fmap_filter.
Qed.

Lemma UnsubscribeByConnId_ok c tm : tm_ok tm -> tm_ok (snd (UnsubscribeByConnId c tm)).
Proof.
  intros [Ht Hs Hg]. split; cbn [snd UnsubscribeByConnId tm_topics subscribers_ consumer_groups_];
    [done|..].
  - intros topic subs. rewrite lookup_omap_Some. intros (s0 & Hs1 & Hs0).
    case_bool_decide; simplify_eq/=. destruct (Hs topic s0 Hs0) as [? ?].
    split; [done|]. by apply NoDup_fmap_filter.
  - intros topic groups. rewrite lookup_omap_Some. intros (g0 & Hg1 & Hg0).
    case_bool_decide; simplify_eq/=. destruct (Hg topic g0 Hg0) as [? ?].
    split; [done|]. by apply keep_groups_ok.
Qed.

Lemma tm_step_ok tm op : tm_ok tm -> tm_ok (tm_step tm op).
Proof.
  intros Hok. destruct op; cbn [tm_step].
  - unfold RegisterTopic. destruct (tm_topics tm !! ti_name topic); [done|].
    by apply tm_ok_set_topics.
  - destruct Hok as [Ht Hs Hg]. split; cbn.
    + by apply map_Forall_delete.
    + intros topic subs [Hne Hsub]%lookup_delete_Some. rewrite lookup_delete_ne by done.
      by apply Hs.
    + intros topic groups [Hne Hgr]%lookup_delete_Some. rewrite lookup_delete_ne by done.
      by apply Hg.
  - by apply Subscribe_ok.
  - by apply Unsubscribe_ok.
  - by apply SelectNextMember_ok.
  - by apply UnsubscribeByConnId_ok.
  - by destruct Hok.
Qed.

(** ** What [Subscribe] does *)

Lemma ensure_topic_fields topic tm :
  subscribers_ (ensure_topic topic tm) = subscribers_ tm /\
  consumer_groups_ (ensure_topic topic tm) = consumer_groups_ tm.
Proof. unfold ensure_topic. by destruct (tm_topics tm !! topic). Qed.

Lemma Subscribe_broadcast topic s tm :
  let subs := GetSubscribers topic tm in
  let known := existsb (λ info, bool_decide (sub_id info = sub_id s)) subs in
  exists tm1, Subscribe topic s "" tm = (negb known, tm1) /\
    subscribers_ tm1 = <[topic := if known then subs else subs ++ [s]]> (subscribers_ tm) /\
    consumer_groups_ tm1 = consumer_groups_ tm.
Proof.
  cbv zeta. unfold Subscribe. fold (ensure_topic topic tm).
  destruct (ensure_topic_fields topic tm) as [Hs Hg]. rewrite bool_decide_true by done.
  rewrite Hs. fold (GetSubscribers topic tm).
  destruct (existsb _ _); eexists; (split; [done|]); by cbn.
Qed.

Lemma Subscribe_group topic s g tm : g <> "" ->
  let groups := default ∅ (consumer_groups_ tm !! topic) in
  let m := mkMember (sub_id s) (sub_conn_id s) in
  let known := match groups !! g with
    | Some gr => existsb (λ m, bool_decide (subscriber_id m = sub_id s)) (members gr)
    | None => false end in
  exists tm1, Subscribe topic s g tm = (negb known, tm1) /\
    subscribers_ tm1 = subscribers_ tm /\
    consumer_groups_ tm1 = <[topic := if known then groups else
      <[g := match groups !! g with
             | Some gr => set_members (members gr ++ [m]) gr
             | None => mkGroup g topic [m] 0 end]> groups]> (consumer_groups_ tm).
Proof.
  intros Hne. cbv zeta. unfold Subscribe. fold (ensure_topic topic tm).
  destruct (ensure_topic_fields topic tm) as [Hs Hg]. rewrite bool_decide_false by done.
  rewrite Hg. destruct (default ∅ (consumer_groups_ tm !! topic) !! g) as [gr|];
    [destruct (existsb _ _)|]; eexists; (split; [done|]); by cbn; rewrite ?Hg.
Qed.

(** Removing what was just added at the end. *)
Lemma filter_snoc_new {A} (f : A -> string) (l : list A) y x :
  f y = x -> x ∉ (f <$> l) -> filter (λ z, f z <> x) (l ++ [y]) = l.
Proof.
  intros Hy Hx. rewrite filter_app, filter_cons, decide_False by (intros Hne; by apply Hne).
  rewrite filter_nil, app_nil_r. induction l as [|z l IH]; [done|].
  rewrite fmap_cons, not_elem_of_cons in Hx. destruct Hx as [Hz Hx].
  rewrite filter_cons, decide_True by congruence. by rewrite IH.
Qed.

(** ** Round robin *)

Fixpoint select_many (k : nat) (topic_name group : string) (tm : TopicManager)
    : list string * TopicManager :=
  match k with
  | O => ([], tm)
  | S k =>
      let '(s, tm1) := SelectNextMember topic_name group tm in
      let '(ss, tm2) := select_many k topic_name group tm1 in
      (s :: ss, tm2)
  end.

Definition set_index (i : Z) (g : ConsumerGroup) : ConsumerGroup :=
  mkGroup (group_id g) (group_topic_name g) (members g) i.

Lemma GetConsumerGroup_set topic name g groups tm :
  consumer_groups_ tm !! topic = Some groups ->
  GetConsumerGroup topic name
    (set_groups (<[topic := <[name := g]> groups]> (consumer_groups_ tm)) tm) = Some g.
Proof. intros _. unfold GetConsumerGroup. cbn. by rewrite lookup_insert_eq; simpl; rewrite lookup_insert_eq. Qed.

Lemma select_one topic name tm g i :
  GetConsumerGroup topic name tm = Some g -> members g <> [] ->
  0 <= round_robin_index g < 2 ^ 64 - 1 ->
  Z.to_nat (round_robin_index g mod zlen (members g)) = i ->
  exists tm', SelectNextMember topic name tm =
      ((subscriber_id <$> members g) !!! i, tm') /\
    GetConsumerGroup topic name tm' =
      Some (set_index (Z.of_nat ((i + 1) mod length (members g))) g).
Proof.
  intros Hg Hm Hr Hi. unfold GetConsumerGroup in Hg. unfold SelectNextMember.
  destruct (consumer_groups_ tm !! topic) as [groups|] eqn:E; [|done]. simpl in Hg. rewrite Hg.
  rewrite bool_decide_false by done. rewrite Hi.
  assert (0 < length (members g))%nat as Hpos by (destruct (members g); [done|simpl; lia]).
  pose proof (Z.mod_pos_bound (round_robin_index g) (zlen (members g)) ltac:(lia)) as Hb.
  eexists. split; [f_equal|].
  - rewrite <- list_lookup_fmap. symmetry.
    destruct (lookup_lt_is_Some_2 (subscriber_id <$> members g) i) as [x Hx];
      [rewrite length_fmap; lia|].
    rewrite Hx. by apply list_lookup_total_correct.
  - erewrite GetConsumerGroup_set by done. do 2 f_equal. unfold set_index. f_equal.
    rewrite u64_id by lia. rewrite Nat2Z.inj_mod, Nat2Z.inj_add, <- Hi, Z2Nat.id by lia.
    by rewrite Zplus_mod_idemp_l.
Qed.

Lemma select_block topic name k tm g i :
  GetConsumerGroup topic name tm = Some g -> zlen (members g) < 2 ^ 64 - 1 ->
  round_robin_index g = Z.of_nat i -> (i + k <= length (members g))%nat ->
  (i < length (members g))%nat ->
  exists tm', select_many k topic name tm = (take k (drop i (subscriber_id <$> members g)), tm') /\
    GetConsumerGroup topic name tm' =
      Some (set_index (Z.of_nat ((i + k) mod length (members g))) g).
Proof.
  revert tm g i. induction k as [|k IH]; intros tm g i Hg Hlen Hi Hik Hlt.
  - exists tm. rewrite take_0. split; [done|]. rewrite Nat.add_0_r, Nat.mod_small, <- Hi by done.
    rewrite Hg. by destruct g.
  - cbn [select_many].
    destruct (select_one topic name tm g i Hg) as (tm1 & -> & Hg1).
    { by destruct (members g); [simpl in Hlt; lia|]. }
    { lia. }
    { rewrite Hi, Z.mod_small, Nat2Z.id by lia. done. }
    assert (drop i (subscriber_id <$> members g) =
      (subscriber_id <$> members g) !!! i :: drop (S i) (subscriber_id <$> members g)) as ->.
    { apply drop_S, list_lookup_lookup_total_lt. by rewrite length_fmap. }
    destruct (decide (S i < length (members g))%nat) as [Hs|Hs].
    + rewrite Nat.add_1_r, Nat.mod_small in Hg1 by done.
      destruct (IH tm1 _ (S i) Hg1) as (tm2 & -> & Hg2); [done|done|cbn; lia|done|].
      exists tm2. split; [done|]. rewrite Hg2. cbn [members set_index].
      by replace (S i + k)%nat with (i + S k)%nat by lia.
    + assert (k = 0)%nat as -> by lia. exists tm1. cbn [select_many]. split; [done|]. done.
Qed.

Lemma select_many_app k1 k2 topic name tm :
  select_many (k1 + k2) topic name tm =
  let '(s1, tm1) := select_many k1 topic name tm in
  let '(s2, tm2) := select_many k2 topic name tm1 in (s1 ++ s2, tm2).
Proof.
  revert tm. induction k1 as [|k1 IH]; intros tm; cbn [select_many plus].
  - by destruct (select_many k2 topic name tm).
  - destruct (SelectNextMember topic name tm) as [s tm0]. rewrite IH.
    destruct (select_many k1 topic name tm0) as [s1 tm1].
    by destruct (select_many k2 topic name tm1).
Qed.

(** A whole round. *)
Lemma select_round topic name tm g i :
  GetConsumerGroup topic name tm = Some g -> (0 < zlen (members g) < 2 ^ 64 - 1)%Z ->
  0 <= round_robin_index g < 2 ^ 64 - 1 ->
  i = Z.to_nat (round_robin_index g mod zlen (members g)) ->
  let ids := subscriber_id <$> members g in
  exists tm', select_many (length ids) topic name tm = (drop i ids ++ take i ids, tm') /\
    GetConsumerGroup topic name tm' = Some (set_index (Z.of_nat i) g).
Proof.
  intros Hg Hlen Hr Hi ids.
  assert (members g <> []) as Hm by (intros Hm; rewrite Hm in Hlen; cbn in Hlen; lia).
  set (n := length (members g)) in *.
  assert (length ids = n) as Hids by apply length_fmap.
  pose proof (Z.mod_pos_bound (round_robin_index g) (Z.of_nat n) ltac:(lia)) as Hb.
  assert (i < n)%nat as Hlt by lia.
  destruct (select_one topic name tm g i Hg Hm Hr) as (tm0 & Hs0 & Hg0); [done|].
  fold ids n in Hs0, Hg0. rewrite Hids.
  assert (drop i ids = ids !!! i :: drop (S i) ids) as Hdrop
    by (apply drop_S, list_lookup_lookup_total_lt; lia).
  destruct (decide (S i < n)%nat) as [Hs|Hs].
  - rewrite Nat.mod_small, Nat.add_1_r in Hg0 by lia.
    replace n with (S ((n - S i) + i))%nat by lia. cbn [select_many]. rewrite Hs0, select_many_app.
    destruct (select_block topic name (n - S i) tm0 _ (S i) Hg0) as (tm1 & -> & Hg1);
      [cbn; lia|done|cbn; lia|cbn; lia|].
    cbn [members set_index] in *. fold ids n in Hg1 |- *.
    rewrite (take_ge (drop (S i) ids)) by (rewrite length_drop; lia).
    replace (S i + (n - S i))%nat with n in Hg1 by lia. rewrite Nat.Div0.mod_same in Hg1.
    destruct (select_block topic name i tm1 _ 0 Hg1) as (tm2 & -> & Hg2);
      [cbn; lia|done|cbn; lia|cbn; lia|].
    cbn [members set_index] in *. fold ids n in Hg2 |- *. rewrite drop_0.
    exists tm2. split; [by rewrite Hdrop|].
    by rewrite Hg2, Nat.mod_small.
  - assert (S i = n) as Heq by lia. replace (i + 1)%nat with n in Hg0 by lia.
    rewrite Nat.Div0.mod_same in Hg0. rewrite <- Heq. cbn [select_many]. rewrite Hs0.
    destruct (select_block topic name i tm0 _ 0 Hg0) as (tm2 & -> & Hg2);
      [cbn; lia|done|cbn; lia|cbn; lia|].
    cbn [members set_index] in *. fold ids n in Hg2 |- *. rewrite drop_0.
    exists tm2. rewrite Hdrop, (drop_ge ids) by lia. split; [done|].
    by rewrite Hg2, Nat.mod_small.
Qed.

(** ** How far a run gets *)

(** Groups are no larger, and their indices no further, than the operations
    made. *)
Definition tm_small (n : Z) (tm : TopicManager) : Prop :=
  forall topic name g, GetConsumerGroup topic name tm = Some g ->
    zlen (members g) <= n /\ 0 <= round_robin_index g <= n.

Lemma GetConsumerGroup_other (tm tm' : TopicManager) topic groups t h :
  consumer_groups_ tm' = <[topic := groups]> (consumer_groups_ tm) ->
  GetConsumerGroup t h tm' =
  if decide (t = topic) then groups !! h else GetConsumerGroup t h tm.
Proof.
  intros Hg. unfold GetConsumerGroup. rewrite Hg. case_decide as Ht.
  - by rewrite Ht, lookup_insert_eq.
  - by rewrite lookup_insert_ne.
Qed.

Lemma small_insert n tm topic groups name g : tm_small n tm ->
  (forall h x, groups !! h = Some x -> GetConsumerGroup topic h tm = Some x) ->
  zlen (members g) <= n + 1 /\ 0 <= round_robin_index g <= n + 1 ->
  tm_small (n + 1) (set_groups (<[topic := <[name := g]> groups]> (consumer_groups_ tm)) tm).
Proof.
  intros Hs Hgroups Hg t h x. rewrite (GetConsumerGroup_other tm _ topic (<[name := g]> groups)) by done.
  case_decide as Ht; [subst t|intros Hx; specialize (Hs t h x Hx); lia].
  destruct (decide (h = name)) as [->|Hne]; [rewrite lookup_insert_eq; by intros [= <-]|].
  rewrite lookup_insert_ne by done. intros Hx%Hgroups. specialize (Hs topic h x Hx). lia.
Qed.

Lemma Subscribe_small n tm t s g : 0 <= n -> tm_small n tm -> tm_small (n + 1) (Subscribe t s g tm).2.
Proof.
  intros Hn Hs. assert (tm_small (n + 1) tm) as Hs1
    by (intros t' h x Hx; specialize (Hs t' h x Hx); lia).
  destruct (decide (g = "")) as [->|Hne].
  { destruct (Subscribe_broadcast t s tm) as (tm1 & -> & _ & Hg). intros t' h x.
    unfold GetConsumerGroup. cbn. rewrite Hg. apply Hs1. }
  destruct (Subscribe_group t s g tm Hne) as (tm1 & -> & _ & Hg). cbn [snd].
  assert (forall h x, default ∅ (consumer_groups_ tm !! t) !! h = Some x ->
    GetConsumerGroup t h tm = Some x) as Hold.
  { intros h x. unfold GetConsumerGroup. by destruct (consumer_groups_ tm !! t). }
  assert (forall x, consumer_groups_ tm1 =
      <[t := <[g := x]> (default ∅ (consumer_groups_ tm !! t))]> (consumer_groups_ tm) ->
    zlen (members x) <= n + 1 /\ 0 <= round_robin_index x <= n + 1 -> tm_small (n + 1) tm1) as Hset.
  { intros x Heq Hx t' h y. unfold GetConsumerGroup. rewrite Heq.
    exact (small_insert n tm t _ g x Hs Hold Hx t' h y). }
  destruct (default ∅ (consumer_groups_ tm !! t) !! g) as [gr|] eqn:Egr.
  - pose proof (Hs t g gr (Hold g gr Egr)) as Hgr.
    case_match; [|eapply Hset; [exact Hg|]; cbn; rewrite length_app; cbn; lia].
    intros t' h x. rewrite (GetConsumerGroup_other tm _ t _ _ _ Hg).
    case_decide as Ht; [subst t'|apply Hs1]. intros Hx%Hold. by apply (Hs1 t h).
  - eapply Hset; [exact Hg|]. cbn. lia.
Qed.

Lemma tm_step_small n tm op : 0 <= n -> tm_small n tm -> tm_small (n + 1) (tm_step tm op).
Proof.
  intros Hn Hs. assert (tm_small (n + 1) tm) as Hs1
    by (intros t h x Hx; specialize (Hs t h x Hx); lia).
  destruct op as [ti|t|t s g|t sid g|t g|conn|t cfg]; cbn [tm_step].
  - unfold RegisterTopic. by destruct (tm_topics tm !! _).
  - intros t' h x. unfold GetConsumerGroup. cbn.
    destruct (decide (t' = t)) as [->|Hne]; [by rewrite lookup_delete_eq|].
    rewrite lookup_delete_ne by done. apply Hs1.
  - by apply Subscribe_small.
  - unfold Unsubscribe. case_bool_decide; [by repeat case_match|].
    destruct (consumer_groups_ tm !! t) as [groups|] eqn:Et; [|done].
    destruct (groups !! g) as [gr|] eqn:Eg; [|done].
    assert (forall h x, groups !! h = Some x -> GetConsumerGroup t h tm = Some x) as Hold
      by (intros h x Hx; unfold GetConsumerGroup; by rewrite Et).
    destruct (_ =? _)%nat; [done|]. cbn [snd]. case_bool_decide as Hk.
    + intros t' h x. rewrite (GetConsumerGroup_other tm _ t (delete g groups)) by done.
      case_decide as Ht; [subst t'|apply Hs1].
      intros [_ Hx]%lookup_delete_Some. by apply (Hs1 t h), Hold.
    + apply small_insert; [done|done|]. specialize (Hs t g gr (Hold g gr Eg)). cbn.
      pose proof (length_filter (λ m, subscriber_id m <> sid) (members gr)). lia.
  - unfold SelectNextMember. destruct (consumer_groups_ tm !! t) as [groups|] eqn:Et; [|done].
    destruct (groups !! g) as [gr|] eqn:Eg; [|done]. case_bool_decide as Hm; [done|]. cbn [snd].
    assert (forall h x, groups !! h = Some x -> GetConsumerGroup t h tm = Some x) as Hold
      by (intros h x Hx; unfold GetConsumerGroup; by rewrite Et).
    apply small_insert; [done|done|]. specialize (Hs t g gr (Hold g gr Eg)). cbn.
    pose proof (Z.mod_pos_bound (u64 (round_robin_index gr + 1)) (zlen (members gr))) as Hb.
    destruct (members gr); [done|]. cbn [length] in *. lia.
  - intros t h x. unfold GetConsumerGroup, UnsubscribeByConnId. cbn. rewrite lookup_omap.
    destruct (consumer_groups_ tm !! t) as [groups|] eqn:Et; [|done]. cbn.
    case_bool_decide; [done|]. cbn. unfold keep_groups. rewrite lookup_omap.
    destruct (groups !! h) as [gr|] eqn:Eh; [|done]. cbn. case_bool_decide; [done|].
    intros [= <-]. assert (GetConsumerGroup t h tm = Some gr) as Hgr
      by (unfold GetConsumerGroup; by rewrite Et).
    specialize (Hs t h gr Hgr). cbn.
    pose proof (length_filter (λ m, member_conn_id m <> conn) (members gr)). lia.
  - exact Hs1.
Qed.

(** What is known of a group after a run. *)
Lemma run_group ops topic name g : zlen ops < 2 ^ 64 - 1 ->
  GetConsumerGroup topic name (foldl tm_step TopicManager_new ops) = Some g ->
  members g <> [] /\ NoDup (subscriber_id <$> members g) /\
  zlen (members g) < 2 ^ 64 - 1 /\ 0 <= round_robin_index g < 2 ^ 64 - 1.
Proof.
  intros Hops Hg.
  assert (forall tm n, 0 <= n -> tm_ok tm -> tm_small n tm ->
    tm_ok (foldl tm_step tm ops) /\ tm_small (n + zlen ops) (foldl tm_step tm ops)) as Hrun.
  { clear. induction ops as [|op ops IH]; intros tm n Hn Hok Hs.
    - cbn. by rewrite Z.add_0_r.
    - cbn [foldl length]. replace (n + Z.of_nat (S (length ops))) with ((n + 1) + zlen ops) by lia.
      apply IH; [lia|by apply tm_step_ok|by apply tm_step_small]. }
  destruct (Hrun TopicManager_new 0) as [[_ _ Hgs] Hs]; [done|split; apply map_Forall_empty| |].
  { intros t h x. unfold GetConsumerGroup. cbn. by rewrite lookup_empty. }
  pose proof (Hs topic name g Hg) as Hb. unfold GetConsumerGroup in Hg.
  destruct (consumer_groups_ _ !! topic) as [groups|] eqn:Et; [|done]. cbn in Hg.
  destruct (Hgs topic groups Et) as [_ Hgo]. destruct (Hgo name g Hg) as [_ _ _ Hm Hnd _].
  split_and!; try done; lia.
Qed.

(** ** Properties *)

(** Whatever operations run, topics are registered under their names;
    subscriptions exist only for registered topics; a subscriber occurs once
    among a topic's broadcast subscribers and once in each group; groups have a
    name and at least one member. *)
Theorem topic_manager_invariant ops : tm_ok (foldl tm_step TopicManager_new ops).
Proof.
  assert (forall tm, tm_ok tm -> tm_ok (foldl tm_step tm ops)) as Hrun.
  { induction ops as [|op ops IH]; [done|]. intros tm Hok. by apply IH, tm_step_ok. }
  apply Hrun. split; apply map_Forall_empty.
Qed.

(** C17: round robin is fair.  Whatever operations led to a state, if a group
    has [n] members there, then the next [n] selections are these members,
    every one exactly once: first those from the current index on (which is past
    the end when members have left, and then starts over as the remainder), then
    those before, in the order of joining.  The group is then where it was, so
    every later round is the same. *)
Theorem round_robin_fair ops topic name g :
  zlen ops < 2 ^ 64 - 1 ->
  let tm := foldl tm_step TopicManager_new ops in
  GetConsumerGroup topic name tm = Some g ->
  let ids := subscriber_id <$> members g in
  let i := Z.to_nat (round_robin_index g mod zlen ids) in
  ids <> [] /\ NoDup ids /\
  exists tm', select_many (length ids) topic name tm = (drop i ids ++ take i ids, tm') /\
    GetConsumerGroup topic name tm' = Some (set_index (Z.of_nat i) g).
Proof.
  intros Hops tm Hg ids i.
  destruct (run_group ops topic name g Hops Hg) as (Hm & Hnd & Hn & Hr).
  split; [by destruct (members g)|]. split; [done|].
  assert (length ids = length (members g)) as Hids by apply length_fmap.
  assert (0 < length (members g))%nat as Hpos by (destruct (members g); [done|simpl; lia]).
  apply (select_round topic name tm g i Hg); [lia|done|]. unfold i. by rewrite Hids.
Qed.

(** Subscribing and unsubscribing.  A subscriber that is new to the topic
    or group is accepted, then refused a second time, and unsubscribing it
    restores every subscriber list and every group as it was; a known one is
    refused and changes none of them. *)
Theorem subscribe_roundtrip tm topic s g :
  tm_ok tm ->
  let '(ok, tm1) := Subscribe topic s g tm in
  if ok then
    fst (Subscribe topic s g tm1) = false /\
    exists tm2, Unsubscribe topic (sub_id s) g tm1 = (true, tm2) /\
      (forall t, GetSubscribers t tm2 = GetSubscribers t tm) /\
      (forall t h, GetConsumerGroup t h tm2 = GetConsumerGroup t h tm)
  else
    (forall t, GetSubscribers t tm1 = GetSubscribers t tm) /\
    (forall t h, GetConsumerGroup t h tm1 = GetConsumerGroup t h tm).
Proof.
  intros Hok. destruct (decide (g = "")) as [->|Hg].
  - destruct (Subscribe_broadcast topic s tm) as (tm1 & -> & Hs1 & Hg1).
    set (known := existsb _ _) in *. destruct known eqn:He; cbn [negb].
    { unfold GetSubscribers, GetConsumerGroup. rewrite Hs1, Hg1. split; [|done].
      intros t. destruct (decide (t = topic)) as [->|Hne];
        [by rewrite lookup_insert_eq|by rewrite lookup_insert_ne]. }
    apply existsb_false_notin in He. split.
    + destruct (Subscribe_broadcast topic s tm1) as (tm2 & -> & _ & _). cbn [fst].
      unfold GetSubscribers. rewrite Hs1, lookup_insert_eq. simpl.
      rewrite existsb_app. cbn [existsb]. by rewrite bool_decide_true, orb_true_r.
    + unfold Unsubscribe. rewrite bool_decide_true by done. rewrite Hs1, lookup_insert_eq.
      rewrite filter_snoc_new by done.
      rewrite (proj2 (Nat.eqb_neq _ _)) by (rewrite length_app; simpl; lia).
      eexists. split; [done|]. split; [|intros t h; unfold GetConsumerGroup; cbn; by rewrite Hg1].
      intros t. unfold GetSubscribers. cbn. rewrite ?Hs1.
      destruct (decide (t = topic)) as [->|Hne]; [by rewrite lookup_insert_eq|].
      by rewrite !lookup_insert_ne.
  - destruct (Subscribe_group topic s g tm Hg) as (tm1 & -> & Hs1 & Hg1).
    set (groups := default ∅ (consumer_groups_ tm !! topic)) in *.
    assert (forall t h, t <> topic \/ h <> g -> forall x,
      (<[topic := <[g := x]> groups]> (consumer_groups_ tm)) !! t ≫= (λ gs, gs !! h) =
      GetConsumerGroup t h tm) as Hother.
    { intros t h Hth x. unfold GetConsumerGroup.
      destruct (decide (t = topic)) as [->|Hne]; [|by rewrite lookup_insert_ne].
      rewrite lookup_insert_eq. simpl. rewrite lookup_insert_ne by (destruct Hth; congruence).
      unfold groups. by destruct (consumer_groups_ tm !! topic). }
    assert (GetConsumerGroup topic g tm = groups !! g) as Hget.
    { unfold GetConsumerGroup, groups. by destruct (consumer_groups_ tm !! topic). }
    destruct (groups !! g) as [gr|] eqn:Egr.
    + set (known := existsb _ _) in *. destruct known eqn:He; cbn [negb].
      { unfold GetSubscribers, GetConsumerGroup. rewrite Hs1, Hg1. split; [done|].
        intros t h. destruct (decide (t = topic)) as [->|Hne]; [|by rewrite lookup_insert_ne].
        rewrite lookup_insert_eq. unfold groups. by destruct (consumer_groups_ tm !! topic). }
      apply existsb_false_notin in He. split.
      * destruct (Subscribe_group topic s g tm1 Hg) as (tm2 & -> & _ & _). cbn [fst].
        rewrite Hg1, lookup_insert_eq. simpl. rewrite lookup_insert_eq. cbn [members set_members].
        rewrite existsb_app. cbn [existsb]. by rewrite bool_decide_true, orb_true_r.
      * unfold Unsubscribe. rewrite bool_decide_false by done.
        rewrite Hg1, lookup_insert_eq, lookup_insert_eq. cbn [members set_members].
        rewrite filter_snoc_new by done.
        rewrite (proj2 (Nat.eqb_neq _ _)) by (rewrite length_app; simpl; lia).
        destruct Hok as [_ _ Hgm].
        assert (members gr <> []) as Hmem.
        { unfold GetConsumerGroup in Hget.
          destruct (consumer_groups_ tm !! topic) as [gs|] eqn:E; [|done].
          destruct (Hgm topic gs E) as [_ Hgs]. by destruct (Hgs g gr Hget). }
        rewrite bool_decide_false by done.
        eexists. split; [done|]. split; [by intros; unfold GetSubscribers; cbn; rewrite Hs1|].
        intros t h. unfold GetConsumerGroup at 1. cbn. rewrite ?Hg1, !insert_insert_eq.
        destruct (decide (t = topic /\ h = g)) as [[-> ->]|Hne]; [|apply Hother; destruct (decide (t = topic)); [right; naive_solver|by left]].
        rewrite Hget, lookup_insert_eq. simpl. rewrite lookup_insert_eq.
        unfold set_members. by destruct gr.
    + cbn [negb]. split.
      * destruct (Subscribe_group topic s g tm1 Hg) as (tm2 & -> & _ & _). cbn [fst].
        rewrite Hg1, lookup_insert_eq. simpl. rewrite lookup_insert_eq. cbn.
        by rewrite bool_decide_true.
      * unfold Unsubscribe. rewrite bool_decide_false by done.
        rewrite Hg1, lookup_insert_eq, lookup_insert_eq. cbn [members].
        rewrite filter_cons, decide_False, filter_nil by (intros Hn; by apply Hn).
        rewrite bool_decide_true by done. cbn [length Nat.eqb].
        eexists. split; [done|]. split; [by intros; unfold GetSubscribers; cbn; rewrite Hs1|].
        intros t h. unfold GetConsumerGroup at 1. cbn.
        rewrite ?Hg1, insert_insert_eq, delete_insert_id by done.
        destruct (decide (t = topic)) as [->|Hne];
          [rewrite lookup_insert_eq|by rewrite lookup_insert_ne].
        simpl. unfold GetConsumerGroup, groups. by destruct (consumer_groups_ tm !! topic).
Qed.

(** Cleaning up after a connection removes exactly its subscriptions, from
    every topic and group, keeps the order of the others, drops the groups left
    empty, and reports whether there was anything to remove. *)
Theorem unsubscribe_by_conn_exact tm c :
  let '(removed, tm') := UnsubscribeByConnId c tm in
  (forall t, GetSubscribers t tm' =
     filter (λ s, sub_conn_id s <> c) (GetSubscribers t tm)) /\
  (forall t h, GetConsumerGroup t h tm' =
     g ← GetConsumerGroup t h tm;
     let kept := filter (λ m, member_conn_id m <> c) (members g) in
     if bool_decide (kept = []) then None else Some (set_members kept g)) /\
  (removed = true <->
     (exists t s, s ∈ GetSubscribers t tm /\ sub_conn_id s = c) \/
     (exists t h g m, GetConsumerGroup t h tm = Some g /\ m ∈ members g /\ member_conn_id m = c)) /\
  tm_topics tm' = tm_topics tm.
Proof.
  unfold UnsubscribeByConnId. split_and!; [| | |done].
  - intros t. unfold GetSubscribers. cbn. rewrite lookup_omap.
    destruct (subscribers_ tm !! t) as [subs|]; [|done]. simpl.
    case_bool_decide as Hk; [by rewrite Hk|done].
  - intros t h. unfold GetConsumerGroup. cbn. rewrite lookup_omap.
    destruct (consumer_groups_ tm !! t) as [groups|]; [|done]. simpl.
    assert (keep_groups c groups !! h = groups !! h ≫= λ g,
      let kept := filter (λ m, member_conn_id m <> c) (members g) in
      if bool_decide (kept = []) then None else Some (set_members kept g)) as Hkeep.
    { unfold keep_groups. rewrite lookup_omap. by destruct (groups !! h). }
    case_bool_decide as Hk; simpl; [|exact Hkeep].
    transitivity (keep_groups c groups !! h); [by rewrite Hk, lookup_empty|exact Hkeep].
  - rewrite orb_true_iff, !existsb_exists. split.
    + intros [([t subs] & Hin & Hs)|([t groups] & Hin & Hg)].
      * left. apply existsb_exists in Hs as (s & Hs & Hc). apply Z.eqb_eq in Hc.
        apply list_elem_of_In, elem_of_map_to_list in Hin. apply list_elem_of_In in Hs.
        exists t, s. unfold GetSubscribers. by rewrite Hin.
      * right. cbn in Hg. apply existsb_exists in Hg as ([h g] & Hh & Hm).
        apply existsb_exists in Hm as (m & Hm & Hc). apply Z.eqb_eq in Hc.
        apply list_elem_of_In, elem_of_map_to_list in Hin, Hh. apply list_elem_of_In in Hm.
        exists t, h, g, m. unfold GetConsumerGroup. rewrite Hin. done.
    + intros [(t & s & Hs & Hc)|(t & h & g & m & Hg & Hm & Hc)].
      * left. unfold GetSubscribers in Hs.
        destruct (subscribers_ tm !! t) as [subs|] eqn:E; [|by apply not_elem_of_nil in Hs].
        exists (t, subs). split; [by apply list_elem_of_In, elem_of_map_to_list|].
        apply existsb_exists. exists s. split; [by apply list_elem_of_In|by apply Z.eqb_eq].
      * right. unfold GetConsumerGroup in Hg.
        destruct (consumer_groups_ tm !! t) as [groups|] eqn:E; [|done]. simpl in Hg.
        exists (t, groups). split; [by apply list_elem_of_In, elem_of_map_to_list|].
        apply existsb_exists. exists (h, g).
        split; [by apply list_elem_of_In, elem_of_map_to_list|].
        apply existsb_exists. exists m. split; [by apply list_elem_of_In|by apply Z.eqb_eq].
Qed.

(** ** Witnesses *)

Definition demo_ops : list tm_op :=
  [OpSubscribe "t" (mkSubscriberInfo "a" 1) "g"; OpSubscribe "t" (mkSubscriberInfo "b" 2) "g";
   OpSubscribe "t" (mkSubscriberInfo "c" 3) "g"; OpSelect "t" "g"; OpSelect "t" "g"].

Definition demo_tm : TopicManager := foldl tm_step TopicManager_new demo_ops.

(** A member leaves, and the index is past the end. *)
Lemma round_robin_fair_witness :
  fst (select_many 2 "t" "g"
    (foldl tm_step TopicManager_new (demo_ops ++ [OpUnsubscribe "t" "a" "g"]))) = ["b"; "c"].
Proof.
  destruct (round_robin_fair (demo_ops ++ [OpUnsubscribe "t" "a" "g"]) "t" "g"
    (mkGroup "g" "t" [mkMember "b" 2; mkMember "c" 3] 2))
    as (_ & _ & tm' & Heq & _); [by vm_compute|by vm_compute|].
  exact (f_equal fst Heq).
Defined.

Lemma demo_tm_ok : tm_ok demo_tm.
Proof. unfold demo_tm. repeat apply tm_step_ok. split; apply map_Forall_empty. Qed.

Lemma subscribe_roundtrip_witness :
  fst (Subscribe "t" (mkSubscriberInfo "d" 4) "g"
         (snd (Subscribe "t" (mkSubscriberInfo "d" 4) "g" demo_tm))) = false.
Proof.
  pose proof (subscribe_roundtrip demo_tm "t" (mkSubscriberInfo "d" 4) "g" demo_tm_ok) as Hr.
  assert (fst (Subscribe "t" (mkSubscriberInfo "d" 4) "g" demo_tm) = true) as Hok by by vm_compute.
  destruct (Subscribe "t" (mkSubscriberInfo "d" 4) "g" demo_tm) as [ok tm1].
  cbn [fst] in Hok. subst ok. exact (proj1 Hr).
Defined.
