(* ===== verification/Dedup.v ===== *)
(** * The deduplication window: [common/dedup_window.{h,cpp}]

    The highest sequence number processed per producer, and the removal of the
    producers that were inactive longest. *)

From S2P Require Import Prelude Types.

Record ProducerState := mkProducer {
  max_sequence : Z;
  last_active : Z; (* steady clock *)
}.

Record DedupWindow := mkDedup {
  producers_ : gmap string ProducerState;
  max_producers_ : Z;
}.

Definition DedupWindow_new (max_producers : Z) : DedupWindow := mkDedup ∅ max_producers.

Definition IsDuplicate (producer_id : string) (sequence_id : Z) (w : DedupWindow) : bool :=
  if bool_decide (producer_id = "") then false
  else
    match producers_ w !! producer_id with
    | None => false
    | Some state => sequence_id <=? max_sequence state
    end.

Definition MarkProcessed (producer_id : string) (sequence_id now : Z) (w : DedupWindow)
    : DedupWindow :=
  if bool_decide (producer_id = "") then w
  else
    let state := default (mkProducer 0 0) (producers_ w !! producer_id) in
    let max := if max_sequence state <? sequence_id then sequence_id else max_sequence state in
    mkDedup (<[producer_id := mkProducer max now]> (producers_ w)) (max_producers_ w).

Definition RemoveProducer (producer_id : string) (w : DedupWindow) : DedupWindow :=
  mkDedup (delete producer_id (producers_ w)) (max_producers_ w).

(** [std::sort] by last activity: some sorted permutation, ties in any order. *)
Record ActivitySort := mkSort {
  sort_entries : list (string * Z) -> list (string * Z);
  sort_perm : forall l, sort_entries l ≡ₚ l;
  sort_sorted : forall l, StronglySorted (λ a b, a.2 <= b.2) (sort_entries l);
}.

Definition CleanupInactive (order : Traversal string) (sort : ActivitySort) (max_inactive : Z)
    (w : DedupWindow) : DedupWindow :=
  let size := Z.of_nat (base.size (producers_ w)) in
  if size <=? max_inactive then w
  else
    let sorted := sort_entries sort
      ((λ e, (e.1, last_active e.2)) <$> entries order (producers_ w)) in
    let to_remove := Z.to_nat (size - max_inactive) in
    mkDedup (foldl (λ m id, delete id m) (producers_ w) (take to_remove sorted).*1)
      (max_producers_ w).

Definition GetProducerCount (w : DedupWindow) : Z := Z.of_nat (base.size (producers_ w)).

(** A sort that exists: insertion sort. *)
Fixpoint insert_entry (e : string * Z) (l : list (string * Z)) : list (string * Z) :=
  match l with
  | [] => [e]
  | x :: l' => if e.2 <=? x.2 then e :: l else x :: insert_entry e l'
  end.

Lemma insert_entry_perm e l : insert_entry e l ≡ₚ e :: l.
Proof.
  induction l as [|x l IH]; [done|]. simpl. case_if; [done|]. rewrite IH. constructor.
Qed.

Lemma insert_entry_sorted e l :
  StronglySorted (λ a b, a.2 <= b.2) l ->
  StronglySorted (λ a b : string * Z, a.2 <= b.2) (insert_entry e l).
Proof.
  induction 1 as [|x l Hs IH Hall]; simpl; [repeat constructor|].
  destruct (e.2 <=? x.2) eqn:E; [apply Z.leb_le in E|apply Z.leb_gt in E].
  - constructor; [by constructor|]. constructor; [done|].
    clear -Hall E. induction Hall; constructor; [lia|done].
  - constructor; [done|]. rewrite insert_entry_perm. constructor; [lia|done].
Qed.

Lemma insertion_perm l : foldr insert_entry [] l ≡ₚ l.
Proof. induction l as [|e l IH]; [done|]. simpl. by rewrite insert_entry_perm, IH. Qed.

Lemma insertion_sorted l :
  StronglySorted (λ a b : string * Z, a.2 <= b.2) (foldr insert_entry [] l).
Proof. induction l; simpl; [constructor|by apply insert_entry_sorted]. Qed.

Definition insertion_sort : ActivitySort := mkSort _ insertion_perm insertion_sorted.

Lemma size_foldl_delete {A} (ids : list string) (m : gmap string A) :
  NoDup ids -> (forall id, id ∈ ids -> is_Some (m !! id)) ->
  base.size (foldl (λ m id, delete id m) m ids) = (base.size m - length ids)%nat.
Proof.
  revert m. induction ids as [|id ids IH]; intros m Hnd Hin; [simpl; lia|].
  apply NoDup_cons in Hnd as [Hid Hnd]. cbn [foldl length].
  destruct (Hin id) as [x Hx]; [by left|].
  rewrite IH; [|done|].
  - rewrite map_size_delete_Some by by eexists. lia.
  - intros i Hi. rewrite lookup_delete_ne by (intros ->; done). apply Hin. by right.
Qed.

(** ** Runs, and what they should remember *)

Inductive dedup_op :=
  | OpMark (producer_id : string) (sequence_id now : Z)
  | OpForget (producer_id : string).

Definition dedup_step (w : DedupWindow) (op : dedup_op) : DedupWindow :=
  match op with
  | OpMark p s now => MarkProcessed p s now w
  | OpForget p => RemoveProducer p w
  end.

(** The highest number marked for [p] since it was last removed. *)
Definition marked_step (p : string) (m : option Z) (op : dedup_op) : option Z :=
  match op with
  | OpMark q s _ => if decide (q = p) then Some (Z.max s (default 0 m)) else m
  | OpForget q => if decide (q = p) then None else m
  end.

Definition highest_marked (p : string) (ops : list dedup_op) : option Z :=
  foldl (marked_step p) None ops.

Lemma dedup_run_spec p ops w m : p <> "" ->
  max_sequence <$> producers_ w !! p = m ->
  max_sequence <$> producers_ (foldl dedup_step w ops) !! p = foldl (marked_step p) m ops.
Proof.
  intros Hp. revert w m. induction ops as [|op ops IH]; intros w m Hm; [done|].
  cbn [foldl]. apply IH. destruct op as [q s now|q]; cbn [dedup_step marked_step].
  - unfold MarkProcessed. destruct (decide (q = p)) as [->|Hne].
    + rewrite bool_decide_false by done. cbn. rewrite lookup_insert_eq. simpl. rewrite <- Hm.
      f_equal. destruct (producers_ w !! p) as [st|]; simpl; case_if; reflect_bools; lia.
    + case_bool_decide; [done|]. cbn. by rewrite lookup_insert_ne.
  - cbn. destruct (decide (q = p)) as [->|Hne].
    + by rewrite lookup_delete_eq.
    + by rewrite lookup_delete_ne.
Qed.

(** ** Properties *)

(** C18: a message is a duplicate exactly when a sequence number at least as
    high has been marked for its producer since the producer was last removed;
    without a producer id nothing is. *)
Theorem duplicate_iff_marked n ops p s :
  IsDuplicate p s (foldl dedup_step (DedupWindow_new n) ops) =
  if decide (p = "") then false
  else match highest_marked p ops with Some m => s <=? m | None => false end.
Proof.
  unfold IsDuplicate, highest_marked. case_decide as Hp; [by rewrite bool_decide_true|].
  rewrite bool_decide_false by done.
  rewrite <- (dedup_run_spec p ops (DedupWindow_new n) None Hp) by done.
  by destruct (producers_ _ !! p).
Qed.

(** The cleanup keeps the most recently active producers: at most
    [max_inactive] of them (and all if there were no more), with their state,
    and none that was removed had been active after one that was kept. *)
Theorem cleanup_keeps_most_recent order sort max_inactive w : 0 <= max_inactive ->
  let w' := CleanupInactive order sort max_inactive w in
  GetProducerCount w' = Z.min (GetProducerCount w) max_inactive /\
  producers_ w' ⊆ producers_ w /\
  (forall p q sp sq, producers_ w !! p = Some sp -> producers_ w' !! p = None ->
     producers_ w' !! q = Some sq -> last_active sp <= last_active sq).
Proof.
  intros Hmax. unfold CleanupInactive, GetProducerCount.
  destruct (_ <=? max_inactive) eqn:Hsize; [apply Z.leb_le in Hsize|apply Z.leb_gt in Hsize].
  { split; [lia|]. split; [done|]. intros; congruence. }
  set (l := sort_entries sort _). cbn zeta. cbn [producers_].
  set (k := Z.to_nat _).
  assert (l ≡ₚ (λ e, (e.1, last_active e.2)) <$> entries order (producers_ w)) as Hperm
    by apply sort_perm.
  assert (length l = base.size (producers_ w)) as Hlen.
  { rewrite Hperm, length_fmap, entries_perm. apply length_map_to_list. }
  assert (NoDup l.*1) as Hnd.
  { rewrite Hperm, <- list_fmap_compose. apply NoDup_entries_keys. }
  assert (forall p a, (p, a) ∈ l <-> exists sp, producers_ w !! p = Some sp /\ last_active sp = a)
    as Hin.
  { intros p a. rewrite Hperm, list_elem_of_fmap. split.
    - intros ([p' sp] & [= -> ->] & Hp). apply elem_of_entries in Hp. eauto.
    - intros (sp & Hp & <-). exists (p, sp). split; [done|]. by apply elem_of_entries. }
  assert (forall p, foldl (λ m id, delete id m) (producers_ w) (take k l).*1 !! p =
    if decide (p ∈ (take k l).*1) then None else producers_ w !! p) as Hlook
    by (intros; apply lookup_foldl_delete).
  split; [|split].
  - rewrite size_foldl_delete.
    + rewrite length_fmap, length_take, Hlen. lia.
    + eapply NoDup_sublist; [|exact Hnd]. apply sublist_fmap, sublist_take.
    + intros p ([p' a] & -> & Hpa)%list_elem_of_fmap. apply subseteq_take, Hin in Hpa.
      destruct Hpa as (sp & Hsp & _). by eexists.
  - apply map_subseteq_spec. intros p sp. rewrite Hlook. by case_decide.
  - intros p q sp sq Hp Hpn Hq. rewrite Hlook in Hpn, Hq.
    destruct (decide (p ∈ (take k l).*1)) as [Hpt|]; [|congruence].
    destruct (decide (q ∈ (take k l).*1)) as [|Hqt]; [done|].
    assert ((p, last_active sp) ∈ take k l) as Hpl.
    { apply list_elem_of_fmap in Hpt as ([p' a] & -> & Hpt).
      assert ((p', a) ∈ l) as Hpa by by eapply subseteq_take.
      apply Hin in Hpa as (sp' & Hp' & <-). cbn in Hp. rewrite Hp in Hp'. by simplify_eq. }
    assert ((q, last_active sq) ∈ drop k l) as Hql.
    { assert ((q, last_active sq) ∈ l) as Hql by (apply Hin; eauto).
      rewrite <- (take_drop k l), elem_of_app in Hql. destruct Hql as [Hqt'|]; [|done].
      exfalso. apply Hqt. by apply (list_elem_of_fmap_2 fst) in Hqt'. }
    pose proof (sort_sorted sort ((λ e, (e.1, last_active e.2)) <$> entries order (producers_ w)))
      as Hs. fold l in Hs. rewrite <- (take_drop k l) in Hs.
    exact (StronglySorted_app_1_elem_of _ _ _ _ _ Hs Hpl Hql).
Qed.

(** ** Witness *)

Definition demo_window : DedupWindow :=
  foldl dedup_step (DedupWindow_new 10) [OpMark "a" 5 100; OpMark "b" 7 300; OpMark "c" 1 200].

Lemma cleanup_keeps_most_recent_witness :
  GetProducerCount (CleanupInactive key_order insertion_sort 2 demo_window) = 2.
Proof.
  rewrite (proj1 (cleanup_keeps_most_recent key_order insertion_sort 2 demo_window ltac:(lia))).
  reflexivity.
Defined.
