(* ===== verification/RateLimiter.v ===== *)
(** * The token bucket: [common/rate_limiter.h]

    [double] is IEEE binary64 (the Standard Library's [SpecFloat]); times are
    readings of the steady clock in nanoseconds. *)

From S2P Require Import Prelude Types.
From Corelib Require Import SpecFloat.

Abbreviation double := spec_float (only parsing).

(** [static_cast<double>(z)]. *)
Definition double_of (z : Z) : double := binary_normalize 53 1024 z 0 false.
Definition dadd : double -> double -> double := SFadd 53 1024.
Definition dsub : double -> double -> double := SFsub 53 1024.
Definition dmul : double -> double -> double := SFmul 53 1024.
Definition ddiv : double -> double -> double := SFdiv 53 1024.
(** [x > y] and [x >= y]. *)
Definition dgt (x y : double) : bool := SFltb y x.
Definition dge (x y : double) : bool := SFleb y x.

Record TokenBucket := mkBucket {
  rate_per_second_ : Z;
  burst_size_ : Z;
  tokens_ : double;
  last_refill_time_ : Z;
}.

Definition TokenBucket_new (rate_per_second burst_size now : Z) : TokenBucket :=
  mkBucket rate_per_second burst_size (double_of burst_size) now.

Definition Refill (now : Z) (b : TokenBucket) : TokenBucket :=
  let elapsed_seconds := ddiv (double_of (now - last_refill_time_ b)) (double_of 1000000000) in
  let tokens := dadd (tokens_ b) (dmul elapsed_seconds (double_of (rate_per_second_ b))) in
  let tokens := if dgt tokens (double_of (burst_size_ b)) then double_of (burst_size_ b)
                else tokens in
  mkBucket (rate_per_second_ b) (burst_size_ b) tokens now.

Definition Acquire (tokens now : Z) (b : TokenBucket) : bool * TokenBucket :=
  let b := Refill now b in
  if dge (tokens_ b) (double_of tokens)
  then (true, mkBucket (rate_per_second_ b) (burst_size_ b)
                (dsub (tokens_ b) (double_of tokens)) (last_refill_time_ b))
  else (false, b).

Definition SetRate (rate_per_second burst_size now : Z) (b : TokenBucket) : TokenBucket :=
  let b := Refill now b in
  let tokens := if dgt (tokens_ b) (double_of burst_size) then double_of burst_size
                else tokens_ b in
  mkBucket rate_per_second burst_size tokens (last_refill_time_ b).

(** ** Comparison of doubles is transitive *)

(** The order of [SFcompare], as a lexicographic order on integers. *)
Definition rank (x : double) : option (Z * Z * Z) :=
  match x with
  | S754_nan => None
  | S754_zero _ => Some (0, 0, 0)
  | S754_infinity s => Some (if s then -2 else 2, 0, 0)
  | S754_finite s m e => Some (if s then (-1, - e, - Z.pos m) else (1, e, Z.pos m))
  end.

Definition lex_compare (x y : Z * Z * Z) : comparison :=
  let '(a1, b1, c1) := x in
  let '(a2, b2, c2) := y in
  match a1 ?= a2 with
  | Eq => match b1 ?= b2 with Eq => c1 ?= c2 | r => r end
  | r => r
  end.

Lemma SFcompare_rank x y :
  SFcompare x y = a ← rank x; b ← rank y; Some (lex_compare a b).
Proof.
  destruct x as [s1|s1| |s1 m1 e1], y as [s2|s2| |s2 m2 e2]; simpl;
    try (destruct s1; try destruct s2; reflexivity); try (destruct s2; reflexivity); try done.
  destruct s1, s2; simpl; try done.
  rewrite (Z.compare_opp e1 e2), (Z.compare_antisym e1 e2).
  by destruct (e1 ?= e2).
Qed.

Lemma dge_gt_false x n b : dgt x b = false -> dgt n b = true -> dge x n = false.
Proof.
  unfold dgt, dge, SFltb, SFleb. rewrite !SFcompare_rank.
  destruct (rank x) as [[[x1 x2] x3]|], (rank n) as [[[n1 n2] n3]|], (rank b) as [[[b1 b2] b3]|];
    simpl; try done.
  destruct (Z.compare_spec b1 x1), (Z.compare_spec b1 n1), (Z.compare_spec n1 x1); try done; try lia;
  destruct (Z.compare_spec b2 x2), (Z.compare_spec b2 n2), (Z.compare_spec n2 x2); try done; try lia;
  destruct (Z.compare_spec b3 x3), (Z.compare_spec b3 n3), (Z.compare_spec n3 x3); try done; lia.
Qed.

Lemma dgt_irrefl x : dgt x x = false.
Proof.
  unfold dgt, SFltb. rewrite SFcompare_rank. destruct (rank x) as [[[a b] c]|]; [|done].
  simpl. by rewrite !Z.compare_refl.
Qed.

Lemma Refill_capped now b :
  dgt (tokens_ (Refill now b)) (double_of (burst_size_ b)) = false.
Proof. unfold Refill. cbn. case_if; [apply dgt_irrefl|done]. Qed.

(** ** Properties *)

(** C19: the bucket never holds more than its burst once refilled or
    reconfigured, a NaN or infinite level included, so a request for more than
    the burst is refused however long one waits, and costs nothing; a granted
    request was covered and is taken from the level. *)
Theorem burst_bounds_requests b n now rate burst :
  let '(ok, b') := Acquire n now b in
  dgt (tokens_ (Refill now b)) (double_of (burst_size_ b)) = false /\
  dgt (tokens_ (SetRate rate burst now b)) (double_of burst) = false /\
  (dgt (double_of n) (double_of (burst_size_ b)) = true -> ok = false) /\
  (ok = false -> b' = Refill now b) /\
  (ok = true -> dge (tokens_ (Refill now b)) (double_of n) = true /\
     tokens_ b' = dsub (tokens_ (Refill now b)) (double_of n)).
Proof.
  unfold Acquire. pose proof (Refill_capped now b) as Hcap.
  assert (dgt (tokens_ (SetRate rate burst now b)) (double_of burst) = false) as Hset.
  { unfold SetRate. cbn. case_if; [apply dgt_irrefl|done]. }
  destruct (dge _ _) eqn:Hge; split_and!; try done.
  intros Hn. by rewrite (dge_gt_false _ _ _ Hcap Hn) in Hge.
Qed.

(** A bucket of 100 tokens has plenty after a year, and still refuses 101. *)
Example burst_example :
  fst (Acquire 101 31536000000000000 (TokenBucket_new 1000 100 0)) = false /\
  fst (Acquire 100 31536000000000000 (TokenBucket_new 1000 100 0)) = true.
Proof. by vm_compute. Qed.
