(* ===== verification/Connection.v ===== *)
(** * Connections: [network/connection.{h,cpp}]

    The kernel's answers to [send], [writev] and [recv] are arguments; what a
    call hands to the kernel is a result, so the stream on the wire is the
    concatenation of these. *)

From S2P Require Import Prelude Types Config Frame StreamingCodec RateLimiter.

(** ** Data *)

Record Connection := mkConnection {
  conn_id_ : ConnectionId;
  closed_ : bool;
  read_buffer_ : list byte;
  streaming_codec_ : StreamingFrameCodec;
  write_buffer_ : list byte;
  last_active_time_ms_ : Z;
  config_ : option BrokerConfig; (* a pointer, possibly null *)
  publish_limiter_ : option TokenBucket;
}.

(** Answers of a non-blocking socket; [Accepted n] takes at most what it is
    given.  When the list of answers is exhausted the socket would block. *)
Inductive send_answer := Accepted (n : nat) | SendAgain | SendError.
Inductive recv_answer := Received (bs : list byte) | RecvAgain | RecvError.

Definition Connection_new (id : ConnectionId) (config : option BrokerConfig) (now_ms : Z)
    : Connection :=
  mkConnection id false [] codec_new [] now_ms config None.

Definition set_closed (c : Connection) : Connection :=
  mkConnection (conn_id_ c) true (read_buffer_ c) (streaming_codec_ c) (write_buffer_ c)
    (last_active_time_ms_ c) (config_ c) (publish_limiter_ c).
Definition set_write_buffer (w : list byte) (c : Connection) : Connection :=
  mkConnection (conn_id_ c) (closed_ c) (read_buffer_ c) (streaming_codec_ c) w
    (last_active_time_ms_ c) (config_ c) (publish_limiter_ c).
Definition set_read (r : list byte) (codec : StreamingFrameCodec) (c : Connection) : Connection :=
  mkConnection (conn_id_ c) (closed_ c) r codec (write_buffer_ c)
    (last_active_time_ms_ c) (config_ c) (publish_limiter_ c).
Definition set_limiter (l : TokenBucket) (c : Connection) : Connection :=
  mkConnection (conn_id_ c) (closed_ c) (read_buffer_ c) (streaming_codec_ c) (write_buffer_ c)
    (last_active_time_ms_ c) (config_ c) (Some l).

(** The flag tells whether the close handler runs: only the first time. *)
Definition Close (c : Connection) : bool * Connection :=
  if closed_ c then (false, c) else (true, set_closed c).

Definition UpdateLastActiveTime (now_ms : Z) (c : Connection) : Connection :=
  mkConnection (conn_id_ c) (closed_ c) (read_buffer_ c) (streaming_codec_ c) (write_buffer_ c)
    (u64 now_ms) (config_ c) (publish_limiter_ c).

Definition use_zero_copy (c : Connection) : bool :=
  match config_ c with Some cfg => zero_copy_enabled cfg | None => true end.

Definition max_write_buffer (c : Connection) : Z :=
  match config_ c with Some cfg => max_write_buffer_size cfg | None => 8 * 1024 * 1024 end.

(** ** Sending *)

Inductive send_outcome := Drained | Blocked | Broken.

(** The loop over [send]: the bytes the kernel took, and why it ended. *)
Fixpoint send_loop (answers : list send_answer) (unsent : list byte)
    : list byte * send_outcome :=
  match unsent with
  | [] => ([], Drained)
  | _ =>
      match answers with
      | [] | SendAgain :: _ => ([], Blocked)
      | SendError :: _ => ([], Broken)
      | Accepted n :: answers =>
          let sent := Nat.min n (length unsent) in
          if (0 <? sent)%nat then
            let '(bs, o) := send_loop answers (drop sent unsent) in
            (take sent unsent ++ bs, o)
          else ([], Broken)
      end
  end.

Record send_result := mkSent {
  sent_ok : bool;
  sent_conn : Connection;
  sent_wire : list byte;
}.

Definition SendFrame (answers : list send_answer) (frame : Frame) (c : Connection) : send_result :=
  if closed_ c then mkSent false c []
  else if negb (bool_decide (write_buffer_ c = [])) || negb (use_zero_copy c) then
    let encoded := Encode frame in
    if max_write_buffer c <? u64 (zlen (write_buffer_ c) + zlen encoded) then mkSent false c []
    else
      let buffer := write_buffer_ c ++ encoded in
      let '(bs, o) := send_loop answers buffer in
      match o with
      | Broken => mkSent false (snd (Close (set_write_buffer buffer c))) bs
      | _ => mkSent true (set_write_buffer (drop (length bs) buffer) c) bs
      end
  else
    let '(header_size, header) := EncodeHeaderToBuffer frame (replicate 10 Byte.x00) 10 in
    if header_size =? 0 then mkSent false c []
    else
      let payload := frame_payload frame in
      let total_to_send := (length header + length payload)%nat in
      match answers with
      | [] | SendAgain :: _ =>
          mkSent true (set_write_buffer (write_buffer_ c ++ header ++ payload) c) []
      | SendError :: _ => mkSent false (snd (Close c)) []
      | Accepted n :: _ =>
          let sent := Nat.min n total_to_send in
          let wire := take sent (header ++ payload) in
          if (sent =? total_to_send)%nat then mkSent true c wire
          else if (0 <? sent)%nat then
            let remaining_header := if (sent <? length header)%nat then (length header - sent)%nat
                                    else 0%nat in
            let payload_sent := if (length header <? sent)%nat then (sent - length header)%nat
                                else 0%nat in
            let rest_header := drop (length header - remaining_header) header in
            let rest_payload := drop payload_sent payload in
            mkSent true
              (set_write_buffer (write_buffer_ c
                 ++ (if (0 <? remaining_header)%nat then rest_header else [])
                 ++ (if (0 <? length payload - payload_sent)%nat then rest_payload else [])) c)
              wire
          else mkSent false (snd (Close c)) []
      end.

(** ** Receiving *)

(** The loop over [recv]: the read buffer, and whether the peer is still there. *)
Fixpoint recv_loop (answers : list recv_answer) (buffer : list byte) : list byte * bool :=
  match answers with
  | [] | RecvAgain :: _ => (buffer, true)
  | RecvError :: _ => (buffer, false)
  | Received bs :: answers =>
      if (0 <? length bs)%nat then recv_loop answers (buffer ++ bs) else (buffer, false)
  end.

(** The frames are handed to the frame handler in this order; [None] is the
    decoding loop running out of fuel. *)
Definition OnRead (answers : list recv_answer) (now_ms : Z) (c : Connection)
    : option (list Frame * Connection) :=
  if closed_ c then Some ([], c)
  else
    let '(buffer, alive) := recv_loop answers (read_buffer_ c) in
    let c := set_read buffer (streaming_codec_ c) c in
    if negb alive then Some ([], snd (Close c))
    else
      let c := UpdateLastActiveTime now_ms c in
      '(frames, codec) ← feed (read_buffer_ c) (streaming_codec_ c);
      Some (frames, set_read [] codec c).

(** ** Rate limiting *)

(** [now_new] and [now] are the clock readings of the constructor and [Acquire]. *)
Definition AcquirePublishPermit (tokens now_new now : Z) (c : Connection) : bool * Connection :=
  if match config_ c with Some cfg => negb (rate_limit_enabled cfg) | None => false end
  then (true, c)
  else
    let limiter :=
      match publish_limiter_ c with
      | Some l => l
      | None =>
          let rate := match config_ c with Some cfg => conn_publish_rate cfg | None => 1000 end in
          let burst := match config_ c with Some cfg => rate_limit_burst cfg | None => 100 end in
          TokenBucket_new rate burst now_new
      end in
    let '(ok, l) := Acquire tokens now limiter in
    (ok, set_limiter l c).

Definition SetPublishRateLimit (rate_per_second burst_size now : Z) (c : Connection) : Connection :=
  match publish_limiter_ c with
  | None => set_limiter (TokenBucket_new rate_per_second burst_size now) c
  | Some l => set_limiter (SetRate rate_per_second burst_size now l) c
  end.

(** ** Sending: lemmas *)

Lemma send_loop_spec answers unsent :
  let '(bs, o) := send_loop answers unsent in
  bs = take (length bs) unsent /\ (o = Drained -> bs = unsent).
Proof.
  revert unsent. induction answers as [|a answers IH]; intros [|b unsent]; simpl; try done.
  destruct a as [n| |]; try done.
  destruct (0 <? Nat.min n (S (length unsent)))%nat eqn:E; [|done].
  apply Nat.ltb_lt in E. set (k := Nat.min n (S (length unsent))) in *.
  specialize (IH (drop k (b :: unsent))). destruct (send_loop answers _) as [bs o].
  destruct IH as [Hbs Ho].
  assert (length (take k (b :: unsent)) = k) as Hlen by (rewrite length_take; simpl; lia).
  rewrite length_app, Hlen. split.
  - rewrite <- (take_drop k (b :: unsent)) at 2. rewrite take_app, Hlen.
    replace (k + length bs - k)%nat with (length bs) by lia.
    rewrite (take_ge (take k (b :: unsent))) by (rewrite Hlen; lia). by rewrite <- Hbs.
  - intros Hd. rewrite Ho by done. apply take_drop.
Qed.

(** What a partial [writev] leaves to be buffered. *)
Lemma partial_rest (header payload : list byte) sent :
  (sent < length header + length payload)%nat ->
  let remaining_header := if (sent <? length header)%nat then (length header - sent)%nat
                          else 0%nat in
  let payload_sent := if (length header <? sent)%nat then (sent - length header)%nat
                      else 0%nat in
  (if (0 <? remaining_header)%nat then drop (length header - remaining_header) header else []) ++
  (if (0 <? length payload - payload_sent)%nat then drop payload_sent payload else []) =
  drop sent (header ++ payload).
Proof.
  intros Hsent. cbv zeta.
  destruct (sent <? length header)%nat eqn:E1; [apply Nat.ltb_lt in E1|apply Nat.ltb_ge in E1].
  - rewrite (proj2 (Nat.ltb_lt 0 _)) by lia. rewrite (proj2 (Nat.ltb_ge _ sent)) by lia.
    replace (length header - (length header - sent))%nat with sent by lia.
    rewrite drop_app_le by lia. f_equal. by destruct payload.
  - rewrite drop_app_ge by lia. change (0 <? 0)%nat with false. cbv iota. cbn [app].
    assert ((if (length header <? sent)%nat then (sent - length header)%nat else 0%nat)
      = (sent - length header)%nat) as ->.
    { destruct (length header <? sent)%nat eqn:E2; [done|]. apply Nat.ltb_ge in E2. lia. }
    by rewrite (proj2 (Nat.ltb_lt 0 _)) by lia.
Qed.

(** What one call does: accepted, refused without effect, or broken. *)
Lemma SendFrame_spec answers f c : closed_ c = false ->
  let r := SendFrame answers f c in
  config_ (sent_conn r) = config_ c /\
  if sent_ok r then
    closed_ (sent_conn r) = false /\
    sent_wire r ++ write_buffer_ (sent_conn r) = write_buffer_ c ++ Encode f
  else if closed_ (sent_conn r) then sent_wire r `prefix_of` write_buffer_ c ++ Encode f
  else sent_conn r = c /\ sent_wire r = [].
Proof.
  intros Hopen. cbv zeta. unfold SendFrame. rewrite Hopen. case_if.
  - case_if; cbn; [by rewrite Hopen|].
    pose proof (send_loop_spec answers (write_buffer_ c ++ Encode f)) as Hs.
    destruct (send_loop _ _) as [bs o]. destruct Hs as [Hbs _].
    assert (bs ++ drop (length bs) (write_buffer_ c ++ Encode f) = write_buffer_ c ++ Encode f)
      as Heq by (rewrite Hbs at 1; apply take_drop).
    destruct o; cbn; try done. unfold Close. cbn. rewrite Hopen. cbn. split; [done|].
    by eexists.
  - apply orb_false_iff in Heqb as [Hwb _]. apply negb_false_iff, bool_decide_eq_true in Hwb.
    pose proof (EncodeHeaderToBuffer_bytes f (replicate 10 Byte.x00)) as Hh.
    change (zlen (replicate 10 Byte.x00)) with 10 in Hh. rewrite Hh by done. clear Hh.
    change (drop 10 (replicate 10 Byte.x00)) with (@nil byte). rewrite app_nil_r.
    change (10 =? 0) with false. cbv iota. rewrite Hwb, Encode_header. cbn [app].
    set (header := header_bytes f). assert (length header = 10%nat) as Hlen by done.
    generalize (frame_payload f). intros payload. cbv zeta. clearbody header.
    destruct answers as [|[n| |] answers]; cbn [sent_ok sent_conn sent_wire closed_ config_
      set_write_buffer write_buffer_]; try (by rewrite ?Hopen).
    + set (sent := Nat.min n _).
      destruct (sent =? _)%nat eqn:E; [apply Nat.eqb_eq in E|apply Nat.eqb_neq in E].
      { cbn. rewrite Hopen, Hwb, app_nil_r. split; [done|]. split; [done|].
        apply take_ge. rewrite length_app. lia. }
      destruct (0 <? sent)%nat eqn:E0; [apply Nat.ltb_lt in E0|].
      2: { cbn. unfold Close. rewrite Hopen. cbn. split; [done|]. apply prefix_nil. }
      cbn [sent_ok sent_conn sent_wire closed_ config_ set_write_buffer write_buffer_].
      rewrite Hopen. split; [done|]. split; [done|].
      rewrite partial_rest by lia. apply take_drop.
    + unfold Close. rewrite Hopen. cbn. split; [done|]. apply prefix_nil.
Qed.

(** A sequence of calls: the frames accepted, the connection and the bytes handed over. *)
Fixpoint send_all (calls : list (Frame * list send_answer)) (c : Connection)
    : list Frame * Connection * list byte :=
  match calls with
  | [] => ([], c, [])
  | (f, answers) :: calls =>
      let r := SendFrame answers f c in
      let '(fs, c', wire) := send_all calls (sent_conn r) in
      ((if sent_ok r then f :: fs else fs), c', sent_wire r ++ wire)
  end.

Lemma send_all_closed calls c : closed_ c = true -> send_all calls c = ([], c, []).
Proof.
  intros Hc. induction calls as [|[f answers] calls IH]; [done|]. cbn [send_all].
  unfold SendFrame. rewrite Hc. cbn [sent_conn sent_ok sent_wire]. by rewrite IH.
Qed.

Lemma send_all_spec calls c : closed_ c = false ->
  let '(fs, c', wire) := send_all calls c in
  let stream := write_buffer_ c ++ concat (Encode <$> fs) in
  if closed_ c' then
    exists f, f ∈ calls.*1 /\ wire `prefix_of` stream ++ Encode f
  else wire ++ write_buffer_ c' = stream.
Proof.
  revert c. induction calls as [|[f answers] calls IH]; intros c Hc; cbn [send_all].
  { simpl. rewrite Hc. by rewrite app_nil_r. }
  pose proof (SendFrame_spec answers f c Hc) as [_ Hs].
  destruct (SendFrame answers f c) as [ok c1 wire1]. cbn [sent_ok sent_conn sent_wire] in *.
  destruct ok.
  - destruct Hs as [Hopen Hw]. specialize (IH c1 Hopen).
    destruct (send_all calls c1) as [[fs c2] wire2]. cbn [fmap list_fmap concat] in *.
    rewrite (app_assoc (write_buffer_ c)), <- Hw.
    destruct (closed_ c2).
    + destruct IH as (g & Hg & Hp). exists g. split; [by right|].
      rewrite <- !app_assoc. apply prefix_app. by rewrite app_assoc.
    + by rewrite <- !app_assoc, IH.
  - destruct (closed_ c1) eqn:Hc1.
    + rewrite send_all_closed by done. rewrite Hc1. cbn. exists f. split; [by left|].
      by rewrite !app_nil_r.
    + destruct Hs as [-> ->]. specialize (IH c Hc). destruct (send_all calls c) as [[fs c2] wire2].
      cbn [app] in *. destruct (closed_ c2); [|done].
      destruct IH as (g & Hg & Hp). exists g. split; [by right|done].
Qed.

Lemma send_all_sendable calls c : Forall (λ call, sendable call.1) calls ->
  Forall sendable (fst (fst (send_all calls c))).
Proof.
  intros Hcalls. revert c. induction Hcalls as [|[f answers] calls Hf Hcalls IH];
    intros c; [constructor|].
  cbn [send_all]. specialize (IH (sent_conn (SendFrame answers f c))).
  destruct (send_all calls (sent_conn (SendFrame answers f c))) as [[fs c1] w].
  cbn [fst] in *. destruct (sent_ok _); [by constructor|done].
Qed.

(** The write buffer after one call. *)
Lemma SendFrame_bound answers f c m :
  closed_ c = false -> zlen (Encode f) <= m -> zlen (write_buffer_ c) <= Z.max m (max_write_buffer c) ->
  Z.max m (max_write_buffer c) + m < 2 ^ 64 ->
  closed_ (sent_conn (SendFrame answers f c)) = false ->
  zlen (write_buffer_ (sent_conn (SendFrame answers f c))) <= Z.max m (max_write_buffer c).
Proof.
  intros Hopen Hf Hwb H64. pose proof (SendFrame_spec answers f c Hopen) as [_ Hs].
  destruct (sent_ok (SendFrame answers f c)) eqn:Hok.
  2: { intros Hc. rewrite Hc in Hs. by destruct Hs as [-> _]. }
  intros _. destruct Hs as [_ Hw]. apply (f_equal length) in Hw. rewrite !length_app in Hw.
  destruct (bool_decide (write_buffer_ c = [])) eqn:Hempty.
  { apply bool_decide_eq_true in Hempty. rewrite Hempty in Hw. cbn [length] in Hw. lia. }
  revert Hok. unfold SendFrame at 1. rewrite Hopen, Hempty. cbn [negb orb].
  destruct (max_write_buffer c <? _) eqn:Hlim; [done|]. intros _.
  apply Z.ltb_ge in Hlim. rewrite u64_id in Hlim by lia. lia.
Qed.

(** ** Receiving: lemmas *)

(** The bytes a run of [recv] delivers. *)
Fixpoint recv_data (answers : list recv_answer) : list byte :=
  match answers with
  | Received bs :: answers => if (0 <? length bs)%nat then bs ++ recv_data answers else []
  | _ => []
  end.

Lemma recv_loop_data answers buffer :
  fst (recv_loop answers buffer) = buffer ++ recv_data answers.
Proof.
  revert buffer. induction answers as [|[bs| |] answers IH]; intros buffer; simpl;
    try by rewrite app_nil_r.
  destruct (0 <? length bs)%nat; [|by rewrite app_nil_r]. by rewrite IH, app_assoc.
Qed.

(** Reads of a connection whose peer stays, one after the other. *)
Fixpoint read_all (reads : list (list recv_answer * Z)) (c : Connection)
    : option (list Frame * Connection) :=
  match reads with
  | [] => Some ([], c)
  | (answers, now) :: reads =>
      '(fs, c1) ← OnRead answers now c;
      '(gs, c2) ← read_all reads c1;
      Some (fs ++ gs, c2)
  end.

Definition alive (read : list recv_answer * Z) : Prop := snd (recv_loop read.1 []) = true.

Lemma recv_loop_alive answers b1 b2 : snd (recv_loop answers b1) = snd (recv_loop answers b2).
Proof.
  revert b1 b2. induction answers as [|[bs| |] answers IH]; intros b1 b2; simpl; try done.
  destruct (0 <? length bs)%nat; [apply IH|done].
Qed.

Lemma OnRead_spec answers now c :
  closed_ c = false -> read_buffer_ c = [] -> alive (answers, now) ->
  codec_ok (streaming_codec_ c) ->
  exists c', OnRead answers now c =
      Some (fst (ref_decode (codec_buffer (streaming_codec_ c) ++ recv_data answers)), c') /\
    closed_ c' = false /\ read_buffer_ c' = [] /\ codec_ok (streaming_codec_ c') /\
    codec_buffer (streaming_codec_ c') =
      snd (ref_decode (codec_buffer (streaming_codec_ c) ++ recv_data answers)).
Proof.
  intros Hc Hrb Ha Hok. unfold OnRead. rewrite Hc. unfold alive in Ha. cbn [fst] in Ha.
  pose proof (recv_loop_data answers (read_buffer_ c)) as Hdata.
  rewrite (recv_loop_alive answers [] (read_buffer_ c)) in Ha.
  destruct (recv_loop answers (read_buffer_ c)) as [buffer al]. cbn [fst snd] in *. subst al buffer.
  cbn [negb]. cbn [read_buffer_ streaming_codec_ set_read UpdateLastActiveTime].
  rewrite Hrb. cbn [app].
  destruct (feed_spec (recv_data answers) (streaming_codec_ c) Hok) as (codec & -> & Hok' & Hb).
  eexists. split; [reflexivity|]. by cbn.
Qed.

Lemma read_all_spec reads c :
  closed_ c = false -> read_buffer_ c = [] -> Forall alive reads ->
  codec_ok (streaming_codec_ c) -> decide_prefix (codec_buffer (streaming_codec_ c)) = NeedMore ->
  let data := concat ((λ r, recv_data r.1) <$> reads) in
  exists c', read_all reads c =
      Some (fst (ref_decode (codec_buffer (streaming_codec_ c) ++ data)), c') /\
    codec_buffer (streaming_codec_ c') =
      snd (ref_decode (codec_buffer (streaming_codec_ c) ++ data)).
Proof.
  revert c. induction reads as [|[answers now] reads IH]; intros c Hc Hrb Ha Hok Hd; cbv zeta.
  - exists c. simpl. by rewrite app_nil_r, ref_decode_eq, Hd.
  - apply Forall_cons in Ha as [Ha1 Ha]. cbn [read_all].
    destruct (OnRead_spec answers now c Hc Hrb Ha1 Hok) as (c1 & -> & Hc1 & Hrb1 & Hok1 & Hb1).
    simpl. destruct (IH c1 Hc1 Hrb1 Ha Hok1) as (c2 & -> & Hb2).
    { rewrite Hb1. apply ref_decode_rest. }
    exists c2. rewrite app_assoc, (ref_decode_app (_ ++ recv_data answers)), <- Hb1. done.
Qed.

(** ** Properties *)

(** The stream is never corrupted by sending.  Whatever the kernel takes
    of each call, on either path, as long as the connection stays open the
    bytes on the wire followed by the write buffer are the encodings of the
    frames for which [SendFrame] returned true, complete and in order; if it
    broke, the wire holds a beginning of that stream and of the frame sent
    last. *)
Theorem send_stream_integrity calls id config now :
  let '(accepted, c, wire) := send_all calls (Connection_new id config now) in
  let stream := concat (Encode <$> accepted) in
  if closed_ c then exists f, f ∈ calls.*1 /\ wire `prefix_of` stream ++ Encode f
  else wire ++ write_buffer_ c = stream.
Proof.
  pose proof (send_all_spec calls (Connection_new id config now) eq_refl) as Hs.
  by destruct (send_all calls (Connection_new id config now)) as [[fs c] wire].
Qed.

(** C20: end to end.  What one connection sends, in any pieces, another one
    that reads all of it, in any pieces, hands to its frame handler: exactly
    the accepted frames, in order, once the sender's write buffer is empty. *)
Theorem send_receive calls reads id1 id2 config1 config2 now1 now2 accepted c wire :
  Forall (λ call, sendable call.1) calls ->
  send_all calls (Connection_new id1 config1 now1) = (accepted, c, wire) ->
  closed_ c = false -> write_buffer_ c = [] ->
  Forall alive reads -> concat ((λ r, recv_data r.1) <$> reads) = wire ->
  exists c', read_all reads (Connection_new id2 config2 now2) = Some (received <$> accepted, c').
Proof.
  intros Hcalls Hsend Hopen Hwb Halive Hwire.
  pose proof (send_all_spec calls (Connection_new id1 config1 now1) eq_refl) as Hs.
  pose proof (send_all_sendable calls (Connection_new id1 config1 now1) Hcalls) as Hacc.
  rewrite Hsend in Hacc. cbn [fst] in Hacc.
  rewrite Hsend, Hopen, Hwb, app_nil_r in Hs. cbn [write_buffer_ Connection_new app] in Hs.
  destruct (read_all_spec reads (Connection_new id2 config2 now2)) as (c' & Heq & _); try done.
  exists c'. rewrite Heq. cbn [codec_buffer streaming_codec_ Connection_new codec_new app].
  by rewrite Hwire, Hs, ref_decode_frames.
Qed.

(** What arrives together with the end of the stream is lost.  If a read
    event ends with the peer's shutdown or an error, no frame received in it
    is handed on, however complete. *)
Theorem eof_discards_frames answers now c :
  closed_ c = false -> snd (recv_loop answers (read_buffer_ c)) = false ->
  exists c', OnRead answers now c = Some ([], c') /\ closed_ c' = true.
Proof.
  intros Hopen Heof. unfold OnRead. rewrite Hopen.
  destruct (recv_loop answers (read_buffer_ c)) as [buffer al]. cbn in Heof. subst al.
  eexists. split; [done|]. unfold Close. cbn. by rewrite Hopen.
Qed.

(** Back pressure.  The write buffer never grows past the larger of the
    configured limit and one frame. *)
Theorem write_buffer_bounded calls id config now m :
  0 <= m -> Forall (λ call, zlen (Encode call.1) <= m) calls ->
  Z.max m (max_write_buffer (Connection_new id config now)) + m < 2 ^ 64 ->
  let '(_, c, _) := send_all calls (Connection_new id config now) in
  closed_ c = false ->
  zlen (write_buffer_ c) <= Z.max m (max_write_buffer (Connection_new id config now)).
Proof.
  intros Hm0 Hcalls Hlim. set (c0 := Connection_new id config now) in *.
  assert (forall c, closed_ c = false -> config_ c = config_ c0 ->
    zlen (write_buffer_ c) <= Z.max m (max_write_buffer c0) ->
    let '(_, c', _) := send_all calls c in
    closed_ c' = false -> zlen (write_buffer_ c') <= Z.max m (max_write_buffer c0)) as Hall.
  { induction Hcalls as [|[f answers] calls Hf Hcalls IH]; intros c Hopen Hcfg Hwb; [by cbn|].
    cbn [send_all fst] in *.
    assert (max_write_buffer c = max_write_buffer c0) as Hm
      by (unfold max_write_buffer; by rewrite Hcfg).
    pose proof (SendFrame_spec answers f c Hopen) as [Hc1 _]. rewrite <- Hm in Hwb, Hlim.
    pose proof (SendFrame_bound answers f c m Hopen Hf Hwb Hlim) as Hb. rewrite Hm in Hb, Hlim.
    destruct (closed_ (sent_conn (SendFrame answers f c))) eqn:Hcl.
    - rewrite send_all_closed by done. congruence.
    - specialize (IH (sent_conn (SendFrame answers f c)) Hcl ltac:(congruence) (Hb eq_refl)).
      by destruct (send_all calls _) as [[fs c'] w]. }
  specialize (Hall c0 eq_refl eq_refl). apply Hall. cbn. lia.
Qed.

(** ** Witnesses *)

Lemma send_receive_witness : exists c',
  read_all [([Received (take 5 (Encode sample_frame)); RecvAgain], 1);
            ([Received (drop 5 (Encode sample_frame) ++ Encode sample_frame)], 2)]
    (Connection_new 2 None 0) = Some ([received sample_frame; received sample_frame], c').
Proof.
  apply (send_receive [(sample_frame, [Accepted 3]); (sample_frame, [Accepted 8; Accepted 100])]
    _ 1 2 None None 0 0 [sample_frame; sample_frame]
    (snd (fst (send_all [(sample_frame, [Accepted 3]); (sample_frame, [Accepted 8; Accepted 100])]
                 (Connection_new 1 None 0)))) (Encode sample_frame ++ Encode sample_frame)).
  - by apply (bool_decide_eq_true_1 _).
  - by vm_compute.
  - by vm_compute.
  - by vm_compute.
  - repeat constructor.
  - by vm_compute.
Defined.

Lemma eof_discards_frames_witness : exists c',
  OnRead [Received (Encode sample_frame); Received []] 1 (Connection_new 1 None 0) =
    Some ([], c') /\ closed_ c' = true.
Proof. apply eof_discards_frames; by vm_compute. Defined.

Lemma write_buffer_bounded_witness :
  zlen (write_buffer_ (snd (fst (send_all [(sample_frame, []); (sample_frame, [Accepted 3])]
    (Connection_new 1 None 0))))) <= 8 * 1024 * 1024.
Proof.
  pose proof (write_buffer_bounded [(sample_frame, []); (sample_frame, [Accepted 3])] 1 None 0 12) as Hb.
  specialize (Hb ltac:(lia) ltac:(repeat constructor; cbn; lia) ltac:(cbn; lia)).
  destruct (send_all [(sample_frame, []); (sample_frame, [Accepted 3])] (Connection_new 1 None 0))
    as [[fs c] w] eqn:E.
  apply Hb. assert (closed_ (snd (fst (send_all
    [(sample_frame, []); (sample_frame, [Accepted 3])] (Connection_new 1 None 0)))) = false) as Hc
    by by vm_compute. by rewrite E in Hc.
Defined.
