(* ===== verification/MessageStore.v ===== *)
(** * The store interface: [storage/message_store.h]

    [MessageStore] is [IMessageStore] with what its clients rely on: messages
    accepted by a publish are held by their topic, and no operation but a
    deletion or the expiry of a message takes them away.  A store may also work
    by itself, visit by visit of its background threads.  The in-memory store
    implements it. *)

From S2P Require Import Prelude Types RingBuffer Store StoreSpec StoreInv StoreProps.

(** The time after which a message with a time to live is expired, 0 without. *)
Definition expiry (ttl_ms now : Z) : Z := if 0 <? ttl_ms then u64 (now + ttl_ms) else 0.

(** Arguments of [publish]: the two clock readings come last. *)
Class MessageStore (S : Type) := {
  ms_publish : TopicName -> Payload -> Z -> Z -> Z -> S -> (bool * MessageId) * S;
  ms_pull : TopicName -> string -> Z -> bool -> Z -> (nat -> Z) -> S -> list StoredMessage * S;
  ms_ack : TopicName -> string -> MessageId -> bool -> S -> bool * S;
  ms_create : TopicName -> S -> bool * S;
  ms_delete : TopicName -> S -> bool * S;
  ms_has : TopicName -> S -> bool;
  ms_pull_dlq : TopicName -> Z -> S -> list StoredMessage * S;

  (** A background thread's visit to a topic, and whether it removes a message
      as expired. *)
  ms_visit : Type;
  ms_run : ms_visit -> S -> S;
  ms_expires : ms_visit -> StoredMessage -> bool;

  (** Well formed after [n] publishes; holding a message in a topic. *)
  ms_wf : Z -> S -> Prop;
  ms_holds : TopicName -> StoredMessage -> S -> Prop;

  ms_wf_weaken : forall n n' st, n <= n' -> ms_wf n st -> ms_wf n' st;

  ms_publish_wf : forall n st topic payload ttl now1 now2,
    0 <= n < 2 ^ 64 - 2 -> ms_wf n st -> zlen payload + 28 < 2 ^ 32 -> 0 <= now2 < 2 ^ 64 ->
    ms_wf (n + 1) (snd (ms_publish topic payload ttl now1 now2 st));
  ms_publish_holds : forall n st topic payload ttl now1 now2 id st',
    0 <= n < 2 ^ 64 - 2 -> ms_wf n st -> zlen payload + 28 < 2 ^ 32 -> 0 <= now2 < 2 ^ 64 ->
    ms_publish topic payload ttl now1 now2 st = ((true, id), st') ->
    ms_holds topic (mkStoredMessage id "" payload now2 0 (expiry ttl now1)) st';
  ms_publish_id : forall n st topic payload ttl now1 now2 id st',
    0 <= n < 2 ^ 64 - 2 -> ms_wf n st ->
    ms_publish topic payload ttl now1 now2 st = ((true, id), st') -> 0 <= id < 2 ^ 64;
  ms_publish_keeps : forall n st topic payload ttl now1 now2 t m,
    0 <= n < 2 ^ 64 - 2 -> ms_wf n st -> zlen payload + 28 < 2 ^ 32 -> 0 <= now2 < 2 ^ 64 ->
    ms_holds t m st -> ms_holds t m (snd (ms_publish topic payload ttl now1 now2 st));

  ms_pull_wf : forall n st topic consumer max g now steady,
    0 <= n < 2 ^ 64 - 2 -> ms_wf n st -> 0 <= max ->
    ms_wf (n + 1) (snd (ms_pull topic consumer max g now steady st));
  ms_pull_keeps : forall n st topic consumer max g now steady t m,
    0 <= n < 2 ^ 64 - 2 -> ms_wf n st -> 0 <= max ->
    ms_holds t m st -> ms_holds t m (snd (ms_pull topic consumer max g now steady st));

  ms_ack_wf : forall n st topic consumer id g,
    0 <= n < 2 ^ 64 - 2 -> ms_wf n st -> ms_wf (n + 1) (snd (ms_ack topic consumer id g st));
  ms_ack_keeps : forall n st topic consumer id g t m,
    0 <= n < 2 ^ 64 - 2 -> ms_wf n st ->
    ms_holds t m st -> ms_holds t m (snd (ms_ack topic consumer id g st));

  ms_create_wf : forall n st topic,
    0 <= n < 2 ^ 64 - 2 -> ms_wf n st -> ms_wf (n + 1) (snd (ms_create topic st));
  ms_create_keeps : forall n st topic t m,
    0 <= n < 2 ^ 64 - 2 -> ms_wf n st ->
    ms_holds t m st -> ms_holds t m (snd (ms_create topic st));

  ms_delete_wf : forall n st topic,
    0 <= n < 2 ^ 64 - 2 -> ms_wf n st -> ms_wf (n + 1) (snd (ms_delete topic st));
  ms_delete_keeps : forall n st topic t m,
    0 <= n < 2 ^ 64 - 2 -> ms_wf n st -> t <> topic ->
    ms_holds t m st -> ms_holds t m (snd (ms_delete topic st));

  ms_run_wf : forall n st v,
    0 <= n < 2 ^ 64 - 2 -> ms_wf n st -> ms_wf (n + 1) (ms_run v st);
  ms_run_keeps : forall n st v t m,
    0 <= n < 2 ^ 64 - 2 -> ms_wf n st -> ms_expires v m = false ->
    ms_holds t m st -> ms_holds t m (ms_run v st);
}.

Section memory.
Context {B : Type} `{FifoBuffer B}.

(** The store's parameters are those it was made with. *)
Definition store_wf (n : Z) (st : MemoryMessageStore B) : Prop :=
  params_ok (default_buffer_size_ st) (max_retry_count_ st) /\
  store_inv (default_buffer_size_ st) (max_retry_count_ st) n st.

Definition store_holds (topic : TopicName) (m : StoredMessage) (st : MemoryMessageStore B) : Prop :=
  exists td, topics_ st !! topic = Some td /\ m ∈ contents td.

Lemma store_wf_weaken n n' st : n <= n' -> store_wf n st -> store_wf n' st.
Proof. intros Hn [Hp Hi]. split; [done|by eapply store_inv_weaken]. Qed.

Lemma step_params (st : MemoryMessageStore B) e :
  let st' := store_step st e in
  default_buffer_size_ st' = default_buffer_size_ st /\ max_retry_count_ st' = max_retry_count_ st.
Proof.
  cbv zeta. destruct e; cbn [store_step];
    unfold CreateTopic, DeleteTopic, Publish, Pull, Ack, PullDlq, retry_topic, expire_topic;
    repeat case_match; simplify_eq; done.
Qed.

Lemma store_step_wf n st e :
  0 <= n < 2 ^ 64 - 2 -> store_wf n st -> event_ok e -> store_wf (n + 1) (store_step st e).
Proof.
  intros Hn [Hp Hi] He. destruct (step_params st e) as [Hb Hr].
  unfold store_wf. rewrite Hb, Hr. split; [done|]. by apply store_step_inv.
Qed.

Lemma store_step_keeps n st e t m :
  0 <= n < 2 ^ 64 - 2 -> store_wf n st -> event_ok e -> deletes t e = false ->
  (forall topic now, e = EvExpire topic now -> expired now m = false) ->
  store_holds t m st -> store_holds t m (store_step st e).
Proof.
  intros Hn [[Hc Hr] Hi] He Hdel Hexp (td & Htd & Hm).
  destruct (store_step_topic st e t td Htd Hdel) as (td' & Htd' & _ & Hstep).
  exists td'. split; [done|]. destruct Hi as [_ _ Ht _].
  destruct (Ht _ _ Htd) as (_ & Hnext & ms & Hinv).
  by eapply topic_step_contents; [done|done|done|done|lia|done|done|].
Qed.

Lemma store_publish_holds n st topic payload ttl now1 now2 id st' :
  0 <= n < 2 ^ 64 - 2 -> store_wf n st -> zlen payload + 28 < 2 ^ 32 -> 0 <= now2 < 2 ^ 64 ->
  Publish topic payload ttl now1 now2 st = ((true, id), st') ->
  store_holds topic (mkStoredMessage id "" payload now2 0 (expiry ttl now1)) st'.
Proof.
  intros Hn [Hp Hi] Hpl Hnow Hpub.
  destruct (publish_target _ _ n st topic Hp Hi) as (_ & Hid & ms & Hinv); [lia|].
  unfold Publish in Hpub. set (td := default _ _) in *.
  destruct (publish_topic_spec _ _ td ms payload ttl now1 now2 Hinv)
    as (td' & Heq & Hinv' & _ & Hlog & _); [lia|done|done|].
  rewrite Heq in Hpub. injection Hpub as Hfit <- <-. rewrite Hfit in Hinv'.
  exists td'. cbn. rewrite lookup_insert_eq. split; [done|].
  destruct Hp as [[_ Hc] _]. rewrite (contents_eq _ _ _ _ Hc Hinv'), Hlog.
  rewrite !elem_of_app. right. right. by apply list_elem_of_singleton.
Qed.

Lemma store_publish_id n st topic payload ttl now1 now2 id st' :
  0 <= n < 2 ^ 64 - 2 -> store_wf n st ->
  Publish topic payload ttl now1 now2 st = ((true, id), st') -> 0 <= id < 2 ^ 64.
Proof.
  intros Hn [Hp Hi] Hpub.
  destruct (publish_target _ _ n st topic Hp Hi) as (_ & _ & ms & Hinv); [lia|].
  apply ti_next in Hinv. unfold Publish, publish_topic in Hpub. set (td := default _ _) in *.
  assert (id = next_msg_id td) as -> by (repeat case_match; by simplify_eq). lia.
Qed.

(** A visit of [RetryLoop] or of [ExpirationLoop] to a topic. *)
Inductive memory_visit :=
  | VisitRetry (topic : TopicName) (s : scan)
  | VisitExpire (topic : TopicName) (now_ms : Z).

Definition visit_event (v : memory_visit) : store_event :=
  match v with VisitRetry topic s => EvRetry topic s | VisitExpire topic now => EvExpire topic now end.

Definition visit_expires (v : memory_visit) (m : StoredMessage) : bool :=
  match v with VisitRetry _ _ => false | VisitExpire _ now => expired now m end.

#[export] Program Instance MemoryMessageStore_MessageStore
    : MessageStore (MemoryMessageStore B) := {
  ms_publish := Publish;
  ms_pull := Pull;
  ms_ack := Ack;
  ms_create := CreateTopic;
  ms_delete := DeleteTopic;
  ms_has := HasTopic;
  ms_pull_dlq := PullDlq;
  ms_visit := memory_visit;
  ms_run v st := store_step st (visit_event v);
  ms_expires := visit_expires;
  ms_wf := store_wf;
  ms_holds := store_holds;
  ms_wf_weaken := store_wf_weaken;
  ms_publish_holds := store_publish_holds;
  ms_publish_id := store_publish_id;
}.
Next Obligation. intros. by apply (store_step_wf n st (EvPublish topic payload ttl now1 now2)). Qed.
Next Obligation.
  intros. by apply (store_step_keeps n st (EvPublish topic payload ttl now1 now2)).
Qed.
Next Obligation. intros. by apply (store_step_wf n st (EvPull topic consumer max g now steady)). Qed.
Next Obligation.
  intros. by apply (store_step_keeps n st (EvPull topic consumer max g now steady)).
Qed.
Next Obligation. intros. by apply (store_step_wf n st (EvAck topic consumer id g)). Qed.
Next Obligation. intros. by apply (store_step_keeps n st (EvAck topic consumer id g)). Qed.
Next Obligation. intros. by apply (store_step_wf n st (EvCreate topic)). Qed.
Next Obligation. intros. by apply (store_step_keeps n st (EvCreate topic)). Qed.
Next Obligation. intros. by apply (store_step_wf n st (EvDelete topic)). Qed.
Next Obligation.
  intros. apply (store_step_keeps n st (EvDelete topic)); try done.
  cbn. apply bool_decide_eq_false. congruence.
Qed.
Next Obligation. intros. apply store_step_wf; [done|done|]. by destruct v. Qed.
Next Obligation.
  intros n st v t m Hn Hwf Hexp. apply (store_step_keeps n); [done|done|by destruct v..|].
  destruct v; [done|]. cbn. by intros topic' now' [= <- <-].
Qed.

Lemma store_wf_new c maxr timeout : params_ok c maxr ->
  store_wf 0 (MemoryMessageStore_new (B := B) c maxr timeout).
Proof. intros Hp. split; [done|apply store_inv_new]. Qed.

End memory.
