(* ===== verification/Compression.v ===== *)
(** * Payload compression: [common/compression.{h,cpp}]

    zlib is a parameter: [compressBound], [compress2] and [uncompress] with
    their return codes. *)

From S2P Require Import Prelude Types.

(** What a call of zlib returns: the bytes written, or an error code. *)
Inductive z_result := Z_OK (out : list byte) | Z_BUF_ERROR | Z_OTHER_ERROR.

(** The functions of zlib the program calls; the first argument of the latter
    two is the size of the destination buffer. *)
Record Zlib := mkZlib {
  compressBound : Z -> Z;
  compress2 : Z -> list byte -> z_result;
  uncompress : Z -> list byte -> z_result;
}.

Section compression.
Context (zlib : Zlib).

Definition Compress (data : list byte) : list byte :=
  match data with
  | [] => []
  | _ =>
      match compress2 zlib (compressBound zlib (zlen data)) data with
      | Z_OK out => out
      | _ => []
      end
  end.

(** The loop of [Decompress]: [attempts] left, the next size to try. *)
Fixpoint decompress_loop (attempts : nat) (estimate : Z) (data : list byte) : list byte :=
  match attempts with
  | O => []
  | S attempts =>
      match uncompress zlib estimate data with
      | Z_OK out => out
      | Z_BUF_ERROR => decompress_loop attempts (u64 (estimate * 2)) data
      | Z_OTHER_ERROR => []
      end
  end.

Definition Decompress (data : list byte) : list byte :=
  match data with
  | [] => []
  | _ =>
      let estimate := u64 (zlen data * 4) in
      let estimate := if estimate <? 1024 then 1024 else estimate in
      decompress_loop 10 estimate data
  end.

(** zlib's documented behaviour: a destination of [compressBound] bytes is
    enough to compress; decompressing gives the data back if the destination
    is large enough, and asks for a larger one if not; deflate expands by a
    factor of at most 1032. *)
Record zlib_contract : Prop := {
  zc_compress : forall data, exists out,
    compress2 zlib (compressBound zlib (zlen data)) data = Z_OK out;
  zc_uncompress : forall data out size,
    compress2 zlib (compressBound zlib (zlen data)) data = Z_OK out ->
    uncompress zlib size out = if zlen data <=? size then Z_OK data else Z_BUF_ERROR;
  zc_ratio : forall data out,
    compress2 zlib (compressBound zlib (zlen data)) data = Z_OK out ->
    data <> [] -> out <> [] /\ zlen data <= 1032 * zlen out;
}.

Lemma decompress_loop_enough attempts estimate data out :
  (forall size, uncompress zlib size out =
     if zlen data <=? size then Z_OK data else Z_BUF_ERROR) ->
  0 <= estimate -> zlen data <= estimate * 2 ^ (Z.of_nat attempts) ->
  estimate * 2 ^ (Z.of_nat attempts) < 2 ^ 64 ->
  decompress_loop (S attempts) estimate out = data.
Proof.
  intros Hz. revert estimate. induction attempts as [|attempts IH]; intros estimate He Hd H64.
  - simpl. rewrite Hz, (proj2 (Z.leb_le _ _)); [done|]. change (2 ^ Z.of_nat 0) with 1 in Hd. lia.
  - rewrite Nat2Z.inj_succ, Z.pow_succ_r in Hd, H64 by lia.
    assert (1 <= 2 ^ Z.of_nat attempts) by (apply (Z.pow_le_mono_r 2 0); lia).
    cbn [decompress_loop]. rewrite Hz. destruct (zlen data <=? estimate) eqn:E; [done|].
    rewrite u64_id by nia. apply IH; nia.
Qed.

Lemma Decompress_Compress data :
  zlib_contract -> zlen data < 2 ^ 50 -> zlen (Compress data) < 2 ^ 50 ->
  Decompress (Compress data) = data.
Proof.
  intros [Hc Hu Hr] Hlen Hclen. destruct data as [|b data]; [done|].
  set (d := b :: data) in *. destruct (Hc d) as [out Hout].
  assert (Compress d = out) as Hcd by (unfold Compress, d in *; by rewrite Hout).
  rewrite Hcd in *. destruct (Hr d out Hout) as [Hne Hratio]; [done|].
  unfold Decompress. destruct out as [|o out]; [done|]. set (z := o :: out) in *.
  rewrite u64_id by lia.
  assert (1 <= zlen z) by (unfold z; cbn [length]; lia).
  set (est := if zlen z * 4 <? 1024 then 1024 else zlen z * 4).
  assert (1024 <= est /\ zlen z * 4 <= est < 2 ^ 53) as [He1 He2].
  { unfold est. case_if; reflect_bools; lia. }
  change 10%nat with (S 9). apply decompress_loop_enough; [by intros; apply Hu|lia| |].
  - change (Z.of_nat 9) with 9. lia.
  - change (Z.of_nat 9) with 9. lia.
Qed.

(** Decompressing a compressed payload gives it back: under zlib's
    contract the ten attempts of the loop, doubling the estimate each time, are
    always enough. *)
Theorem compress_roundtrip data :
  zlib_contract -> zlen data < 2 ^ 50 -> zlen (Compress data) < 2 ^ 50 ->
  Decompress (Compress data) = data.
Proof. apply Decompress_Compress. Qed.
End compression.

(** A stand-in that satisfies the contract: storing the data behind a byte. *)
Definition store_zlib : Zlib := mkZlib
  (λ n, n + 1)
  (λ size data, if zlen data + 1 <=? size then Z_OK (Byte.x78 :: data) else Z_BUF_ERROR)
  (λ size data, match data with
                | _ :: d => if zlen d <=? size then Z_OK d else Z_BUF_ERROR
                | [] => Z_OTHER_ERROR
                end).

Lemma store_zlib_contract : zlib_contract store_zlib.
Proof.
  assert (forall data, compress2 store_zlib (compressBound store_zlib (zlen data)) data =
    Z_OK (Byte.x78 :: data)) as Hc by (intros; cbn; by rewrite Z.leb_refl).
  split.
  - intros data. rewrite Hc. by eexists.
  - intros data out size. rewrite Hc. by intros [= <-].
  - intros data out. rewrite Hc. intros [= <-] _. split; [done|]. cbn [length]. lia.
Qed.

Lemma compress_roundtrip_witness :
  Decompress store_zlib (Compress store_zlib [Byte.x61; Byte.x62]) = [Byte.x61; Byte.x62].
Proof. apply compress_roundtrip; [apply store_zlib_contract|by vm_compute|by vm_compute]. Defined.
