(* ===== verification/Broker.v ===== *)
(** * The broker: [mq/broker.{h,cpp}]

    One definition per handler, over any message store ([MessageStore]).  A
    handler returns the new broker, the requesting connection (whose rate
    limiter it may use) and the frames it sends, in order: [Reply] on the
    requesting connection, [SendTo] through the server.  The protobuf code
    generated from [proto/msg_queue.proto] and zlib are parameters. *)

From S2P Require Import Prelude Types Config RingBuffer Frame RateLimiter Connection TopicManager.
From S2P Require Import Dedup Compression MessageStore.
From stdpp Require Import pretty.
#[local] Open Scope Z_scope.

(** ** The messages of [proto/msg_queue.proto] *)

Record PublishRequest := mkPublishRequest {
  pub_topic : string; pub_payload : list byte; pub_ttl_ms : Z; pub_compressed : bool;
  pub_producer_id : string; pub_sequence_id : Z;
}.
Record SubscribeRequest := mkSubscribeRequest {
  subq_topic : string; subq_subscriber_id : string; subq_group_id : string;
}.
Record UnsubscribeRequest := mkUnsubscribeRequest {
  unsubq_topic : string; unsubq_subscriber_id : string; unsubq_group_id : string;
}.
Record PullRequest := mkPullRequest {
  pull_topic_ : string; pull_subscriber_id : string; pull_group_id : string;
  pull_max_messages : Z;
}.
Record AckRequest := mkAckRequest {
  ack_topic_ : string; ack_subscriber_id : string; ack_group_id : string; ack_message_id : Z;
}.
Record Response := mkResponse {
  resp_success : bool; resp_error_msg : string; resp_message_id : Z; resp_error_code : Z;
}.
Record PushMessage := mkPushMessage {
  push_message_id : Z; push_topic : string; push_payload : list byte; push_timestamp : Z;
  push_retry_count : Z; push_compressed : bool;
}.
Record AdminRequest := mkAdminRequest { admin_command : Z; admin_topic : string }.
Record AdminResponse := mkAdminResponse {
  admin_success : bool; admin_error_msg : string; admin_json_result : string;
}.

(** Parsing and serialising, by the generated code. *)
Record Proto := mkProto {
  parse_PublishRequest : list byte -> option PublishRequest;
  parse_BatchPublishRequest : list byte -> option (list PublishRequest);
  parse_SubscribeRequest : list byte -> option SubscribeRequest;
  parse_UnsubscribeRequest : list byte -> option UnsubscribeRequest;
  parse_PullRequest : list byte -> option PullRequest;
  parse_AckRequest : list byte -> option AckRequest;
  parse_AdminRequest : list byte -> option AdminRequest;
  serialize_Response : Response -> list byte;
  serialize_PushMessage : PushMessage -> list byte;
  serialize_BatchPushMessage : list PushMessage -> list byte;
  serialize_AdminResponse : AdminResponse -> list byte;
}.

(** [AdminCommandType]. *)
Definition ADMIN_LIST_TOPICS : Z := 1.
Definition ADMIN_GET_TOPIC_INFO : Z := 2.
Definition ADMIN_DELETE_TOPIC : Z := 3.
Definition ADMIN_GET_STATS : Z := 4.
Definition ADMIN_GET_CONNECTIONS : Z := 5.
Definition ADMIN_CLEANUP_TOPIC : Z := 6.

(** ** State and effects *)

Record Broker (St : Type) := mkBroker {
  store_ : St;
  topic_manager_ : TopicManager;
  config_manager_ : ConfigManager.t;
  dedup_window_ : DedupWindow;
  global_publish_limiter_ : option TokenBucket;
}.
#[global] Arguments mkBroker {St}.
#[global] Arguments store_ {St}.
#[global] Arguments topic_manager_ {St}.
#[global] Arguments config_manager_ {St}.
#[global] Arguments dedup_window_ {St}.
#[global] Arguments global_publish_limiter_ {St}.

Inductive action := Reply (f : Frame) | SendTo (conn_id : ConnectionId) (f : Frame).

(** What a handler reads of its surroundings: the clocks, reading by reading,
    and the orders in which it meets the entries of hash maps. *)
Record Env := mkEnv {
  sys : nat -> Z;
  steady : nat -> Z;
  order : nat -> Traversal string;
}.

Definition with_store {St} (st : St) (b : Broker St) : Broker St :=
  mkBroker st (topic_manager_ b) (config_manager_ b) (dedup_window_ b) (global_publish_limiter_ b).
Definition with_tm {St} (tm : TopicManager) (b : Broker St) : Broker St :=
  mkBroker (store_ b) tm (config_manager_ b) (dedup_window_ b) (global_publish_limiter_ b).
Definition with_dedup {St} (w : DedupWindow) (b : Broker St) : Broker St :=
  mkBroker (store_ b) (topic_manager_ b) (config_manager_ b) w (global_publish_limiter_ b).
Definition with_limiter {St} (l : option TokenBucket) (b : Broker St) : Broker St :=
  mkBroker (store_ b) (topic_manager_ b) (config_manager_ b) (dedup_window_ b) l.

(** A frame with the default header. *)
Definition make_frame (t : FrameMessageType) (payload : list byte) : Frame :=
  mkFrame kFrameMagic kFrameVersion t 0 payload.

Section broker.
Context {St : Type} `{MessageStore St} (proto : Proto) (zlib : Zlib).
Implicit Types (b : Broker St) (conn : Connection).

Definition Broker_new (store : St) (config : BrokerConfig) (now : Z) : Broker St :=
  mkBroker store TopicManager_new (ConfigManager.new config)
    (DedupWindow_new (dedup_window_size config))
    (if rate_limit_enabled config
     then Some (TokenBucket_new (global_publish_rate config) (rate_limit_burst config) now)
     else None).

Definition config_of (b : Broker St) : BrokerConfig :=
  ConfigManager.GetGlobalConfig (config_manager_ b).

Definition PublishLocal (topic : TopicName) (payload : Payload) (env : Env) (b : Broker St)
    : bool * Broker St :=
  let '((ok, _), st) := ms_publish topic payload 0 (sys env 0) (sys env 1) (store_ b) in
  (ok, with_store st b).

(** ** Responses *)

Definition send_response (r : Response) : action :=
  Reply (make_frame FrameType.Response (serialize_Response proto r)).

(** [SendResponse(conn, bool, ..)]. *)
Definition SendResponse (success : bool) (error_msg : string) (msg_id : Z) : action :=
  send_response (mkResponse success error_msg msg_id
    (if success then 0 else error_code_value Unknown)).

(** [SendResponse(conn, ErrorCode, ..)]. *)
Definition SendResponse_code (code : ErrorCode) (error_msg : string) (msg_id : Z) : action :=
  send_response (mkResponse (bool_decide (error_code_value code = error_code_value Success))
    (if bool_decide (error_msg = "") then ErrorCodeToString code else error_msg)
    msg_id (error_code_value code)).

Definition SendAdminResponse (success : bool) (error_msg json_result : string) : action :=
  Reply (make_frame FrameType.Admin
    (serialize_AdminResponse proto (mkAdminResponse success error_msg json_result))).

(** The [PushMessage] of a stored message. *)
Definition push_of (topic : string) (compressed : bool) (m : StoredMessage) : PushMessage :=
  mkPushMessage (sm_id m) topic (sm_payload m) (sm_timestamp m) (sm_retry_count m) compressed.

Definition push_frame (p : PushMessage) : Frame :=
  make_frame FrameType.Push (serialize_PushMessage proto p).

Definition batch_frame (ps : list PushMessage) : Frame :=
  make_frame FrameType.BatchPush (serialize_BatchPushMessage proto ps).

Definition SendPushMessage (msg : StoredMessage) (topic : string) (compressed : bool) : action :=
  Reply (push_frame (push_of topic compressed msg)).

Definition SendBatchPushMessage (messages : list StoredMessage) (topic : string)
    (compressed : bool) : action :=
  Reply (batch_frame (push_of topic compressed <$> messages)).

(** ** Compression *)

Definition ShouldCompress (topic : string) (payload_size : Z) (b : Broker St) : bool :=
  let global_config := config_of b in
  if negb (compression_enabled global_config) then false
  else if payload_size <? compression_threshold_bytes global_config then false
  else
    let topic_config := TM_GetTopicConfig topic (topic_manager_ b) in
    if tc_compression_enabled topic_config then true
    else compression_enabled global_config.

(** The payload to store and whether it is compressed. *)
Definition compress_payload (topic : string) (payload : Payload) (is_compressed : bool)
    (b : Broker St) : Payload * bool :=
  if ShouldCompress topic (zlen payload) b && negb is_compressed then
    let compressed := Compress zlib payload in
    if negb (bool_decide (compressed = [])) && (zlen compressed <? zlen payload)
    then (compressed, true) else (payload, is_compressed)
  else (payload, is_compressed).

(** ** Rate limiting *)

(** The per-connection check, then the global one. *)
Definition connection_permit (tokens : Z) (env : Env) (b : Broker St) (conn : Connection)
    : bool * Connection :=
  if rate_limit_enabled (config_of b)
  then AcquirePublishPermit tokens (steady env 0) (steady env 1) conn
  else (true, conn).

Definition global_permit (tokens : Z) (env : Env) (b : Broker St) : bool * Broker St :=
  if rate_limit_enabled (config_of b) then
    match global_publish_limiter_ b with
    | Some l => let '(ok, l') := Acquire tokens (steady env 2) l in (ok, with_limiter (Some l') b)
    | None => (true, b)
    end
  else (true, b).

(** ** Pushing *)

(** The connection of the member a group selects, [None] when nothing is sent. *)
Definition select_target (topic : string) (group : ConsumerGroup) (tm : TopicManager)
    : option ConnectionId * TopicManager :=
  if bool_decide (members group = []) then (None, tm)
  else
    let '(selected_member, tm) := SelectNextMember topic (group_id group) tm in
    if bool_decide (selected_member = "") then (None, tm)
    else
      let target_conn_id :=
        match filter (λ m, subscriber_id m = selected_member) (members group) with
        | m :: _ => member_conn_id m
        | [] => 0
        end in
      (if target_conn_id =? 0 then None else Some target_conn_id, tm).

(** [frame i] is what the [i]-th group gets. *)
Fixpoint push_groups (topic : string) (frame : nat -> Frame) (i : nat)
    (groups : list ConsumerGroup) (tm : TopicManager) : list action * TopicManager :=
  match groups with
  | [] => ([], tm)
  | group :: groups =>
      let '(target, tm) := select_target topic group tm in
      let '(acts, tm) := push_groups topic frame (i + 1) groups tm in
      (match target with Some c => SendTo c (frame i) :: acts | None => acts end, tm)
  end.

(** ** Handlers *)

Definition HandlePublish (env : Env) (conn : Connection) (frame : Frame) (b : Broker St)
    : Broker St * Connection * list action :=
  match parse_PublishRequest proto (frame_payload frame) with
  | None => (b, conn, [SendResponse_code InvalidRequest "Failed to parse publish request" 0])
  | Some req =>
      let config := config_of b in
      let dedup := dedup_enabled config && negb (bool_decide (pub_producer_id req = "")) in
      if dedup && IsDuplicate (pub_producer_id req) (pub_sequence_id req) (dedup_window_ b)
      then (b, conn, [SendResponse true "" (pub_sequence_id req)])
      else
        let '(ok, conn) := connection_permit 1 env b conn in
        if negb ok
        then (b, conn, [SendResponse_code RateLimitExceeded "Rate limit exceeded" 0])
        else
          let '(ok, b) := global_permit 1 env b in
          if negb ok
          then (b, conn, [SendResponse_code RateLimitExceeded "Global rate limit exceeded" 0])
          else
            let '(payload, is_compressed) :=
              compress_payload (pub_topic req) (pub_payload req) (pub_compressed req) b in
            let ttl_ms := if ttl_enabled config then pub_ttl_ms req else 0 in
            let '((success, msg_id), st) :=
              ms_publish (pub_topic req) payload ttl_ms (sys env 0) (sys env 1) (store_ b) in
            let b := with_store st b in
            if negb success
            then (b, conn, [SendResponse_code BufferFull "Backpressure: buffer full" 0])
            else
              let push i := push_frame (mkPushMessage msg_id (pub_topic req) payload
                              (u64 (sys env i)) 0 is_compressed) in
              let broadcast :=
                (λ sub, SendTo (sub_conn_id sub) (push 2%nat))
                  <$> GetSubscribers (pub_topic req) (topic_manager_ b) in
              let groups := GetConsumerGroups (order env 0) (pub_topic req) (topic_manager_ b) in
              let '(grouped, tm) := push_groups (pub_topic req) push 3 groups (topic_manager_ b) in
              let b := with_tm tm b in
              let b := if dedup
                       then with_dedup (MarkProcessed (pub_producer_id req) (pub_sequence_id req)
                                          (steady env 3) (dedup_window_ b)) b
                       else b in
              (b, conn, broadcast ++ grouped ++ [SendResponse true "" msg_id])
  end.

(** The publishing loop of a batch: the store, and the messages stored. *)
Fixpoint publish_batch (env : Env) (i : nat) (reqs : list PublishRequest) (b : Broker St)
    : list StoredMessage * Broker St :=
  match reqs with
  | [] => ([], b)
  | msg :: reqs =>
      let '(payload, _) :=
        compress_payload (pub_topic msg) (pub_payload msg) (pub_compressed msg) b in
      let ttl_ms := if ttl_enabled (config_of b) then pub_ttl_ms msg else 0 in
      let '((success, msg_id), st) :=
        ms_publish (pub_topic msg) payload ttl_ms (sys env i) (sys env (i + 1)) (store_ b) in
      let '(stored, b) := publish_batch env (i + 3) reqs (with_store st b) in
      (if success
       then mkStoredMessage msg_id (pub_topic msg) payload (u64 (sys env (i + 2))) 0 0 :: stored
       else stored, b)
  end.

(** The messages by topic, each topic's in the order of the batch. *)
Definition group_by_topic (messages : list StoredMessage) : gmap string (list StoredMessage) :=
  foldl (λ m msg, <[sm_topic_name msg := default [] (m !! sm_topic_name msg) ++ [msg]]> m)
    ∅ messages.

(** The frame a topic's subscribers and groups get: all messages in a batch
    frame, or else the first message only. *)
Definition topic_frame (use_batch : bool) (topic : string) (messages : list StoredMessage) : Frame :=
  if use_batch then batch_frame (push_of topic false <$> messages)
  else match messages with
       | m :: _ => push_frame (push_of topic false m)
       | [] => make_frame FrameType.Push []
       end.

Fixpoint push_topics (env : Env) (i : nat) (batch_enabled : bool)
    (topics : list (string * list StoredMessage)) (tm : TopicManager)
    : list action * TopicManager :=
  match topics with
  | [] => ([], tm)
  | (topic, messages) :: topics =>
      let use_batch := batch_enabled && (1 <? zlen messages) in
      let frame := topic_frame use_batch topic messages in
      let broadcast := (λ sub, SendTo (sub_conn_id sub) frame) <$> GetSubscribers topic tm in
      let '(grouped, tm) :=
        push_groups topic (λ _, frame) 0 (GetConsumerGroups (order env i) topic tm) tm in
      let '(acts, tm) := push_topics env (i + 1) batch_enabled topics tm in
      (broadcast ++ grouped ++ acts, tm)
  end.

Definition HandleBatchPublish (env : Env) (conn : Connection) (frame : Frame) (b : Broker St)
    : Broker St * Connection * list action :=
  match parse_BatchPublishRequest proto (frame_payload frame) with
  | None => (b, conn, [SendResponse_code InvalidRequest "Failed to parse batch publish request" 0])
  | Some reqs =>
      if bool_decide (reqs = [])
      then (b, conn, [SendResponse_code InvalidRequest "Empty batch publish request" 0])
      else
        let config := config_of b in
        let n := u32 (zlen reqs) in
        let '(ok, conn) := connection_permit n env b conn in
        if negb ok
        then (b, conn, [SendResponse_code RateLimitExceeded "Rate limit exceeded" 0])
        else
          let '(ok, b) := global_permit n env b in
          if negb ok
          then (b, conn, [SendResponse_code RateLimitExceeded "Global rate limit exceeded" 0])
          else if max_batch_size config <? n
          then (b, conn, [SendResponse_code BatchSizeExceeded "Batch size exceeds limit" 0])
          else
            let '(stored, b) := publish_batch env 0 reqs b in
            match last stored with
            | None => (b, conn, [SendResponse_code BufferFull "Backpressure: buffer full" 0])
            | Some last_msg =>
                let '(acts, tm) := push_topics env 1 (batch_push_enabled config)
                  (entries (order env 0) (group_by_topic stored)) (topic_manager_ b) in
                (with_tm tm b, conn, acts ++ [SendResponse true "" (sm_id last_msg)])
            end
  end.

Definition HandleSubscribe (conn : Connection) (frame : Frame) (b : Broker St)
    : Broker St * list action :=
  match parse_SubscribeRequest proto (frame_payload frame) with
  | None => (b, [SendResponse_code InvalidRequest "Failed to parse subscribe request" 0])
  | Some req =>
      let info := mkSubscriberInfo (subq_subscriber_id req) (conn_id_ conn) in
      let '(success, tm) :=
        Subscribe (subq_topic req) info (subq_group_id req) (topic_manager_ b) in
      let b := with_tm tm b in
      let b := if success then with_store (snd (ms_create (subq_topic req) (store_ b))) b else b in
      (b, [SendResponse_code (if success then Success else AlreadySubscribed)
             (if success then "" else "Already subscribed") 0])
  end.

Definition HandleUnsubscribe (frame : Frame) (b : Broker St) : Broker St * list action :=
  match parse_UnsubscribeRequest proto (frame_payload frame) with
  | None => (b, [SendResponse_code InvalidRequest "Failed to parse unsubscribe request" 0])
  | Some req =>
      let '(success, tm) :=
        Unsubscribe (unsubq_topic req) (unsubq_subscriber_id req) (unsubq_group_id req)
          (topic_manager_ b) in
      (with_tm tm b, [SendResponse_code (if success then Success else NotSubscribed)
                        (if success then "" else "Not subscribed") 0])
  end.

Definition HandlePull (env : Env) (frame : Frame) (b : Broker St) : Broker St * list action :=
  match parse_PullRequest proto (frame_payload frame) with
  | None => (b, [SendResponse_code InvalidRequest "Failed to parse pull request" 0])
  | Some req =>
      let is_group := negb (bool_decide (pull_group_id req = "")) in
      let consumer_id := if is_group then pull_group_id req else pull_subscriber_id req in
      let '(messages, st) :=
        ms_pull (pull_topic_ req) consumer_id (pull_max_messages req) is_group
          (sys env 0) (steady env) (store_ b) in
      let use_batch := batch_push_enabled (config_of b) && (1 <? zlen messages) in
      (with_store st b,
       (if use_batch then [SendBatchPushMessage messages (pull_topic_ req) false]
        else (λ msg, SendPushMessage msg (pull_topic_ req) false) <$> messages)
       ++ [SendResponse true "" (default 0 (sm_id <$> last messages))])
  end.

Definition HandleAck (frame : Frame) (b : Broker St) : Broker St * list action :=
  match parse_AckRequest proto (frame_payload frame) with
  | None => (b, [SendResponse_code InvalidRequest "Failed to parse ack request" 0])
  | Some req =>
      let is_group := negb (bool_decide (ack_group_id req = "")) in
      let consumer_id := if is_group then ack_group_id req else ack_subscriber_id req in
      let '(success, st) :=
        ms_ack (ack_topic_ req) consumer_id (ack_message_id req) is_group (store_ b) in
      (with_store st b, [SendResponse_code (if success then Success else MessageNotFound)
                           (if success then "" else "Message not found") 0])
  end.

Definition HandlePing : list action := [Reply (make_frame FrameType.Pong [])].

(** The double quote of the JSON texts. *)
Definition dq : string := String (Ascii.ascii_of_nat 34) "".

Definition json_names (topics : list TopicInfo) : string :=
  "[" ++ dq ++ String.concat (dq ++ "," ++ dq) (ti_name <$> topics) ++ dq ++ "]".

Definition json_key (key : string) : string := dq ++ key ++ dq ++ ":".

Definition HandleAdmin (env : Env) (frame : Frame) (b : Broker St) : Broker St * list action :=
  match parse_AdminRequest proto (frame_payload frame) with
  | None => (b, [SendAdminResponse false "Failed to parse admin request" ""])
  | Some req =>
      let topic := admin_topic req in
      let cmd := admin_command req in
      let tm := topic_manager_ b in
      let need_topic (k : Broker St * list action) :=
        if bool_decide (topic = "")
        then (b, [SendAdminResponse false "Topic name required" ""]) else k in
      if cmd =? ADMIN_LIST_TOPICS then
        (b, [SendAdminResponse true ""
               ("{" ++ json_key "topics" ++ json_names (GetAllTopics (order env 0) tm) ++ "}")])
      else if cmd =? ADMIN_GET_TOPIC_INFO then
        need_topic (b, [SendAdminResponse true ""
          ("{" ++ json_key "topic" ++ dq ++ topic ++ dq
           ++ "," ++ json_key "exists" ++ (if TM_HasTopic topic tm then "true" else "false")
           ++ "," ++ json_key "subscribers" ++ pretty (length (GetSubscribers topic tm))
           ++ "," ++ json_key "consumer_groups"
           ++ pretty (length (GetConsumerGroups (order env 0) topic tm)) ++ "}")])
      else if cmd =? ADMIN_DELETE_TOPIC then
        need_topic (with_tm (snd (UnregisterTopic topic tm))
                      (with_store (snd (ms_delete topic (store_ b))) b),
                    [SendAdminResponse true "" ("{" ++ json_key "deleted" ++ "true}")])
      else if cmd =? ADMIN_GET_STATS then
        (b, [SendAdminResponse true ""
          ("{" ++ json_key "topics" ++ pretty (length (GetAllTopics (order env 0) tm))
           ++ "," ++ json_key "dedup_producers" ++ pretty (GetProducerCount (dedup_window_ b))
           ++ "}")])
      else if cmd =? ADMIN_GET_CONNECTIONS then
        (b, [SendAdminResponse true "" ("{" ++ json_key "connections" ++ "0}")])
      else if cmd =? ADMIN_CLEANUP_TOPIC then
        need_topic (with_store (snd (ms_create topic (snd (ms_delete topic (store_ b))))) b,
                    [SendAdminResponse true "" ("{" ++ json_key "cleaned" ++ "true}")])
      else (b, [SendAdminResponse false "Unknown admin command" ""])
  end.

(** A handler that leaves the connection as it is. *)
Definition keeping (conn : Connection) (r : Broker St * list action)
    : Broker St * Connection * list action := (r.1, conn, r.2).

Definition OnFrameReceived (env : Env) (conn : Connection) (frame : Frame) (b : Broker St)
    : Broker St * Connection * list action :=
  let config := config_of b in
  let t := msg_type frame in
  if bool_decide (t = FrameType.Publish) then HandlePublish env conn frame b
  else if bool_decide (t = FrameType.BatchPublish) then
    if batch_publish_enabled config then HandleBatchPublish env conn frame b
    else (b, conn, [SendResponse_code InvalidRequest "Batch publish is disabled" 0])
  else if bool_decide (t = FrameType.Subscribe) then keeping conn (HandleSubscribe conn frame b)
  else if bool_decide (t = FrameType.Unsubscribe) then keeping conn (HandleUnsubscribe frame b)
  else if bool_decide (t = FrameType.Pull) then keeping conn (HandlePull env frame b)
  else if bool_decide (t = FrameType.Ack) then keeping conn (HandleAck frame b)
  else if bool_decide (t = FrameType.Ping) then (b, conn, if heartbeat_enabled config then HandlePing else [])
  else if bool_decide (t = FrameType.Admin) then keeping conn (HandleAdmin env frame b)
  else (b, conn, [SendResponse_code Unknown "Unknown message type" 0]).

Definition OnConnectionClosed (c : ConnectionId) (b : Broker St) : Broker St :=
  with_tm (snd (UnsubscribeByConnId c (topic_manager_ b))) b.
End broker.
