(* ===== verification/BrokerProps.v ===== *)
(** * Facts about the broker's handlers

    Compression keeps the payload recoverable; pushing to consumer groups
    selects one member of each and advances every group once; the frames a
    batch pushes; what each handler does to the topic manager and the store. *)

From S2P Require Import Prelude Types Config RingBuffer Frame RateLimiter Connection TopicManager.
From S2P Require Import Dedup Compression MessageStore Broker.
#[local] Open Scope Z_scope.

Section props.
Context {St : Type} `{MessageStore St} (proto : Proto) (zlib : Zlib).
Implicit Types (b : Broker St) (conn : Connection) (tm : TopicManager) (g : ConsumerGroup).

(** ** Compression *)

(** [payload] and its flag stand for what the producer sent. *)
Definition same_content (sent : Payload) (flag : bool) (payload : Payload) (compressed : bool)
    : Prop :=
  (payload = sent /\ compressed = flag) \/
  (flag = false /\ compressed = true /\ zlen payload < zlen sent /\
   Decompress zlib payload = sent).

Lemma compress_payload_spec topic sent flag b :
  zlib_contract zlib -> zlen sent < 2 ^ 50 ->
  let '(payload, compressed) := compress_payload zlib topic sent flag b in
  same_content sent flag payload compressed.
Proof.
  intros Hz Hlen. unfold compress_payload.
  destruct (ShouldCompress _ _ _ && _) eqn:E1; [|by left].
  destruct (negb _ && _) eqn:E2; [|by left]. right. reflect_bools. subst.
  repeat split; try done. apply Decompress_Compress; [done|done|lia].
Qed.

Lemma compress_payload_shorter topic sent flag b :
  zlen (compress_payload zlib topic sent flag b).1 <= zlen sent.
Proof.
  unfold compress_payload. destruct (ShouldCompress _ _ _ && _); [|done].
  destruct (negb _ && _) eqn:E2; [|done]. reflect_bools. cbn. lia.
Qed.

(** ** Consumer groups *)

(** The group after a selection. *)
Definition advance g : ConsumerGroup :=
  set_index (u64 (round_robin_index g + 1) mod zlen (members g)) g.

(** The member whose turn it is, and the connection it is pushed to: none if
    the member's id or its connection is the empty one. *)
Definition next_member g : option ConsumerGroupMember :=
  members g !! Z.to_nat (round_robin_index g mod zlen (members g)).

Definition next_conn g : option ConnectionId :=
  m ← next_member g;
  if bool_decide (subscriber_id m = "") || (member_conn_id m =? 0) then None
  else Some (member_conn_id m).

(** A member is the first of its group with its id. *)
Lemma filter_member_unique (ms : list ConsumerGroupMember) i m :
  NoDup (subscriber_id <$> ms) -> ms !! i = Some m ->
  filter (λ m', subscriber_id m' = subscriber_id m) ms = [m].
Proof.
  revert i. induction ms as [|a ms IH]; intros i Hnd Hi; [done|].
  rewrite fmap_cons in Hnd. apply NoDup_cons in Hnd as [Ha Hnd]. rewrite filter_cons.
  destruct i as [|i]; simplify_eq/=.
  - rewrite decide_True by done. f_equal. apply elem_of_nil_inv. intros m' [E Hm']%list_elem_of_filter.
    apply Ha. rewrite <- E. by apply list_elem_of_fmap_2.
  - rewrite decide_False; [by apply (IH i)|]. intros E. apply Ha. rewrite E.
    by eapply list_elem_of_fmap_2, list_elem_of_lookup_2.
Qed.

Lemma next_member_some topic name g : group_ok topic name g -> is_Some (next_member g).
Proof.
  intros [_ _ _ Hm _ _]. unfold next_member. apply lookup_lt_is_Some_2.
  assert (0 < zlen (members g)) by (destruct (members g); [done|simpl; lia]).
  pose proof (Z.mod_pos_bound (round_robin_index g) (zlen (members g))). lia.
Qed.

Lemma select_target_spec topic g tm groups :
  consumer_groups_ tm !! topic = Some groups -> groups !! group_id g = Some g ->
  group_ok topic (group_id g) g ->
  select_target topic g tm =
    (next_conn g, set_groups (<[topic := <[group_id g := advance g]> groups]>
                    (consumer_groups_ tm)) tm).
Proof.
  intros Ht Hg Hok. pose proof Hok as [_ _ _ Hm Hnd _].
  unfold select_target, SelectNextMember. rewrite !bool_decide_false by done.
  rewrite Ht, Hg, bool_decide_false by done.
  destruct (next_member_some _ _ _ Hok) as [m Hnext]. unfold next_conn. rewrite Hnext.
  unfold next_member in Hnext. rewrite Hnext. 
  cbn [from_option fmap option_fmap option_map mbind option_bind].
  change (id (subscriber_id m)) with (subscriber_id m).
  destruct (decide (subscriber_id m = "")) as [He|He].
  - by rewrite bool_decide_true.
  - rewrite !bool_decide_false by done. erewrite filter_member_unique by done. done.
Qed.

(** The frames to the groups, in the groups' order. *)
Fixpoint group_pushes (frame : nat -> Frame) (i : nat) (gs : list ConsumerGroup) : list action :=
  match gs with
  | [] => []
  | g :: gs =>
      match next_conn g with
      | Some c => SendTo c (frame i) :: group_pushes frame (i + 1) gs
      | None => group_pushes frame (i + 1) gs
      end
  end.

Lemma push_groups_spec topic frame i gs tm groups :
  consumer_groups_ tm !! topic = Some groups -> NoDup (group_id <$> gs) ->
  Forall (λ g, groups !! group_id g = Some g /\ group_ok topic (group_id g) g) gs ->
  exists groups',
    push_groups topic frame i gs tm =
      (group_pushes frame i gs, set_groups (<[topic := groups']> (consumer_groups_ tm)) tm) /\
    forall name, groups' !! name =
      if bool_decide (name ∈ group_id <$> gs) then advance <$> groups !! name else groups !! name.
Proof.
  revert i tm groups. induction gs as [|g gs IH]; intros i tm groups Ht Hnd Hall.
  - exists groups. split; [|done]. cbn. rewrite insert_id by done. by destruct tm.
  - rewrite fmap_cons in Hnd. apply NoDup_cons in Hnd as [Hg Hnd].
    apply Forall_cons in Hall as [[Hlook Hok] Hall]. cbn [push_groups group_pushes].
    rewrite (select_target_spec topic g tm groups) by done.
    set (groups1 := <[group_id g := advance g]> groups).
    destruct (IH (i + 1)%nat (set_groups (<[topic := groups1]> (consumer_groups_ tm)) tm) groups1)
      as (groups' & -> & Hl).
    { cbn. by rewrite lookup_insert_eq. }
    { done. }
    { apply Forall_forall. intros g' Hg'.
      destruct (proj1 (Forall_forall _ _) Hall g' Hg') as [? ?]. split; [|done].
      unfold groups1. rewrite lookup_insert_ne; [done|]. intros E. apply Hg. rewrite E.
      by apply list_elem_of_fmap_2. }
    exists groups'. split.
    + cbn. rewrite insert_insert_eq. by destruct (next_conn g).
    + intros name. rewrite Hl, fmap_cons. unfold groups1.
      destruct (decide (name = group_id g)) as [->|Hne].
      * rewrite bool_decide_false, bool_decide_true by (done || by left).
        by rewrite lookup_insert_eq, Hlook.
      * rewrite lookup_insert_ne by done. apply (f_equal (λ x : bool, if x then _ else _)).
        apply bool_decide_ext. rewrite elem_of_cons. tauto.
Qed.

Lemma group_pushes_frames frames i gs a : a ∈ group_pushes frames i gs ->
  exists c g j, a = SendTo c (frames j) /\ g ∈ gs /\ next_conn g = Some c.
Proof.
  revert i. induction gs as [|g gs IH]; intros i; [by intros ?%not_elem_of_nil|].
  cbn [group_pushes]. destruct (next_conn g) as [c|] eqn:Hc.
  - intros [->|Ha]%elem_of_cons.
    + exists c, g, i. split; [done|]. split; [by left|done].
    + destruct (IH _ Ha) as (c' & g' & j & ? & ? & ?). exists c', g', j.
      split; [done|]. split; [by right|done].
  - intros Ha. destruct (IH _ Ha) as (c' & g' & j & ? & ? & ?). exists c', g', j.
    split; [done|]. split; [by right|done].
Qed.

(** All of a topic's groups have moved on by one; nothing else changed. *)
Record groups_advanced (topic : string) (tm tm' : TopicManager) : Prop := {
  ga_topics : tm_topics tm' = tm_topics tm;
  ga_subs : subscribers_ tm' = subscribers_ tm;
  ga_configs : tm_topic_configs tm' = tm_topic_configs tm;
  ga_other : forall t, t <> topic -> consumer_groups_ tm' !! t = consumer_groups_ tm !! t;
  ga_groups : forall t name, GetConsumerGroup t name tm' =
    (if bool_decide (t = topic) then advance <$> GetConsumerGroup t name tm
     else GetConsumerGroup t name tm);
}.

Lemma GetConsumerGroups_ids order topic tm : tm_ok tm ->
  NoDup (group_id <$> GetConsumerGroups order topic tm) /\
  forall g, g ∈ GetConsumerGroups order topic tm <->
    GetConsumerGroup topic (group_id g) tm = Some g.
Proof.
  intros [_ _ Hg]. unfold GetConsumerGroups, GetConsumerGroup.
  destruct (consumer_groups_ tm !! topic) as [groups|] eqn:E.
  2:{ split; [apply NoDup_nil_2|]. intros g. split; [by intros ?%not_elem_of_nil|done]. }
  destruct (Hg topic groups E) as [_ Hok]. cbn.
  assert (forall k g, (k, g) ∈ entries order groups -> group_id g = k) as Hkey.
  { intros k g Hin. apply elem_of_entries in Hin. by apply (Hok k g Hin). }
  split.
  - rewrite <- list_fmap_compose. replace (compose group_id snd <$> entries order groups)
      with (entries order groups).*1; [apply NoDup_entries_keys|].
    apply list_fmap_ext. intros i [k g] Hi. symmetry. cbn.
    by eapply Hkey, list_elem_of_lookup_2.
  - intros g. split.
    + intros ([k g'] & -> & Hin)%list_elem_of_fmap. cbn. rewrite (Hkey _ _ Hin).
      by apply elem_of_entries in Hin.
    + intros Hl. apply list_elem_of_fmap. exists (group_id g, g). split; [done|].
      by apply elem_of_entries.
Qed.

Lemma push_all_groups order topic frame i tm : tm_ok tm ->
  exists tm', push_groups topic frame i (GetConsumerGroups order topic tm) tm =
      (group_pushes frame i (GetConsumerGroups order topic tm), tm') /\
    groups_advanced topic tm tm' /\ tm_ok tm'.
Proof.
  intros Hok. destruct (GetConsumerGroups_ids order topic tm Hok) as [Hnd Hin].
  unfold GetConsumerGroup in Hin.
  destruct (consumer_groups_ tm !! topic) as [groups|] eqn:Ht.
  2:{ assert (GetConsumerGroups order topic tm = []) as ->
        by (unfold GetConsumerGroups; by rewrite Ht).
      exists tm. split; [done|]. split; [|done]. split; [done..|]. intros t name.
      case_bool_decide as E; [|done]. subst. unfold GetConsumerGroup. by rewrite Ht. }
  destruct Hok as [Ht1 Hs Hg]. destruct (Hg topic groups Ht) as [Htop Hgs].
  destruct (push_groups_spec topic frame i _ tm groups Ht Hnd) as (groups' & -> & Hl).
  { apply Forall_forall. intros g Hg'. apply Hin in Hg'. split; [done|]. by apply Hgs. }
  assert (forall name, groups' !! name = advance <$> groups !! name) as Hadv.
  { intros name. rewrite Hl. case_bool_decide as E; [done|].
    destruct (groups !! name) as [g|] eqn:Eg; [|done]. destruct E.
    destruct (Hgs name g Eg) as [Hid _ _ _ _ _]. subst name.
    apply list_elem_of_fmap_2. by apply Hin. }
  eexists. split; [done|]. split.
  - split; [done..| |]; [intros t Hne; cbn; by rewrite lookup_insert_ne|].
    intros t name. unfold GetConsumerGroup. cbn. case_bool_decide as E.
    + subst. rewrite lookup_insert_eq, Ht. cbn. by rewrite Hadv.
    + by rewrite lookup_insert_ne.
  - apply tm_ok_set_groups; [by split|done|]. intros name g. rewrite Hadv.
    intros (g0 & Hg0 & ->)%fmap_Some. by apply group_ok_select, Hgs.
Qed.

(** ** Publishing *)

(** The parts of the broker no request changes, or only some do. *)
Record untouched b b' : Prop := {
  un_tm : topic_manager_ b' = topic_manager_ b;
  un_config : config_manager_ b' = config_manager_ b;
  un_dedup : dedup_window_ b' = dedup_window_ b;
}.

Definition uses_dedup (req : PublishRequest) b : bool :=
  dedup_enabled (config_of b) && negb (bool_decide (pub_producer_id req = "")).

(** The time to live of a request's message; 0 is none. *)
Definition ttl_of (req : PublishRequest) b : Z :=
  if ttl_enabled (config_of b) then pub_ttl_ms req else 0.

(** The store's answer to a publish request. *)
Definition store_publish (env : Env) (req : PublishRequest) b : (bool * MessageId) * St :=
  ms_publish (pub_topic req)
    (compress_payload zlib (pub_topic req) (pub_payload req) (pub_compressed req) b).1
    (ttl_of req b) (sys env 0) (sys env 1) (store_ b).

(** What an accepted publish sends, [id] being the message's identifier. *)
Definition publish_push (env : Env) (req : PublishRequest) (id : MessageId) b (i : nat) : Frame :=
  let '(payload, compressed) :=
    compress_payload zlib (pub_topic req) (pub_payload req) (pub_compressed req) b in
  push_frame proto (mkPushMessage id (pub_topic req) payload (u64 (sys env i)) 0 compressed).

Definition publish_actions (env : Env) (req : PublishRequest) (id : MessageId) b : list action :=
  let topic := pub_topic req in
  ((λ sub, SendTo (sub_conn_id sub) (publish_push env req id b 2))
     <$> GetSubscribers topic (topic_manager_ b))
  ++ group_pushes (publish_push env req id b) 3
       (GetConsumerGroups (order env 0) topic (topic_manager_ b))
  ++ [SendResponse proto true "" id].

(** The outcomes of a publish request: refused before the store is asked,
    recognised as a replay, refused by the store, or accepted. *)
Inductive publish_outcome (env : Env) (frame : Frame) b : Broker St -> list action -> Prop :=
  | PO_refused code msg b' :
      code = InvalidRequest \/ code = RateLimitExceeded ->
      untouched b b' -> store_ b' = store_ b ->
      publish_outcome env frame b b' [SendResponse_code proto code msg 0]
  | PO_replay req :
      parse_PublishRequest proto (frame_payload frame) = Some req ->
      uses_dedup req b = true ->
      IsDuplicate (pub_producer_id req) (pub_sequence_id req) (dedup_window_ b) = true ->
      publish_outcome env frame b b [SendResponse proto true "" (pub_sequence_id req)]
  | PO_full req b' id :
      parse_PublishRequest proto (frame_payload frame) = Some req ->
      untouched b b' -> store_publish env req b = ((false, id), store_ b') ->
      publish_outcome env frame b b' [SendResponse_code proto BufferFull "Backpressure: buffer full" 0]
  | PO_accepted req b' id :
      parse_PublishRequest proto (frame_payload frame) = Some req ->
      (uses_dedup req b = true ->
       IsDuplicate (pub_producer_id req) (pub_sequence_id req) (dedup_window_ b) = false) ->
      store_publish env req b = ((true, id), store_ b') ->
      config_manager_ b' = config_manager_ b ->
      groups_advanced (pub_topic req) (topic_manager_ b) (topic_manager_ b') ->
      tm_ok (topic_manager_ b') ->
      dedup_window_ b' =
        (if uses_dedup req b
         then MarkProcessed (pub_producer_id req) (pub_sequence_id req) (steady env 3)
                (dedup_window_ b)
         else dedup_window_ b) ->
      publish_outcome env frame b b' (publish_actions env req id b).

(** The global limiter is all a permit changes. *)
Lemma global_permit_spec tokens env b ok b' :
  global_permit tokens env b = (ok, b') -> exists l, b' = with_limiter l b.
Proof.
  unfold global_permit. repeat case_match; intros; simplify_eq; try by eexists.
  all: exists (global_publish_limiter_ b'); by destruct b'.
Qed.

Lemma HandlePublish_spec env conn frame b : tm_ok (topic_manager_ b) ->
  let '(b', conn', acts) := HandlePublish proto zlib env conn frame b in
  publish_outcome env frame b b' acts.
Proof.
  intros Hok. unfold HandlePublish.
  destruct (parse_PublishRequest _ _) as [req|] eqn:Hparse.
  2:{ apply PO_refused; [by left|done|done]. }
  cbv zeta. fold (uses_dedup req b).
  destruct (uses_dedup req b && _) eqn:Hdup.
  { reflect_bools. by apply PO_replay. }
  destruct (connection_permit 1 env b conn) as [[] conn1]; cbn [negb].
  2:{ apply PO_refused; [by right|done|done]. }
  destruct (global_permit 1 env b) as [ok b1] eqn:Hg.
  destruct (global_permit_spec _ _ _ _ _ Hg) as [l ->]. destruct ok; cbn [negb].
  2:{ apply PO_refused; [by right|done|done]. }
  change (compress_payload zlib (pub_topic req) (pub_payload req) (pub_compressed req)
    (with_limiter l b)) with
    (compress_payload zlib (pub_topic req) (pub_payload req) (pub_compressed req) b).
  destruct (compress_payload _ _ _ _ b) as [payload compressed] eqn:Hc.
  cbn [store_ with_limiter].
  destruct (ms_publish _ _ _ _ _ _) as [[success id] st] eqn:Hpub.
  assert (store_publish env req b = ((success, id), st)) as Hst.
  { unfold store_publish, ttl_of. by rewrite Hc. }
  destruct success; cbn [negb].
  2:{ by eapply PO_full. }
  cbn [topic_manager_ with_store with_limiter].
  destruct (push_all_groups (order env 0) (pub_topic req)
    (λ i, push_frame proto (mkPushMessage id (pub_topic req) payload (u64 (sys env i)) 0 compressed))
    3 (topic_manager_ b) Hok) as (tm' & -> & Hadv & Hok').
  match goal with |- publish_outcome _ _ _ _ ?acts =>
    assert (acts = publish_actions env req id b) as -> end.
  { unfold publish_actions, publish_push. by rewrite Hc. }
  eapply PO_accepted; try done; try by destruct (uses_dedup req b).
Qed.

(** ** Batches *)

Lemma group_by_topic_lookup messages t :
  default [] (group_by_topic messages !! t) = filter (λ m, sm_topic_name m = t) messages /\
  (is_Some (group_by_topic messages !! t) -> filter (λ m, sm_topic_name m = t) messages <> []).
Proof.
  unfold group_by_topic. induction messages as [|m messages [IH1 IH2]] using rev_ind.
  { cbn. rewrite lookup_empty. split; [done|]. by intros [? ?]. }
  rewrite foldl_app. cbn [foldl]. rewrite filter_app, filter_cons, filter_nil.
  destruct (decide (sm_topic_name m = t)) as [<-|Hne].
  - rewrite lookup_insert_eq. cbn. rewrite IH1. split; [done|]. intros _.
    intros [_ ?]%app_eq_nil. done.
  - rewrite lookup_insert_ne by done. rewrite app_nil_r. done.
Qed.

Lemma entries_group_by_topic order messages t ms :
  (t, ms) ∈ entries order (group_by_topic messages) <->
  ms <> [] /\ ms = filter (λ m, sm_topic_name m = t) messages.
Proof.
  rewrite elem_of_entries. destruct (group_by_topic_lookup messages t) as [Hl Hs]. split.
  - intros E. rewrite E in *. cbn in Hl. subst. split; [by apply Hs|done].
  - intros [Hne ->]. destruct (group_by_topic messages !! t) as [ms|]; cbn in *; congruence.
Qed.

(** What a batch sends: for each topic, its frame to the subscribers and to
    one member of each group. *)
Definition topic_pushes (env : Env) (i : nat) (use_batch : bool) (topic : string)
    (messages : list StoredMessage) tm : list action :=
  let frame := topic_frame proto (use_batch && (1 <? zlen messages)) topic messages in
  ((λ sub, SendTo (sub_conn_id sub) frame) <$> GetSubscribers topic tm)
  ++ group_pushes (λ _, frame) 0 (GetConsumerGroups (order env i) topic tm).

Fixpoint topics_pushes (env : Env) (i : nat) (use_batch : bool)
    (topics : list (string * list StoredMessage)) tm : list action :=
  match topics with
  | [] => []
  | (topic, messages) :: topics =>
      topic_pushes env i use_batch topic messages tm
      ++ topics_pushes env (i + 1) use_batch topics tm
  end.

Lemma topics_pushes_ext env i use_batch topics tm tm' :
  subscribers_ tm' = subscribers_ tm ->
  (forall t, t ∈ topics.*1 -> consumer_groups_ tm' !! t = consumer_groups_ tm !! t) ->
  topics_pushes env i use_batch topics tm' = topics_pushes env i use_batch topics tm.
Proof.
  intros Hs. revert i. induction topics as [|[t ms] topics IH]; intros i Hg; [done|].
  cbn [topics_pushes]. rewrite IH by (intros; apply Hg; by right). f_equal.
  unfold topic_pushes, GetSubscribers, GetConsumerGroups. rewrite Hs, Hg; [done|by left].
Qed.

Lemma push_topics_spec env i use_batch topics tm :
  NoDup topics.*1 -> tm_ok tm ->
  exists tm', push_topics proto env i use_batch topics tm =
      (topics_pushes env i use_batch topics tm, tm') /\ tm_ok tm' /\
    tm_topics tm' = tm_topics tm /\ subscribers_ tm' = subscribers_ tm.
Proof.
  revert i tm. induction topics as [|[t ms] topics IH]; intros i tm Hnd Hok.
  { by exists tm. }
  rewrite fmap_cons in Hnd. apply NoDup_cons in Hnd as [Ht Hnd]. cbn [push_topics].
  destruct (push_all_groups (order env i) t
    (λ _, topic_frame proto (use_batch && (1 <? zlen ms)) t ms) 0 tm Hok)
    as (tm1 & -> & [Ht1 Hs1 _ Ho1 _] & Hok1).
  destruct (IH (i + 1)%nat tm1 Hnd Hok1) as (tm' & -> & Hok' & Htop & Hsub).
  exists tm'. split; [|split; [done|]; split; congruence].
  cbn [topics_pushes]. unfold topic_pushes. rewrite <- app_assoc.
  do 3 f_equal. apply topics_pushes_ext; [done|].
  intros t' Ht'. apply Ho1. by intros ->.
Qed.

(** Each stored message of a batch is some request's, in order. *)
Definition stored_for (req : PublishRequest) (m : StoredMessage) : Prop :=
  sm_topic_name m = pub_topic req /\
  exists compressed,
    same_content (pub_payload req) (pub_compressed req) (sm_payload m) compressed.

Definition clocks_ok (env : Env) : Prop := forall i, 0 <= sys env i < 2 ^ 64.

(** The store keeps a message under its identifier, not yet retried. *)
Definition held (m : StoredMessage) (st : St) : Prop :=
  exists now expires,
    ms_holds (sm_topic_name m) (mkStoredMessage (sm_id m) "" (sm_payload m) now 0 expires) st.

Lemma payloads_le k k' (reqs : list PublishRequest) :
  Forall (λ r, zlen (pub_payload r) <= k) reqs -> k <= k' ->
  Forall (λ r, zlen (pub_payload r) <= k') reqs.
Proof. intros Hall Hk. induction Hall; constructor; [lia|done]. Qed.

Lemma payloads_bounded k k' (reqs : list PublishRequest) :
  Forall (λ r, zlen (pub_payload r) <= k) reqs -> k < k' ->
  Forall (λ r, zlen (pub_payload r) < k') reqs.
Proof. intros Hall Hk. induction Hall; constructor; [lia|done]. Qed.

Lemma publish_batch_spec env i reqs n b :
  clocks_ok env -> Forall (λ r, zlen (pub_payload r) < 2 ^ 31) reqs ->
  0 <= n -> n + zlen reqs < 2 ^ 64 - 2 -> ms_wf n (store_ b) ->
  let '(stored, b') := publish_batch zlib env i reqs b in
  untouched b b' /\ ms_wf (n + zlen reqs) (store_ b') /\
  (forall t m, ms_holds t m (store_ b) -> ms_holds t m (store_ b')) /\
  Forall (λ m, held m (store_ b')) stored.
Proof.
  intros Hclk. revert i n b. induction reqs as [|r reqs IH]; intros i n b Hall Hn0 Hn Hwf.
  { cbn. rewrite Z.add_0_r. by repeat split. }
  apply Forall_cons in Hall as [Hr Hall]. cbn [publish_batch length] in *.
  pose proof (compress_payload_shorter (pub_topic r) (pub_payload r) (pub_compressed r) b) as Hsh.
  destruct (compress_payload _ _ _ _ b) as [payload z]. cbn [fst] in Hsh.
  set (ttl := if ttl_enabled _ then _ else _).
  pose proof (ms_publish_wf n (store_ b) (pub_topic r) payload ttl (sys env i) (sys env (i + 1))
    ltac:(lia) Hwf ltac:(lia) (Hclk _)) as Hwf1.
  assert (forall t m, ms_holds t m (store_ b) -> ms_holds t m (snd (ms_publish (pub_topic r)
    payload ttl (sys env i) (sys env (i + 1)) (store_ b)))) as Hkeep1.
  { intros t m. apply (ms_publish_keeps n); [lia|done|lia|apply Hclk]. }
  assert (forall id st', ms_publish (pub_topic r) payload ttl (sys env i) (sys env (i + 1))
    (store_ b) = ((true, id), st') -> ms_holds (pub_topic r)
      (mkStoredMessage id "" payload (sys env (i + 1)) 0 (expiry ttl (sys env i))) st') as Hhold1.
  { intros id st'. apply (ms_publish_holds n); [lia|done|lia|apply Hclk]. }
  destruct (ms_publish _ _ _ _ _ _) as [[success id] st1]. cbn [snd] in *.
  specialize (IH (i + 3)%nat (n + 1) (with_store st1 b) Hall ltac:(lia) ltac:(lia) Hwf1).
  destruct (publish_batch zlib env (i + 3) reqs (with_store st1 b)) as [stored b'].
  destruct IH as ([] & Hwf' & Hkeep' & Hheld). cbn [store_ with_store] in *.
  split; [done|]. split; [by replace (n + Z.of_nat (S (length reqs))) with (n + 1 + zlen reqs) by lia|].
  split; [by auto|]. destruct success; [|done]. constructor; [|done].
  eexists _, _. by apply Hkeep', (Hhold1 id st1 eq_refl).
Qed.

Lemma publish_batch_contents env i reqs b :
  zlib_contract zlib -> Forall (λ r, zlen (pub_payload r) < 2 ^ 31) reqs ->
  exists accepted, sublist accepted reqs /\
    Forall2 stored_for accepted (publish_batch zlib env i reqs b).1.
Proof.
  intros Hz. revert i b. induction reqs as [|r reqs IH]; intros i b Hall.
  { exists []. split; [done|]. constructor. }
  apply Forall_cons in Hall as [Hr Hall]. cbn [publish_batch].
  pose proof (compress_payload_spec (pub_topic r) (pub_payload r) (pub_compressed r) b Hz
    ltac:(lia)) as Hc.
  destruct (compress_payload _ _ _ _ b) as [payload z].
  destruct (ms_publish _ _ _ _ _ _) as [[success id] st1].
  destruct (IH (i + 3)%nat (with_store st1 b) Hall) as (acc & Hsub & Hf).
  destruct (publish_batch zlib env (i + 3) reqs (with_store st1 b)) as [stored b'].
  cbn [fst] in *. destruct success.
  - exists (r :: acc). split; [by constructor|]. constructor; [|done]. split; [done|]. by exists z.
  - exists acc. split; [by constructor|done].
Qed.
End props.
