(* ===== verification/BrokerInv.v ===== *)
(** * What every request preserves

    Runs of the broker over frames, closed connections, local publishes and the
    visits of the store's background threads; every step keeps the broker well
    formed, keeps the messages of the topics it does not drop, and remembers the
    sequence numbers that are duplicates.  Proved against the [MessageStore] interface. *)

From S2P Require Import Prelude Types Config RingBuffer Frame RateLimiter Connection TopicManager.
From S2P Require Import Dedup Compression MessageStore Broker BrokerProps.
#[local] Open Scope Z_scope.

(** What the protobuf runtime documents of the generated parsers: a string or
    bytes field is a part of the input, an element of a repeated field takes at
    least one byte of it, and a [uint32] is not negative. *)
Record proto_contract (proto : Proto) : Prop := {
  pc_publish : forall bs req, parse_PublishRequest proto bs = Some req ->
    zlen (pub_payload req) <= zlen bs;
  pc_batch : forall bs reqs, parse_BatchPublishRequest proto bs = Some reqs ->
    zlen reqs <= zlen bs /\ Forall (λ req, zlen (pub_payload req) <= zlen bs) reqs;
  pc_pull : forall bs req, parse_PullRequest proto bs = Some req -> 0 <= pull_max_messages req;
}.

Section theorems.
Context {St : Type} `{MessageStore St} (proto : Proto) (zlib : Zlib).
Implicit Types (b : Broker St) (conn : Connection) (frame : Frame).

(** ** Runs *)

Inductive broker_event :=
  | EvFrame (env : Env) (conn : Connection) (frame : Frame)
  | EvClosed (c : ConnectionId)
  | EvLocal (env : Env) (topic : TopicName) (payload : Payload)
  | EvVisit (v : ms_visit (S := St)).

Definition broker_step b (ev : broker_event) : Broker St :=
  match ev with
  | EvFrame env conn frame => (OnFrameReceived proto zlib env conn frame b).1.1
  | EvClosed c => OnConnectionClosed c b
  | EvLocal env topic payload => (PublishLocal topic payload env b).2
  | EvVisit v => with_store (ms_run v (store_ b)) b
  end.

(** Frames are those the codec lets through. *)
Definition broker_event_ok (ev : broker_event) : Prop :=
  match ev with
  | EvFrame env _ frame => clocks_ok env /\ zlen (frame_payload frame) <= kMaxPayloadSize
  | EvClosed _ | EvVisit _ => True
  | EvLocal env _ payload => clocks_ok env /\ zlen payload <= kMaxPayloadSize
  end.

(** The admin requests that drop a topic's messages. *)
Definition request_deletes (topic : TopicName) frame : bool :=
  bool_decide (msg_type frame = FrameType.Admin) &&
  match parse_AdminRequest proto (frame_payload frame) with
  | Some req =>
      ((admin_command req =? ADMIN_DELETE_TOPIC) || (admin_command req =? ADMIN_CLEANUP_TOPIC))
      && bool_decide (admin_topic req = topic)
  | None => false
  end.

Definition event_deletes (topic : TopicName) (ev : broker_event) : bool :=
  match ev with EvFrame _ _ frame => request_deletes topic frame | _ => false end.

(** The visits that remove a message because it is expired. *)
Definition event_expires (m : StoredMessage) (ev : broker_event) : bool :=
  match ev with EvVisit v => ms_expires v m | _ => false end.

(** [n] bounds the store's operations so far. *)
Record broker_ok (n : Z) b : Prop := {
  bo_tm : tm_ok (topic_manager_ b);
  bo_store : ms_wf n (store_ b);
}.

(** One request costs at most this many operations of the store. *)
Definition max_cost : Z := 2 ^ 25.

(** [b'] is well formed, and holds the messages of [b] but for those of the
    topics in [dropped]. *)
Record preserves (n : Z) (dropped : TopicName -> bool) b b' : Prop := {
  pr_ok : broker_ok (n + max_cost) b';
  pr_keeps : forall t m, dropped t = false ->
    ms_holds t m (store_ b) -> ms_holds t m (store_ b');
}.

Lemma broker_ok_weaken n n' b : n <= n' -> broker_ok n b -> broker_ok n' b.
Proof. intros Hn [Ht Hs]. split; [done|by eapply ms_wf_weaken]. Qed.

Lemma preserves_refl n dropped b : broker_ok n b -> preserves n dropped b b.
Proof. intros Hok. split; [|done]. eapply broker_ok_weaken; [|done]. unfold max_cost. lia. Qed.

(** A step that leaves the store alone, or uses it once or twice. *)
Lemma preserves_store n dropped b b' k :
  0 <= k <= max_cost -> tm_ok (topic_manager_ b') -> ms_wf (n + k) (store_ b') ->
  (forall t m, dropped t = false -> ms_holds t m (store_ b) -> ms_holds t m (store_ b')) ->
  preserves n dropped b b'.
Proof.
  intros Hk Htm Hwf Hkeep. split; [|done]. split; [done|].
  eapply ms_wf_weaken; [|done]. lia.
Qed.

Lemma preserves_tm n dropped b b' : broker_ok n b -> store_ b' = store_ b ->
  tm_ok (topic_manager_ b') -> preserves n dropped b b'.
Proof.
  intros [Ht Hs] Hst Htm. apply (preserves_store n dropped b b' 0); [unfold max_cost; lia|done|..].
  - by rewrite Z.add_0_r, Hst.
  - by rewrite Hst.
Qed.

Section handlers.
Variables (n : Z) (b : Broker St) (env : Env) (conn : Connection) (frame : Frame).
Variable dropped : TopicName -> bool.
Hypothesis Hproto : proto_contract proto.
Hypothesis Hn : 0 <= n /\ n + max_cost < 2 ^ 64 - 2.
Hypothesis Hok : broker_ok n b.
Hypothesis Hclk : clocks_ok env.
Hypothesis Hlen : zlen (frame_payload frame) <= kMaxPayloadSize.

Lemma store_publish_ok req :
  parse_PublishRequest proto (frame_payload frame) = Some req ->
  ms_wf (n + 1) (store_publish zlib env req b).2 /\
  (forall t m, ms_holds t m (store_ b) -> ms_holds t m (store_publish zlib env req b).2) /\
  (forall id st, store_publish zlib env req b = ((true, id), st) ->
     ms_holds (pub_topic req) (mkStoredMessage id ""
       (compress_payload zlib (pub_topic req) (pub_payload req) (pub_compressed req) b).1
       (sys env 1) 0 (expiry (ttl_of req b) (sys env 0))) st).
Proof.
  intros Hparse. apply (pc_publish _ Hproto) in Hparse. unfold max_cost, kMaxPayloadSize in *.
  pose proof (compress_payload_shorter zlib (pub_topic req) (pub_payload req) (pub_compressed req) b).
  destruct Hok as [_ Hwf]. unfold store_publish. split; [|split].
  - apply ms_publish_wf; [lia|done|lia|apply Hclk].
  - intros t m. apply (ms_publish_keeps n); [lia|done|lia|apply Hclk].
  - intros id st. apply (ms_publish_holds n); [lia|done|lia|apply Hclk].
Qed.

Lemma HandlePublish_preserves :
  preserves n dropped b (HandlePublish proto zlib env conn frame b).1.1.
Proof.
  pose proof (HandlePublish_spec proto zlib env conn frame b (bo_tm _ _ Hok)) as Hout.
  destruct (HandlePublish _ _ _ _ _ _) as [[b' conn'] acts]. cbn [fst].
  assert (0 <= 1 <= max_cost) as H1 by (unfold max_cost; lia).
  destruct Hout as [code msg b' _ [Htm _ _] Hst|req _ _ _|req b' id Hparse [Htm _ _] Hst
    |req b' id Hparse _ Hst _ _ Htm _].
  - apply preserves_tm; [done|done|]. rewrite Htm. apply Hok.
  - by apply preserves_refl.
  - destruct (store_publish_ok req Hparse) as (Hwf & Hkeep & _). rewrite Hst in Hwf, Hkeep.
    eapply (preserves_store _ _ _ _ 1); [done|rewrite Htm; apply Hok|done|by auto].
  - destruct (store_publish_ok req Hparse) as (Hwf & Hkeep & _). rewrite Hst in Hwf, Hkeep.
    eapply (preserves_store _ _ _ _ 1); [done|done|done|by auto].
Qed.

Lemma HandleBatchPublish_preserves :
  preserves n dropped b (HandleBatchPublish proto zlib env conn frame b).1.1.
Proof.
  unfold HandleBatchPublish. destruct (parse_BatchPublishRequest _ _) as [reqs|] eqn:Hparse.
  2:{ by apply preserves_refl. }
  destruct (pc_batch _ Hproto _ _ Hparse) as [Hcount Hsizes].
  case_bool_decide; [by apply preserves_refl|]. cbv zeta.
  destruct (connection_permit _ env b conn) as [[] conn1]; [|by apply preserves_refl].
  destruct (global_permit _ env b) as [ok b1] eqn:Hg. cbn [negb].
  destruct (global_permit_spec _ _ _ _ _ Hg) as [l ->].
  assert (preserves n dropped b (with_limiter l b)) as Hl by (apply preserves_tm; try done; apply Hok).
  destruct ok; [|done]. cbn [negb]. destruct (_ <? _); [done|].
  pose proof (publish_batch_spec zlib env 0 reqs n (with_limiter l b) Hclk) as Hb.
  unfold max_cost, kMaxPayloadSize in *.
  specialize (Hb ltac:(apply (payloads_bounded _ _ _ Hsizes); lia)
    ltac:(lia) ltac:(lia) (bo_store _ _ Hok)).
  destruct (publish_batch _ _ _ _ _) as [stored b'].
  destruct Hb as ([Htm _ _] & Hwf & Hkeep & _). cbn [topic_manager_ with_limiter store_] in *.
  assert (tm_ok (topic_manager_ b')) as Htm' by (rewrite Htm; apply Hok).
  destruct (last stored).
  - pose proof (NoDup_entries_keys (order env 0) (group_by_topic stored)) as Hnd.
    destruct (push_topics_spec proto env 1 (batch_push_enabled (config_of b)) _ _ Hnd Htm')
      as (tm' & -> & Hok' & _).
    apply (preserves_store n dropped b _ (zlen reqs)); [unfold max_cost; lia|done|done|].
    intros t m _. apply Hkeep.
  - apply (preserves_store n dropped b _ (zlen reqs)); [unfold max_cost; lia|done|done|].
    intros t m _. apply Hkeep.
Qed.

Lemma HandleSubscribe_preserves :
  preserves n dropped b (HandleSubscribe proto conn frame b).1.
Proof.
  destruct Hok as [Htm Hwf]. assert (0 <= n < 2 ^ 64 - 2) as Hn' by (unfold max_cost in *; lia).
  unfold HandleSubscribe. destruct (parse_SubscribeRequest _ _) as [req|];
    [|by apply preserves_refl].
  pose proof (Subscribe_ok (subq_topic req)
    (mkSubscriberInfo (subq_subscriber_id req) (conn_id_ conn)) (subq_group_id req) _ Htm) as Hs.
  destruct (Subscribe _ _ _ _) as [[] tm']; [|by apply preserves_tm].
  apply (preserves_store _ _ _ _ 1); [unfold max_cost; lia|done|by apply ms_create_wf|].
  intros t m _. by apply (ms_create_keeps n).
Qed.

Lemma HandleUnsubscribe_preserves :
  preserves n dropped b (HandleUnsubscribe proto frame b).1.
Proof.
  unfold HandleUnsubscribe. destruct (parse_UnsubscribeRequest _ _) as [req|];
    [|by apply preserves_refl].
  pose proof (Unsubscribe_ok (unsubq_topic req) (unsubq_subscriber_id req) (unsubq_group_id req)
    _ (bo_tm _ _ Hok)) as Hs.
  destruct (Unsubscribe _ _ _ _) as [success tm']. by apply preserves_tm.
Qed.

Lemma HandlePull_preserves : preserves n dropped b (HandlePull proto env frame b).1.
Proof.
  destruct Hok as [Htm Hwf]. assert (0 <= n < 2 ^ 64 - 2) as Hn' by (unfold max_cost in *; lia).
  unfold HandlePull. destruct (parse_PullRequest _ _) as [req|] eqn:Hparse;
    [|by apply preserves_refl]. cbv zeta. apply (pc_pull _ Hproto) in Hparse.
  set (cons := if negb _ then _ else _). set (g := negb _).
  pose proof (ms_pull_wf n (store_ b) (pull_topic_ req) cons (pull_max_messages req) g
    (sys env 0) (steady env) Hn' Hwf Hparse) as Hwf'.
  assert (forall t m, ms_holds t m (store_ b) -> ms_holds t m (ms_pull (pull_topic_ req) cons
    (pull_max_messages req) g (sys env 0) (steady env) (store_ b)).2) as Hkeep.
  { intros t m. by apply (ms_pull_keeps n). }
  destruct (ms_pull _ _ _ _ _ _ _) as [messages st].
  apply (preserves_store _ _ _ _ 1); [unfold max_cost; lia|done|done|by auto].
Qed.

Lemma HandleAck_preserves : preserves n dropped b (HandleAck proto frame b).1.
Proof.
  destruct Hok as [Htm Hwf]. assert (0 <= n < 2 ^ 64 - 2) as Hn' by (unfold max_cost in *; lia).
  unfold HandleAck. destruct (parse_AckRequest _ _) as [req|]; [|by apply preserves_refl].
  cbv zeta. set (cons := if negb _ then _ else _). set (g := negb _).
  pose proof (ms_ack_wf n (store_ b) (ack_topic_ req) cons (ack_message_id req) g Hn' Hwf) as Hwf'.
  assert (forall t m, ms_holds t m (store_ b) -> ms_holds t m (ms_ack (ack_topic_ req) cons
    (ack_message_id req) g (store_ b)).2) as Hkeep.
  { intros t m. by apply (ms_ack_keeps n). }
  destruct (ms_ack _ _ _ _ _) as [success st].
  apply (preserves_store _ _ _ _ 1); [unfold max_cost; lia|done|done|by auto].
Qed.

Lemma HandleAdmin_preserves : msg_type frame = FrameType.Admin ->
  preserves n (λ t, request_deletes t frame) b (HandleAdmin proto env frame b).1.
Proof.
  intros Hty. destruct Hok as [Htm Hwf]. assert (0 <= n) by lia.
  assert (n + 2 < 2 ^ 64 - 2) as Hn' by (unfold max_cost in *; lia).
  unfold HandleAdmin, request_deletes. rewrite bool_decide_true by done. cbn [andb].
  destruct (parse_AdminRequest _ _) as [req|]; [|by apply preserves_refl]. cbv zeta.
  repeat (case_if; [first [by apply preserves_refl|case_bool_decide; [by apply preserves_refl|]]|]);
    try (by apply preserves_refl).
  all: match goal with
    | |- preserves _ _ _ (with_tm _ _, _).1 =>
        apply (preserves_store _ _ _ _ 1); [unfold max_cost; lia|..]
    | |- _ => apply (preserves_store _ _ _ _ 2); [unfold max_cost; lia|..]
    end.
  all: cbn [fst topic_manager_ store_ with_tm with_store].
  - by apply (tm_step_ok _ (OpUnregister (admin_topic req))).
  - apply ms_delete_wf; [lia|done].
  - intros t m E. reflect_bools. destruct E as [E|E]; [done|]. apply bool_decide_eq_false in E.
    apply (ms_delete_keeps n); [lia|done|congruence].
  - done.
  - replace (n + 2) with (n + 1 + 1) by lia. apply ms_create_wf; [lia|].
    apply ms_delete_wf; [lia|done].
  - intros t m E Hm. reflect_bools. destruct E as [E|E]; [done|]. apply bool_decide_eq_false in E.
    apply (ms_create_keeps (n + 1)); [lia|apply ms_delete_wf; [lia|done]|].
    apply (ms_delete_keeps n); [lia|done|congruence|done].
Qed.
End handlers.

Lemma preserves_weaken n (d d' : TopicName -> bool) b b' :
  (forall t, d' t = false -> d t = false) -> preserves n d b b' -> preserves n d' b b'.
Proof. intros Hd [Hok Hk]. split; [done|]. intros t m Ht. by apply Hk, Hd. Qed.

Lemma OnFrameReceived_preserves n b env conn frame :
  proto_contract proto -> 0 <= n /\ n + max_cost < 2 ^ 64 - 2 -> broker_ok n b ->
  clocks_ok env -> zlen (frame_payload frame) <= kMaxPayloadSize ->
  preserves n (λ t, request_deletes t frame) b (OnFrameReceived proto zlib env conn frame b).1.1.
Proof.
  intros Hp Hn Hok Hclk Hlen. unfold OnFrameReceived, keeping. cbv zeta.
  case_bool_decide; [by apply HandlePublish_preserves|].
  case_bool_decide.
  { destruct (batch_publish_enabled _); [by apply HandleBatchPublish_preserves|].
    by apply preserves_refl. }
  case_bool_decide; [by apply HandleSubscribe_preserves|].
  case_bool_decide; [by apply HandleUnsubscribe_preserves|].
  case_bool_decide; [by apply HandlePull_preserves|].
  case_bool_decide; [by apply HandleAck_preserves|].
  case_bool_decide; [by apply preserves_refl|].
  case_bool_decide; [by apply HandleAdmin_preserves|]. by apply preserves_refl.
Qed.

(** What a step does to the messages held: only deletions and expiry take any
    away. *)
Record step_preserves (n : Z) (ev : broker_event) b b' : Prop := {
  sp_ok : broker_ok (n + max_cost) b';
  sp_keeps : forall t m, event_deletes t ev = false -> event_expires m ev = false ->
    ms_holds t m (store_ b) -> ms_holds t m (store_ b');
}.

Lemma preserves_step n ev b b' : preserves n (λ t, event_deletes t ev) b b' ->
  step_preserves n ev b b'.
Proof. intros [Hok Hk]. split; [done|]. intros t m Hd _. by apply Hk. Qed.

Lemma broker_step_preserves n b ev :
  proto_contract proto -> 0 <= n /\ n + max_cost < 2 ^ 64 - 2 -> broker_ok n b ->
  broker_event_ok ev -> step_preserves n ev b (broker_step b ev).
Proof.
  intros Hp Hn Hok Hev. destruct ev as [env conn frame|c|env topic payload|v]; cbn [broker_step].
  - apply preserves_step. destruct Hev. by apply OnFrameReceived_preserves.
  - apply preserves_step, preserves_tm; [done|done|]. apply UnsubscribeByConnId_ok, Hok.
  - destruct Hok as [Htm Hwf], Hev as [Hclk Hlen]. unfold max_cost, kMaxPayloadSize in *.
    pose proof (ms_publish_wf n (store_ b) topic payload 0 (sys env 0) (sys env 1)
      ltac:(lia) Hwf ltac:(lia) (Hclk _)) as Hwf'.
    assert (forall t m, ms_holds t m (store_ b) -> ms_holds t m (ms_publish topic payload 0
      (sys env 0) (sys env 1) (store_ b)).2) as Hkeep.
    { intros t m. apply (ms_publish_keeps n); [lia|done|lia|apply Hclk]. }
    unfold PublishLocal. destruct (ms_publish _ _ _ _ _ _) as [[ok id] st].
    apply preserves_step, (preserves_store _ _ _ _ 1); [unfold max_cost; lia|done|done|by auto].
  - destruct Hok as [Htm Hwf]. unfold max_cost in *. split.
    + split; [done|]. apply (ms_wf_weaken (n + 1)); [unfold max_cost; lia|].
      apply ms_run_wf; [lia|done].
    + intros t m _ Hexp. apply (ms_run_keeps n); [lia|done|done].
Qed.

Lemma broker_run_preserves n b evs :
  proto_contract proto -> 0 <= n -> n + max_cost * zlen evs < 2 ^ 64 - 2 -> broker_ok n b ->
  Forall broker_event_ok evs ->
  broker_ok (n + max_cost * zlen evs) (foldl broker_step b evs) /\
  forall t m, Forall (λ ev, event_deletes t ev = false /\ event_expires m ev = false) evs ->
    ms_holds t m (store_ b) -> ms_holds t m (store_ (foldl broker_step b evs)).
Proof.
  intros Hp. revert n b. induction evs as [|ev evs IH]; intros n b Hn0 Hn Hok Hall.
  { cbn. rewrite Z.mul_0_r, Z.add_0_r. done. }
  apply Forall_cons in Hall as [Hev Hall]. cbn [foldl length] in *.
  rewrite Nat2Z.inj_succ in *. unfold Z.succ in *.
  assert (0 < max_cost) by (unfold max_cost; lia).
  destruct (broker_step_preserves n b ev Hp ltac:(nia) Hok Hev) as [Hok' Hkeep].
  destruct (IH (n + max_cost) (broker_step b ev) ltac:(lia) ltac:(lia) Hok' Hall) as [Hok2 Hkeep2].
  split; [by replace (n + max_cost * (zlen evs + 1)) with (n + max_cost + max_cost * zlen evs) by lia|].
  intros t m Hd Hm. apply Forall_cons in Hd as [[Hd1 He1] Hd]. by apply Hkeep2, Hkeep.
Qed.

(** ** What every step remembers *)

(** The configuration is the same, and no sequence number that is a duplicate
    stops being one. *)
Record remembers b b' : Prop := {
  rm_config : config_manager_ b' = config_manager_ b;
  rm_duplicate : forall p s, IsDuplicate p s (dedup_window_ b) = true ->
    IsDuplicate p s (dedup_window_ b') = true;
}.

#[export] Instance remembers_preorder : PreOrder remembers.
Proof.
  split; [by intros b|]. intros b1 b2 b3 [Hc1 Hd1] [Hc2 Hd2]. split; [congruence|by auto].
Qed.

Lemma remembers_same b b' : config_manager_ b' = config_manager_ b ->
  dedup_window_ b' = dedup_window_ b -> remembers b b'.
Proof. intros Hc Hd. split; [done|]. by rewrite Hd. Qed.

Lemma MarkProcessed_remembers p s q r now w :
  IsDuplicate p s w = true -> IsDuplicate p s (MarkProcessed q r now w) = true.
Proof.
  unfold IsDuplicate, MarkProcessed. case_bool_decide as Hp; [done|]. case_bool_decide; [done|].
  cbn. destruct (decide (q = p)) as [->|Hne]; [|by rewrite lookup_insert_ne].
  rewrite lookup_insert_eq. destruct (producers_ w !! p) as [st|]; [|done]. cbn.
  intros Hs. reflect_bools. apply Z.leb_le. case_if; reflect_bools; lia.
Qed.

Lemma publish_batch_remembers env i reqs b : remembers b (publish_batch zlib env i reqs b).2.
Proof.
  revert i b. induction reqs as [|req reqs IH]; intros i b; cbn [publish_batch]; [done|].
  destruct (compress_payload _ _ _ _ b) as [payload z].
  destruct (ms_publish _ _ _ _ _ _) as [[success id] st].
  specialize (IH (i + 3)%nat (with_store st b)).
  destruct (publish_batch _ _ _ _ _) as [stored b']. cbn [snd] in *.
  transitivity (with_store st b); [by apply remembers_same|done].
Qed.

Lemma HandlePublish_remembers env conn frame b :
  remembers b (HandlePublish proto zlib env conn frame b).1.1.
Proof.
  unfold HandlePublish. destruct (parse_PublishRequest _ _) as [req|]; [|done]. cbv zeta.
  destruct (_ && IsDuplicate _ _ _); [done|].
  destruct (connection_permit _ _ _ _) as [[] conn1]; [|done]. cbn [negb].
  destruct (global_permit _ _ _) as [ok b1] eqn:Hg.
  destruct (global_permit_spec _ _ _ _ _ Hg) as [l ->].
  destruct ok; cbn [negb]; [|by apply remembers_same].
  destruct (compress_payload _ _ _ _ _) as [payload z].
  destruct (ms_publish _ _ _ _ _ _) as [[[] id] st]; cbn [negb]; [|by apply remembers_same].
  destruct (push_groups _ _ _ _ _) as [grouped tm]. cbn [fst]. destruct (_ && _).
  - split; [done|]. intros p s. cbn. apply MarkProcessed_remembers.
  - by apply remembers_same.
Qed.

Lemma HandleBatchPublish_remembers env conn frame b :
  remembers b (HandleBatchPublish proto zlib env conn frame b).1.1.
Proof.
  unfold HandleBatchPublish. destruct (parse_BatchPublishRequest _ _) as [reqs|]; [|done].
  case_bool_decide; [done|]. cbv zeta.
  destruct (connection_permit _ _ _ _) as [[] conn1]; [|done]. cbn [negb].
  destruct (global_permit _ _ _) as [ok b1] eqn:Hg.
  destruct (global_permit_spec _ _ _ _ _ Hg) as [l ->].
  destruct ok; cbn [negb]; [|by apply remembers_same]. destruct (_ <? _); [by apply remembers_same|].
  pose proof (publish_batch_remembers env 0 reqs (with_limiter l b)) as Hb.
  destruct (publish_batch _ _ _ _ _) as [stored b']. cbn [snd] in Hb.
  assert (remembers b b') as Hb'
    by (transitivity (with_limiter l b); [by apply remembers_same|done]).
  destruct (last stored); [|done].
  destruct (push_topics _ _ _ _ _ _) as [acts tm]. cbn [fst].
  transitivity b'; [done|by apply remembers_same].
Qed.

Lemma OnFrameReceived_remembers env conn frame b :
  remembers b (OnFrameReceived proto zlib env conn frame b).1.1.
Proof.
  unfold OnFrameReceived, keeping. cbv zeta.
  case_bool_decide; [apply HandlePublish_remembers|].
  case_bool_decide; [destruct (batch_publish_enabled _); [apply HandleBatchPublish_remembers|done]|].
  unfold HandleSubscribe, HandleUnsubscribe, HandlePull, HandleAck, HandleAdmin. cbv zeta.
  repeat case_match; cbn [fst snd]; try done; by apply remembers_same.
Qed.

Lemma broker_run_remembers b evs : remembers b (foldl broker_step b evs).
Proof.
  revert b. induction evs as [|ev evs IH]; intros b; [done|]. cbn [foldl].
  etransitivity; [|apply IH]. destruct ev as [env conn frame|c|env topic payload|v]; cbn [broker_step].
  - apply OnFrameReceived_remembers.
  - by apply remembers_same.
  - unfold PublishLocal. destruct (ms_publish _ _ _ _ _ _) as [[ok id] st]. by apply remembers_same.
  - by apply remembers_same.
Qed.
End theorems.
