(* ===== verification/BrokerTheorems.v ===== *)
(** * What the broker guarantees

    Proved against the [MessageStore] interface, hence for every store that
    implements it; the witnesses run the in-memory store on the ring buffer. *)

From S2P Require Import Prelude Types Config RingBuffer Frame RateLimiter Connection TopicManager.
From S2P Require Import Dedup Compression Store StoreProps MessageStore Broker BrokerProps.
From S2P Require Import BrokerInv.
#[local] Open Scope Z_scope.

Section theorems.
Context {St : Type} `{MessageStore St} (proto : Proto) (zlib : Zlib).
Implicit Types (b : Broker St) (conn : Connection) (frame : Frame).

(** The connections an answer is pushed to, in order. *)
Definition push_targets (acts : list action) : list ConnectionId :=
  omap (λ a, match a with SendTo c _ => Some c | Reply _ => None end) acts.

(** The answers that refuse a publish. *)
Definition refusal (acts : list action) : Prop :=
  exists code msg, acts = [SendResponse_code proto code msg 0] /\
    (code = InvalidRequest \/ code = RateLimitExceeded \/ code = BufferFull).

(** An already marked sequence number of a producer. *)
Definition is_replay (req : PublishRequest) b : bool :=
  uses_dedup req b && IsDuplicate (pub_producer_id req) (pub_sequence_id req) (dedup_window_ b).

Lemma push_targets_groups frames i gs :
  push_targets (group_pushes frames i gs) = omap next_conn gs.
Proof.
  revert i. induction gs as [|g gs IH]; intros i; [done|].
  cbn [group_pushes omap list_omap]. destruct (next_conn g); cbn; by rewrite IH.
Qed.

Lemma push_targets_broadcast (f : Frame) (subs : list SubscriberInfo) :
  push_targets ((λ sub, SendTo (sub_conn_id sub) f) <$> subs) = sub_conn_id <$> subs.
Proof. induction subs as [|s subs IH]; [done|]. cbn. by rewrite <- IH. Qed.

Lemma push_targets_app l1 l2 : push_targets (l1 ++ l2) = push_targets l1 ++ push_targets l2.
Proof. apply omap_app. Qed.

(** A refused publish: what the answer says, and what the store was asked. *)
Definition refused_publish (env : Env) frame b b' (acts : list action) : Prop :=
  topic_manager_ b' = topic_manager_ b /\ dedup_window_ b' = dedup_window_ b /\
  ((exists code msg, acts = [SendResponse_code proto code msg 0] /\
      (code = InvalidRequest \/ code = RateLimitExceeded) /\ store_ b' = store_ b) \/
   exists req id, parse_PublishRequest proto (frame_payload frame) = Some req /\
      store_publish zlib env req b = ((false, id), store_ b') /\
      acts = [SendResponse_code proto BufferFull "Backpressure: buffer full" 0]).

(** C21: a publish request is refused, by its limits or by the store, with
    nothing pushed or marked; or it is a replay and changes nothing; or the store
    has accepted its payload, or a compression of it, under an id, and this message
    is pushed once to every broadcast subscriber of the topic and to the member
    of each consumer group whose turn it is; then every group of the topic has
    moved on by one, and the answer carries the id the store gave.  A message the
    store refuses is neither pushed nor acknowledged. *)
Theorem publish_fans_out env conn frame b :
  zlib_contract zlib -> tm_ok (topic_manager_ b) ->
  zlen (frame_payload frame) <= kMaxPayloadSize -> proto_contract proto ->
  let '(b', _, acts) := HandlePublish proto zlib env conn frame b in
  refused_publish env frame b b' acts \/
  exists req, parse_PublishRequest proto (frame_payload frame) = Some req /\
    ((is_replay req b = true /\ b' = b /\
      acts = [SendResponse proto true "" (pub_sequence_id req)]) \/
     exists id payload compressed pushes,
       ms_publish (pub_topic req) payload (ttl_of req b) (sys env 0) (sys env 1) (store_ b) =
         ((true, id), store_ b') /\
       same_content zlib (pub_payload req) (pub_compressed req) payload compressed /\
       acts = pushes ++ [SendResponse proto true "" id] /\
       push_targets pushes =
         (sub_conn_id <$> GetSubscribers (pub_topic req) (topic_manager_ b))
         ++ omap next_conn
              (GetConsumerGroups (order env 0) (pub_topic req) (topic_manager_ b)) /\
       Forall (λ a, exists c time, a = SendTo c (push_frame proto
         (mkPushMessage id (pub_topic req) payload time 0 compressed))) pushes /\
       groups_advanced (pub_topic req) (topic_manager_ b) (topic_manager_ b')).
Proof.
  intros Hz Hok Hlen Hp. pose proof (HandlePublish_spec proto zlib env conn frame b Hok) as Hout.
  destruct (HandlePublish _ _ _ _ _ _) as [[b' conn'] acts].
  destruct Hout as [code msg b' Hcode [Htm _ Hdw] Hst|req Hparse Hu Hd|req b' id Hparse [Htm _ Hdw] Hst
    |req b' id Hparse Hd Hst _ Hadv _ _].
  - left. split_and!; [done|done|]. left. by eexists _, _.
  - right. exists req. split; [done|]. left. unfold is_replay. by rewrite Hu, Hd.
  - left. split_and!; [done|done|]. right. by eexists _, _.
  - right. exists req. split; [done|]. right.
    pose proof (pc_publish _ Hp _ _ Hparse) as Hpl. unfold kMaxPayloadSize in Hlen.
    pose proof (compress_payload_spec zlib (pub_topic req) (pub_payload req) (pub_compressed req)
      b Hz ltac:(lia)) as Hc.
    unfold publish_actions, publish_push. unfold store_publish in Hst.
    destruct (compress_payload _ _ _ _ b) as [payload compressed].
    eexists id, payload, compressed, _. split; [exact Hst|]. split; [done|]. rewrite app_assoc.
    split; [done|].
    split; [by rewrite push_targets_app, push_targets_broadcast, push_targets_groups|].
    split; [|done]. apply Forall_forall. intros a [Ha|Ha]%elem_of_app.
    + apply list_elem_of_fmap in Ha as (sub & -> & _). by eexists _, _.
    + destruct (group_pushes_frames _ _ _ _ Ha) as (c & _ & j & -> & _). by eexists _, _.
Qed.

Lemma MarkProcessed_duplicate p seq seq' now w :
  p <> "" -> seq' <= seq -> IsDuplicate p seq' (MarkProcessed p seq now w) = true.
Proof.
  intros Hp Hle. unfold MarkProcessed, IsDuplicate. rewrite !bool_decide_false by done. cbn.
  rewrite lookup_insert_eq. cbn [max_sequence]. apply Z.leb_le.
  case_if; reflect_bools; lia.
Qed.

(** C22: publishing is idempotent.  Once a request of a producer was not
    refused, any later request of this producer with a sequence number that is
    not larger - on whatever connection, and whatever requests of any client,
    disconnections, local publishes and background work came in between - is
    answered with success and leaves the broker - its store, subscriptions and
    limiters - exactly as it is. *)
Theorem publish_replay_ignored env conn frame b req evs env' conn' frame' req' :
  tm_ok (topic_manager_ b) ->
  parse_PublishRequest proto (frame_payload frame) = Some req -> uses_dedup req b = true ->
  parse_PublishRequest proto (frame_payload frame') = Some req' ->
  pub_producer_id req' = pub_producer_id req -> pub_sequence_id req' <= pub_sequence_id req ->
  let '(b', _, acts) := HandlePublish proto zlib env conn frame b in
  refusal acts \/
  let later := foldl (broker_step proto zlib) b' evs in
  HandlePublish proto zlib env' conn' frame' later =
    (later, conn', [SendResponse proto true "" (pub_sequence_id req')]).
Proof.
  intros Hok Hparse Huse Hparse' Hprod Hseq.
  pose proof (HandlePublish_spec proto zlib env conn frame b Hok) as Hout.
  destruct (HandlePublish proto zlib env conn frame b) as [[b' conn1] acts]. cbv zeta.
  assert (forall b2, config_manager_ b2 = config_manager_ b ->
    IsDuplicate (pub_producer_id req) (pub_sequence_id req') (dedup_window_ b2) = true ->
    let later := foldl (broker_step proto zlib) b2 evs in
    HandlePublish proto zlib env' conn' frame' later =
      (later, conn', [SendResponse proto true "" (pub_sequence_id req')])) as Hreplay.
  { intros b2 Hcfg Hdup later. destruct (broker_run_remembers proto zlib b2 evs) as [Hc Hd].
    apply Hd in Hdup. fold later in Hc, Hdup. unfold HandlePublish. rewrite Hparse', Hprod. cbv zeta.
    unfold uses_dedup in Huse. unfold config_of in *. rewrite Hc, Hcfg, Huse, Hdup. done. }
  unfold uses_dedup in Huse. apply andb_true_iff in Huse as [Hen Hne].
  apply negb_true_iff, bool_decide_eq_false in Hne.
  destruct Hout as [code msg b' Hcode _ _|req1 Hparse1 _ Hd|req1 b' id _ _ _
    |req1 b' id Hparse1 _ _ Hcfg _ _ Hdw]; simplify_eq.
  - left. eexists _, _. split; [done|]. tauto.
  - right. apply Hreplay; [done|]. unfold IsDuplicate in *.
    rewrite bool_decide_false in * by done. destruct (producers_ _ !! _); [|done].
    apply Z.leb_le. apply Z.leb_le in Hd. lia.
  - left. eexists _, _. split; [done|]. tauto.
  - right. apply Hreplay; [done|]. rewrite Hdw. unfold uses_dedup.
    rewrite Hen, bool_decide_false by done. by apply MarkProcessed_duplicate.
Qed.

(** C23: a message whose publish is acknowledged is not lost by the broker: as
    long as no administrator deletes or cleans up the topic, and no visit of the
    store's expiration finds it past its time to live (never, without one), the
    store holds the payload sent (or its compression) under the acknowledged id,
    whatever requests, subscriptions, pulls, acks, retries and expirations
    follow. *)
Theorem accepted_message_survives n b env conn frame req evs :
  proto_contract proto -> zlib_contract zlib -> broker_ok n b ->
  0 <= n -> n + max_cost * (zlen evs + 1) < 2 ^ 64 - 2 ->
  broker_event_ok (EvFrame env conn frame) -> Forall broker_event_ok evs ->
  msg_type frame = FrameType.Publish ->
  parse_PublishRequest proto (frame_payload frame) = Some req ->
  let '(b', _, acts) := OnFrameReceived proto zlib env conn frame b in
  refusal acts \/
  (is_replay req b = true /\ acts = [SendResponse proto true "" (pub_sequence_id req)]) \/
  exists id payload compressed,
    same_content zlib (pub_payload req) (pub_compressed req) payload compressed /\
    last acts = Some (SendResponse proto true "" id) /\
    let m := mkStoredMessage id "" payload (sys env 1) 0 (expiry (ttl_of req b) (sys env 0)) in
    (Forall (λ ev, event_deletes proto (pub_topic req) ev = false /\
                   event_expires m ev = false) evs ->
     ms_holds (pub_topic req) m (store_ (foldl (broker_step proto zlib) b' evs))).
Proof.
  intros Hp Hz Hok Hn0 Hn Hev Hevs Hty Hparse.
  assert (0 < max_cost) by (unfold max_cost; lia). destruct Hev as [Hclk Hlen].
  pose proof (OnFrameReceived_preserves proto zlib n b env conn frame Hp ltac:(nia) Hok Hclk Hlen)
    as [Hok' _].
  unfold OnFrameReceived in *. rewrite Hty in *. rewrite bool_decide_true in * by done.
  pose proof (HandlePublish_spec proto zlib env conn frame b (bo_tm _ _ Hok)) as Hout.
  destruct (HandlePublish _ _ _ _ _ _) as [[b' conn1] acts]. cbn [fst] in Hok'.
  destruct Hout as [code msg b' Hcode _ _|req1 Hparse1 Hu Hd|req1 b' id _ _ _
    |req1 b' id Hparse1 _ Hst _ _ _ _]; simplify_eq.
  - left. eexists _, _. split; [done|]. tauto.
  - right. left. unfold is_replay. by rewrite Hu, Hd.
  - left. eexists _, _. split; [done|]. tauto.
  - right. right.
    destruct (store_publish_ok proto zlib n b env frame Hp ltac:(nia) Hok Hclk Hlen req Hparse)
      as (_ & _ & Hhold). specialize (Hhold id _ Hst).
    pose proof (pc_publish _ Hp _ _ Hparse) as Hpl. unfold kMaxPayloadSize in Hlen.
    pose proof (compress_payload_spec zlib (pub_topic req) (pub_payload req) (pub_compressed req)
      b Hz ltac:(lia)) as Hc.
    destruct (compress_payload _ _ _ _ b) as [payload compressed]. cbn [fst] in Hhold.
    exists id, payload, compressed. split; [done|].
    split; [unfold publish_actions; by rewrite app_assoc, last_snoc|]. cbv zeta. intros Hkeep.
    by eapply (broker_run_preserves proto zlib (n + max_cost) b' evs); [done|lia|lia|..].
Qed.

(** ** Answers *)

(** The frame types that answer a request. *)
Definition is_answer (a : action) : bool :=
  match a with
  | Reply f => bool_decide (msg_type f = FrameType.Response) ||
               bool_decide (msg_type f = FrameType.Admin) ||
               bool_decide (msg_type f = FrameType.Pong)
  | SendTo _ _ => false
  end.

(** Messages first, then one answer. *)
Definition answered (t : FrameMessageType) (acts : list action) : Prop :=
  exists pushes f, acts = pushes ++ [Reply f] /\ msg_type f = t /\
    Forall (λ a, is_answer a = false) pushes.

Lemma answered_one r : answered FrameType.Response [send_response proto r].
Proof. by eexists [], _. Qed.

Lemma answered_snoc pushes r : Forall (λ a, is_answer a = false) pushes ->
  answered FrameType.Response (pushes ++ [send_response proto r]).
Proof. intros Hp. by eexists pushes, _. Qed.

Lemma answered_admin ok msg json : answered FrameType.Admin [SendAdminResponse proto ok msg json].
Proof. by eexists [], _. Qed.

Lemma sendto_not_answer {A} (f : A -> action) (l : list A) :
  (forall x, is_answer (f x) = false) -> Forall (λ a, is_answer a = false) (f <$> l).
Proof. intros Hf. apply Forall_fmap, Forall_forall. intros x _. apply Hf. Qed.

Lemma group_pushes_not_answer frames i gs :
  Forall (λ a, is_answer a = false) (group_pushes frames i gs).
Proof.
  apply Forall_forall. intros a Ha.
  by destruct (group_pushes_frames _ _ _ _ Ha) as (c & _ & j & -> & _).
Qed.

Lemma push_groups_not_answer topic frames i gs tm :
  Forall (λ a, is_answer a = false) (push_groups topic frames i gs tm).1.
Proof.
  revert i tm. induction gs as [|g gs IH]; intros i tm; [done|]. cbn [push_groups].
  destruct (select_target topic g tm) as [target tm1]. specialize (IH (i + 1)%nat tm1).
  destruct (push_groups _ _ _ _ _) as [acts tm2]. destruct target; [by constructor|done].
Qed.

Lemma push_topics_not_answer env i batch topics tm :
  Forall (λ a, is_answer a = false) (push_topics proto env i batch topics tm).1.
Proof.
  revert i tm. induction topics as [|[t ms] topics IH]; intros i tm; [done|]. cbn [push_topics].
  match goal with |- context [push_groups t ?f ?j ?gs tm] =>
    pose proof (push_groups_not_answer t f j gs tm) as Hg;
    destruct (push_groups t f j gs tm) as [grouped tm1] end.
  specialize (IH (i + 1)%nat tm1). destruct (push_topics _ _ _ _ _ _) as [acts tm2].
  cbn [fst] in *. rewrite !Forall_app. split; [by apply sendto_not_answer|done].
Qed.

Lemma HandlePublish_answered env conn frame b :
  answered FrameType.Response (HandlePublish proto zlib env conn frame b).2.
Proof.
  unfold HandlePublish. destruct (parse_PublishRequest _ _) as [req|]; [|apply answered_one].
  cbv zeta. case_if; [apply answered_one|].
  destruct (connection_permit _ _ _ _) as [[] conn1]; [|apply answered_one].
  destruct (global_permit _ _ _) as [[] b1]; [|apply answered_one]. cbn [negb].
  destruct (compress_payload _ _ _ _ _) as [payload compressed].
  destruct (ms_publish _ _ _ _ _ _) as [[[] id] st]; [|apply answered_one]. cbn [negb].
  match goal with |- context [push_groups ?t ?f ?j ?gs ?tm] =>
    pose proof (push_groups_not_answer t f j gs tm) as Hg;
    destruct (push_groups t f j gs tm) as [grouped tm1] end.
  cbn [snd]. rewrite app_assoc. apply answered_snoc. rewrite Forall_app.
  split; [by apply sendto_not_answer|done].
Qed.

Lemma HandleBatchPublish_answered env conn frame b :
  answered FrameType.Response (HandleBatchPublish proto zlib env conn frame b).2.
Proof.
  unfold HandleBatchPublish.
  destruct (parse_BatchPublishRequest _ _) as [reqs|]; [|apply answered_one].
  case_bool_decide; [apply answered_one|]. cbv zeta.
  destruct (connection_permit _ _ _ _) as [[] conn1]; [|apply answered_one].
  destruct (global_permit _ _ _) as [[] b1]; [|apply answered_one]. cbn [negb].
  case_if; [apply answered_one|].
  destruct (publish_batch _ _ _ _ _) as [stored b2].
  destruct (last stored) as [m|]; [|apply answered_one].
  match goal with |- context [push_topics proto env ?j ?batch ?ts ?tm] =>
    pose proof (push_topics_not_answer env j batch ts tm) as Hg;
    destruct (push_topics proto env j batch ts tm) as [acts tm1] end.
  by apply answered_snoc.
Qed.

Lemma HandlePull_answered env frame b :
  answered FrameType.Response (HandlePull proto env frame b).2.
Proof.
  unfold HandlePull. destruct (parse_PullRequest _ _) as [req|]; [|apply answered_one].
  cbv zeta. destruct (ms_pull _ _ _ _ _ _ _) as [messages st]. apply answered_snoc.
  destruct (_ && _); [by repeat constructor|by apply sendto_not_answer].
Qed.

Lemma HandleAdmin_answered env frame b :
  answered FrameType.Admin (HandleAdmin proto env frame b).2.
Proof.
  unfold HandleAdmin. destruct (parse_AdminRequest _ _) as [req|]; [|apply answered_admin].
  cbv zeta. repeat case_if; apply answered_admin.
Qed.

(** The type of a request's answer. *)
Definition answer_type (t : FrameMessageType) : FrameMessageType :=
  if bool_decide (t = FrameType.Ping) then FrameType.Pong
  else if bool_decide (t = FrameType.Admin) then FrameType.Admin
  else FrameType.Response.

(** C24: every frame - malformed, refused, of an unknown type - gets exactly one
    answer on its connection, after the messages it pulls or causes to be
    pushed: a response, an admin response or a pong, as its type asks for.  Only
    a ping with the heartbeat disabled goes unanswered. *)
Theorem one_answer_per_request env conn frame b :
  let acts := (OnFrameReceived proto zlib env conn frame b).2 in
  if bool_decide (msg_type frame = FrameType.Ping) && negb (heartbeat_enabled (config_of b))
  then acts = []
  else answered (answer_type (msg_type frame)) acts.
Proof.
  cbv zeta. unfold OnFrameReceived, answer_type, keeping. cbv zeta.
  destruct (decide (msg_type frame = FrameType.Publish)) as [->|H1].
  { apply HandlePublish_answered. }
  destruct (decide (msg_type frame = FrameType.BatchPublish)) as [->|H2].
  { cbn. destruct (batch_publish_enabled _); [apply HandleBatchPublish_answered|apply answered_one]. }
  destruct (decide (msg_type frame = FrameType.Subscribe)) as [->|H3].
  { cbn. unfold HandleSubscribe. destruct (parse_SubscribeRequest _ _); [|apply answered_one].
    destruct (Subscribe _ _ _ _) as [? ?]. apply answered_one. }
  destruct (decide (msg_type frame = FrameType.Unsubscribe)) as [->|H4].
  { cbn. unfold HandleUnsubscribe. destruct (parse_UnsubscribeRequest _ _); [|apply answered_one].
    destruct (Unsubscribe _ _ _ _) as [? ?]. apply answered_one. }
  destruct (decide (msg_type frame = FrameType.Pull)) as [->|H5]; [apply HandlePull_answered|].
  destruct (decide (msg_type frame = FrameType.Ack)) as [->|H6].
  { cbn. unfold HandleAck. destruct (parse_AckRequest _ _); [|apply answered_one].
    cbv zeta. destruct (ms_ack _ _ _ _ _) as [? ?]. apply answered_one. }
  repeat match goal with
    | Hne : ?x <> ?y |- _ => rewrite (bool_decide_false (x = y)) by exact Hne; clear Hne
    end.
  case_bool_decide; cbn [andb].
  { destruct (heartbeat_enabled _); [|done]. by eexists [], _. }
  case_bool_decide; [apply HandleAdmin_answered|apply answered_one].
Qed.

(** ** Batches *)

Lemma topics_pushes_in env i use_batch topics tm a :
  a ∈ topics_pushes proto env i use_batch topics tm <->
  exists j t ms, topics !! j = Some (t, ms) /\
    a ∈ topic_pushes proto env (i + j) use_batch t ms tm.
Proof.
  revert i. induction topics as [|[t ms] topics IH]; intros i.
  { split; [by intros ?%not_elem_of_nil|]. by intros (j & t & ms & ? & _). }
  cbn [topics_pushes]. rewrite elem_of_app, IH. split.
  - intros [Ha|(j & t' & ms' & Hj & Ha)].
    + exists 0%nat, t, ms. by rewrite Nat.add_0_r.
    + exists (S j), t', ms'. by replace (i + S j)%nat with (i + 1 + j)%nat by lia.
  - intros ([|j] & t' & ms' & Hj & Ha); simplify_eq/=.
    + left. by rewrite Nat.add_0_r in Ha.
    + right. exists j, t', ms'. by replace (i + S j)%nat with (i + 1 + j)%nat in Ha by lia.
Qed.

(** Who a topic's messages are pushed to. *)
Definition addressee (topic : TopicName) (tm : TopicManager) (c : ConnectionId) : Prop :=
  (exists sub, sub ∈ GetSubscribers topic tm /\ sub_conn_id sub = c) \/
  (exists name g, GetConsumerGroup topic name tm = Some g /\ next_conn g = Some c).

Lemma group_pushes_in (f : Frame) i gs a :
  a ∈ group_pushes (λ _, f) i gs <->
  exists c g, a = SendTo c f /\ g ∈ gs /\ next_conn g = Some c.
Proof.
  split.
  { intros Ha. destruct (group_pushes_frames _ _ _ _ Ha) as (c & g & j & ? & ? & ?). eauto. }
  intros (c & g & -> & Hg & Hc). revert i. induction gs as [|g0 gs IH]; intros i;
    [by apply not_elem_of_nil in Hg|]. cbn [group_pushes].
  apply elem_of_cons in Hg as [<-|Hg].
  - rewrite Hc. by left.
  - destruct (next_conn g0); [right|]; by apply IH.
Qed.

Lemma topic_pushes_in env i use_batch t ms tm a : tm_ok tm ->
  a ∈ topic_pushes proto env i use_batch t ms tm <->
  exists c, a = SendTo c (topic_frame proto (use_batch && (1 <? zlen ms)) t ms) /\
    addressee t tm c.
Proof.
  intros Hok. unfold topic_pushes, addressee.
  destruct (GetConsumerGroups_ids (order env i) t tm Hok) as [_ Hin].
  rewrite elem_of_app, group_pushes_in, list_elem_of_fmap. split.
  - intros [(sub & -> & Hsub)|(c & g & -> & Hg & Hc)].
    + eexists. split; [done|]. left. by exists sub.
    + eexists. split; [done|]. right. apply Hin in Hg. by exists (group_id g), g.
  - intros (c & -> & [(sub & Hsub & <-)|(name & g & Hg & Hc)]).
    + left. by exists sub.
    + right. exists c, g. split; [done|]. split; [|done]. apply Hin.
      unfold GetConsumerGroup in *. destruct (consumer_groups_ tm !! t) as [gs|] eqn:E; [|done].
      cbn in *. destruct (to_groups _ Hok t gs E) as [_ Hgs].
      destruct (Hgs name g Hg) as [-> _ _ _ _ _]. done.
Qed.

(** The messages of a topic among those stored, in the order of the batch. *)
Definition messages_of (topic : TopicName) (stored : list StoredMessage) : list StoredMessage :=
  filter (λ m, sm_topic_name m = topic) stored.

(** C25: a batch is refused, pushing nothing, or stores a subsequence of its
    messages: the store holds each of them, the answer carries the last one's id,
    and for every topic among them each broadcast subscriber and the member of
    each group whose turn it is are pushed the topic's frame - and nobody is
    pushed anything else.  The frame is all the topic's messages, in order, if
    there are several and batch pushing is enabled; if it is disabled, it is
    only the first one. *)
Theorem batch_publish_delivers n b env conn frame reqs :
  proto_contract proto -> zlib_contract zlib -> broker_ok n b ->
  0 <= n -> n + max_cost < 2 ^ 64 - 2 ->
  clocks_ok env -> zlen (frame_payload frame) <= kMaxPayloadSize ->
  parse_BatchPublishRequest proto (frame_payload frame) = Some reqs ->
  let '(b', _, acts) := HandleBatchPublish proto zlib env conn frame b in
  (exists code msg, acts = [SendResponse_code proto code msg 0] /\ code <> Success) \/
  exists accepted stored pushes m,
    sublist accepted reqs /\ Forall2 (stored_for zlib) accepted stored /\
    Forall (λ m, held m (store_ b')) stored /\ last stored = Some m /\
    acts = pushes ++ [SendResponse proto true "" (sm_id m)] /\
    forall a, a ∈ pushes <-> exists topic c,
      messages_of topic stored <> [] /\ addressee topic (topic_manager_ b) c /\
      a = SendTo c (topic_frame proto
            (batch_push_enabled (config_of b) && (1 <? zlen (messages_of topic stored)))
            topic (messages_of topic stored)).
Proof.
  intros Hp Hz Hok Hn0 Hn Hclk Hlen Hparse. destruct (pc_batch _ Hp _ _ Hparse) as [Hcount Hsizes].
  unfold max_cost, kMaxPayloadSize in *.
  unfold HandleBatchPublish. rewrite Hparse. case_bool_decide; [left; by eexists _, _|].
  cbv zeta. destruct (connection_permit _ _ _ _) as [[] conn1]; cbn [negb];
    [|left; by eexists _, _].
  destruct (global_permit _ env b) as [ok b1] eqn:Hg.
  destruct (global_permit_spec _ _ _ _ _ Hg) as [l ->].
  destruct ok; cbn [negb]; [|left; by eexists _, _]. case_if; [left; by eexists _, _|].
  pose proof (publish_batch_spec zlib env 0 reqs n (with_limiter l b) Hclk
    ltac:(apply (payloads_bounded _ _ _ Hsizes); lia) Hn0 ltac:(lia) (bo_store _ _ Hok)) as Hb.
  destruct (publish_batch_contents zlib env 0 reqs (with_limiter l b) Hz
    ltac:(apply (payloads_bounded _ _ _ Hsizes); lia)) as (accepted & Hsub & Hfor).
  destruct (publish_batch zlib env 0 reqs (with_limiter l b)) as [stored b']. cbn [fst] in Hfor.
  destruct Hb as ([Htm _ _] & _ & _ & Hheld). cbn [topic_manager_ with_limiter] in Htm.
  destruct (last stored) as [m|] eqn:Hlast; [|left; by eexists _, _].
  pose proof (NoDup_entries_keys (order env 0) (group_by_topic stored)) as Hnd.
  rewrite Htm.
  destruct (push_topics_spec proto env 1 (batch_push_enabled (config_of b)) _ _ Hnd (bo_tm _ _ Hok))
    as (tm' & -> & _).
  right. exists accepted, stored. eexists _, m. split_and!; try done. intros a.
  rewrite topics_pushes_in. split.
  - intros (j & t & ms & Hj%list_elem_of_lookup_2 & Ha).
    apply entries_group_by_topic in Hj as [Hne ->].
    apply topic_pushes_in in Ha as (c & -> & Hc); [|apply Hok]. by exists t, c.
  - intros (t & c & Hne & Hc & ->).
    assert ((t, messages_of t stored) ∈ entries (order env 0) (group_by_topic stored)) as Hin.
    { by apply entries_group_by_topic. }
    apply list_elem_of_lookup in Hin as [j Hj]. exists j, t, (messages_of t stored).
    split; [done|]. apply topic_pushes_in; [apply Hok|]. by exists c.
Qed.
End theorems.

(** ** Concrete runs *)

(** A protocol whose requests and messages are fixed but for the payload, which
    is the frame's. *)
Definition demo_request (bs : list byte) : PublishRequest :=
  mkPublishRequest "t" bs 0 false "p" 7.

Definition demo_proto : Proto := mkProto
  (λ bs, Some (demo_request bs)) (λ bs, Some ((λ x, demo_request [x]) <$> bs))
  (λ _, Some (mkSubscribeRequest "t" "s" "")) (λ _, None)
  (λ _, Some (mkPullRequest "t" "a" "" 10)) (λ _, None) (λ _, None)
  (λ r, [byte_of (resp_error_code r); byte_of (resp_message_id r)])
  push_payload (λ ps, concat (push_payload <$> ps)) (λ _, []).

Definition demo_env : Env := mkEnv (λ _, 5) (λ _, 5) (λ _, key_order).

Definition demo_conn : Connection := Connection_new 3 (Some BrokerConfig_default) 0.

Definition demo_publish : Frame := make_frame FrameType.Publish [Byte.x63].

Definition demo_broker : Broker (MemoryMessageStore SpscRingBuffer) :=
  with_tm (Subscribe "t" (mkSubscriberInfo "s" 4) "" TopicManager_new).2
    (Broker_new (MemoryMessageStore_new 200 1 5000) BrokerConfig_default 0).

Lemma demo_broker_ok : broker_ok 0 demo_broker.
Proof.
  split; [apply Subscribe_ok; split; apply map_Forall_empty|].
  apply store_wf_new. unfold params_ok, kMaxPayloadSize. lia.
Qed.

Lemma demo_clocks : clocks_ok demo_env.
Proof. intros i. cbn. lia. Qed.

Lemma demo_contract : proto_contract demo_proto.
Proof.
  split; intros bs; cbn.
  - by intros req [= <-].
  - intros reqs [= <-]. rewrite length_fmap. split; [done|].
    induction bs as [|x bs IH]; [constructor|]. cbn [fmap list_fmap length].
    constructor; [cbn; lia|]. apply (payloads_le _ _ _ IH). lia.
  - intros req [= <-]. done.
Qed.

(** The publish is accepted, and pushed to the subscriber on connection 4. *)
Lemma publish_fans_out_witness :
  push_targets (HandlePublish demo_proto store_zlib demo_env demo_conn demo_publish demo_broker).2
    = [4].
Proof.
  pose proof (publish_fans_out demo_proto store_zlib demo_env demo_conn demo_publish demo_broker
    store_zlib_contract (bo_tm _ _ demo_broker_ok) ltac:(by vm_compute) demo_contract) as Hfan.
  destruct (HandlePublish _ _ _ _ _ _) as [[b' conn'] acts] eqn:E. cbn [snd].
  assert (acts = (HandlePublish demo_proto store_zlib demo_env demo_conn demo_publish
    demo_broker).2) as -> by (by rewrite E). clear E.
  destruct Hfan as [(_ & _ & [(code & msg & Hacts & _)|(req & id & _ & _ & Hacts)])|(req & [= <-] & [(Hr & _)|
    (id & payload & z & pushes & _ & _ & -> & Ht & _)])].
  - apply (f_equal length) in Hacts. by vm_compute in Hacts.
  - apply (f_equal length) in Hacts. by vm_compute in Hacts.
  - by vm_compute in Hr.
  - rewrite push_targets_app, Ht. by vm_compute.
Defined.

(** A pull, an expiration that comes too early for anything, a lost connection. *)
Definition demo_events : list (broker_event (St := MemoryMessageStore SpscRingBuffer)) :=
  [EvFrame demo_env demo_conn (make_frame FrameType.Pull []); EvVisit (VisitExpire "t" 1000);
   EvClosed 4].

Lemma publish_replay_ignored_witness :
  let b' := (HandlePublish demo_proto store_zlib demo_env demo_conn demo_publish demo_broker).1.1 in
  let later := foldl (broker_step demo_proto store_zlib) b' demo_events in
  HandlePublish demo_proto store_zlib demo_env demo_conn demo_publish later =
    (later, demo_conn, [SendResponse demo_proto true "" 7]).
Proof.
  cbv zeta.
  pose proof (publish_replay_ignored demo_proto store_zlib demo_env demo_conn demo_publish
    demo_broker (demo_request [Byte.x63]) demo_events demo_env demo_conn demo_publish
    (demo_request [Byte.x63])
    (bo_tm _ _ demo_broker_ok) eq_refl eq_refl eq_refl eq_refl ltac:(done)) as Hr.
  destruct (HandlePublish demo_proto store_zlib demo_env demo_conn demo_publish demo_broker)
    as [[b' conn'] acts] eqn:E. cbn [fst].
  destruct Hr as [(code & msg & Hacts & _)|Hr]; [|exact Hr].
  apply (f_equal (length ∘ snd)) in E. rewrite Hacts in E. by vm_compute in E.
Defined.

Lemma demo_events_ok : Forall broker_event_ok demo_events.
Proof.
  constructor; [split; [apply demo_clocks|by vm_compute]|]. by repeat constructor.
Qed.

Lemma accepted_message_survives_witness : exists m,
  sm_payload m = [Byte.x63] /\
  ms_holds "t" m (store_ (foldl (broker_step demo_proto store_zlib)
    (OnFrameReceived demo_proto store_zlib demo_env demo_conn demo_publish demo_broker).1.1
    demo_events)).
Proof.
  assert (0 + max_cost * (zlen demo_events + 1) < 2 ^ 64 - 2) as Hn by (by vm_compute).
  assert (broker_event_ok (St := MemoryMessageStore SpscRingBuffer)
    (EvFrame demo_env demo_conn demo_publish)) as Hev.
  { split; [apply demo_clocks|by vm_compute]. }
  pose proof (accepted_message_survives demo_proto store_zlib 0 demo_broker demo_env demo_conn
    demo_publish (demo_request [Byte.x63]) demo_events demo_contract store_zlib_contract
    demo_broker_ok (Z.le_refl 0) Hn Hev demo_events_ok eq_refl eq_refl) as Hs.
  destruct (OnFrameReceived _ _ _ _ _ demo_broker) as [[b' conn'] acts] eqn:E. cbn [fst].
  assert (acts = [SendTo 4 (push_frame demo_proto (mkPushMessage 1 "t" [Byte.x63] 5 0 false));
    SendResponse demo_proto true "" 1]) as ->.
  { replace acts with ((OnFrameReceived demo_proto store_zlib demo_env demo_conn demo_publish
      demo_broker).2) by (by rewrite E). by vm_compute. }
  destruct Hs as [(code & msg & [=] & _)|[[_ [=]]|
    (id & payload & z & [[Hpl _]|(_ & _ & Hlen & Hdec)] & _ & Hheld)]].
  - eexists. split; [|apply Hheld; by repeat constructor]. exact Hpl.
  - clear E Hheld. destruct payload as [|x l]; [done|]. cbn [length demo_request pub_payload] in Hlen. lia.
Defined.

(** Both messages of a batch may be stored; those that are, are held. *)
Lemma batch_publish_delivers_witness : exists accepted stored,
  sublist accepted [demo_request [Byte.x61]; demo_request [Byte.x62]] /\
  Forall2 (stored_for store_zlib) accepted stored /\ stored <> [] /\
  Forall (λ m, held m (store_ (HandleBatchPublish demo_proto store_zlib demo_env demo_conn
    (make_frame FrameType.BatchPublish [Byte.x61; Byte.x62]) demo_broker).1.1)) stored.
Proof.
  pose proof (batch_publish_delivers demo_proto store_zlib 0 demo_broker demo_env demo_conn
    (make_frame FrameType.BatchPublish [Byte.x61; Byte.x62]) _ demo_contract store_zlib_contract
    demo_broker_ok (Z.le_refl 0) ltac:(by vm_compute) demo_clocks ltac:(by vm_compute) eq_refl) as Hb.
  destruct (HandleBatchPublish _ _ _ _ _ _) as [[b' conn'] acts] eqn:E. cbn [fst].
  destruct Hb as [(code & msg & Hacts & _)|(accepted & stored & pushes & m & Hs & Hf & Hh & Hl & _)].
  - apply (f_equal (length ∘ snd)) in E. rewrite Hacts in E. by vm_compute in E.
  - exists accepted, stored. split_and!; [exact Hs|exact Hf|by intros ->|exact Hh].
Defined.
