(* ===== verification/TcpServer.v ===== *)
(** * The server: [network/tcp_server.{h,cpp}]

    Connection objects, the table of registered ones under [connections_mutex_],
    and the bodies of the accept, event and heartbeat loops.  A call that locks
    the mutex while the same thread holds it never returns: [None]. *)

From S2P Require Import Prelude Types Config Frame StreamingCodec RateLimiter Connection.
#[local] Open Scope Z_scope.

(** ** State *)

(** [objects] holds every connection made; the table refers to them by id. *)
Record TcpServer := mkServer {
  server_config : BrokerConfig;
  running_ : bool;
  objects : gmap ConnectionId Connection;
  connections_ : gset ConnectionId;
  next_conn_id_ : Z;
}.

Definition TcpServer_new (config : BrokerConfig) : TcpServer := mkServer config false ∅ ∅ 1.

Definition set_objects (o : gmap ConnectionId Connection) (s : TcpServer) : TcpServer :=
  mkServer (server_config s) (running_ s) o (connections_ s) (next_conn_id_ s).
Definition set_connections (c : gset ConnectionId) (s : TcpServer) : TcpServer :=
  mkServer (server_config s) (running_ s) (objects s) c (next_conn_id_ s).
Definition set_running (r : bool) (s : TcpServer) : TcpServer :=
  mkServer (server_config s) r (objects s) (connections_ s) (next_conn_id_ s).

(** The table's entries in an order. *)
Definition registered (order : Traversal ConnectionId) (s : TcpServer) : list ConnectionId :=
  (entries order (gset_to_gmap tt (connections_ s))).*1.

(** [opened] tells whether the system calls on the listening socket succeed. *)
Definition Start (opened : bool) (s : TcpServer) : bool * TcpServer :=
  if opened then (true, set_running true s) else (false, s).

(** ** Closing and sending *)

(** The close handler of a connection; [locked] tells whether the calling
    thread holds [connections_mutex_]. *)
Definition close_handler (locked : bool) (id : ConnectionId) (s : TcpServer)
    : option TcpServer :=
  if locked then None else Some (set_connections (connections_ s ∖ {[id]}) s).

(** Puts back an object an operation of [Connection] has changed, and runs the
    close handler if the operation closed it. *)
Definition update (locked : bool) (id : ConnectionId) (conn conn' : Connection) (s : TcpServer)
    : option TcpServer :=
  let s := set_objects (<[id := conn']> (objects s)) s in
  if negb (closed_ conn) && closed_ conn' then close_handler locked id s else Some s.

(** [conn->Close()]. *)
Definition close_connection (locked : bool) (id : ConnectionId) (s : TcpServer)
    : option TcpServer :=
  match objects s !! id with
  | None => Some s
  | Some conn => update locked id conn (Close conn).2 s
  end.

(** [conn->SendFrame(frame)]: the result, the bytes that left, the server. *)
Definition send_on (locked : bool) (answers : list send_answer) (frame : Frame)
    (id : ConnectionId) (s : TcpServer) : option (bool * list byte * TcpServer) :=
  match objects s !! id with
  | None => Some (false, [], s)
  | Some conn =>
      let r := SendFrame answers frame conn in
      s' ← update locked id conn (sent_conn r) s;
      Some (sent_ok r, sent_wire r, s')
  end.

Definition SendTo (answers : list send_answer) (conn_id : ConnectionId) (frame : Frame)
    (s : TcpServer) : option (bool * list byte * TcpServer) :=
  if bool_decide (conn_id ∈ connections_ s) then send_on true answers frame conn_id s
  else Some (false, [], s).

Fixpoint send_each (answers : ConnectionId -> list send_answer) (frame : Frame)
    (ids : list ConnectionId) (s : TcpServer) : option TcpServer :=
  match ids with
  | [] => Some s
  | id :: ids => '(_, _, s) ← send_on true (answers id) frame id s; send_each answers frame ids s
  end.

Definition Broadcast (order : Traversal ConnectionId) (answers : ConnectionId -> list send_answer)
    (frame : Frame) (s : TcpServer) : option TcpServer :=
  send_each answers frame (registered order s) s.

(** ** The loops *)

(** [AcceptLoop], one accepted client. *)
Definition accept_client (now_ms : Z) (s : TcpServer) : TcpServer :=
  let id := next_conn_id_ s in
  let conn := Connection_new id (Some (server_config s)) now_ms in
  mkServer (server_config s) (running_ s) (<[id := conn]> (objects s)) ({[id]} ∪ connections_ s)
    (u64 (id + 1)).

(** [EventLoop], one event: the frames read, for the frame handler. *)
Definition on_event (answers : list recv_answer) (now_ms : Z) (id : ConnectionId) (s : TcpServer)
    : option (list Frame * TcpServer) :=
  if bool_decide (id ∈ connections_ s) then
    match objects s !! id with
    | None => Some ([], s)
    | Some conn =>
        '(frames, conn') ← OnRead answers now_ms conn;
        s' ← update false id conn conn' s;
        Some (frames, s')
    end
  else Some ([], s).

(** The test of [HeartbeatLoop]: [now] in nanoseconds, the difference truncated
    to milliseconds. *)
Definition idle (now timeout : Z) (conn : Connection) : bool :=
  negb (closed_ conn) &&
  (timeout <=? Z.quot (now - last_active_time_ms_ conn * 1000000) 1000000).

Definition is_idle (now : Z) (s : TcpServer) (id : ConnectionId) : bool :=
  match objects s !! id with
  | Some conn => idle now (heartbeat_timeout_ms (server_config s)) conn
  | None => false
  end.

Definition idle_connections (order : Traversal ConnectionId) (now : Z) (s : TcpServer)
    : list ConnectionId :=
  filter (λ id, is_idle now s id = true) (registered order s).

Definition close_all (ids : list ConnectionId) (s : TcpServer) : option TcpServer :=
  foldl (λ s id, s ← s; close_connection false id s) (Some s) ids.

(** [HeartbeatLoop], one round: the connections reported to the idle handler,
    before they are closed. *)
Definition HeartbeatLoop_round (order : Traversal ConnectionId) (now : Z) (s : TcpServer)
    : option (list ConnectionId * TcpServer) :=
  let ids := idle_connections order now s in
  s' ← close_all ids s; Some (ids, s').

Definition Stop (order : Traversal ConnectionId) (s : TcpServer) : option TcpServer :=
  let ids := registered order s in
  close_all ids (set_connections ∅ (set_running false s)).

(** ** Runs *)

Inductive server_op :=
  | OpStart (opened : bool)
  | OpAccept (now_ms : Z)
  | OpEvent (answers : list recv_answer) (now_ms : Z) (id : ConnectionId)
  | OpReply (answers : list send_answer) (frame : Frame) (id : ConnectionId)
  | OpSendTo (answers : list send_answer) (frame : Frame) (id : ConnectionId)
  | OpBroadcast (order : Traversal ConnectionId) (answers : ConnectionId -> list send_answer)
      (frame : Frame)
  | OpHeartbeat (order : Traversal ConnectionId) (now : Z)
  | OpStop (order : Traversal ConnectionId).

Definition server_step (s : TcpServer) (op : server_op) : option TcpServer :=
  match op with
  | OpStart opened => Some (Start opened s).2
  | OpAccept now_ms => Some (accept_client now_ms s)
  | OpEvent answers now_ms id => snd <$> on_event answers now_ms id s
  | OpReply answers frame id => snd <$> send_on false answers frame id s
  | OpSendTo answers frame id => snd <$> SendTo answers id frame s
  | OpBroadcast order answers frame => Broadcast order answers frame s
  | OpHeartbeat order now => snd <$> HeartbeatLoop_round order now s
  | OpStop order => Stop order s
  end.

Fixpoint server_run (ops : list server_op) (s : TcpServer) : option TcpServer :=
  match ops with
  | [] => Some s
  | op :: ops => s' ← server_step s op; server_run ops s'
  end.

(** ** The invariant *)

(** [n] bounds the number of operations so far; [pending] are the connections
    taken off the table whose closing is still to come. *)
Record server_inv (n : Z) (pending : list ConnectionId) (s : TcpServer) : Prop := {
  sv_objects : map_Forall (λ id conn, conn_id_ conn = id /\ id < next_conn_id_ s /\
    (closed_ conn = false -> id ∈ connections_ s \/ id ∈ pending)) (objects s);
  sv_table : forall id, id ∈ connections_ s ->
    exists conn, objects s !! id = Some conn /\ closed_ conn = false;
  sv_next : 0 < next_conn_id_ s <= n + 1;
}.

Abbreviation server_ok n s := (server_inv n [] s).

Lemma server_inv_weaken n n' pending s : n <= n' -> server_inv n pending s -> server_inv n' pending s.
Proof. intros Hn [Ho Ht Hx]. split; [done|done|lia]. Qed.

(** What every operation of [Connection] does to an object. *)
Definition evolves (conn conn' : Connection) : Prop :=
  conn_id_ conn' = conn_id_ conn /\ (closed_ conn = true -> closed_ conn' = true).

Lemma SendFrame_evolves answers frame conn :
  evolves conn (sent_conn (SendFrame answers frame conn)).
Proof.
  unfold evolves, SendFrame, Close. destruct (closed_ conn) eqn:Hc; [by cbn; rewrite Hc|].
  repeat case_match; cbn; simplify_eq/=; done.
Qed.

Lemma OnRead_evolves answers now_ms conn frames conn' :
  OnRead answers now_ms conn = Some (frames, conn') -> evolves conn conn'.
Proof.
  unfold evolves, OnRead, Close. destruct (closed_ conn) eqn:Hc; [by intros [= <- <-]|].
  destruct (recv_loop _ _) as [buffer al]. destruct al; cbn [negb].
  - match goal with |- context [feed ?a ?b] => destruct (feed a b) as [[fs codec]|] end;
      cbn; [|done]. by intros [= <- <-].
  - cbn. rewrite Hc. by intros [= <- <-].
Qed.

Lemma update_inv locked n pending id conn conn' s s' :
  server_inv n pending s -> objects s !! id = Some conn -> evolves conn conn' ->
  update locked id conn conn' s = Some s' ->
  server_inv n pending s' /\ objects s' = <[id := conn']> (objects s) /\
  server_config s' = server_config s /\ next_conn_id_ s' = next_conn_id_ s /\
  connections_ s' = (if closed_ conn' then connections_ s ∖ {[id]} else connections_ s).
Proof.
  intros [Ho Ht Hx] Hconn [Hid Hcl] Hup. destruct (Ho id conn Hconn) as (Hcid & Hlt & Hopen).
  assert (objects s' = <[id := conn']> (objects s) /\ server_config s' = server_config s /\
    next_conn_id_ s' = next_conn_id_ s /\
    connections_ s' = (if closed_ conn' then connections_ s ∖ {[id]} else connections_ s))
    as (Hobj & Hcfg & Hnext & Hset).
  { unfold update, close_handler in Hup. destruct (closed_ conn) eqn:Hc.
    - rewrite Hcl in * by done. cbn in Hup. injection Hup as <-. repeat split; try done. cbn.
      apply leibniz_equiv. assert (id ∉ connections_ s); [|set_solver].
      intros (c & Hc' & Hoc)%Ht. congruence.
    - destruct (closed_ conn') eqn:Hc'; cbn in Hup; destruct locked; simplify_eq; done. }
  split; [|done]. split.
  - rewrite Hobj, Hnext, Hset. intros i c. destruct (decide (i = id)) as [->|Hne].
    + rewrite lookup_insert_eq. intros [= <-]. split; [congruence|]. split; [done|].
      intros Hoc. rewrite Hoc. apply Hopen. destruct (closed_ conn); [by rewrite Hcl in Hoc|done].
    + rewrite lookup_insert_ne by done. intros Hi. destruct (Ho i c Hi) as (? & ? & Hopen').
      split; [done|]. split; [done|]. intros Hoc. destruct (Hopen' Hoc); [left|by right].
      destruct (closed_ conn'); set_solver.
  - rewrite Hobj, Hset. intros i Hi. destruct (decide (i = id)) as [->|Hne].
    + rewrite lookup_insert_eq. exists conn'. split; [done|].
      destruct (closed_ conn'); [set_solver|done].
    + rewrite lookup_insert_ne by done. apply Ht. destruct (closed_ conn'); set_solver.
  - by rewrite Hnext.
Qed.

Lemma send_on_inv locked n pending answers frame id s r :
  server_inv n pending s -> send_on locked answers frame id s = Some r ->
  server_inv n pending r.2.
Proof.
  intros Hinv. unfold send_on. destruct (objects s !! id) as [conn|] eqn:Hc; [|by intros [= <-]].
  cbv zeta. destruct (update _ _ _ _ _) as [s'|] eqn:Hup; [|done]. intros [= <-].
  eapply update_inv; [done|done|apply SendFrame_evolves|done].
Qed.

Lemma send_each_inv n pending answers frame ids s s' :
  server_inv n pending s -> send_each answers frame ids s = Some s' -> server_inv n pending s'.
Proof.
  revert s. induction ids as [|id ids IH]; intros s Hinv; [by intros [= <-]|]. cbn [send_each].
  destruct (send_on _ _ _ _ _) as [[[ok wire] s1]|] eqn:Hs; [|done]. cbn.
  apply IH. exact (send_on_inv _ _ _ _ _ _ _ _ Hinv Hs).
Qed.

Lemma on_event_inv n pending answers now_ms id s r :
  server_inv n pending s -> on_event answers now_ms id s = Some r -> server_inv n pending r.2.
Proof.
  intros Hinv. unfold on_event. case_bool_decide; [|by intros [= <-]].
  destruct (objects s !! id) as [conn|] eqn:Hc; [|by intros [= <-]].
  destruct (OnRead _ _ _) as [[frames conn']|] eqn:Hr; [|done]. cbn.
  destruct (update _ _ _ _ _) as [s'|] eqn:Hup; [|done]. intros [= <-].
  eapply update_inv; [done|done|by eapply OnRead_evolves|done].
Qed.

Lemma accept_client_inv n now_ms s : 0 <= n < 2 ^ 64 - 2 ->
  server_ok n s -> server_ok (n + 1) (accept_client now_ms s).
Proof.
  intros Hn [Ho Ht Hx].
  assert (next_conn_id_ (accept_client now_ms s) = next_conn_id_ s + 1) as Hnext.
  { cbn. apply u64_id. lia. }
  split; cbn [accept_client objects connections_ server_config].
  - rewrite Hnext. intros i c. destruct (decide (i = next_conn_id_ s)) as [->|Hne].
    + rewrite lookup_insert_eq. intros [= <-]. split; [done|]. split; [lia|]. left. set_solver.
    + rewrite lookup_insert_ne by done. intros Hi. destruct (Ho i c Hi) as (? & ? & Hopen).
      split; [done|]. split; [lia|]. intros Hoc.
      destruct (Hopen Hoc) as [|Hp]; [left; set_solver|by right].
  - intros i [->%elem_of_singleton|Hi]%elem_of_union.
    + rewrite lookup_insert_eq. by eexists.
    + destruct (Ht i Hi) as (c & Hc & Hoc). destruct (Ho i c Hc) as (_ & Hlt & _).
      rewrite lookup_insert_ne by lia. by exists c.
  - rewrite Hnext. lia.
Qed.

(** ** Closing a list of connections *)

Lemma close_connection_inv n id pending s : server_inv n (id :: pending) s ->
  exists s', close_connection false id s = Some s' /\ server_inv n pending s' /\
    server_config s' = server_config s /\
    objects s' = alter set_closed id (objects s) /\ connections_ s' = connections_ s ∖ {[id]}.
Proof.
  intros Hinv. pose proof Hinv as [Ho Ht Hx]. unfold close_connection.
  destruct (objects s !! id) as [conn|] eqn:Hc.
  - assert (closed_ (Close conn).2 = true) as Hclosed by (unfold Close; by destruct (closed_ conn) eqn:?).
    assert (evolves conn (Close conn).2) as Hev.
    { unfold evolves, Close. by destruct (closed_ conn) eqn:?. }
    destruct (update false id conn (Close conn).2 s) as [s'|] eqn:Hup.
    2:{ unfold update, close_handler in Hup. by case_match. }
    destruct (update_inv false n (id :: pending) id conn _ s s' Hinv Hc Hev Hup)
      as ([Ho' Ht' Hx'] & Hobj & Hcfg & Hnext & Hset). rewrite Hclosed in Hset.
    exists s'. split; [done|]. split.
    + split; [|done|done]. intros i c Hi. destruct (Ho' i c Hi) as (? & ? & Hopen).
      split; [done|]. split; [done|]. intros Hoc.
      destruct (Hopen Hoc) as [|[->|]%elem_of_cons]; [by left| |by right].
      rewrite Hobj, lookup_insert_eq in Hi. congruence.
    + split; [done|]. split; [|done]. rewrite Hobj. apply map_eq. intros i.
      destruct (decide (i = id)) as [->|Hne].
      * rewrite lookup_insert_eq, lookup_alter_eq, Hc. cbn. f_equal. unfold Close.
        destruct (closed_ conn) eqn:E; [|done]. destruct conn; cbn in *. by subst.
      * by rewrite lookup_insert_ne, lookup_alter_ne.
  - exists s. split; [done|]. split.
    + split; [|done|done]. intros i c Hi. destruct (Ho i c Hi) as (? & ? & Hopen).
      split; [done|]. split; [done|]. intros Hoc.
      destruct (Hopen Hoc) as [|[->|]%elem_of_cons]; [by left|congruence|by right].
    + split; [done|]. split.
      * symmetry. by apply alter_id; intros ? ?; congruence.
      * apply leibniz_equiv. assert (id ∉ connections_ s); [|set_solver].
        intros (c & Hc' & _)%Ht. congruence.
Qed.

Lemma server_inv_pending n id pending s : server_inv n pending s -> server_inv n (id :: pending) s.
Proof.
  intros [Ho Ht Hx]. split; [|done|done]. intros i c Hi. destruct (Ho i c Hi) as (? & ? & Hopen).
  split; [done|]. split; [done|]. intros Hoc. destruct (Hopen Hoc); [by left|right; by right].
Qed.

(** Closing the connections of a list, which may be what is pending. *)
Lemma close_all_inv n ids s : server_inv n ids s ->
  exists s', close_all ids s = Some s' /\ server_inv n [] s' /\
    server_config s' = server_config s /\
    (forall id, objects s' !! id =
      if bool_decide (id ∈ ids) then set_closed <$> objects s !! id else objects s !! id) /\
    (forall id, id ∈ connections_ s' <-> id ∈ connections_ s /\ id ∉ ids).
Proof.
  revert s. induction ids as [|id ids IH]; intros s Hinv.
  { exists s. split_and!; try done. set_solver. }
  destruct (close_connection_inv n id ids s Hinv) as (s1 & Hs1 & Hinv1 & Hcfg & Hobj & Hset).
  destruct (IH s1 Hinv1) as (s' & Hs' & Hinv' & Hcfg' & Hobj' & Hset').
  exists s'. unfold close_all in *. cbn [foldl mbind option_bind]. rewrite Hs1.
  split; [done|]. split; [done|]. split; [congruence|]. split.
  - intros i. rewrite Hobj', Hobj. destruct (decide (i = id)) as [->|Hne].
    + rewrite lookup_alter_eq. rewrite (bool_decide_true (id ∈ id :: ids)) by (by left).
      case_bool_decide; [|done]. by destruct (objects s !! id).
    + rewrite lookup_alter_ne by done. apply (f_equal (λ x : bool, if x then _ else _)).
      apply bool_decide_ext. rewrite elem_of_cons. tauto.
  - intros i. rewrite Hset', Hset, elem_of_cons. set_solver.
Qed.

Lemma registered_elem order s id : id ∈ registered order s <-> id ∈ connections_ s.
Proof.
  unfold registered. rewrite list_elem_of_fmap. split.
  - intros ([i []] & -> & Hi%elem_of_entries). by apply lookup_gset_to_gmap_Some in Hi as [? _].
  - intros Hi. exists (id, tt). split; [done|]. apply elem_of_entries.
    by apply lookup_gset_to_gmap_Some.
Qed.

Lemma server_inv_all n pending s : server_ok n s -> server_inv n pending s.
Proof.
  intros Hinv. induction pending as [|id pending IH]; [done|]. by apply server_inv_pending.
Qed.

Lemma HeartbeatLoop_round_spec n order now s : server_ok n s ->
  exists s', HeartbeatLoop_round order now s = Some (idle_connections order now s, s') /\
    server_ok n s' /\ server_config s' = server_config s /\
    (forall id, objects s' !! id =
      if bool_decide (id ∈ idle_connections order now s)
      then set_closed <$> objects s !! id else objects s !! id) /\
    (forall id, id ∈ connections_ s' <->
      id ∈ connections_ s /\ (id ∉ idle_connections order now s)).
Proof.
  intros Hinv. unfold HeartbeatLoop_round.
  destruct (close_all_inv n (idle_connections order now s) s) as (s' & -> & H').
  { by apply server_inv_all. }
  by exists s'.
Qed.

Lemma Stop_spec n order s : server_ok n s ->
  exists s', Stop order s = Some s' /\ server_ok n s' /\ connections_ s' = ∅ /\
    (forall id conn, objects s' !! id = Some conn -> closed_ conn = true) /\
    (forall id, is_Some (objects s !! id) -> is_Some (objects s' !! id)).
Proof.
  intros Hinv. pose proof Hinv as [Ho Ht Hx]. unfold Stop.
  destruct (close_all_inv n (registered order s) (set_connections ∅ (set_running false s)))
    as (s' & -> & Hinv' & _ & Hobj & Hset).
  { split; [|by intros ? ?%elem_of_empty|done]. intros i c Hi.
    destruct (Ho i c Hi) as (? & ? & Hopen). split; [done|]. split; [done|]. intros Hoc. right.
    apply registered_elem. by destruct (Hopen Hoc) as [|?%elem_of_nil]. }
  exists s'. split; [done|]. split; [done|].
  assert (connections_ s' = ∅) as Hempty.
  { apply leibniz_equiv. intros i. rewrite Hset. split; [by intros [? _]|].
    by intros ?%elem_of_empty. }
  split; [done|]. split.
  2:{ intros id [conn Hid]. rewrite Hobj. cbn. rewrite Hid. case_bool_decide; by eexists. }
  intros id conn Hid. destruct (closed_ conn) eqn:Hc; [done|].
  destruct Hinv' as [Ho' _ _]. destruct (Ho' id conn Hid) as (_ & _ & Hopen).
  destruct (Hopen Hc) as [Hin|Hin]; [|by apply elem_of_nil in Hin].
  rewrite Hempty in Hin. by apply elem_of_empty in Hin.
Qed.

Lemma server_step_ok n s op s' : 0 <= n < 2 ^ 64 - 2 ->
  server_ok n s -> server_step s op = Some s' -> server_ok (n + 1) s'.
Proof.
  intros Hn Hinv Hstep. destruct op as [opened|now|answers now id|answers frame id
    |answers frame id|order answers frame|order now|order]; cbn [server_step] in Hstep.
  2:{ injection Hstep as <-. by apply accept_client_inv. }
  all: apply (server_inv_weaken n); [lia|].
  - injection Hstep as <-. destruct opened; [|done]. by destruct Hinv.
  - destruct (on_event _ _ _ _) as [r|] eqn:Hr; [|done]. injection Hstep as <-.
    by eapply on_event_inv.
  - destruct (send_on _ _ _ _ _) as [r|] eqn:Hr; [|done]. injection Hstep as <-.
    by eapply send_on_inv.
  - destruct (SendTo _ _ _ _) as [r|] eqn:Hr; [|done]. injection Hstep as <-.
    unfold SendTo in Hr. case_bool_decide; [by eapply send_on_inv|]. by injection Hr as <-.
  - by eapply send_each_inv.
  - destruct (HeartbeatLoop_round_spec n order now s Hinv) as (s1 & Heq & Hok & _).
    rewrite Heq in Hstep. by injection Hstep as <-.
  - destruct (Stop_spec n order s Hinv) as (s1 & Heq & Hok & _). congruence.
Qed.

Lemma server_run_ok n ops s s' : 0 <= n -> n + zlen ops < 2 ^ 64 - 2 ->
  server_ok n s -> server_run ops s = Some s' -> server_ok (n + zlen ops) s'.
Proof.
  revert n s. induction ops as [|op ops IH]; intros n s Hn0 Hn Hinv Hrun.
  { cbn in *. simplify_eq. by rewrite Z.add_0_r. }
  cbn [server_run length] in *. destruct (server_step s op) as [s1|] eqn:Hs; [|done].
  replace (n + Z.of_nat (S (length ops))) with (n + 1 + zlen ops) by lia.
  apply (IH (n + 1) s1); [lia|lia| |done]. by eapply server_step_ok; [lia|..].
Qed.

Lemma server_new_ok config : server_ok 0 (TcpServer_new config).
Proof. split; [apply map_Forall_empty|by intros ? ?%elem_of_empty|cbn; lia]. Qed.

Lemma NoDup_idle order now s : NoDup (idle_connections order now s).
Proof. apply NoDup_filter, NoDup_entries_keys. Qed.

(** In every state the server can reach, a heartbeat round reports and
    closes exactly the open connections that were inactive for the timeout: each
    once, none else is touched, and afterwards the table holds exactly the
    other registered connections, all of them open. *)
Theorem heartbeat_reaps_idle config ops s order now :
  zlen ops < 2 ^ 64 - 2 -> server_run ops (TcpServer_new config) = Some s ->
  exists s', HeartbeatLoop_round order now s = Some (idle_connections order now s, s') /\
    NoDup (idle_connections order now s) /\
    (forall id, id ∈ idle_connections order now s <->
      exists conn, objects s !! id = Some conn /\
        idle now (heartbeat_timeout_ms (server_config s)) conn = true) /\
    (forall id conn, objects s !! id = Some conn -> objects s' !! id =
      Some (if is_idle now s id then set_closed conn else conn)) /\
    (forall id, id ∈ connections_ s' <->
      exists conn, objects s' !! id = Some conn /\ closed_ conn = false).
Proof.
  intros Hops Hrun.
  assert (server_ok (0 + zlen ops) s) as Hinv.
  { eapply server_run_ok; [lia|lia|apply server_new_ok|done]. }
  pose proof Hinv as [Ho Ht Hx].
  assert (forall id, id ∈ idle_connections order now s <-> is_idle now s id = true) as Hidle.
  { intros id. unfold idle_connections. rewrite list_elem_of_filter, registered_elem.
    split; [by intros [? _]|]. intros Hi. split; [done|]. unfold is_idle in Hi.
    destruct (objects s !! id) as [conn|] eqn:Hc; [|done]. destruct (Ho id conn Hc) as (_ & _ & Hop).
    unfold idle in Hi. apply andb_true_iff in Hi as [Hi _]. apply negb_true_iff in Hi.
    destruct (Hop Hi) as [|Hn]; [done|]. by apply elem_of_nil in Hn. }
  destruct (HeartbeatLoop_round_spec _ order now s Hinv) as (s' & Heq & Hinv' & _ & Hobj & Hset).
  exists s'. split; [done|]. split; [apply NoDup_idle|]. split; [|split].
  - intros id. rewrite Hidle. unfold is_idle. destruct (objects s !! id) as [conn|].
    + split; [by eexists|]. by intros (? & [= <-] & ?).
    + split; [done|]. by intros (? & ? & _).
  - intros id conn Hc. rewrite Hobj, Hc. destruct (is_idle now s id) eqn:Hi.
    + by rewrite bool_decide_true by (by apply Hidle).
    + rewrite bool_decide_false; [done|]. rewrite Hidle. by rewrite Hi.
  - destruct Hinv' as [Ho' Ht' _]. intros id. split; [apply Ht'|].
    intros (conn & Hc & Hoc). destruct (Ho' id conn Hc) as (_ & _ & Hop).
    destruct (Hop Hoc) as [|Hn]; [done|]. by apply elem_of_nil in Hn.
Qed.

(** ** Writing to a broken connection *)

(** The answers of a socket that works. *)
Definition works (a : send_answer) : Prop := a <> SendError /\ a <> Accepted 0.

Lemma send_loop_works answers unsent :
  Forall works answers -> (send_loop answers unsent).2 <> Broken.
Proof.
  revert unsent. induction answers as [|a answers IH]; intros unsent Hall; [by destruct unsent|].
  apply Forall_cons in Hall as [[Ha1 Ha2] Hall]. destruct unsent as [|x unsent]; [done|].
  cbn [send_loop]. destruct a as [k| |]; [|done|done].
  destruct (0 <? Nat.min k (length (x :: unsent)))%nat eqn:E.
  - specialize (IH (drop (Nat.min k (length (x :: unsent))) (x :: unsent)) Hall).
    by destruct (send_loop answers _) as [bs o].
  - apply Nat.ltb_ge in E. cbn [length] in E. destruct k; [done|lia].
Qed.

Lemma SendFrame_works answers frame conn : Forall works answers ->
  closed_ (sent_conn (SendFrame answers frame conn)) = closed_ conn.
Proof.
  intros Hall. unfold SendFrame. destruct (closed_ conn) eqn:Hc; [done|].
  case_if.
  - case_if; [done|]. pose proof (send_loop_works answers (write_buffer_ conn ++ Encode frame) Hall).
    by destruct (send_loop _ _) as [bs []].
  - pose proof (EncodeHeaderToBuffer_bytes frame (replicate 10 Byte.x00)) as Hh.
    change (zlen (replicate 10 Byte.x00)) with 10 in Hh. rewrite Hh by done. cbv zeta.
    change (10 =? 0) with false. cbv iota.
    destruct answers as [|[k| |] answers]; [done| |done|].
    + apply Forall_cons in Hall as [[_ Ha] _].
      case_if; [done|]. destruct (0 <? _)%nat eqn:E; [done|].
      apply Nat.ltb_ge in E. destruct k; [done|].
      assert (length (header_bytes frame) = 10%nat) as Hl by done.
      rewrite length_app, Hl in E. lia.
    + by apply Forall_cons in Hall as [[Ha _] _].
Qed.

Lemma SendFrame_error answers frame conn :
  closed_ conn = false -> write_buffer_ conn = [] -> use_zero_copy conn = true ->
  SendFrame (SendError :: answers) frame conn = mkSent false (set_closed conn) [].
Proof.
  intros Hc Hw Hz. unfold SendFrame. rewrite Hc, Hw, Hz.
  pose proof (EncodeHeaderToBuffer_bytes frame (replicate 10 Byte.x00)) as Hh.
  change (zlen (replicate 10 Byte.x00)) with 10 in Hh. rewrite Hh by done.
  cbn. unfold Close. by rewrite ?Hc.
Qed.

(** C31: pushing a frame to a connection whose socket fails never returns: the
    failed write closes the connection, whose close handler waits for the lock
    the push holds.  The same failure of an answer to a request returns, and
    takes the connection off the table; and as long as sockets work, pushing
    returns. *)
Theorem broken_push_deadlocks s id conn frame answers :
  id ∈ connections_ s -> objects s !! id = Some conn -> closed_ conn = false ->
  write_buffer_ conn = [] -> use_zero_copy conn = true ->
  SendTo (SendError :: answers) id frame s = None /\
  (exists s', send_on false (SendError :: answers) frame id s = Some (false, [], s') /\
     id ∉ connections_ s') /\
  (Forall works answers -> is_Some (SendTo answers id frame s)).
Proof.
  intros Hin Hobj Hc Hw Hz. unfold SendTo. rewrite !bool_decide_true by done. unfold send_on.
  rewrite Hobj. cbv zeta. rewrite SendFrame_error by done.
  unfold update. cbn [sent_conn sent_ok sent_wire closed_ set_closed]. rewrite Hc. cbn [negb andb].
  split; [done|]. split.
  - eexists. split; [done|]. cbn. apply not_elem_of_difference. right. by apply elem_of_singleton.
  - intros Hall. rewrite SendFrame_works, Hc by done. cbn. by eexists.
Qed.

(** ** Concrete runs *)

Definition demo_server : TcpServer :=
  default (TcpServer_new BrokerConfig_default)
    (server_run [OpStart true; OpAccept 0; OpAccept 9000] (TcpServer_new BrokerConfig_default)).

Lemma heartbeat_reaps_idle_witness : exists s',
  HeartbeatLoop_round key_order 16000000000 demo_server = Some ([1], s') /\
  2 ∈ connections_ s' /\ (1 ∉ connections_ s').
Proof.
  destruct (heartbeat_reaps_idle BrokerConfig_default
    [OpStart true; OpAccept 0; OpAccept 9000] demo_server key_order 16000000000 ltac:(by vm_compute)
    eq_refl) as (s' & Heq & _ & _ & Hobj & Hset).
  exists s'. split; [exact Heq|]. rewrite !Hset. split.
  - eexists. split; [apply Hobj; reflexivity|by vm_compute].
  - intros (conn & Hc & Hopen). erewrite Hobj in Hc by reflexivity. vm_compute in Hc.
    injection Hc as <-. done.
Defined.

Lemma broken_push_deadlocks_witness :
  SendTo [SendError] 1 Frame_default demo_server = None.
Proof.
  refine (proj1 (broken_push_deadlocks demo_server 1 _ Frame_default [] _ _ _ _ _));
    [by apply (bool_decide_eq_true_1 _)|reflexivity|done..].
Defined.
