(* ===== verification/TcpClient.v ===== *)
(** * The client: [network/tcp_client.{h,cpp}]

    The members of [TcpClient], its calls, and the bodies of its read and ping
    threads.  Random numbers, clocks and the answers of the network are
    arguments; [None] is a call that terminates the program. *)

From Stdlib Require Import Ascii String.
From S2P Require Import Prelude Types Config Frame StreamingCodec Connection Dedup.
#[local] Open Scope Z_scope.

(** ** The producer id *)

Definition hex_digit (n : Z) : ascii :=
  ascii_of_nat (Z.to_nat (if n <? 10 then 48 + n else 87 + n)).

(** [oss << std::hex << n]; sixteen digits are enough for 64 bits. *)
Fixpoint hex_go (fuel : nat) (n : Z) (acc : string) : string :=
  match fuel with
  | O => acc
  | S fuel =>
      let acc := String (hex_digit (n mod 16)) acc in
      if n <? 16 then acc else hex_go fuel (n / 16) acc
  end.

Definition hex (n : Z) : string := hex_go 16 n "".

Fixpoint fill (n : nat) (s : string) : string :=
  match n with O => s | S n => String "0" (fill n s) end.

(** [std::setfill('0') << std::setw(width)]. *)
Definition setw (width : nat) (s : string) : string := fill (width - String.length s) s.

Definition GenerateProducerId (p1 p2 : Z) : string :=
  (setw 8 (hex (Z.shiftr p1 32))
   ++ setw 4 (hex (Z.land (Z.shiftr p1 16) 0xFFFF))
   ++ setw 4 (hex (Z.land p1 0xFFFF))
   ++ setw 4 (hex (Z.land (Z.shiftr p2 48) 0xFFFF))
   ++ setw 12 (hex (Z.land p2 0xFFFFFFFFFFFF)))%string.

(** ** State *)

(** The threads are represented by whether they are joinable, the frame handler
    by whether it is set: what it is given is a result. *)
Record TcpClient := mkClient {
  host_ : string;
  port_ : Z;
  client_config_ : option BrokerConfig; (* a pointer, possibly null *)
  connection_ : option Connection;
  connected_ : bool;
  read_thread_ : bool;
  ping_thread_ : bool;
  frame_handler_ : bool;
  producer_id_ : string;
  next_sequence_id_ : Z;
  last_pong_time_ms_ : Z;
}.

Definition TcpClient_new : TcpClient :=
  mkClient "" 0 None None false false false false "" 1 0.

Definition set_session (host : string) (port : Z) (config : option BrokerConfig)
    (producer_id : string) (c : TcpClient) : TcpClient :=
  mkClient host port config (connection_ c) (connected_ c) (read_thread_ c) (ping_thread_ c)
    (frame_handler_ c) producer_id 1 (last_pong_time_ms_ c).
Definition set_link (connection : option Connection) (connected read ping : bool)
    (c : TcpClient) : TcpClient :=
  mkClient (host_ c) (port_ c) (client_config_ c) connection connected read ping
    (frame_handler_ c) (producer_id_ c) (next_sequence_id_ c) (last_pong_time_ms_ c).
Definition set_connection (conn : Connection) (c : TcpClient) : TcpClient :=
  set_link (Some conn) (connected_ c) (read_thread_ c) (ping_thread_ c) c.
Definition set_counters (next last_pong : Z) (c : TcpClient) : TcpClient :=
  mkClient (host_ c) (port_ c) (client_config_ c) (connection_ c) (connected_ c)
    (read_thread_ c) (ping_thread_ c) (frame_handler_ c) (producer_id_ c) next last_pong.

Definition SetFrameHandler (c : TcpClient) : TcpClient :=
  mkClient (host_ c) (port_ c) (client_config_ c) (connection_ c) (connected_ c)
    (read_thread_ c) (ping_thread_ c) true (producer_id_ c) (next_sequence_id_ c)
    (last_pong_time_ms_ c).

(** ** Connecting *)

(** How far the system calls of [Connect] get. *)
Inductive connect_answer := NoSocket | BadAddress | Unreachable | Established.

Definition client_heartbeat (c : TcpClient) : bool :=
  match client_config_ c with Some cfg => heartbeat_enabled cfg | None => true end.

(** [p1] and [p2] are the random numbers drawn; [conn_ms] and [pong_ms] the
    clock readings of the connection's constructor and of [Connect].  Assigning
    to a joinable [std::thread] terminates the program. *)
Definition Connect (p1 p2 : Z) (net : connect_answer) (conn_ms pong_ms : Z) (host : string)
    (port : Z) (config : option BrokerConfig) (c : TcpClient) : option (bool * TcpClient) :=
  let c := set_session host port config (GenerateProducerId p1 p2) c in
  match net with
  | Established =>
      let conn := Connection_new 1 config conn_ms in
      if read_thread_ c then None
      else if client_heartbeat c && ping_thread_ c then None
      else
        let c := set_counters (next_sequence_id_ c) (u64 pong_ms) c in
        Some (true, set_link (Some conn) true true (client_heartbeat c || ping_thread_ c) c)
  | _ => Some (false, c)
  end.

(** Both threads are joined; they end because [connected_] is false. *)
Definition Disconnect (c : TcpClient) : TcpClient := set_link None false false false c.

Definition Client_SendFrame (answers : list send_answer) (frame : Frame) (c : TcpClient)
    : bool * list byte * TcpClient :=
  if negb (connected_ c) then (false, [], c)
  else
    match connection_ c with
    | None => (false, [], c)
    | Some conn =>
        if closed_ conn then (false, [], c)
        else
          let r := SendFrame answers frame conn in
          (sent_ok r, sent_wire r, set_connection (sent_conn r) c)
    end.

Definition IsConnected (c : TcpClient) : bool :=
  if negb (connected_ c) then false
  else match connection_ c with Some conn => negb (closed_ conn) | None => false end.

Definition GetNextSequenceId (c : TcpClient) : Z * TcpClient :=
  (next_sequence_id_ c, set_counters (u64 (next_sequence_id_ c + 1)) (last_pong_time_ms_ c) c).

(** ** The threads *)

(** A frame with a default header and no payload. *)
Definition control_frame (t : FrameMessageType) : Frame :=
  mkFrame kFrameMagic kFrameVersion t 0 [].

(** The connection's frame handler: the frames it hands on, the bytes it sends. *)
Definition on_frame (answers : list send_answer) (pong_ms : Z) (frame : Frame) (c : TcpClient)
    : list Frame * list byte * TcpClient :=
  let to_user := if frame_handler_ c then [frame] else [] in
  if bool_decide (msg_type frame = FrameType.Ping) then
    let '(_, wire, c) := Client_SendFrame answers (control_frame FrameType.Pong) c in
    ([], wire, c)
  else if bool_decide (msg_type frame = FrameType.Pong) then
    (to_user, [], set_counters (next_sequence_id_ c) (u64 pong_ms) c)
  else (to_user, [], c).

(** The [i]-th frame uses the [i]-th answers and clock reading. *)
Fixpoint on_frames (answers : nat -> list send_answer) (pong_ms : nat -> Z) (i : nat)
    (frames : list Frame) (c : TcpClient) : list Frame * list byte * TcpClient :=
  match frames with
  | [] => ([], [], c)
  | frame :: frames =>
      let '(user, wire, c) := on_frame (answers i) (pong_ms i) frame c in
      let '(users, wires, c) := on_frames answers pong_ms (i + 1) frames c in
      (user ++ users, wire ++ wires, c)
  end.

(** The flag tells whether the loop goes on. *)
Definition ReadLoop_round (reads : list recv_answer) (now_ms : Z)
    (answers : nat -> list send_answer) (pong_ms : nat -> Z) (c : TcpClient)
    : option (bool * list Frame * list byte * TcpClient) :=
  if negb (connected_ c) then Some (false, [], [], c)
  else
    match connection_ c with
    | None => Some (false, [], [], c)
    | Some conn =>
        if closed_ conn then Some (false, [], [], c)
        else
          '(frames, conn) ← OnRead reads now_ms conn;
          let '(user, wire, c) := on_frames answers pong_ms 0 frames (set_connection conn c) in
          Some (true, user, wire, c)
    end.

Definition client_timeout (c : TcpClient) : Z :=
  match client_config_ c with Some cfg => heartbeat_timeout_ms cfg | None => 15000 end.

(** [static_cast<int64_t>] of a [uint64_t]. *)
Definition int64_of (z : Z) : Z := if z <? 2 ^ 63 then z else z - 2 ^ 64.

(** From the end of the sleep. *)
Definition PingLoop_round (answers : list send_answer) (now_ms : Z) (c : TcpClient)
    : bool * list byte * TcpClient :=
  if negb (connected_ c) then (false, [], c)
  else
    let '(ok, wire, c) := Client_SendFrame answers (control_frame FrameType.Ping) c in
    if negb ok then (false, wire, c)
    else if client_timeout c <? now_ms - int64_of (last_pong_time_ms_ c) then
      (false, wire,
       match connection_ c with
       | Some conn => set_connection (Close conn).2 c
       | None => c
       end)
    else (true, wire, c).

(** ** Runs *)

Inductive client_op :=
  | OpConnect (p1 p2 : Z) (net : connect_answer) (conn_ms pong_ms : Z) (host : string) (port : Z)
      (config : option BrokerConfig)
  | OpDisconnect
  | OpSetHandler
  | OpSend (answers : list send_answer) (frame : Frame)
  | OpNextId
  | OpRead (reads : list recv_answer) (now_ms : Z) (answers : nat -> list send_answer)
      (pong_ms : nat -> Z)
  | OpPing (answers : list send_answer) (now_ms : Z).

(** The sequence number an operation issues, with the producer it is issued for. *)
Definition client_step (c : TcpClient) (op : client_op)
    : option (list (string * Z) * TcpClient) :=
  match op with
  | OpConnect p1 p2 net conn_ms pong_ms host port config =>
      '(_, c) ← Connect p1 p2 net conn_ms pong_ms host port config c; Some ([], c)
  | OpDisconnect => Some ([], Disconnect c)
  | OpSetHandler => Some ([], SetFrameHandler c)
  | OpSend answers frame => Some ([], (Client_SendFrame answers frame c).2)
  | OpNextId => let '(id, c') := GetNextSequenceId c in Some ([(producer_id_ c, id)], c')
  | OpRead reads now_ms answers pong_ms =>
      '(_, _, _, c) ← ReadLoop_round reads now_ms answers pong_ms c; Some ([], c)
  | OpPing answers now_ms => Some ([], (PingLoop_round answers now_ms c).2)
  end.

Fixpoint client_run (ops : list client_op) (c : TcpClient)
    : option (list (string * Z) * TcpClient) :=
  match ops with
  | [] => Some ([], c)
  | op :: ops =>
      '(issued, c) ← client_step c op;
      '(issued', c) ← client_run ops c;
      Some (issued ++ issued', c)
  end.

(** ** Hexadecimal fields *)

#[local] Arguments String.append !_ _ / : simpl nomatch.

Definition hex_digit_value (c : ascii) : Z :=
  let k := Z.of_nat (nat_of_ascii c) in if k <? 58 then k - 48 else k - 87.

(** The number a string of digits denotes, continuing [v]. *)
Fixpoint hex_read (v : Z) (s : string) : Z :=
  match s with
  | EmptyString => v
  | String c s => hex_read (v * 16 + hex_digit_value c) s
  end.

Lemma hex_digit_read n : 0 <= n < 16 -> hex_digit_value (hex_digit n) = n.
Proof.
  intros Hn. unfold hex_digit_value, hex_digit.
  destruct (n <? 10) eqn:E; reflect_bools; rewrite nat_ascii_embedding by lia;
    case_if; reflect_bools; lia.
Qed.

Lemma hex_go_read fuel n acc : 0 <= n < 16 ^ Z.of_nat fuel ->
  hex_read 0 (hex_go fuel n acc) = hex_read n acc.
Proof.
  revert n acc. induction fuel as [|fuel IH]; intros n acc Hn.
  { cbn in Hn. cbn. f_equal. lia. }
  rewrite Nat2Z.inj_succ, Z.pow_succ_r in Hn by lia. cbn [hex_go]. cbv zeta.
  assert (0 <= n mod 16 < 16) as Hd by (apply Z.mod_pos_bound; lia).
  destruct (n <? 16) eqn:E; reflect_bools.
  - cbn [hex_read]. rewrite hex_digit_read by done. f_equal. rewrite Z.mod_small; lia.
  - rewrite IH.
    + cbn [hex_read]. rewrite hex_digit_read by done. f_equal.
      pose proof (Z.div_mod n 16). lia.
    + split; [apply Z.div_pos; lia|]. apply Z.div_lt_upper_bound; lia.
Qed.

Lemma length_hex_go fuel n acc w : 0 <= n < 16 ^ Z.of_nat (S w) ->
  (String.length (hex_go fuel n acc) <= S w + String.length acc)%nat.
Proof.
  revert n acc w. induction fuel as [|fuel IH]; intros n acc w Hn; [cbn; lia|].
  cbn [hex_go]. cbv zeta. destruct (n <? 16) eqn:E; reflect_bools; [cbn; lia|].
  rewrite Nat2Z.inj_succ, Z.pow_succ_r in Hn by lia.
  destruct w as [|w]; [cbn in Hn; lia|].
  transitivity (S w + String.length (String (hex_digit (n mod 16)) acc))%nat; [|cbn; lia].
  apply IH. split; [apply Z.div_pos; lia|]. apply Z.div_lt_upper_bound; lia.
Qed.

Lemma fill_read n s : hex_read 0 (fill n s) = hex_read 0 s.
Proof. by induction n. Qed.

Lemma length_fill n s : String.length (fill n s) = (n + String.length s)%nat.
Proof. induction n as [|n IH]; [done|]. cbn. by rewrite IH. Qed.

(** A field holds its number and has its width. *)
Lemma setw_hex w n : (w <= 15)%nat -> 0 <= n < 16 ^ Z.of_nat (S w) ->
  hex_read 0 (setw (S w) (hex n)) = n /\ String.length (setw (S w) (hex n)) = S w.
Proof.
  intros Hw Hn. unfold setw. split.
  - rewrite fill_read. unfold hex. rewrite hex_go_read; [done|]. split; [lia|].
    apply Z.lt_le_trans with (16 ^ Z.of_nat (S w)); [lia|]. apply Z.pow_le_mono_r; lia.
  - rewrite length_fill. pose proof (length_hex_go 16 n "" w Hn). unfold hex. cbn in *. lia.
Qed.

Lemma append_inj (s1 s2 t1 t2 : string) : String.length s1 = String.length s2 ->
  (s1 ++ t1 = s2 ++ t2)%string -> s1 = s2 /\ t1 = t2.
Proof.
  revert s2. induction s1 as [|c s1 IH]; intros [|c2 s2]; cbn; try done.
  intros [= Hl] [= -> Heq]. by destruct (IH s2 Hl Heq) as [-> ->].
Qed.

Lemma length_append (s t : string) :
  String.length (s ++ t) = (String.length s + String.length t)%nat.
Proof. induction s as [|c s IH]; [done|]. cbn. by rewrite IH. Qed.

(** Two numbers with the same fields are equal. *)
Lemma fields_eq a b m1 m2 : 0 < m1 -> 0 < m2 ->
  a / (m1 * m2) = b / (m1 * m2) -> (a / m1) mod m2 = (b / m1) mod m2 -> a mod m1 = b mod m1 ->
  a = b.
Proof.
  intros Hm1 Hm2 H1 H2 H3. rewrite <- !Z.div_div in H1 by lia.
  pose proof (Z.div_mod (a / m1) m2). pose proof (Z.div_mod (b / m1) m2).
  pose proof (Z.div_mod a m1). pose proof (Z.div_mod b m1).
  assert (a / m1 = b / m1) by (rewrite H, H0; congruence || lia). lia.
Qed.

Lemma mask_range w z : 0 <= w -> 0 <= Z.land z (Z.ones w) < 2 ^ w.
Proof. intros Hw. rewrite Z.land_ones by done. apply Z.mod_pos_bound. lia. Qed.

Lemma id_ranges p1 p2 : 0 <= p1 < 2 ^ 64 ->
  0 <= Z.shiftr p1 32 < 16 ^ 8 /\ 0 <= Z.land (Z.shiftr p1 16) 0xFFFF < 16 ^ 4 /\
  0 <= Z.land p1 0xFFFF < 16 ^ 4 /\ 0 <= Z.land (Z.shiftr p2 48) 0xFFFF < 16 ^ 4 /\
  0 <= Z.land p2 0xFFFFFFFFFFFF < 16 ^ 12.
Proof.
  intros Hp. split.
  - rewrite Z.shiftr_div_pow2 by lia. split; [apply Z.div_pos; lia|].
    apply Z.div_lt_upper_bound; lia.
  - pose proof (mask_range 16 (Z.shiftr p1 16)). pose proof (mask_range 16 p1).
    pose proof (mask_range 16 (Z.shiftr p2 48)). pose proof (mask_range 48 p2).
    change (Z.ones 16) with 0xFFFF in *. change (Z.ones 48) with 0xFFFFFFFFFFFF in *. lia.
Qed.

Lemma length_producer_id p1 p2 : 0 <= p1 < 2 ^ 64 ->
  String.length (GenerateProducerId p1 p2) = 32%nat.
Proof.
  intros Hp. destruct (id_ranges p1 p2 Hp) as (A1 & A2 & A3 & A4 & A5).
  unfold GenerateProducerId. rewrite !length_append.
  rewrite (proj2 (setw_hex 7 _ ltac:(lia) A1)), (proj2 (setw_hex 3 _ ltac:(lia) A2)),
    (proj2 (setw_hex 3 _ ltac:(lia) A3)), (proj2 (setw_hex 3 _ ltac:(lia) A4)),
    (proj2 (setw_hex 11 _ ltac:(lia) A5)). done.
Qed.

(** One field of two equal texts. *)
Lemma setw_hex_inj w a b (s t : string) : (w <= 15)%nat ->
  0 <= a < 16 ^ Z.of_nat (S w) -> 0 <= b < 16 ^ Z.of_nat (S w) ->
  (setw (S w) (hex a) ++ s = setw (S w) (hex b) ++ t)%string -> a = b /\ s = t.
Proof.
  intros Hw Ha Hb Heq. destruct (setw_hex w a Hw Ha) as [Va La], (setw_hex w b Hw Hb) as [Vb Lb].
  apply append_inj in Heq as [Heq ->]; [|congruence]. split; [|done]. by rewrite <- Va, Heq.
Qed.

Lemma GenerateProducerId_inj p1 p2 q1 q2 :
  0 <= p1 < 2 ^ 64 -> 0 <= p2 < 2 ^ 64 -> 0 <= q1 < 2 ^ 64 -> 0 <= q2 < 2 ^ 64 ->
  GenerateProducerId p1 p2 = GenerateProducerId q1 q2 -> (p1, p2) = (q1, q2).
Proof.
  intros Hp1 Hp2 Hq1 Hq2 Heq.
  destruct (id_ranges p1 p2 Hp1) as (A1 & A2 & A3 & A4 & A5).
  destruct (id_ranges q1 q2 Hq1) as (B1 & B2 & B3 & B4 & B5). unfold GenerateProducerId in Heq.
  apply setw_hex_inj in Heq as [H1 Heq]; [|lia|done..].
  apply setw_hex_inj in Heq as [H2 Heq]; [|lia|done..].
  apply setw_hex_inj in Heq as [H3 Heq]; [|lia|done..].
  apply setw_hex_inj in Heq as [H4 Heq]; [|lia|done..].
  pose proof (setw_hex 11 _ ltac:(lia) A5) as [V5 _]. rewrite Heq in V5.
  rewrite (proj1 (setw_hex 11 _ ltac:(lia) B5)) in V5.
  clear -Hp1 Hp2 Hq1 Hq2 H1 H2 H3 H4 V5.
  change 0xFFFF with (Z.ones 16) in *. change 0xFFFFFFFFFFFF with (Z.ones 48) in *.
  rewrite !Z.land_ones, !Z.shiftr_div_pow2 in * by lia. f_equal.
  - by apply (fields_eq p1 q1 (2 ^ 16) (2 ^ 16)).
  - apply (fields_eq p2 q2 (2 ^ 48) (2 ^ 16)); try done. change (2 ^ 48 * 2 ^ 16) with (2 ^ 64).
    by rewrite !Z.div_small.
Qed.

(** ** What the operations leave alone *)

(** Neither the session nor the state of the connection's threads changes. *)
Record same_session (c c' : TcpClient) : Prop := {
  ss_producer : producer_id_ c' = producer_id_ c;
  ss_next : next_sequence_id_ c' = next_sequence_id_ c;
  ss_connected : connected_ c' = connected_ c;
  ss_read : read_thread_ c' = read_thread_ c;
  ss_ping : ping_thread_ c' = ping_thread_ c;
  ss_link : is_Some (connection_ c') <-> is_Some (connection_ c);
}.

#[export] Instance same_session_preorder : PreOrder same_session.
Proof. split; [by split|]. intros c1 c2 c3 [] []. split; congruence || (by etrans). Qed.

Lemma set_connection_session conn c : is_Some (connection_ c) ->
  same_session c (set_connection conn c).
Proof. intros Hc. by split. Qed.

Lemma Client_SendFrame_session answers frame c :
  same_session c (Client_SendFrame answers frame c).2.
Proof.
  unfold Client_SendFrame. case_if; [done|]. destruct (connection_ c) as [conn|] eqn:Hc; [|done].
  case_if; [done|]. apply set_connection_session. by rewrite Hc.
Qed.

Lemma on_frame_session answers pong_ms frame c :
  same_session c (on_frame answers pong_ms frame c).2.
Proof.
  unfold on_frame. pose proof (Client_SendFrame_session answers (control_frame FrameType.Pong) c).
  destruct (Client_SendFrame _ _ _) as [[ok wire] c']. by repeat case_bool_decide.
Qed.

Lemma on_frames_session answers pong_ms i frames c :
  same_session c (on_frames answers pong_ms i frames c).2.
Proof.
  revert i c. induction frames as [|frame frames IH]; intros i c; [done|]. cbn [on_frames].
  pose proof (on_frame_session (answers i) (pong_ms i) frame c) as H1.
  destruct (on_frame _ _ _ _) as [[user wire] c1]. cbn [snd] in H1. specialize (IH (i + 1)%nat c1).
  destruct (on_frames _ _ _ _ _) as [[users wires] c2]. cbn [snd] in *. by etrans.
Qed.

Lemma ReadLoop_session reads now_ms answers pong_ms c r :
  ReadLoop_round reads now_ms answers pong_ms c = Some r -> same_session c r.2.
Proof.
  unfold ReadLoop_round. case_if; [by intros [= <-]|].
  destruct (connection_ c) as [conn|] eqn:Hc; [|by intros [= <-]]. case_if; [by intros [= <-]|].
  destruct (OnRead _ _ _) as [[frames conn']|]; [|done]. cbn.
  pose proof (on_frames_session answers pong_ms 0 frames (set_connection conn' c)) as Hs.
  destruct (on_frames _ _ _ _ _) as [[user wire] c']. cbn [snd] in Hs. intros [= <-].
  transitivity (set_connection conn' c); [|done]. apply set_connection_session. by rewrite Hc.
Qed.

Lemma PingLoop_session answers now_ms c : same_session c (PingLoop_round answers now_ms c).2.
Proof.
  unfold PingLoop_round. case_if; [done|].
  pose proof (Client_SendFrame_session answers (control_frame FrameType.Ping) c) as Hs.
  destruct (Client_SendFrame _ _ _) as [[ok wire] c']. cbn [snd] in Hs.
  case_if; [done|]. case_if; [|done].
  destruct (connection_ c') as [conn|] eqn:Hc; [|done].
  transitivity c'; [done|]. apply set_connection_session. by rewrite Hc.
Qed.

(** ** Invariants *)

Record client_ok (c : TcpClient) : Prop := {
  co_read : read_thread_ c = connected_ c;
  co_ping : ping_thread_ c = true -> connected_ c = true;
  co_link : connected_ c = true <-> is_Some (connection_ c);
}.

Lemma client_ok_session c c' : same_session c c' -> client_ok c -> client_ok c'.
Proof.
  intros [_ _ Hc Hr Hp Hl] [Ho1 Ho2 Ho3]. split; rewrite Hc; [congruence| |by rewrite Hl].
  rewrite Hp. exact Ho2.
Qed.

Lemma Connect_ok p1 p2 net conn_ms pong_ms host port config c r : client_ok c ->
  Connect p1 p2 net conn_ms pong_ms host port config c = Some r -> client_ok r.2.
Proof.
  intros [Hr Hp Hl]. unfold Connect. destruct net; try (by intros [= <-]). cbn.
  case_if; [done|]. case_if; [done|]. intros [= <-]. by split.
Qed.

Lemma client_step_ok c op r : client_ok c -> client_step c op = Some r -> client_ok r.2.
Proof.
  intros Hok. destruct op; cbn [client_step].
  - destruct (Connect _ _ _ _ _ _ _ _ _) as [[ok c']|] eqn:Hc; [|done]. intros [= <-].
    exact (Connect_ok _ _ _ _ _ _ _ _ _ _ Hok Hc).
  - intros [= <-]. split; [done..|]. cbn. split; [done|by intros [? ?]].
  - intros [= <-]. by destruct Hok.
  - intros [= <-]. exact (client_ok_session _ _ (Client_SendFrame_session _ _ _) Hok).
  - intros [= <-]. by destruct Hok.
  - destruct (ReadLoop_round _ _ _ _ _) as [[[[go user] wire] c']|] eqn:Hr; [|done].
    intros [= <-]. exact (client_ok_session _ _ (ReadLoop_session _ _ _ _ _ _ Hr) Hok).
  - intros [= <-]. exact (client_ok_session _ _ (PingLoop_session _ _ _) Hok).
Qed.

Lemma client_run_ok ops c r : client_ok c -> client_run ops c = Some r -> client_ok r.2.
Proof.
  revert c r. induction ops as [|op ops IH]; intros c r Hok; [by intros [= <-]|].
  cbn [client_run]. destruct (client_step c op) as [[issued c1]|] eqn:Hs; [|done]. cbn.
  destruct (client_run ops c1) as [[issued' c2]|] eqn:Hrun; [|done]. intros [= <-].
  apply (IH c1 (issued', c2)); [|done]. exact (client_step_ok _ _ _ Hok Hs).
Qed.

Lemma client_new_ok : client_ok TcpClient_new.
Proof. split; [done..|]. cbn. split; [done|by intros [? ?]]. Qed.

(** The random numbers a run draws. *)
Definition draws (ops : list client_op) : list (Z * Z) :=
  omap (λ op, match op with
              | OpConnect p1 p2 _ _ _ _ _ _ => Some (p1, p2)
              | _ => None
              end) ops.

Definition u64_draw (d : Z * Z) : Prop := 0 <= d.1 < 2 ^ 64 /\ 0 <= d.2 < 2 ^ 64.

(** [seen] are the producer ids so far, [log] the numbers issued. *)
Record issue_ok (n : Z) (seen : list string) (log : list (string * Z)) (c : TcpClient) : Prop := {
  is_seen : producer_id_ c ∈ seen;
  is_log : Forall (λ e, e.1 ∈ seen) log;
  is_below : Forall (λ e, e.1 = producer_id_ c -> e.2 < next_sequence_id_ c) log;
  is_NoDup : NoDup log;
  is_next : 1 <= next_sequence_id_ c <= n + 1;
}.

Lemma issue_ok_session n seen log c c' : same_session c c' ->
  issue_ok n seen log c -> issue_ok (n + 1) seen log c'.
Proof.
  intros [Hp Hn _ _ _ _] [H1 H2 H3 H4 H5].
  split; rewrite ?Hp, ?Hn; [done|done|done|done|lia].
Qed.

Lemma issue_ok_fresh n seen log c c' id : issue_ok n seen log c -> 0 <= n ->
  id ∉ seen -> producer_id_ c' = id -> next_sequence_id_ c' = 1 ->
  issue_ok (n + 1) (id :: seen) log c'.
Proof.
  intros [H1 H2 H3 H4 H5] Hn0 Hid Hp Hn. split; rewrite ?Hp, ?Hn; [by left| | |done|lia].
  - eapply Forall_impl; [exact H2|]. intros e He. by right.
  - eapply Forall_impl; [exact H2|]. cbn. intros e He Heq. by rewrite Heq in He.
Qed.

Lemma issue_ok_next n seen log c : n < 2 ^ 64 - 2 -> issue_ok n seen log c ->
  issue_ok (n + 1) seen (log ++ [(producer_id_ c, next_sequence_id_ c)]) (GetNextSequenceId c).2.
Proof.
  intros Hn [H1 H2 H3 H4 H5].
  assert (u64 (next_sequence_id_ c + 1) = next_sequence_id_ c + 1) as Hu by (apply u64_id; lia).
  split; cbn [GetNextSequenceId snd set_counters producer_id_ next_sequence_id_]; rewrite ?Hu.
  - done.
  - apply Forall_app. split; [done|]. by repeat constructor.
  - apply Forall_app. split.
    + eapply Forall_impl; [exact H3|]. cbn. intros e He Heq. specialize (He Heq). lia.
    + repeat constructor. cbn. lia.
  - apply NoDup_app. split; [done|]. split; [|apply NoDup_singleton].
    intros e He ->%list_elem_of_singleton. rewrite Forall_forall in H3.
    specialize (H3 _ He eq_refl). cbn in H3. lia.
  - lia.
Qed.

Lemma Connect_session p1 p2 net conn_ms pong_ms host port config c r :
  Connect p1 p2 net conn_ms pong_ms host port config c = Some r ->
  producer_id_ r.2 = GenerateProducerId p1 p2 /\ next_sequence_id_ r.2 = 1.
Proof.
  unfold Connect. destruct net; try (by intros [= <-]).
  repeat (case_if; [done|]). by intros [= <-].
Qed.

Lemma client_run_issue ops : forall n seen log c r, 0 <= n -> n + zlen ops < 2 ^ 64 - 2 ->
  issue_ok n seen log c -> Forall u64_draw (draws ops) -> NoDup (draws ops) ->
  (forall p1 p2, (p1, p2) ∈ draws ops -> GenerateProducerId p1 p2 ∉ seen) ->
  client_run ops c = Some r ->
  exists n seen, issue_ok n seen (log ++ r.1) r.2.
Proof.
  induction ops as [|op ops IH]; intros n seen log c r Hn0 Hn Hok Hdraws Hnd Hfresh.
  { intros [= <-]. cbn. rewrite app_nil_r. by exists n, seen. }
  cbn [client_run length] in *. rewrite Nat2Z.inj_succ in Hn.
  destruct (client_step c op) as [[issued c1]|] eqn:Hs; [|done]. cbn.
  destruct (client_run ops c1) as [[issued' c2]|] eqn:Hrun; [|done]. intros [= <-].
  cbn [fst snd]. rewrite app_assoc.
  assert (forall seen', issue_ok (n + 1) seen' (log ++ issued) c1 -> Forall u64_draw (draws ops) ->
    NoDup (draws ops) ->
    (forall p1 p2, (p1, p2) ∈ draws ops -> GenerateProducerId p1 p2 ∉ seen') ->
    exists n seen, issue_ok n seen ((log ++ issued) ++ issued') c2) as Hnext.
  { intros seen' H1 H2 H3 H4. by apply (IH (n + 1) seen' _ c1 (issued', c2)); [lia|lia|..]. }
  destruct op; cbn [client_step] in Hs; cbn [draws omap list_omap] in *.
  - destruct (Connect _ _ _ _ _ _ _ _ _) as [r|] eqn:Hc; [|done].
    apply Connect_session in Hc as [Hp Hq]. destruct r as [ok c']. injection Hs as <- <-.
    apply Forall_cons in Hdraws as [[Hd1 Hd2] Hdraws]. apply NoDup_cons in Hnd as [Hin Hnd].
    apply (Hnext (GenerateProducerId p1 p2 :: seen)); [|done|done|].
    + rewrite app_nil_r. eapply issue_ok_fresh; [done|lia| |done|done]. apply Hfresh. by left.
    + intros q1 q2 Hq' [Heq|Hin']%elem_of_cons; [|by eapply Hfresh; [right|]].
      pose proof (proj1 (Forall_forall _ _) Hdraws _ Hq') as [Hq1 Hq2].
      apply GenerateProducerId_inj in Heq; try done. by rewrite Heq in Hq'.
  - injection Hs as <- <-. apply (Hnext seen); try done. rewrite app_nil_r.
    destruct Hok. split; try done. cbn. lia.
  - injection Hs as <- <-. apply (Hnext seen); try done. rewrite app_nil_r.
    destruct Hok. split; try done. cbn. lia.
  - injection Hs as <- <-. apply (Hnext seen); try done. rewrite app_nil_r.
    exact (issue_ok_session _ _ _ _ _ (Client_SendFrame_session _ _ _) Hok).
  - injection Hs as <- <-. apply (Hnext seen); try done. apply issue_ok_next; [lia|done].
  - destruct (ReadLoop_round _ _ _ _ _) as [[[[go user] wire] c']|] eqn:Hr; [|done].
    injection Hs as <- <-. apply (Hnext seen); try done. rewrite app_nil_r.
    exact (issue_ok_session _ _ _ _ _ (ReadLoop_session _ _ _ _ _ _ Hr) Hok).
  - injection Hs as <- <-. apply (Hnext seen); try done. rewrite app_nil_r.
    exact (issue_ok_session _ _ _ _ _ (PingLoop_session _ _ _) Hok).
Qed.

(** ** Sequence numbers and the deduplication window *)

Lemma marked_below p b marks m : 0 < b ->
  (forall s now, OpMark p s now ∈ marks -> s < b) -> default 0 m < b ->
  default 0 (foldl (marked_step p) m marks) < b.
Proof.
  intros Hb. revert m. induction marks as [|op marks IH]; intros m Hmarks Hm; [done|].
  cbn [foldl]. apply IH; [intros s now Hin; apply (Hmarks s now); by right|].
  destruct op as [q s now|q]; cbn [marked_step]; case_decide as Hq; subst; try done.
  cbn. pose proof (Hmarks s now ltac:(by left)). lia.
Qed.

Lemma marked_mono p marks m k : OpForget p ∉ marks -> m = Some k ->
  exists k', foldl (marked_step p) m marks = Some k' /\ k <= k'.
Proof.
  intros Hf ->. revert k. induction marks as [|op marks IH]; intros k; [by exists k|].
  rewrite not_elem_of_cons in Hf. destruct Hf as [Hop Hf]. cbn [foldl].
  destruct op as [q s now|q]; cbn [marked_step].
  - case_decide; [|by apply IH]. change (default 0 (Some k)) with k. destruct (IH Hf (Z.max s k)) as (k' & -> & Hk).
    exists k'. split; [done|lia].
  - case_decide as Hq; [by rewrite Hq in Hop|by apply IH].
Qed.

Lemma marked_above p s now marks m : OpForget p ∉ marks -> OpMark p s now ∈ marks ->
  exists k, foldl (marked_step p) m marks = Some k /\ s <= k.
Proof.
  intros Hf. revert m. induction marks as [|op marks IH]; intros m Hin;
    [by apply not_elem_of_nil in Hin|].
  rewrite not_elem_of_cons in Hf. destruct Hf as [_ Hf]. cbn [foldl].
  apply elem_of_cons in Hin as [<-|Hin]; [|by apply IH]. cbn [marked_step].
  rewrite decide_True by done.
  destruct (marked_mono p marks _ (Z.max s (default 0 m)) Hf eq_refl) as (k & -> & Hk).
  exists k. split; [done|lia].
Qed.

(** What the window answers, by the numbers marked for the producer. *)
Lemma IsDuplicate_run n marks p s : IsDuplicate p s (foldl dedup_step (DedupWindow_new n) marks) =
  negb (bool_decide (p = "")) &&
  match foldl (marked_step p) None marks with Some m => s <=? m | None => false end.
Proof.
  unfold IsDuplicate. case_bool_decide as Hp; [done|]. cbn [negb andb].
  rewrite <- (dedup_run_spec p marks (DedupWindow_new n) None Hp) by done.
  by destruct (producers_ _ !! p).
Qed.

(** ** Properties *)

(** A producer id is 32 hexadecimal digits that hold all 128 bits drawn:
    different draws give different ids, none of them empty. *)
Theorem producer_id_injective p1 p2 q1 q2 :
  u64_draw (p1, p2) -> u64_draw (q1, q2) ->
  String.length (GenerateProducerId p1 p2) = 32%nat /\
  (GenerateProducerId p1 p2 = GenerateProducerId q1 q2 <-> (p1, p2) = (q1, q2)).
Proof.
  intros [Hp1 Hp2] [Hq1 Hq2]. split; [by apply length_producer_id|]. split.
  - by apply GenerateProducerId_inj.
  - by intros [= -> ->].
Qed.

(** C37: a client never replays by accident, as long as no two [Connect]s draw
    the same numbers: no producer id and sequence number are issued twice, and
    the number that is next is not a duplicate for a broker that has marked, of
    this producer, only numbers already issued.  But the window remembers only
    the highest number: a request sent with an earlier number after a later one
    was marked is taken for a replay. *)
Theorem client_never_replays ops issued c n marks :
  zlen ops < 2 ^ 64 - 2 -> Forall u64_draw (draws ops) -> NoDup (draws ops) ->
  client_run ops TcpClient_new = Some (issued, c) ->
  (forall s now, OpMark (producer_id_ c) s now ∈ marks -> (producer_id_ c, s) ∈ issued) ->
  let w := foldl dedup_step (DedupWindow_new n) marks in
  NoDup issued /\
  IsDuplicate (producer_id_ c) (GetNextSequenceId c).1 w = false /\
  (producer_id_ c <> "" -> OpForget (producer_id_ c) ∉ marks ->
   forall s s' now, OpMark (producer_id_ c) s' now ∈ marks -> s <= s' ->
     IsDuplicate (producer_id_ c) s w = true).
Proof.
  intros Hn Hdraws Hnd Hrun Hmarks. cbv zeta.
  destruct (client_run_issue ops 0 [""] [] TcpClient_new (issued, c)) as (k & seen & Hok);
    [lia|lia| |done|done| |done|].
  { split; [by left|constructor|constructor|constructor|cbn; lia]. }
  { intros p1 p2 Hin Hempty%list_elem_of_singleton.
    pose proof (proj1 (Forall_forall _ _) Hdraws _ Hin) as [Hp1 _].
    apply (f_equal String.length) in Hempty. by rewrite length_producer_id in Hempty. }
  destruct Hok as [_ _ Hbelow Hnodup Hnext]. cbn [fst snd app] in *.
  split; [done|]. split.
  - rewrite IsDuplicate_run. apply andb_false_iff. right.
    pose proof (marked_below (producer_id_ c) (next_sequence_id_ c) marks None) as Hm.
    destruct (foldl _ None marks) as [m|]; [|done]. apply Z.leb_gt. apply Hm; [lia| |cbn; lia].
    intros s now Hin%Hmarks. rewrite Forall_forall in Hbelow. by apply (Hbelow _ Hin).
  - intros Hp Hf s s' now Hin Hs. rewrite IsDuplicate_run, bool_decide_false by done.
    destruct (marked_above _ _ _ _ None Hf Hin) as (m & -> & Hm). apply Z.leb_le. lia.
Qed.

(** In every state a client can reach, [Connect] terminates the program
    exactly when the client has connected and not disconnected since, even if
    the connection has long been lost, since it assigns to threads that have not
    been joined; after [Disconnect] it always succeeds when the network does, with
    a new session. *)
Theorem reconnect_needs_disconnect ops issued c p1 p2 conn_ms pong_ms host port config :
  client_run ops TcpClient_new = Some (issued, c) ->
  let connect := Connect p1 p2 Established conn_ms pong_ms host port config in
  (connect c = None <-> is_Some (connection_ c)) /\
  exists c', connect (Disconnect c) = Some (true, c') /\ IsConnected c' = true /\
    producer_id_ c' = GenerateProducerId p1 p2 /\ (GetNextSequenceId c').1 = 1.
Proof.
  intros Hrun. cbv zeta.
  destruct (client_run_ok ops TcpClient_new (issued, c) client_new_ok Hrun) as [Hr Hp Hl].
  cbn [snd] in *. rewrite <- Hl, <- Hr. split.
  - unfold Connect. cbn. destruct (read_thread_ c) eqn:Hread; [done|].
    assert (ping_thread_ c = false) as ->.
    { destruct (ping_thread_ c); [|done]. rewrite Hp in Hr by done. done. }
    by rewrite andb_false_r.
  - unfold Connect. cbn. rewrite andb_false_r. by eexists.
Qed.

(** ** Concrete runs *)

Definition demo_client_ops : list client_op :=
  [OpConnect 1 0xABCDEF Established 0 0 "127.0.0.1" 9090 None; OpNextId; OpNextId].

Definition demo_client : TcpClient :=
  default TcpClient_new (snd <$> client_run demo_client_ops TcpClient_new).

Example demo_producer_id : producer_id_ demo_client = "00000000000000010000000000abcdef".
Proof. reflexivity. Qed.

Lemma producer_id_injective_witness :
  GenerateProducerId 1 0xABCDEF <> GenerateProducerId 1 0xABCDEE.
Proof.
  destruct (producer_id_injective 1 0xABCDEF 1 0xABCDEE) as [_ Hinj]; [by split|by split|].
  intros Heq%Hinj. done.
Defined.

Lemma client_never_replays_witness :
  let w := foldl dedup_step (DedupWindow_new 10) [OpMark (producer_id_ demo_client) 2 5] in
  IsDuplicate (producer_id_ demo_client) (GetNextSequenceId demo_client).1 w = false /\
  IsDuplicate (producer_id_ demo_client) 1 w = true.
Proof.
  destruct (client_never_replays demo_client_ops
    [(producer_id_ demo_client, 1); (producer_id_ demo_client, 2)] demo_client 10
    [OpMark (producer_id_ demo_client) 2 5]) as (_ & H1 & H2).
  - done.
  - by repeat constructor.
  - apply NoDup_singleton.
  - reflexivity.
  - intros s now Hin%list_elem_of_singleton. injection Hin as -> _. right. by left.
  - split; [exact H1|]. apply (H2 ltac:(done)) with 2 5; [|by left|lia].
    by intros Hin%list_elem_of_singleton.
Defined.

Lemma reconnect_needs_disconnect_witness :
  Connect 3 4 Established 7 7 "127.0.0.1" 9090 None demo_client = None.
Proof.
  apply (reconnect_needs_disconnect demo_client_ops
    [(producer_id_ demo_client, 1); (producer_id_ demo_client, 2)] demo_client);
    [reflexivity|by eexists].
Defined.
