(* ===== verification/ClientMain.v ===== *)
(** * The command-line client: [main/client_main.cpp]

    From the arguments to the request frame, and from a frame received to the
    lines printed.  The generated protobuf code is a parameter. *)

From Stdlib Require Import Ascii String.
From S2P Require Import Prelude Types Config ConfigFile Frame StreamingCodec Connection TopicManager.
From S2P Require Import Compression MessageStore Broker BrokerProps TcpClient.
#[local] Open Scope string_scope.
#[local] Open Scope Z_scope.

(** The generated code the client uses. *)
Record ClientProto := mkClientProto {
  serialize_PublishRequest : PublishRequest -> list byte;
  serialize_BatchPublishRequest : list PublishRequest -> list byte;
  serialize_SubscribeRequest : SubscribeRequest -> list byte;
  serialize_UnsubscribeRequest : UnsubscribeRequest -> list byte;
  serialize_PullRequest : PullRequest -> list byte;
  serialize_AckRequest : AckRequest -> list byte;
  serialize_AdminRequest : AdminRequest -> list byte;
  parse_Response : list byte -> option Response;
  parse_PushMessage : list byte -> option PushMessage;
  parse_BatchPushMessage : list byte -> option (list PushMessage);
  parse_AdminResponse : list byte -> option AdminResponse;
}.

(** ** Texts and bytes *)

Definition bytes_of (s : string) : list byte := list_byte_of_string s.
Definition text_of (bs : list byte) : string := string_of_list_byte bs.

Section client.
Context (cp : ClientProto) (zlib : Zlib).

(** ** Printing what arrives *)

(** [std::cout << b] of a [bool]. *)
Definition show_flag (b : bool) : string := if b then "1" else "0".

Definition shown_payload (push : PushMessage) : list byte :=
  if push_compressed push then
    match Decompress zlib (push_payload push) with
    | [] => bytes_of "[decompress_failed]"
    | decompressed => decompressed
    end
  else push_payload push.

(** One line for a pushed message. *)
Definition show_push (tag : string) (push : PushMessage) : string :=
  tag ++ " topic=" ++ push_topic push
  ++ " msg_id=" ++ decimal (push_message_id push)
  ++ " retry=" ++ decimal (push_retry_count push)
  ++ " compressed=" ++ show_flag (push_compressed push)
  ++ " payload=" ++ text_of (shown_payload push).

Definition unless_empty (label value : string) : string :=
  if bool_decide (value = "") then "" else (label ++ value)%string.

Definition show_response (resp : Response) : string :=
  "Response: success=" ++ show_flag (resp_success resp)
  ++ " msg_id=" ++ decimal (resp_message_id resp)
  ++ unless_empty " error=" (resp_error_msg resp).

Definition show_admin (resp : AdminResponse) : string :=
  "[ADMIN] success=" ++ show_flag (admin_success resp)
  ++ unless_empty " error=" (admin_error_msg resp)
  ++ unless_empty " result=" (admin_json_result resp).

(** The frame handler: the lines it prints. *)
Definition print_frame (frame : Frame) : list string :=
  let t := msg_type frame in
  let payload := frame_payload frame in
  if bool_decide (t = FrameType.Response) then
    match parse_Response cp payload with Some resp => [show_response resp] | None => [] end
  else if bool_decide (t = FrameType.Push) then
    match parse_PushMessage cp payload with Some push => [show_push "[PUSH]" push] | None => [] end
  else if bool_decide (t = FrameType.Admin) then
    match parse_AdminResponse cp payload with Some resp => [show_admin resp] | None => [] end
  else if bool_decide (t = FrameType.BatchPush) then
    match parse_BatchPushMessage cp payload with
    | Some pushes => show_push "[BATCH_PUSH]" <$> pushes
    | None => []
    end
  else [].

(** ** Commands *)

Inductive command :=
  | UsageError
  | UnknownAdmin (admin_cmd : string)
  | Uncaught (* an exception nobody catches *)
  | Request (t : FrameMessageType) (data : list byte).

(** [argv[i]]; used below [argc] only. *)
Definition arg (argv : list string) (i : nat) : string := default "" (argv !! i).

(** [argv[i]] if there is one. *)
Definition opt_arg (argv : list string) (i : nat) : string :=
  if Z.of_nat i <? zlen argv then arg argv i else "".

Definition publish_request (topic message : string) (ttl_ms : Z) (c : TcpClient)
    : PublishRequest * TcpClient :=
  let '(id, c') := GetNextSequenceId c in
  (mkPublishRequest topic (bytes_of message) ttl_ms false (producer_id_ c) id, c').

Fixpoint batch_requests (topic : string) (messages : list string) (c : TcpClient)
    : list PublishRequest * TcpClient :=
  match messages with
  | [] => ([], c)
  | message :: messages =>
      let '(req, c) := publish_request topic message 0 c in
      let '(reqs, c) := batch_requests topic messages c in
      (req :: reqs, c)
  end.

(** The admin commands, with whether they take a topic. *)
Definition admin_command_of (admin_cmd : string) : option (Z * bool) :=
  if bool_decide (admin_cmd = "list_topics") then Some (ADMIN_LIST_TOPICS, false)
  else if bool_decide (admin_cmd = "get_topic_info") then Some (ADMIN_GET_TOPIC_INFO, true)
  else if bool_decide (admin_cmd = "delete_topic") then Some (ADMIN_DELETE_TOPIC, true)
  else if bool_decide (admin_cmd = "get_stats") then Some (ADMIN_GET_STATS, false)
  else if bool_decide (admin_cmd = "get_connections") then Some (ADMIN_GET_CONNECTIONS, false)
  else if bool_decide (admin_cmd = "cleanup_topic") then Some (ADMIN_CLEANUP_TOPIC, true)
  else None.

Definition build_request (argv : list string) (c : TcpClient) : command * TcpClient :=
  let argc := zlen argv in
  let cmd := arg argv 3 in
  let topic := arg argv 4 in
  let sub := arg argv 5 in
  if bool_decide (cmd = "publish") && (6 <=? argc) then
    let ttl_ms := if 7 <=? argc then u32 (atoi (arg argv 6)) else 0 in
    let '(req, c) := publish_request topic (arg argv 5) ttl_ms c in
    (Request FrameType.Publish (serialize_PublishRequest cp req), c)
  else if bool_decide (cmd = "batch_publish") && (6 <=? argc) then
    let '(reqs, c) := batch_requests topic (drop 5 argv) c in
    (Request FrameType.BatchPublish (serialize_BatchPublishRequest cp reqs), c)
  else if bool_decide (cmd = "subscribe") && (6 <=? argc) then
    (Request FrameType.Subscribe
       (serialize_SubscribeRequest cp (mkSubscribeRequest topic sub (opt_arg argv 6))), c)
  else if bool_decide (cmd = "unsubscribe") && (6 <=? argc) then
    (Request FrameType.Unsubscribe
       (serialize_UnsubscribeRequest cp (mkUnsubscribeRequest topic sub (opt_arg argv 6))), c)
  else if bool_decide (cmd = "pull") && (6 <=? argc) then
    let max_messages := u32 (if 8 <=? argc then atoi (arg argv 7) else 10) in
    (Request FrameType.Pull
       (serialize_PullRequest cp (mkPullRequest topic sub (opt_arg argv 6) max_messages)), c)
  else if bool_decide (cmd = "ack") && (7 <=? argc) then
    match stoul (arg argv 6) with
    | Some message_id =>
        (Request FrameType.Ack
           (serialize_AckRequest cp (mkAckRequest topic sub (opt_arg argv 7) message_id)), c)
    | None => (Uncaught, c)
    end
  else if bool_decide (cmd = "admin") && (5 <=? argc) then
    match admin_command_of (arg argv 4) with
    | Some (code, with_topic) =>
        (Request FrameType.Admin (serialize_AdminRequest cp
           (mkAdminRequest code (if with_topic then opt_arg argv 5 else ""))), c)
    | None => (UnknownAdmin (arg argv 4), c)
    end
  else (UsageError, c).

(** ** The program *)

(** A line on the standard output or on the error output. *)
Inductive line := Out (text : string) | Err (text : string).

Definition PrintUsage (prog : string) : list line := Out <$> [
  "Usage: " ++ prog ++ " <host> <port> <command> [args...]";
  "Commands:";
  "  publish <topic> <message> [ttl_ms]       - Publish a message";
  "  batch_publish <topic> <msg1> [msg2]...   - Batch publish messages";
  "  subscribe <topic> <sub_id> [group_id]    - Subscribe to a topic";
  "  unsubscribe <topic> <sub_id> [group_id]  - Unsubscribe from a topic";
  "  pull <topic> <sub_id> [group_id] [max]   - Pull messages";
  "  ack <topic> <sub_id> <msg_id> [group]    - Ack a message";
  "  admin <command> [topic]                    - Admin command";
  "    Commands: list_topics, get_topic_info, delete_topic, get_stats,";
  "              get_connections, cleanup_topic"].

(** Until the request is sent, with the lines printed; then it prints what
    arrives for two seconds, disconnects and exits with 0. *)
Inductive main_result :=
  | Exit (code : Z) (lines : list line)
  | Terminated
  | Sent (lines : list line) (frame : Frame) (ok : bool) (wire : list byte) (c : TcpClient).

Definition client_main (p1 p2 : Z) (net : connect_answer) (conn_ms pong_ms : Z)
    (answers : list send_answer) (argv : list string) : main_result :=
  if zlen argv <? 5 then Exit 1 (PrintUsage (arg argv 0))
  else
    let host := arg argv 1 in
    let port := u16 (atoi (arg argv 2)) in
    let peer := host ++ ":" ++ decimal port in
    let c := SetFrameHandler TcpClient_new in
    match Connect p1 p2 net conn_ms pong_ms host port None c with
    | None => Terminated
    | Some (false, _) => Exit 1 [Err ("Failed to connect to " ++ peer)]
    | Some (true, c) =>
        let connected := Out ("Connected to " ++ peer) in
        match build_request argv c with
        | (Request t data, c) =>
            let frame := mkFrame kFrameMagic kFrameVersion t 0 data in
            let '(ok, wire, c) := Client_SendFrame answers frame c in
            Sent [connected] frame ok wire c
        | (Uncaught, _) => Terminated
        | (UnknownAdmin admin_cmd, _) =>
            Exit 1 [connected; Err ("Unknown admin command: " ++ admin_cmd)]
        | (UsageError, _) => Exit 1 (connected :: PrintUsage (arg argv 0))
        end
    end.
End client.

(** ** What the generated code does *)

(** 7-bit text, which protobuf accepts in [string] fields. *)
Definition ascii_text (s : string) : bool := all_chars (λ c, (nat_of_ascii c <? 128)%nat) s.

Abbreviation text_size s := (Z.of_nat (String.length s)).

Definition request_ok (req : PublishRequest) : Prop :=
  ascii_text (pub_topic req) = true /\ ascii_text (pub_producer_id req) = true /\
  in_width 32 (pub_ttl_ms req) /\ in_width 64 (pub_sequence_id req) /\
  text_size (pub_topic req) + zlen (pub_payload req) + text_size (pub_producer_id req) < 2 ^ 30.

Definition push_ok (push : PushMessage) : Prop :=
  ascii_text (push_topic push) = true /\ in_width 64 (push_message_id push) /\
  in_width 64 (push_timestamp push) /\ in_width 32 (push_retry_count push) /\
  text_size (push_topic push) + zlen (push_payload push) < 2 ^ 30.

(** Parsing gives back what was serialised, for messages whose fields are in the
    range of their types and that stay well below protobuf's limit of 2 GiB. *)
Record wire_contract (proto : Proto) (cp : ClientProto) : Prop := {
  wc_publish : forall req, request_ok req ->
    parse_PublishRequest proto (serialize_PublishRequest cp req) = Some req;
  wc_push : forall push, push_ok push ->
    parse_PushMessage cp (serialize_PushMessage proto push) = Some push;
}.

(** ** Lemmas about texts *)

Lemma text_of_bytes s : text_of (bytes_of s) = s.
Proof. apply string_of_list_byte_of_string. Qed.

Lemma ascii_text_app (s t : string) : ascii_text (s ++ t) = ascii_text s && ascii_text t.
Proof. apply all_chars_app. Qed.

Lemma ascii_hex_digit n : 0 <= n < 16 -> (nat_of_ascii (hex_digit n) <? 128)%nat = true.
Proof.
  intros Hn. apply Nat.ltb_lt. unfold hex_digit.
  case_if; reflect_bools; rewrite nat_ascii_embedding; lia.
Qed.

Lemma ascii_hex_go fuel n acc : ascii_text acc = true -> ascii_text (hex_go fuel n acc) = true.
Proof.
  revert n acc. induction fuel as [|fuel IH]; intros n acc Hacc; [done|]. cbn [hex_go]. cbv zeta.
  assert (ascii_text (String (hex_digit (n mod 16)) acc) = true) as Hs.
  { unfold ascii_text in *. cbn [all_chars].
    by rewrite Hacc, ascii_hex_digit by (apply Z.mod_pos_bound; lia). }
  case_if; [done|by apply IH].
Qed.

Lemma ascii_setw w n : ascii_text (setw w (hex n)) = true.
Proof.
  unfold setw. induction (w - _)%nat as [|k IH]; [by apply ascii_hex_go|]. exact IH.
Qed.

Lemma ascii_producer_id p1 p2 : ascii_text (GenerateProducerId p1 p2) = true.
Proof. unfold GenerateProducerId. by rewrite !ascii_text_app, !ascii_setw. Qed.

Lemma length_bytes_of s : length (bytes_of s) = String.length s.
Proof.
  unfold bytes_of. induction s as [|c s IH]; [done|].
  change (list_byte_of_string (String c s)) with (byte_of_ascii c :: list_byte_of_string s).
  cbn [length String.length]. by rewrite IH.
Qed.
