(* ===== verification/WireInstance.v ===== *)
(** * An instance of the generated code

    The parameters [Proto] and [ClientProto] stand for the code generated from
    [proto/msg_queue.proto].  This file gives them concrete values, a length
    prefixed format, that satisfy what the theorems assume of them together, and
    that the witnesses run.  It models none of the program. *)

From Stdlib Require Import Ascii String.
From S2P Require Import Prelude Types Frame Broker BrokerInv TcpClient ClientMain.
#[local] Open Scope Z_scope.

(** ** Formats *)

Record format (A : Type) := mkFormat {
  enc : A -> list byte;
  dec : list byte -> option (A * list byte);
}.
#[local] Arguments mkFormat {A}.
#[local] Arguments enc {A}.
#[local] Arguments dec {A}.

(** Reads back what it wrote, whatever follows. *)
Definition lawful {A} (P : A -> Prop) (f : format A) : Prop :=
  forall a rest, P a -> dec f (enc f a ++ rest) = Some (a, rest).

(** What is read is at least as long as [size] says. *)
Definition consumes {A} (size : A -> Z) (f : format A) : Prop :=
  forall bs a rest, dec f bs = Some (a, rest) -> 0 <= size a /\ size a + zlen rest <= zlen bs.

Definition uint_format (n : nat) : format Z := mkFormat (be_push n)
  (λ bs, if (n <=? length bs)%nat then Some (be_read 64 (take n bs), drop n bs) else None).

Definition bytes_format : format (list byte) := mkFormat
  (λ l, be_push 8 (zlen l) ++ l)
  (λ bs, '(n, bs) ← dec (uint_format 8) bs;
         if n <=? zlen bs then Some (take (Z.to_nat n) bs, drop (Z.to_nat n) bs) else None).

Definition map_format {A C} (to : A -> C) (from : C -> A) (f : format A) : format C := mkFormat
  (λ c, enc f (from c)) (λ bs, '(a, rest) ← dec f bs; Some (to a, rest)).

Definition pair_format {A C} (f : format A) (g : format C) : format (A * C) := mkFormat
  (λ p, enc f p.1 ++ enc g p.2)
  (λ bs, '(a, bs) ← dec f bs; '(c, bs) ← dec g bs; Some ((a, c), bs)).

Definition text_format : format string := map_format text_of bytes_of bytes_format.
Definition flag_format : format bool :=
  map_format (λ z, z =? 1) (λ b : bool, if b then 1 else 0) (uint_format 1).

Fixpoint dec_many {A} (f : format A) (n : nat) (bs : list byte) : option (list A * list byte) :=
  match n with
  | O => Some ([], bs)
  | S n => '(a, bs) ← dec f bs; '(l, bs) ← dec_many f n bs; Some (a :: l, bs)
  end.

Definition list_format {A} (f : format A) : format (list A) := mkFormat
  (λ l, be_push 8 (zlen l) ++ concat (enc f <$> l))
  (λ bs, '(n, bs) ← dec (uint_format 8) bs;
         if n <=? zlen bs then dec_many f (Z.to_nat n) bs else None).

Definition write {A} (f : format A) (a : A) : list byte := enc f a.
Definition parse {A} (f : format A) (bs : list byte) : option A := fst <$> dec f bs.

(** ** Laws *)

Lemma uint_lawful n : (n <= 8)%nat -> lawful (in_width (8 * Z.of_nat n)) (uint_format n).
Proof.
  intros Hn a rest Ha. cbn. rewrite length_app, length_be_push.
  rewrite (proj2 (Nat.leb_le _ _)) by lia.
  rewrite take_app_length', drop_app_length' by by rewrite length_be_push.
  by rewrite be_read_push by (unfold in_width in Ha; lia).
Qed.

Lemma uint_consumes n : (n <= 8)%nat -> consumes (λ _, Z.of_nat n) (uint_format n).
Proof.
  intros Hn bs a rest. cbn. destruct (n <=? length bs)%nat eqn:E; [|done].
  apply Nat.leb_le in E. intros [= _ <-]. rewrite length_drop. lia.
Qed.

Lemma bytes_lawful : lawful (λ l : list byte, zlen l < 2 ^ 64) bytes_format.
Proof.
  intros l rest Hl. cbn [dec enc bytes_format]. rewrite <- app_assoc.
  rewrite (uint_lawful 8 ltac:(lia) (zlen l)) by (unfold in_width; cbn; lia). cbn [mbind option_bind].
  rewrite length_app. rewrite (proj2 (Z.leb_le _ _)) by lia.
  by rewrite Nat2Z.id, take_app_length, drop_app_length.
Qed.

Lemma bytes_consumes : consumes (λ l : list byte, zlen l) bytes_format.
Proof.
  intros bs l rest. cbn [dec bytes_format].
  destruct (dec (uint_format 8) bs) as [[n bs1]|] eqn:E; [|done]. cbn [mbind option_bind].
  apply (uint_consumes 8) in E; [|lia]. destruct (n <=? zlen bs1) eqn:E1; reflect_bools; [|done].
  intros [= <- <-]. rewrite length_take, length_drop. lia.
Qed.

Lemma map_lawful {A C} (to : A -> C) (from : C -> A) (P : A -> Prop) (Q : C -> Prop) f :
  lawful P f -> (forall c, Q c -> P (from c) /\ to (from c) = c) ->
  lawful Q (map_format to from f).
Proof.
  intros Hf Hq c rest Hc. destruct (Hq c Hc) as [Hp Heq]. cbn. rewrite Hf by done. cbn. by rewrite Heq.
Qed.

Lemma pair_lawful {A C} (P : A -> Prop) (Q : C -> Prop) f g :
  lawful P f -> lawful Q g -> lawful (λ p, P p.1 /\ Q p.2) (pair_format f g).
Proof.
  intros Hf Hg [a c] rest [Ha Hc]. cbn [fst snd] in *. cbn [dec enc pair_format fst snd].
  rewrite <- app_assoc, Hf by done. cbn. by rewrite Hg.
Qed.

Lemma pair_consumes {A C} (size1 : A -> Z) (size2 : C -> Z) f g :
  consumes size1 f -> consumes size2 g -> consumes (λ p, size1 p.1 + size2 p.2) (pair_format f g).
Proof.
  intros Hf Hg bs [a c] rest. cbn [dec pair_format fst snd].
  destruct (dec f bs) as [[a' bs1]|] eqn:E1; [|done]. cbn.
  destruct (dec g bs1) as [[c' bs2]|] eqn:E2; [|done]. cbn. intros [= <- <- <-].
  apply Hf in E1. apply Hg in E2. lia.
Qed.

Lemma map_consumes {A C} (to : A -> C) (from : C -> A) size1 size2 f :
  consumes size1 f -> (forall a, 0 <= size2 (to a) <= size1 a) ->
  consumes size2 (map_format to from f).
Proof.
  intros Hf Hs bs c rest. cbn. destruct (dec f bs) as [[a bs1]|] eqn:E; [|done]. cbn.
  intros [= <- <-]. apply Hf in E. specialize (Hs a). lia.
Qed.

Lemma dec_many_consumes {A} (size : A -> Z) f n bs l rest :
  consumes (λ a, 1 + size a) f -> (forall a, 0 <= size a) -> dec_many f n bs = Some (l, rest) ->
  zlen l + zlen rest <= zlen bs /\ Forall (λ a, size a <= zlen bs) l.
Proof.
  intros Hf Hs. revert bs l. induction n as [|n IH]; intros bs l; cbn [dec_many].
  { intros [= <- <-]. split; [cbn; lia|constructor]. }
  destruct (dec f bs) as [[a bs1]|] eqn:E1; [|done]. cbn.
  destruct (dec_many f n bs1) as [[l1 bs2]|] eqn:E2; [|done]. cbn. intros [= <- <-].
  apply Hf in E1. destruct (IH _ _ E2) as [Hl Hall]. specialize (Hs a). split; [cbn; lia|].
  constructor; [lia|]. eapply Forall_impl; [exact Hall|]. cbn. lia.
Qed.

(** ** The messages *)

#[local] Notation "f ⊗ g" := (pair_format f g) (at level 40, left associativity).
#[local] Abbreviation u32_format := (uint_format 4).
#[local] Abbreviation u64_format := (uint_format 8).

Definition publish_format : format PublishRequest := map_format
  (λ '(t, p, l, c, i, s), mkPublishRequest t p l c i s)
  (λ r, (pub_topic r, pub_payload r, pub_ttl_ms r, pub_compressed r, pub_producer_id r,
         pub_sequence_id r))
  (text_format ⊗ bytes_format ⊗ u32_format ⊗ flag_format ⊗ text_format ⊗ u64_format).

Definition subscribe_format : format SubscribeRequest := map_format
  (λ '(t, s, g), mkSubscribeRequest t s g)
  (λ r, (subq_topic r, subq_subscriber_id r, subq_group_id r))
  (text_format ⊗ text_format ⊗ text_format).

Definition unsubscribe_format : format UnsubscribeRequest := map_format
  (λ '(t, s, g), mkUnsubscribeRequest t s g)
  (λ r, (unsubq_topic r, unsubq_subscriber_id r, unsubq_group_id r))
  (text_format ⊗ text_format ⊗ text_format).

Definition pull_format : format PullRequest := map_format
  (λ '(t, s, g, n), mkPullRequest t s g (u32 n))
  (λ r, (pull_topic_ r, pull_subscriber_id r, pull_group_id r, pull_max_messages r))
  (text_format ⊗ text_format ⊗ text_format ⊗ u32_format).

Definition ack_format : format AckRequest := map_format
  (λ '(t, s, g, n), mkAckRequest t s g n)
  (λ r, (ack_topic_ r, ack_subscriber_id r, ack_group_id r, ack_message_id r))
  (text_format ⊗ text_format ⊗ text_format ⊗ u64_format).

Definition admin_format : format AdminRequest := map_format
  (λ '(c, t), mkAdminRequest c t) (λ r, (admin_command r, admin_topic r))
  (u32_format ⊗ text_format).

Definition response_format : format Response := map_format
  (λ '(s, e, i, c), mkResponse s e i c)
  (λ r, (resp_success r, resp_error_msg r, resp_message_id r, resp_error_code r))
  (flag_format ⊗ text_format ⊗ u64_format ⊗ u32_format).

Definition push_format : format PushMessage := map_format
  (λ '(i, t, p, s, r, c), mkPushMessage i t p s r c)
  (λ m, (push_message_id m, push_topic m, push_payload m, push_timestamp m, push_retry_count m,
         push_compressed m))
  (u64_format ⊗ text_format ⊗ bytes_format ⊗ u64_format ⊗ u32_format ⊗ flag_format).

Definition admin_response_format : format AdminResponse := map_format
  (λ '(s, e, j), mkAdminResponse s e j)
  (λ r, (admin_success r, admin_error_msg r, admin_json_result r))
  (flag_format ⊗ text_format ⊗ text_format).

Definition wire_proto : Proto := mkProto
  (parse publish_format) (parse (list_format publish_format)) (parse subscribe_format)
  (parse unsubscribe_format) (parse pull_format) (parse ack_format) (parse admin_format)
  (write response_format) (write push_format) (write (list_format push_format))
  (write admin_response_format).

Definition wire_client : ClientProto := mkClientProto
  (write publish_format) (write (list_format publish_format)) (write subscribe_format)
  (write unsubscribe_format) (write pull_format) (write ack_format) (write admin_format)
  (parse response_format) (parse push_format) (parse (list_format push_format))
  (parse admin_response_format).

(** ** The contracts hold *)

Lemma text_lawful : lawful (λ s, zlen (bytes_of s) < 2 ^ 64) text_format.
Proof.
  apply (map_lawful _ _ _ _ _ bytes_lawful). intros s Hs. split; [done|apply text_of_bytes].
Qed.

Lemma flag_lawful : lawful (λ _, True) flag_format.
Proof.
  apply (map_lawful _ _ _ _ _ (uint_lawful 1 ltac:(lia))). by intros [] _.
Qed.

Lemma text_consumes : consumes (λ _, 0) text_format.
Proof. apply (map_consumes _ _ _ _ _ bytes_consumes). intros a. lia. Qed.

Lemma flag_consumes : consumes (λ _, 0) flag_format.
Proof. apply (map_consumes _ _ _ _ _ (uint_consumes 1 ltac:(lia))). intros a. lia. Qed.

Lemma parse_write {A} (P : A -> Prop) f a : lawful P f -> P a -> parse f (write f a) = Some a.
Proof.
  intros Hf Ha. unfold parse, write. rewrite <- (app_nil_r (enc f a)). by rewrite Hf.
Qed.

Lemma publish_consumes : consumes (λ r, 1 + zlen (pub_payload r)) publish_format.
Proof.
  eapply map_consumes.
  - repeat apply pair_consumes; [apply text_consumes|apply bytes_consumes|apply uint_consumes; lia
      |apply flag_consumes|apply text_consumes|apply uint_consumes; lia].
  - intros [[[[[t p] l] c] i] s]. cbn. lia.
Qed.

Lemma wire_proto_contract : proto_contract wire_proto.
Proof.
  split; cbn [wire_proto parse_PublishRequest parse_BatchPublishRequest parse_PullRequest].
  - intros bs req. unfold parse. destruct (dec publish_format bs) as [[r rest]|] eqn:E; [|done].
    intros [= <-]. apply publish_consumes in E. lia.
  - intros bs reqs. unfold parse. cbn [dec list_format].
    destruct (dec (uint_format 8) bs) as [[n bs1]|] eqn:E; [|done]. cbn [mbind option_bind].
    apply (uint_consumes 8) in E; [|lia]. destruct (n <=? zlen bs1); [|done].
    destruct (dec_many _ _ _) as [[l rest]|] eqn:E1; [|done]. intros [= <-].
    destruct (dec_many_consumes _ _ _ _ _ _ publish_consumes (λ r, Nat2Z.is_nonneg _) E1)
      as [Hl Hall].
    split; [cbn in *; lia|]. eapply Forall_impl; [exact Hall|]. cbn. lia.
  - intros bs req. unfold parse, pull_format, map_format. cbn [dec].
    destruct (dec _ bs) as [[[[[t s] g] n] rest]|]; [|done]. intros [= <-]. apply u32_range.
Qed.

Lemma publish_lawful : lawful request_ok publish_format.
Proof.
  eapply map_lawful.
  - repeat apply pair_lawful; [apply text_lawful|apply bytes_lawful|apply uint_lawful; lia
      |apply flag_lawful|apply text_lawful|apply uint_lawful; lia].
  - intros r (_ & _ & Ht & Hs & Hsize). split; [|by destruct r]. cbn [fst snd].
    rewrite !length_bytes_of. split_and!; try done; lia.
Qed.

Lemma push_lawful : lawful push_ok push_format.
Proof.
  eapply map_lawful.
  - repeat apply pair_lawful; [apply uint_lawful; lia|apply text_lawful|apply bytes_lawful
      |apply uint_lawful; lia|apply uint_lawful; lia|apply flag_lawful].
  - intros m (_ & Hi & Hs & Hr & Hsize). split; [|by destruct m]. cbn [fst snd].
    rewrite !length_bytes_of. split_and!; try done; lia.
Qed.

Lemma wire_contract_holds : wire_contract wire_proto wire_client.
Proof.
  split; intros x Hx; [exact (parse_write _ _ _ publish_lawful Hx)
    |exact (parse_write _ _ _ push_lawful Hx)].
Qed.
