(* ===== verification/ClientTheorems.v ===== *)
(** * What the command-line client guarantees

    A message given to [publish] on one command line is what the other prints,
    across both connections, the broker and its compression. *)

From Stdlib Require Import Ascii String.
From S2P Require Import Prelude Types Config ConfigFile RingBuffer Frame StreamingCodec Connection.
From S2P Require Import TopicManager Compression Store MessageStore Broker BrokerProps BrokerInv.
From S2P Require Import BrokerTheorems TcpClient ClientMain WireInstance.
#[local] Open Scope string_scope.
#[local] Open Scope Z_scope.

Section theorems.
Context {St : Type} `{MessageStore St} (proto : Proto) (cp : ClientProto) (zlib : Zlib).
Implicit Types (b : Broker St).

(** What a subscriber's client prints for a message pushed by a publish. *)
Lemma print_publish_push env req id b i :
  wire_contract proto cp -> zlib_contract zlib ->
  request_ok req -> pub_compressed req = false -> in_width 64 id ->
  exists compressed, print_frame cp zlib (received (publish_push proto zlib env req id b i)) =
    ["[PUSH] topic=" ++ pub_topic req ++ " msg_id=" ++ decimal id
     ++ " retry=0 compressed=" ++ show_flag compressed
     ++ " payload=" ++ text_of (pub_payload req)].
Proof.
  intros Hw Hz (Htopic & _ & _ & _ & Hsize) Hflag Hid.
  assert (zlen (pub_payload req) < 2 ^ 50) as Hlen by lia.
  pose proof (compress_payload_shorter zlib (pub_topic req) (pub_payload req)
    (pub_compressed req) b) as Hshort.
  pose proof (compress_payload_spec zlib (pub_topic req) (pub_payload req) (pub_compressed req) b
    Hz Hlen) as Hc.
  unfold publish_push. destruct (compress_payload _ _ _ _ _) as [payload compressed].
  exists compressed. unfold print_frame. cbn [received push_frame make_frame msg_type frame_payload].
  rewrite bool_decide_false, bool_decide_true by done.
  rewrite (wc_push _ _ Hw) by (split; [done|]; split; [done|]; split; [apply u64_range|];
    split; [done|cbn in *; lia]).
  do 2 f_equal. unfold show_push. cbn [push_topic push_message_id push_retry_count push_compressed].
  unfold shown_payload. cbn [push_compressed push_payload].
  destruct Hc as [[-> ->]|(_ & -> & Hl & Hd)].
  - by rewrite Hflag.
  - rewrite Hd. destruct (pub_payload req); [cbn in Hl; lia|done].
Qed.

(** The request of a [publish] command. *)
Definition publish_command (p1 p2 : Z) (argv : list string) : PublishRequest :=
  mkPublishRequest (arg argv 4) (bytes_of (arg argv 5))
    (if 7 <=? zlen argv then u32 (atoi (arg argv 6)) else 0) false (GenerateProducerId p1 p2) 1.

Lemma publish_command_ok p1 p2 argv : u64_draw (p1, p2) -> ascii_text (arg argv 4) = true ->
  text_size (arg argv 4) + text_size (arg argv 5) < 2 ^ 29 ->
  request_ok (publish_command p1 p2 argv).
Proof.
  intros [Hp1 _] Ht Hsize. split; [done|]. split; [apply ascii_producer_id|].
  split; [cbn; case_if; [apply u32_range|done]|]. split; [done|].
  cbn [publish_command pub_topic pub_payload pub_producer_id].
  rewrite length_producer_id, length_bytes_of by done. lia.
Qed.

Lemma client_main_publish p1 p2 conn_ms pong_ms answers argv :
  arg argv 3 = "publish" -> 6 <= zlen argv ->
  let frame := mkFrame kFrameMagic kFrameVersion FrameType.Publish 0
                 (serialize_PublishRequest cp (publish_command p1 p2 argv)) in
  let r := SendFrame answers frame (Connection_new 1 None conn_ms) in
  exists lines c, client_main cp p1 p2 Established conn_ms pong_ms answers argv =
    Sent lines frame (sent_ok r) (sent_wire r) c /\ connection_ c = Some (sent_conn r).
Proof.
  intros Hcmd Hargc. cbv zeta. unfold client_main.
  destruct (zlen argv <? 5) eqn:E; reflect_bools; [lia|]. cbn [Connect].
  cbn. unfold build_request. cbv zeta. rewrite Hcmd, bool_decide_true by done.
  destruct (6 <=? zlen argv) eqn:E6; reflect_bools; [|lia]. cbn. by eexists _, _.
Qed.

(** One frame, sent at once, is one frame however it is read. *)
Lemma frame_over_wire answers f conn_ms id cfg t0 reads :
  let r := SendFrame answers f (Connection_new 1 None conn_ms) in
  sendable f -> sent_ok r = true -> write_buffer_ (sent_conn r) = [] ->
  Forall alive reads -> concat ((λ r, recv_data r.1) <$> reads) = sent_wire r ->
  exists conn, read_all reads (Connection_new id cfg t0) = Some ([received f], conn).
Proof.
  cbv zeta. intros Hf Hok Hwb Halive Hreads.
  pose proof (SendFrame_spec answers f (Connection_new 1 None conn_ms) eq_refl) as [_ Hs].
  rewrite Hok, Hwb, app_nil_r in Hs. destruct Hs as [_ Hs].
  cbn [write_buffer_ Connection_new app] in Hs.
  destruct (read_all_spec reads (Connection_new id cfg t0)) as (conn & Hread & _); try done.
  rewrite Hreads, Hs in Hread.
  cbn [codec_buffer streaming_codec_ Connection_new codec_new app] in Hread.
  pose proof (ref_decode_frames [f]) as Hdec. cbn [fmap list_fmap concat] in Hdec.
  rewrite app_nil_r in Hdec. rewrite Hdec in Hread by (constructor; [exact Hf|constructor]).
  by exists conn.
Qed.

(** All a publish request pushes are its message's frames. *)
Lemma publish_pushes_message n env conn frame b target g req :
  0 <= n < 2 ^ 64 - 2 -> tm_ok (topic_manager_ b) -> ms_wf n (store_ b) ->
  parse_PublishRequest proto (frame_payload frame) = Some req ->
  SendTo target g ∈ (HandlePublish proto zlib env conn frame b).2 ->
  exists id i, g = publish_push proto zlib env req id b i /\ in_width 64 id.
Proof.
  intros Hn Htm Hwf Hparse.
  pose proof (HandlePublish_spec proto zlib env conn frame b Htm) as Hout.
  destruct (HandlePublish _ _ _ _ _ _) as [[b' conn'] acts]. cbn [snd].
  destruct Hout as [code msg b' _ _ _|req' _ _ _|req' b' id _ _ _
    |req' b' id Hparse' _ Hst _ _ _ _].
  1-3: intros [=]%list_elem_of_singleton.
  rewrite Hparse in Hparse'. injection Hparse' as <-. intros Hin. exists id.
  assert (in_width 64 id) as Hid by exact (ms_publish_id _ _ _ _ _ _ _ _ _ Hn Hwf Hst).
  unfold publish_actions in Hin. rewrite !elem_of_app in Hin. destruct Hin as [Hin|[Hin|Hin]].
  - apply list_elem_of_fmap in Hin as (sub & [= _ ->] & _). by eexists.
  - apply group_pushes_frames in Hin as (? & ? & j & [= _ ->] & _). by eexists.
  - by apply list_elem_of_singleton in Hin.
Qed.

(** From one command line to the other, in any state of the broker.  What [publish] sends is, however
    the bytes are cut on the way, read by the broker's connection as one frame;
    whatever the broker's state and configuration, every frame it then pushes for
    this request, compressed or not, is printed by the client that receives it as
    one line with the topic and the message that was given. *)
Theorem published_is_displayed n b env sconn id cfg t0 p1 p2 conn_ms pong_ms answers argv lines
    frame wire c conn reads :
  wire_contract proto cp -> zlib_contract zlib ->
  0 <= n < 2 ^ 64 - 2 -> tm_ok (topic_manager_ b) -> ms_wf n (store_ b) ->
  arg argv 3 = "publish" -> 6 <= zlen argv ->
  u64_draw (p1, p2) -> ascii_text (arg argv 4) = true ->
  text_size (arg argv 4) + text_size (arg argv 5) < 2 ^ 29 ->
  client_main cp p1 p2 Established conn_ms pong_ms answers argv =
    Sent lines frame true wire c ->
  connection_ c = Some conn -> write_buffer_ conn = [] ->
  zlen (frame_payload frame) <= kMaxPayloadSize ->
  Forall alive reads -> concat ((λ r, recv_data r.1) <$> reads) = wire ->
  exists request conn', read_all reads (Connection_new id cfg t0) = Some ([request], conn') /\
    forall target g, SendTo target g ∈ (OnFrameReceived proto zlib env sconn request b).2 ->
      exists msg_id compressed, print_frame cp zlib (received g) =
        ["[PUSH] topic=" ++ arg argv 4 ++ " msg_id=" ++ decimal msg_id
         ++ " retry=0 compressed=" ++ show_flag compressed ++ " payload=" ++ arg argv 5].
Proof.
  intros Hw Hz Hn Htm Hwf Hcmd Hargc Hdraw Htopic Hsize Hmain Hconn Hwb Hlen Halive Hreads.
  destruct (client_main_publish p1 p2 conn_ms pong_ms answers argv Hcmd Hargc) as (lines' & c' & Heq & Hc').
  rewrite Heq in Hmain. injection Hmain as _ <- Hok <- ->. clear Heq.
  rewrite Hconn in Hc'. injection Hc' as ->. set (f := mkFrame _ _ _ _ _) in *.
  destruct (frame_over_wire answers f conn_ms id cfg t0 reads) as [conn' Hread]; try done.
  exists (received f), conn'. split; [exact Hread|]. intros target g.
  change (OnFrameReceived proto zlib env sconn (received f) b)
    with (HandlePublish proto zlib env sconn (received f) b).
  pose proof (publish_command_ok p1 p2 argv Hdraw Htopic Hsize) as Hreq. intros Hin.
  destruct (publish_pushes_message n env sconn (received f) b target g
    (publish_command p1 p2 argv)) as (mid & i & -> & Hmid); [done..|by apply (wc_publish _ _ Hw)|done|].
  destruct (print_publish_push env _ mid b i Hw Hz Hreq eq_refl Hmid) as [compressed ->].
  exists mid, compressed. cbn [pub_topic pub_payload publish_command]. by rewrite text_of_bytes.
Qed.
End theorems.

(** ** A concrete run *)

Definition demo_argv : list string := ["pmq_client"; "127.0.0.1"; "9090"; "publish"; "t"; "hello"].

Definition demo_frame : Frame := mkFrame kFrameMagic kFrameVersion FrameType.Publish 0
  (serialize_PublishRequest wire_client (publish_command 1 2 demo_argv)).

Definition demo_wire : list byte := Encode demo_frame.

Definition demo_publisher : TcpClient :=
  match client_main wire_client 1 2 Established 0 0 [Accepted 1000] demo_argv with
  | Sent _ _ _ _ c => c
  | _ => TcpClient_new
  end.

(** What the demo broker pushes for it. *)
Definition demo_pushes : list (ConnectionId * Frame) :=
  omap (λ a, match a with SendTo target g => Some (target, g) | Reply _ => None end)
    (OnFrameReceived wire_proto store_zlib demo_env demo_conn (received demo_frame) demo_broker).2.

(** The message reaches the subscriber of the demo broker. *)
Example demo_display : (λ p, print_frame wire_client store_zlib (received p.2)) <$> demo_pushes =
  [["[PUSH] topic=t msg_id=1 retry=0 compressed=0 payload=hello"]].
Proof. by vm_compute. Qed.

Lemma demo_pushes_sent target g : (target, g) ∈ demo_pushes -> SendTo target g ∈
  (OnFrameReceived wire_proto store_zlib demo_env demo_conn (received demo_frame) demo_broker).2.
Proof.
  unfold demo_pushes. intros ([f|c f] & Ha & Heq)%list_elem_of_omap; by simplify_eq/=.
Qed.

Lemma published_is_displayed_witness : exists target g msg_id compressed,
  ((target, g) ∈ demo_pushes) /\
  print_frame wire_client store_zlib (received g) =
    ["[PUSH] topic=" ++ "t" ++ " msg_id=" ++ decimal msg_id
     ++ " retry=0 compressed=" ++ show_flag compressed ++ " payload=" ++ "hello"].
Proof.
  destruct (published_is_displayed wire_proto wire_client store_zlib 0 demo_broker demo_env
    demo_conn 1 None 0 1 2 0 0 [Accepted 1000] demo_argv
    [Out "Connected to 127.0.0.1:9090"] demo_frame demo_wire demo_publisher
    (Connection_new 1 None 0) [([Received demo_wire], 0)] wire_contract_holds store_zlib_contract)
    as (request & conn & Hread & Hpush).
  1: done.
  1: exact (bo_tm _ _ demo_broker_ok).
  1: exact (bo_store _ _ demo_broker_ok).
  1-9: by vm_compute.
  1: repeat constructor.
  1: by vm_compute.
  assert (fst <$> read_all [([Received demo_wire], 0)] (Connection_new 1 None 0) =
    Some [received demo_frame]) as Hdemo by by vm_compute.
  rewrite Hread in Hdemo. injection Hdemo as ->.
  destruct demo_pushes as [|[target g] l] eqn:E; [by vm_compute in E|].
  assert ((target, g) ∈ demo_pushes) as Hin by (rewrite E; left).
  destruct (Hpush target g (demo_pushes_sent target g Hin)) as (msg_id & compressed & Heq).
  exists target, g, msg_id, compressed. split; [left|exact Heq].
Defined.
