(* ===== verification/System.v ===== *)
(** * The running broker: [mq/broker.cpp] on [network/tcp_server.cpp]

    The broker together with its member [server_]: what an event of the server
    makes the broker's handlers do, and what these send through the server.  One
    event handles its frames one after the other, each with the effects of the
    previous ones. *)

From S2P Require Import Prelude Types Config RingBuffer Frame StreamingCodec RateLimiter Connection.
From S2P Require Import TcpServer TopicManager Dedup Compression MessageStore Broker BrokerProps.
#[local] Open Scope Z_scope.

(** ** State and steps *)

Record System (St : Type) := mkSystem {
  server_ : TcpServer;
  broker_ : Broker St;
}.
#[global] Arguments mkSystem {St}.
#[global] Arguments server_ {St}.
#[global] Arguments broker_ {St}.

(** Bytes handed to the kernel, by connection. *)
Abbreviation output := (list (ConnectionId * list byte)) (only parsing).

(** One effect of a handler called for connection [id]. *)
Definition run_action (answers : list send_answer) (id : ConnectionId) (a : action) (s : TcpServer)
    : option (output * TcpServer) :=
  match a with
  | Reply f => '(_, wire, s) ← send_on false answers f id s; Some ([(id, wire)], s)
  | SendTo c f => '(_, wire, s) ← TcpServer.SendTo answers c f s; Some ([(c, wire)], s)
  end.

(** The [i]-th effect meets the [i]-th answers of the kernel. *)
Fixpoint run_actions (answers : nat -> list send_answer) (i : nat) (id : ConnectionId)
    (acts : list action) (s : TcpServer) : option (output * TcpServer) :=
  match acts with
  | [] => Some ([], s)
  | a :: acts =>
      '(out, s) ← run_action (answers i) id a s;
      '(outs, s) ← run_actions answers (i + 1) id acts s;
      Some (out ++ outs, s)
  end.

Section system.
Context {St : Type} `{MessageStore St} (proto : Proto) (zlib : Zlib).
Implicit Types (sys : System St).

Definition System_new (store : St) (config : BrokerConfig) (now : Z) : System St :=
  mkSystem (TcpServer_new config) (Broker_new store config now).

(** [Broker::Start] installs the handlers and starts the server. *)
Definition Broker_Start (opened : bool) (sys : System St) : bool * System St :=
  let '(ok, s) := Start opened (server_ sys) in (ok, mkSystem s (broker_ sys)).

Definition Broker_Stop (order : Traversal ConnectionId) (sys : System St) : option (System St) :=
  s ← Stop order (server_ sys); Some (mkSystem s (broker_ sys)).

Definition IsRunning (sys : System St) : bool := running_ (server_ sys).

(** The frame handler, for a frame read on connection [id]. *)
Definition handle_frame (env : Env) (answers : nat -> list send_answer) (id : ConnectionId)
    (frame : Frame) (sys : System St) : option (output * System St) :=
  match objects (server_ sys) !! id with
  | None => Some ([], sys)
  | Some conn =>
      let '(b, conn, acts) := OnFrameReceived proto zlib env conn frame (broker_ sys) in
      let s := set_objects (<[id := conn]> (objects (server_ sys))) (server_ sys) in
      '(out, s) ← run_actions answers 0 id acts s;
      Some (out, mkSystem s b)
  end.

(** The [i]-th frame has the [i]-th surroundings. *)
Fixpoint handle_frames (envs : nat -> Env) (answers : nat -> nat -> list send_answer) (i : nat)
    (id : ConnectionId) (frames : list Frame) (sys : System St) : option (output * System St) :=
  match frames with
  | [] => Some ([], sys)
  | frame :: frames =>
      '(out, sys) ← handle_frame (envs i) (answers i) id frame sys;
      '(outs, sys) ← handle_frames envs answers (i + 1) id frames sys;
      Some (out ++ outs, sys)
  end.

(** [EventLoop], one event, with the handlers it calls. *)
Definition system_event (reads : list recv_answer) (now_ms : Z) (envs : nat -> Env)
    (answers : nat -> nat -> list send_answer) (id : ConnectionId) (sys : System St)
    : option (output * System St) :=
  '(frames, s) ← on_event reads now_ms id (server_ sys);
  handle_frames envs answers 0 id frames (mkSystem s (broker_ sys)).

(** [HeartbeatLoop], one round, with the idle handler. *)
Definition system_heartbeat (order : Traversal ConnectionId) (now : Z) (sys : System St)
    : option (System St) :=
  '(ids, s) ← HeartbeatLoop_round order now (server_ sys);
  Some (mkSystem s (foldl (λ b id, OnConnectionClosed id b) (broker_ sys) ids)).

Inductive system_op :=
  | SysStart (opened : bool)
  | SysAccept (now_ms : Z)
  | SysEvent (reads : list recv_answer) (now_ms : Z) (envs : nat -> Env)
      (answers : nat -> nat -> list send_answer) (id : ConnectionId)
  | SysHeartbeat (order : Traversal ConnectionId) (now : Z)
  | SysLocal (env : Env) (topic : TopicName) (payload : Payload)
  | SysStop (order : Traversal ConnectionId).

Definition system_step (sys : System St) (op : system_op) : option (output * System St) :=
  match op with
  | SysStart opened => Some ([], (Broker_Start opened sys).2)
  | SysAccept now_ms => Some ([], mkSystem (accept_client now_ms (server_ sys)) (broker_ sys))
  | SysEvent reads now_ms envs answers id => system_event reads now_ms envs answers id sys
  | SysHeartbeat order now => sys ← system_heartbeat order now sys; Some ([], sys)
  | SysLocal env topic payload =>
      Some ([], mkSystem (server_ sys) (PublishLocal topic payload env (broker_ sys)).2)
  | SysStop order => sys ← Broker_Stop order sys; Some ([], sys)
  end.

Fixpoint system_run (ops : list system_op) (sys : System St) : option (output * System St) :=
  match ops with
  | [] => Some ([], sys)
  | op :: ops =>
      '(out, sys) ← system_step sys op;
      '(outs, sys) ← system_run ops sys;
      Some (out ++ outs, sys)
  end.

(** ** Subscriptions and connections *)

(** Operations on behalf of connection [c]. *)
Definition op_from (c : ConnectionId) (op : tm_op) : Prop :=
  match op with OpSubscribe _ s _ => sub_conn_id s = c | _ => True end.

(** [tm'] is what operations on behalf of [c] make of [tm]. *)
Definition tm_by (c : ConnectionId) (tm tm' : TopicManager) : Prop :=
  exists ops, tm' = foldl tm_step tm ops /\ Forall (op_from c) ops.

#[export] Instance tm_by_preorder c : PreOrder (tm_by c).
Proof.
  split; [by exists []|]. intros tm1 tm2 tm3 (ops1 & -> & H1) (ops2 & -> & H2).
  exists (ops1 ++ ops2). rewrite foldl_app. split; [done|]. by apply Forall_app.
Qed.

Lemma tm_by_op c op tm : op_from c op -> tm_by c tm (tm_step tm op).
Proof. intros Hop. exists [op]. split; [done|by constructor]. Qed.

Lemma select_target_by c topic group tm : tm_by c tm (select_target topic group tm).2.
Proof.
  unfold select_target. case_if; [done|].
  pose proof (tm_by_op c (OpSelect topic (group_id group)) tm I) as Hs. cbn [tm_step] in Hs.
  destruct (SelectNextMember _ _ _) as [selected tm']. by case_if.
Qed.

Lemma push_groups_by c topic frame i groups tm : tm_by c tm (push_groups topic frame i groups tm).2.
Proof.
  revert i tm. induction groups as [|group groups IH]; intros i tm; [done|]. cbn [push_groups].
  pose proof (select_target_by c topic group tm) as Hs.
  destruct (select_target _ _ _) as [target tm1]. specialize (IH (i + 1)%nat tm1).
  destruct (push_groups _ _ _ _ _) as [acts tm2]. cbn [snd] in *. by etrans.
Qed.

Lemma push_topics_by c env i batch topics tm : tm_by c tm (push_topics proto env i batch topics tm).2.
Proof.
  revert i tm. induction topics as [|[topic messages] topics IH]; intros i tm; [done|].
  cbn [push_topics]. cbv zeta.
  match goal with |- context [push_groups ?a ?b ?d ?e ?f] =>
    pose proof (push_groups_by c a b d e f) as Hs; destruct (push_groups a b d e f) as [grouped tm1] end.
  specialize (IH (i + 1)%nat tm1). destruct (push_topics _ _ _ _ _ _) as [acts tm2].
  cbn [snd] in *. by etrans.
Qed.

Lemma global_permit_tm tokens env (b : Broker St) :
  topic_manager_ (global_permit tokens env b).2 = topic_manager_ b.
Proof. unfold global_permit. by repeat case_match; simplify_eq/=. Qed.

Lemma publish_batch_tm env i reqs (b : Broker St) :
  topic_manager_ (publish_batch zlib env i reqs b).2 = topic_manager_ b.
Proof.
  revert i b. induction reqs as [|req reqs IH]; intros i b; [done|]. cbn [publish_batch].
  destruct (compress_payload _ _ _ _ _) as [payload flag]. cbv zeta.
  destruct (ms_publish _ _ _ _ _ _) as [[ok id] st]. specialize (IH (i + 3)%nat (with_store st b)).
  by destruct (publish_batch _ _ _ _ _) as [stored b'].
Qed.

Lemma HandlePublish_by env conn frame (b : Broker St) :
  tm_by (conn_id_ conn) (topic_manager_ b)
    (topic_manager_ (HandlePublish proto zlib env conn frame b).1.1).
Proof.
  unfold HandlePublish. destruct (parse_PublishRequest _ _) as [req|]; [|done]. cbv zeta.
  case_if; [done|]. destruct (connection_permit 1 env b conn) as [ok conn']. case_if; [done|].
  pose proof (global_permit_tm 1 env b) as Hg. destruct (global_permit 1 env b) as [ok2 b1].
  cbn [snd] in Hg. rewrite <- Hg. case_if; [done|].
  destruct (compress_payload _ _ _ _ _) as [payload flag].
  destruct (ms_publish _ _ _ _ _ _) as [[success id] st]. case_if; [done|].
  match goal with |- context [push_groups ?a ?c ?d ?e ?f] =>
    pose proof (push_groups_by (conn_id_ conn) a c d e f) as Hs;
    destruct (push_groups a c d e f) as [grouped tm] end.
  by case_if.
Qed.

Lemma HandleBatchPublish_by env conn frame (b : Broker St) :
  tm_by (conn_id_ conn) (topic_manager_ b)
    (topic_manager_ (HandleBatchPublish proto zlib env conn frame b).1.1).
Proof.
  unfold HandleBatchPublish. destruct (parse_BatchPublishRequest _ _) as [reqs|]; [|done].
  case_if; [done|]. cbv zeta. destruct (connection_permit _ env b conn) as [ok conn'].
  case_if; [done|].
  pose proof (global_permit_tm (u32 (zlen reqs)) env b) as Hg.
  destruct (global_permit _ env b) as [ok2 b1]. cbn [snd] in Hg. rewrite <- Hg.
  case_if; [done|]. case_if; [done|]. pose proof (publish_batch_tm env 0 reqs b1) as Hp.
  destruct (publish_batch _ _ _ _ _) as [stored b2]. cbn [snd] in Hp. rewrite <- Hp.
  destruct (last stored) as [m|]; [|done].
  match goal with |- context [push_topics ?p ?a ?c ?d ?e ?f] =>
    pose proof (push_topics_by (conn_id_ conn) a c d e f) as Hs;
    destruct (push_topics p a c d e f) as [acts tm] end.
  done.
Qed.

(** A handler changes subscriptions on behalf of its connection only. *)
Lemma OnFrameReceived_by env conn frame (b : Broker St) :
  tm_by (conn_id_ conn) (topic_manager_ b)
    (topic_manager_ (OnFrameReceived proto zlib env conn frame b).1.1).
Proof.
  unfold OnFrameReceived. cbv zeta. case_if; [apply HandlePublish_by|].
  case_if; [case_if; [apply HandleBatchPublish_by|done]|].
  case_if.
  { unfold keeping, HandleSubscribe. destruct (parse_SubscribeRequest _ _) as [req|]; [|done].
    cbv zeta. set (info := mkSubscriberInfo _ _).
    pose proof (tm_by_op (conn_id_ conn) (OpSubscribe (subq_topic req) info (subq_group_id req))
      (topic_manager_ b) eq_refl) as Hs. cbn [tm_step] in Hs.
    destruct (Subscribe _ _ _ _) as [ok tm]. by destruct ok. }
  case_if.
  { unfold keeping, HandleUnsubscribe. destruct (parse_UnsubscribeRequest _ _) as [req|]; [|done].
    pose proof (tm_by_op (conn_id_ conn) (OpUnsubscribe (unsubq_topic req)
      (unsubq_subscriber_id req) (unsubq_group_id req)) (topic_manager_ b) I) as Hs.
    cbn [tm_step] in Hs. by destruct (Unsubscribe _ _ _ _) as [ok tm]. }
  case_if.
  { unfold keeping, HandlePull. destruct (parse_PullRequest _ _) as [req|]; [|done]. cbv zeta.
    by destruct (ms_pull _ _ _ _ _ _ _) as [messages st]. }
  case_if.
  { unfold keeping, HandleAck. destruct (parse_AckRequest _ _) as [req|]; [|done]. cbv zeta.
    by destruct (ms_ack _ _ _ _ _) as [ok st]. }
  case_if; [done|]. case_if; [|done].
  unfold keeping, HandleAdmin. destruct (parse_AdminRequest _ _) as [req|]; [|done]. cbv zeta.
  assert (tm_by (conn_id_ conn) (topic_manager_ b)
    (UnregisterTopic (admin_topic req) (topic_manager_ b)).2) as Hu
    by exact (tm_by_op _ (OpUnregister (admin_topic req)) _ I).
  by repeat (case_if; [by repeat case_if|]).
Qed.

Lemma Forall_sublist_filter {A} (P Q : A -> Prop) `{forall x, Decision (Q x)} (l : list A) :
  Forall P l -> Forall P (filter Q l).
Proof.
  rewrite !Forall_forall. intros Hl x Hx. apply Hl. by apply list_elem_of_filter in Hx as [_ Hx].
Qed.

(** Every subscription and membership belongs to a connection with [P]. *)
Record tm_conns (P : ConnectionId -> Prop) (tm : TopicManager) : Prop := {
  tc_subs : map_Forall (λ _ subs, Forall (λ s, P (sub_conn_id s)) subs) (subscribers_ tm);
  tc_groups : map_Forall (λ _ groups, map_Forall (λ _ g,
    Forall (λ m, P (member_conn_id m)) (members g)) groups) (consumer_groups_ tm);
}.

Lemma tm_conns_impl (P Q : ConnectionId -> Prop) tm : (forall c, P c -> Q c) ->
  tm_conns P tm -> tm_conns Q tm.
Proof.
  intros HPQ [Hs Hg]. split.
  - intros t subs Ht. eapply Forall_impl; [exact (Hs t subs Ht)|]. cbn. auto.
  - intros t groups Ht h g Hh. eapply Forall_impl; [exact (Hg t groups Ht h g Hh)|]. cbn. auto.
Qed.

Lemma tm_conns_subs P tm topic : tm_conns P tm ->
  Forall (λ s, P (sub_conn_id s)) (GetSubscribers topic tm).
Proof.
  intros [Hs _]. unfold GetSubscribers. destruct (subscribers_ tm !! topic) as [subs|] eqn:E.
  - by apply (Hs topic subs).
  - constructor.
Qed.

Lemma tm_conns_default P tm topic : tm_conns P tm ->
  map_Forall (λ _ g, Forall (λ m, P (member_conn_id m)) (members g))
    (default ∅ (consumer_groups_ tm !! topic)).
Proof.
  intros [_ Hg]. destruct (consumer_groups_ tm !! topic) as [groups|] eqn:E.
  - by apply (Hg topic groups).
  - apply map_Forall_empty.
Qed.

Lemma Subscribe_conns P topic s g tm : P (sub_conn_id s) -> tm_conns P tm ->
  tm_conns P (Subscribe topic s g tm).2.
Proof.
  intros Hp Hok. unfold Subscribe. fold (ensure_topic topic tm).
  destruct (ensure_topic_fields topic tm) as [Hs Hg].
  assert (tm_conns P (ensure_topic topic tm)) as Hok' by (destruct Hok; split; rewrite ?Hs, ?Hg; done).
  pose proof (tm_conns_subs P _ topic Hok') as Hsubs.
  pose proof (tm_conns_default P _ topic Hok') as Hgroups.
  unfold GetSubscribers in Hsubs. destruct Hok' as [Hos Hog]. case_if.
  - case_if; (split; cbn; [apply map_Forall_insert_2; [|exact Hos]|exact Hog]); [exact Hsubs|].
    apply Forall_app. split; [exact Hsubs|]. by constructor.
  - destruct (default ∅ (consumer_groups_ (ensure_topic topic tm) !! topic) !! g) as [gr|] eqn:E.
    + pose proof (Hgroups g gr E) as Hgr.
      case_if; (split; cbn; [exact Hos|apply map_Forall_insert_2; [|exact Hog]]); [exact Hgroups|].
      apply map_Forall_insert_2; [|exact Hgroups]. cbn. apply Forall_app. split; [exact Hgr|].
      by constructor.
    + split; cbn; [exact Hos|]. apply map_Forall_insert_2; [|exact Hog].
      apply map_Forall_insert_2; [|exact Hgroups]. cbn. by constructor.
Qed.

Lemma Unsubscribe_conns P topic sid g tm : tm_conns P tm ->
  tm_conns P (Unsubscribe topic sid g tm).2.
Proof.
  intros Hok. pose proof Hok as [Hs Hg]. unfold Unsubscribe. case_if.
  - destruct (subscribers_ tm !! topic) as [subs|] eqn:E; [|done]. case_if; [done|].
    split; cbn; [|exact Hg]. apply map_Forall_insert_2; [|exact Hs].
    by apply Forall_sublist_filter, (Hs topic subs).
  - destruct (consumer_groups_ tm !! topic) as [groups|] eqn:E; [|done].
    destruct (groups !! g) as [gr|] eqn:Egr; [|done]. case_if; [done|].
    pose proof (Hg topic groups E) as Hgroups.
    split; cbn; [exact Hs|]. apply map_Forall_insert_2; [|exact Hg].
    case_if; [by apply map_Forall_delete|]. apply map_Forall_insert_2; [|exact Hgroups].
    cbn. by apply Forall_sublist_filter, (Hgroups g gr).
Qed.

Lemma UnsubscribeByConnId_conns P c tm : tm_conns P tm ->
  tm_conns (λ c', P c' /\ c' <> c) (UnsubscribeByConnId c tm).2.
Proof.
  intros [Hs Hg]. split; cbn [snd UnsubscribeByConnId subscribers_ consumer_groups_].
  - intros t subs. rewrite lookup_omap_Some. intros (s0 & Hs1 & Hs0).
    case_bool_decide; [done|]. injection Hs1 as <-. rewrite Forall_forall.
    intros s [Hne Hin]%list_elem_of_filter. split; [|done].
    exact (proj1 (Forall_forall _ _) (Hs t s0 Hs0) s Hin).
  - intros t groups. rewrite lookup_omap_Some. intros (g0 & Hg1 & Hg0).
    case_bool_decide; [done|]. injection Hg1 as <-. intros h g. unfold keep_groups.
    rewrite lookup_omap_Some. intros (gr & Hgr1 & Hgr0). case_bool_decide; [done|].
    injection Hgr1 as <-. cbn [members set_members]. rewrite Forall_forall.
    intros m [Hne Hin]%list_elem_of_filter. split; [|done].
    exact (proj1 (Forall_forall _ _) (Hg t g0 Hg0 h gr Hgr0) m Hin).
Qed.

Lemma tm_step_conns P tm op :
  match op with OpSubscribe _ s _ => P (sub_conn_id s) | _ => True end ->
  tm_conns P tm -> tm_conns P (tm_step tm op).
Proof.
  intros Hop Hok. destruct op as [topic|t|t s g|t sid g|t g|c|t config]; cbn [tm_step].
  - unfold RegisterTopic. case_match; [done|]. by destruct Hok.
  - destruct Hok as [Hs Hg]. split; cbn; by apply map_Forall_delete.
  - by apply Subscribe_conns.
  - by apply Unsubscribe_conns.
  - unfold SelectNextMember. destruct (consumer_groups_ tm !! t) as [groups|] eqn:E; [|done].
    destruct (groups !! g) as [gr|] eqn:Egr; [|done]. case_if; [done|]. cbn [snd].
    destruct Hok as [Hs Hg]. pose proof (Hg t groups E) as Hgroups.
    split; cbn; [exact Hs|]. apply map_Forall_insert_2; [|exact Hg].
    apply map_Forall_insert_2; [|exact Hgroups]. exact (Hgroups g gr Egr).
  - eapply tm_conns_impl; [|by apply UnsubscribeByConnId_conns]. by intros c' [? _].
  - by destruct Hok.
Qed.

Lemma tm_by_conns P c tm tm' : P c -> tm_by c tm tm' -> tm_conns P tm -> tm_conns P tm'.
Proof.
  intros Hc (ops & -> & Hops) Hok. revert tm Hok.
  induction Hops as [|op ops Hop Hops IH]; intros tm Hok; [done|]. cbn [foldl]. apply IH.
  apply tm_step_conns; [|done]. destruct op; try done. cbn in Hop. by rewrite Hop.
Qed.

Lemma tm_by_ok c tm tm' : tm_by c tm tm' -> tm_ok tm -> tm_ok tm'.
Proof.
  intros (ops & -> & _). revert tm. induction ops as [|op ops IH]; intros tm Hok; [done|].
  cbn [foldl]. by apply IH, tm_step_ok.
Qed.

(** ** Connections during an event *)

(** All but the limiter. *)
Record same_link (conn conn' : Connection) : Prop := {
  sl_id : conn_id_ conn' = conn_id_ conn;
  sl_closed : closed_ conn' = closed_ conn;
  sl_read : read_buffer_ conn' = read_buffer_ conn;
  sl_codec : streaming_codec_ conn' = streaming_codec_ conn;
  sl_write : write_buffer_ conn' = write_buffer_ conn;
  sl_active : last_active_time_ms_ conn' = last_active_time_ms_ conn;
  sl_config : config_ conn' = config_ conn;
}.

Lemma AcquirePublishPermit_link tokens now_new now conn :
  same_link conn (AcquirePublishPermit tokens now_new now conn).2.
Proof.
  unfold AcquirePublishPermit. case_match; [done|]. cbv zeta.
  by destruct (Acquire _ _ _) as [ok l].
Qed.

Lemma connection_permit_link tokens env (b : Broker St) conn :
  same_link conn (connection_permit tokens env b conn).2.
Proof. unfold connection_permit. case_if; [apply AcquirePublishPermit_link|done]. Qed.

Lemma HandlePublish_link env conn frame (b : Broker St) :
  same_link conn (HandlePublish proto zlib env conn frame b).1.2.
Proof.
  unfold HandlePublish. destruct (parse_PublishRequest _ _) as [req|]; [|done]. cbv zeta.
  case_if; [done|]. pose proof (connection_permit_link 1 env b conn) as Hl.
  destruct (connection_permit 1 env b conn) as [ok conn']. case_if; [done|].
  destruct (global_permit 1 env b) as [ok2 b1]. case_if; [done|].
  destruct (compress_payload _ _ _ _ _) as [payload flag].
  destruct (ms_publish _ _ _ _ _ _) as [[success id] st]. case_if; [done|].
  by destruct (push_groups _ _ _ _ _) as [grouped tm].
Qed.

Lemma HandleBatchPublish_link env conn frame (b : Broker St) :
  same_link conn (HandleBatchPublish proto zlib env conn frame b).1.2.
Proof.
  unfold HandleBatchPublish. destruct (parse_BatchPublishRequest _ _) as [reqs|]; [|done].
  case_if; [done|]. cbv zeta. pose proof (connection_permit_link (u32 (zlen reqs)) env b conn) as Hl.
  destruct (connection_permit _ env b conn) as [ok conn']. case_if; [done|].
  destruct (global_permit _ env b) as [ok2 b1]. case_if; [done|]. case_if; [done|].
  destruct (publish_batch _ _ _ _ _) as [stored b2]. destruct (last stored) as [m|]; [|done].
  by destruct (push_topics _ _ _ _ _ _) as [acts tm].
Qed.

Lemma OnFrameReceived_link env conn frame (b : Broker St) :
  same_link conn (OnFrameReceived proto zlib env conn frame b).1.2.
Proof.
  unfold OnFrameReceived. cbv zeta. case_if; [apply HandlePublish_link|].
  case_if; [case_if; [apply HandleBatchPublish_link|done]|].
  by repeat (case_if; [done|]).
Qed.

(** Open connections are between reads: nothing unread outside the codec. *)
Definition conn_clean (conn : Connection) : Prop :=
  closed_ conn = false -> read_buffer_ conn = [] /\ codec_ok (streaming_codec_ conn).

Lemma SendFrame_codec answers frame conn :
  let conn' := sent_conn (SendFrame answers frame conn) in
  read_buffer_ conn' = read_buffer_ conn /\ streaming_codec_ conn' = streaming_codec_ conn /\
  last_active_time_ms_ conn' = last_active_time_ms_ conn /\ config_ conn' = config_ conn.
Proof.
  cbv zeta. unfold SendFrame, Close.
  repeat case_match; cbn in *; simplify_eq/=; done.
Qed.

Lemma SendFrame_clean answers frame conn : conn_clean conn ->
  conn_clean (sent_conn (SendFrame answers frame conn)).
Proof.
  intros Hc Hopen. destruct (SendFrame_codec answers frame conn) as (-> & -> & _ & _). apply Hc.
  destruct (SendFrame_evolves answers frame conn) as [_ He].
  destruct (closed_ conn); [by rewrite He in Hopen|done].
Qed.

(** The server between events; [s'] has the connections of [s]. *)
Record server_clean (n : Z) (s : TcpServer) : Prop := {
  sc_ok : server_ok n s;
  sc_clean : map_Forall (λ _ conn, conn_clean conn) (objects s);
}.

Definition has_objects (s s' : TcpServer) : Prop :=
  forall c, is_Some (objects s !! c) -> is_Some (objects s' !! c).

Lemma server_clean_insert n s s' id conn' : server_clean n s -> server_ok n s' ->
  objects s' = <[id := conn']> (objects s) -> conn_clean conn' ->
  server_clean n s' /\ has_objects s s'.
Proof.
  intros [_ Hc] Hok Hobj Hconn. split.
  - split; [done|]. rewrite Hobj. by apply map_Forall_insert_2.
  - intros c Hs. rewrite Hobj. apply lookup_insert_is_Some'. by right.
Qed.

Lemma send_on_clean n locked answers f id s r : server_clean n s ->
  send_on locked answers f id s = Some r -> server_clean n r.2 /\ has_objects s r.2.
Proof.
  intros Hok. unfold send_on. destruct (objects s !! id) as [conn|] eqn:Hc.
  2:{ intros [= <-]. by split; [|intros c]. }
  cbv zeta. destruct (update _ _ _ _ _) as [s'|] eqn:Hup; [|done]. intros [= <-].
  destruct (update_inv locked n [] id conn _ s s' (sc_ok _ _ Hok) Hc
    (SendFrame_evolves _ _ _) Hup) as (Hs' & Hobj & _).
  apply (server_clean_insert n s s' id _ Hok Hs' Hobj).
  apply SendFrame_clean. by apply (sc_clean _ _ Hok id).
Qed.

Lemma run_action_clean n answers id a s r : server_clean n s ->
  run_action answers id a s = Some r -> server_clean n r.2 /\ has_objects s r.2.
Proof.
  intros Hok. destruct a as [f|c f]; cbn [run_action].
  - destruct (send_on _ _ _ _ _) as [[[ok wire] s']|] eqn:Hs; [|done]. intros [= <-].
    exact (send_on_clean _ _ _ _ _ _ _ Hok Hs).
  - unfold TcpServer.SendTo. case_bool_decide.
    + destruct (send_on _ _ _ _ _) as [[[ok wire] s']|] eqn:Hs; [|done]. intros [= <-].
      exact (send_on_clean _ _ _ _ _ _ _ Hok Hs).
    + intros [= <-]. split; [done|]. by intros ?.
Qed.

Lemma run_actions_clean n answers i id acts s r : server_clean n s ->
  run_actions answers i id acts s = Some r -> server_clean n r.2 /\ has_objects s r.2.
Proof.
  revert i s r. induction acts as [|a acts IH]; intros i s r Hok.
  { intros [= <-]. split; [done|]. by intros ?. }
  cbn [run_actions]. destruct (run_action _ _ _ _) as [[out s1]|] eqn:Ha; [|done]. cbn.
  destruct (run_actions _ _ _ _ _) as [[outs s2]|] eqn:Hr; [|done]. intros [= <-].
  destruct (run_action_clean _ _ _ _ _ _ Hok Ha) as [Hok1 Hd1].
  destruct (IH _ _ _ Hok1 Hr) as [Hok2 Hd2]. split; [done|]. cbn in *. intros c Hs. by apply Hd2, Hd1.
Qed.

(** Sockets that work never block an effect. *)
Lemma send_on_works locked answers f id s : Forall works answers ->
  is_Some (send_on locked answers f id s).
Proof.
  intros Hw. unfold send_on. destruct (objects s !! id) as [conn|]; [|by eexists]. cbv zeta.
  unfold update. rewrite SendFrame_works by done.
  destruct (closed_ conn); cbn; by eexists.
Qed.

Lemma run_action_works answers id a s : Forall works answers -> is_Some (run_action answers id a s).
Proof.
  intros Hw. destruct a as [f|c f]; cbn [run_action].
  - destruct (send_on_works false answers f id s Hw) as [[[ok wire] s'] ->]. by eexists.
  - unfold TcpServer.SendTo. case_bool_decide; [|by eexists].
    destruct (send_on_works true answers f c s Hw) as [[[ok wire] s'] ->]. by eexists.
Qed.

Lemma run_actions_works answers i id acts s : (forall i, Forall works (answers i)) ->
  is_Some (run_actions answers i id acts s).
Proof.
  intros Hw. revert i s. induction acts as [|a acts IH]; intros i s; [by eexists|].
  cbn [run_actions]. destruct (run_action_works (answers i) id a s (Hw i)) as [[out s1] ->]. cbn.
  destruct (IH (i + 1)%nat s1) as [[outs s2] ->]. by eexists.
Qed.

(** ** The invariant *)

Record system_ok (n : Z) sys : Prop := {
  so_server : server_clean n (server_ sys);
  so_tm : tm_ok (topic_manager_ (broker_ sys));
  so_conns : tm_conns (λ c, is_Some (objects (server_ sys) !! c)) (topic_manager_ (broker_ sys));
}.

Lemma set_link_clean n s id conn conn' : server_clean n s -> objects s !! id = Some conn ->
  same_link conn conn' ->
  server_clean n (set_objects (<[id := conn']> (objects s)) s) /\
  has_objects s (set_objects (<[id := conn']> (objects s)) s).
Proof.
  intros [[Ho Ht Hx] Hclean] Hc [Hid Hcl Hr Hcodec _ _ _].
  apply (server_clean_insert n s _ id conn'); [by split| |done|].
  - split; cbn [objects set_objects connections_ next_conn_id_]; [|intros i Hi|done].
    + apply map_Forall_insert_2; [|done]. rewrite Hid, Hcl. exact (Ho id conn Hc).
    + destruct (decide (i = id)) as [->|Hne]; [|by rewrite lookup_insert_ne; [apply Ht|]].
      rewrite lookup_insert_eq. exists conn'. split; [done|]. rewrite Hcl.
      destruct (Ht id Hi) as (c0 & Hc0 & Hop). congruence.
  - unfold conn_clean. rewrite Hcl, Hr, Hcodec. exact (Hclean id conn Hc).
Qed.

Lemma handle_frame_ok n env answers id frame sys r : system_ok n sys ->
  handle_frame env answers id frame sys = Some r -> system_ok n r.2.
Proof.
  intros [Hs Htm Hconns]. unfold handle_frame.
  destruct (objects (server_ sys) !! id) as [conn|] eqn:Hc; [|by intros [= <-]].
  pose proof (OnFrameReceived_by env conn frame (broker_ sys)) as Hby.
  pose proof (OnFrameReceived_link env conn frame (broker_ sys)) as Hlink.
  destruct (OnFrameReceived _ _ _ _ _ _) as [[b conn'] acts]. cbn [fst snd] in *.
  destruct (set_link_clean n _ id conn conn' Hs Hc Hlink) as [Hs1 Hd1].
  destruct (run_actions _ _ _ _ _) as [[out s2]|] eqn:Hr; [|done]. intros [= <-].
  destruct (run_actions_clean _ _ _ _ _ _ _ Hs1 Hr) as [Hs2 Hd2]. cbn [snd] in *.
  assert (conn_id_ conn = id) as Hid by apply (sv_objects _ _ _ (sc_ok _ _ Hs) id conn Hc).
  split; cbn [server_ broker_]; [done|by eapply tm_by_ok|].
  rewrite Hid in Hby. refine (tm_by_conns _ id _ _ _ Hby _); [apply Hd2, Hd1; by eexists|].
  eapply tm_conns_impl; [|exact Hconns]. intros c Hsome. by apply Hd2, Hd1.
Qed.

Lemma handle_frames_ok n envs answers i id frames sys r : system_ok n sys ->
  handle_frames envs answers i id frames sys = Some r -> system_ok n r.2.
Proof.
  revert i sys r. induction frames as [|frame frames IH]; intros i sys r Hok.
  { by intros [= <-]. }
  cbn [handle_frames]. destruct (handle_frame _ _ _ _ _) as [[out sys1]|] eqn:Ha; [|done]. cbn.
  destruct (handle_frames _ _ _ _ _ _) as [[outs sys2]|] eqn:Hr; [|done]. intros [= <-].
  apply (IH _ _ _ (handle_frame_ok _ _ _ _ _ _ _ Hok Ha) Hr).
Qed.

Lemma handle_frames_works envs answers i id frames sys :
  (forall i j, Forall works (answers i j)) ->
  is_Some (handle_frames envs answers i id frames sys).
Proof.
  intros Hw. revert i sys. induction frames as [|frame frames IH]; intros i sys; [by eexists|].
  cbn [handle_frames].
  assert (is_Some (handle_frame (envs i) (answers i) id frame sys)) as [[out sys1] ->].
  { unfold handle_frame. destruct (objects (server_ sys) !! id) as [conn|]; [|by eexists].
    destruct (OnFrameReceived _ _ _ _ _ _) as [[b conn'] acts].
    match goal with |- context [run_actions ?a ?b ?c ?d ?e] =>
      destruct (run_actions_works a b c d e (Hw i)) as [[out s] ->] end.
    by eexists. }
  cbn. destruct (IH (i + 1)%nat sys1) as [[outs sys2] ->]. by eexists.
Qed.

Lemma OnRead_clean reads now_ms conn : conn_clean conn ->
  exists frames conn', OnRead reads now_ms conn = Some (frames, conn') /\ conn_clean conn'.
Proof.
  intros Hclean. destruct (closed_ conn) eqn:Hc.
  { exists [], conn. unfold OnRead. by rewrite Hc. }
  destruct (Hclean Hc) as [Hrb Hcodec].
  destruct (recv_loop reads (read_buffer_ conn)) as [buffer al] eqn:Hrecv. destruct al.
  - destruct (OnRead_spec reads now_ms conn Hc Hrb) as (conn' & Heq & Hop & Hrb' & Hcodec' & _);
      [|done|by eexists _, conn'].
    unfold alive. cbn [fst]. by rewrite (recv_loop_alive reads [] (read_buffer_ conn)), Hrecv.
  - exists [], (set_closed (set_read buffer (streaming_codec_ conn) conn)).
    unfold OnRead. rewrite Hc, Hrecv. unfold Close. cbn. by rewrite Hc.
Qed.

Lemma on_event_clean n reads now_ms id s : server_clean n s ->
  exists frames s', on_event reads now_ms id s = Some (frames, s') /\
    server_clean n s' /\ has_objects s s'.
Proof.
  intros Hok. unfold on_event. case_bool_decide.
  2:{ exists [], s. split; [done|]. split; [done|]. by intros ?. }
  destruct (objects s !! id) as [conn|] eqn:Hc.
  2:{ exists [], s. split; [done|]. split; [done|]. by intros ?. }
  destruct (OnRead_clean reads now_ms conn) as (frames & conn' & Hr & Hclean).
  { exact (sc_clean _ _ Hok id conn Hc). }
  rewrite Hr. cbn [mbind option_bind].
  destruct (update false id conn conn' s) as [s'|] eqn:Hup.
  2:{ unfold update, close_handler in Hup. by case_match. }
  exists frames, s'. split; [done|].
  destruct (update_inv false n [] id conn conn' s s' (sc_ok _ _ Hok) Hc
    (OnRead_evolves _ _ _ _ _ Hr) Hup) as (Hs' & Hobj & _).
  exact (server_clean_insert n s s' id conn' Hok Hs' Hobj Hclean).
Qed.

(** Dropping the subscriptions of several connections. *)
Lemma closed_ids_tm ids (b : Broker St) :
  topic_manager_ (foldl (λ b id, OnConnectionClosed id b) b ids) =
  foldl (λ tm id, (UnsubscribeByConnId id tm).2) (topic_manager_ b) ids.
Proof. revert b. induction ids as [|id ids IH]; intros b; [done|]. cbn [foldl]. by rewrite IH. Qed.

Lemma closed_ids_conns P ids tm : tm_ok tm -> tm_conns P tm ->
  let tm' := foldl (λ tm id, (UnsubscribeByConnId id tm).2) tm ids in
  tm_ok tm' /\ tm_conns (λ c, P c /\ (c ∉ ids)) tm'.
Proof.
  cbv zeta. revert P tm. induction ids as [|id ids IH]; intros P tm Hok Hc; cbn [foldl].
  { split; [done|]. eapply tm_conns_impl; [|done]. intros c Hp. split; [done|].
    apply not_elem_of_nil. }
  destruct (IH (λ c, P c /\ c <> id) (UnsubscribeByConnId id tm).2) as [Hok' Hc'].
  - by apply UnsubscribeByConnId_ok.
  - by apply UnsubscribeByConnId_conns.
  - split; [done|]. eapply tm_conns_impl; [|done]. intros c [[Hp Hne] Hin]. split; [done|].
    by rewrite not_elem_of_cons.
Qed.

Lemma heartbeat_clean n order now s : server_clean n s ->
  exists s', HeartbeatLoop_round order now s = Some (idle_connections order now s, s') /\
    server_clean n s' /\ has_objects s s'.
Proof.
  intros [Hok Hclean].
  destruct (HeartbeatLoop_round_spec n order now s Hok) as (s' & Heq & Hok' & _ & Hobj & _).
  exists s'. split; [done|]. split.
  - split; [done|]. intros id conn. rewrite Hobj. case_bool_decide; [|apply Hclean].
    intros (c & _ & ->)%fmap_Some. by intros ?.
  - intros id [conn Hid]. rewrite Hobj, Hid. case_bool_decide; by eexists.
Qed.

(** Every step keeps the invariant, and returns if the sockets it uses work. *)
Definition sockets_work (op : system_op) : Prop :=
  match op with
  | SysEvent _ _ _ answers _ => forall i j, Forall works (answers i j)
  | _ => True
  end.

Lemma system_step_ok n op sys : 0 <= n < 2 ^ 64 - 2 -> system_ok n sys ->
  (forall r, system_step sys op = Some r -> system_ok (n + 1) r.2) /\
  (sockets_work op -> is_Some (system_step sys op)).
Proof.
  intros Hn [Hs Htm Hconns].
  assert (forall s', server_clean n s' -> server_clean (n + 1) s') as Hweak.
  { intros s' [Hok Hc]. split; [|done]. by apply (server_inv_weaken n); [lia|]. }
  assert (forall s' b tm', server_clean (n + 1) s' -> has_objects (server_ sys) s' ->
    topic_manager_ b = tm' -> tm_ok tm' ->
    tm_conns (λ c, is_Some (objects (server_ sys) !! c)) tm' ->
    system_ok (n + 1) (mkSystem s' b)) as Hkeep.
  { intros s' b tm' H1 H2 <- H3 H4. split; [done|done|]. eapply tm_conns_impl; [|exact H4]. exact H2. }
  assert (has_objects (server_ sys) (server_ sys)) as Hrefl by by intros ?.
  destruct op as [opened|now_ms|reads now_ms envs answers id|order now|env topic payload|order];
    cbn [system_step sockets_work].
  - split; [|by eexists]. intros r [= <-]. unfold Broker_Start, Start. apply Hweak in Hs.
    by destruct opened; cbn; eapply Hkeep; try done; destruct Hs as [[] ?].
  - split; [|by eexists]. intros r [= <-]. eapply Hkeep; try done.
    + split; [apply accept_client_inv; [lia|apply Hs]|]. cbn.
      apply map_Forall_insert_2; [by intros _|apply Hs].
    + intros c Hc. cbn. apply lookup_insert_is_Some'. by right.
  - unfold system_event.
    destruct (on_event_clean n reads now_ms id _ Hs) as (frames & s' & -> & Hs' & Hd).
    cbn [mbind option_bind]. split; [|by apply handle_frames_works].
    intros r Hr. assert (system_ok n r.2) as [H1 H2 H3]; [|split; [by apply Hweak|done..]].
    eapply handle_frames_ok; [|exact Hr]. split; [done|done|]. eapply tm_conns_impl; [|exact Hconns].
    exact Hd.
  - unfold system_heartbeat.
    destruct (heartbeat_clean n order now _ Hs) as (s' & -> & Hs' & Hd). cbn [mbind option_bind].
    split; [|by eexists]. intros r [= <-].
    destruct (closed_ids_conns _ (idle_connections order now (server_ sys)) _ Htm Hconns)
      as [Htm' Hc']. eapply Hkeep; [by apply Hweak|done|apply closed_ids_tm|done|].
    eapply tm_conns_impl; [|exact Hc']. by intros c [? _].
  - split; [|by eexists]. intros r [= <-]. eapply Hkeep; [by apply Hweak|done| |done|done].
    unfold PublishLocal. by destruct (ms_publish _ _ _ _ _ _) as [[ok id] st].
  - unfold Broker_Stop.
    destruct (Stop_spec n order _ (sc_ok _ _ Hs)) as (s' & -> & Hs' & _ & Hall & Hd).
    cbn [mbind option_bind]. split; [|by eexists]. intros r [= <-].
    eapply Hkeep; [apply Hweak; split; [done|]|done|done|done|done].
    intros id conn Hid Hop. by rewrite (Hall id conn Hid) in Hop.
Qed.

Lemma system_new_ok store config now : system_ok 0 (System_new store config now).
Proof.
  split; [|by split; apply map_Forall_empty|by split; apply map_Forall_empty].
  split; [apply server_new_ok|apply map_Forall_empty].
Qed.

Lemma system_run_ok n ops sys r : 0 <= n -> n + zlen ops < 2 ^ 64 - 2 -> system_ok n sys ->
  system_run ops sys = Some r -> system_ok (n + zlen ops) r.2.
Proof.
  revert n sys r. induction ops as [|op ops IH]; intros n sys r Hn0 Hn Hok.
  { intros [= <-]. cbn. by rewrite Z.add_0_r. }
  cbn [system_run length] in *. destruct (system_step sys op) as [[out sys1]|] eqn:Hs; [|done]. cbn.
  destruct (system_run ops sys1) as [[outs sys2]|] eqn:Hr; [|done]. intros [= <-].
  replace (n + Z.of_nat (S (length ops))) with (n + 1 + zlen ops) by lia.
  apply (IH (n + 1) sys1 (outs, sys2)); [lia|lia| |done].
  destruct (system_step_ok n op sys ltac:(lia) Hok) as [H1 _]. exact (H1 _ Hs).
Qed.

(** The states a broker can reach in fewer than [2^64 - 3] steps. *)
Definition reachable sys : Prop :=
  exists store config now ops out, zlen ops < 2 ^ 64 - 3 /\
    system_run ops (System_new store config now) = Some (out, sys).

Lemma reachable_ok sys : reachable sys -> exists n, 0 <= n < 2 ^ 64 - 2 /\ system_ok n sys.
Proof.
  intros (store & config & now & ops & out & Hops & Hrun). exists (zlen ops). split; [lia|].
  apply (system_run_ok 0 ops (System_new store config now) (out, sys)); [lia|lia| |done].
  apply system_new_ok.
Qed.

(** ** Subscriptions of a topic after connections are dropped *)

Definition members_of (topic group : string) (tm : TopicManager) : list ConsumerGroupMember :=
  default [] (members <$> GetConsumerGroup topic group tm).

Lemma UnsubscribeByConnId_subs c t tm :
  GetSubscribers t (UnsubscribeByConnId c tm).2 =
  filter (λ s, sub_conn_id s <> c) (GetSubscribers t tm).
Proof.
  unfold GetSubscribers. cbn [UnsubscribeByConnId snd subscribers_]. rewrite lookup_omap.
  destruct (subscribers_ tm !! t) as [subs|]; [|done]. cbn. case_bool_decide as E; [|done].
  by rewrite E.
Qed.

Lemma UnsubscribeByConnId_members c t h tm :
  members_of t h (UnsubscribeByConnId c tm).2 =
  filter (λ m, member_conn_id m <> c) (members_of t h tm).
Proof.
  unfold members_of, GetConsumerGroup. cbn [UnsubscribeByConnId snd consumer_groups_].
  rewrite lookup_omap. destruct (consumer_groups_ tm !! t) as [groups|]; [|done].
  assert (default [] (members <$> keep_groups c groups !! h) =
    filter (λ m, member_conn_id m <> c) (default [] (members <$> groups !! h))) as Hk.
  { unfold keep_groups. rewrite lookup_omap. destruct (groups !! h) as [g|]; [|done]. cbn.
    case_bool_decide as E; [|done]. by rewrite E. }
  cbn [mbind option_bind]. case_bool_decide as E; [|exact Hk].
  rewrite E, lookup_empty in Hk. exact Hk.
Qed.

Lemma filter_filter_notin {A} (f : A -> Z) c ids (l : list A) :
  filter (λ x, f x ∉ ids) (filter (λ x, f x <> c) l) = filter (λ x, f x ∉ c :: ids) l.
Proof.
  rewrite list_filter_filter. apply list_filter_iff. intros x. rewrite not_elem_of_cons. tauto.
Qed.

Lemma closed_ids_subs ids tm :
  let tm' := foldl (λ tm id, (UnsubscribeByConnId id tm).2) tm ids in
  (forall t, GetSubscribers t tm' = filter (λ s, sub_conn_id s ∉ ids) (GetSubscribers t tm)) /\
  (forall t h, members_of t h tm' = filter (λ m, member_conn_id m ∉ ids) (members_of t h tm)).
Proof.
  cbv zeta. revert tm. induction ids as [|id ids IH]; intros tm; cbn [foldl].
  { assert (forall A (f : A -> Z) (l : list A), filter (λ x, f x ∉ []) l = l) as Hall.
    { intros A f l. induction l as [|x l IH]; [done|].
      by rewrite filter_cons, decide_True, IH by apply not_elem_of_nil. }
    split; intros; by rewrite Hall. }
  destruct (IH (UnsubscribeByConnId id tm).2) as [H1 H2]. split; intros.
  - rewrite H1, UnsubscribeByConnId_subs. apply filter_filter_notin.
  - rewrite H2, UnsubscribeByConnId_members. apply filter_filter_notin.
Qed.
End system.
