(* ===== verification/SystemTheorems.v ===== *)
(** * What the running broker guarantees

    The broker on its server, and the exchange of heartbeats with a client. *)

From S2P Require Import Prelude Types Config RingBuffer Frame StreamingCodec RateLimiter Connection.
From S2P Require Import TcpServer TopicManager Dedup Compression Store MessageStore Broker BrokerProps.
From S2P Require Import BrokerInv BrokerTheorems TcpClient System.
#[local] Open Scope Z_scope.

Section theorems.
Context {St : Type} `{MessageStore St} (proto : Proto) (zlib : Zlib).
Implicit Types (sys : System St).

(** C26: in every state the running broker can reach, the server's table holds
    exactly the open connections, and every subscription and group membership
    belongs to a connection the server has accepted. *)
Theorem system_invariant sys : reachable proto zlib sys ->
  (forall id, id ∈ connections_ (server_ sys) <->
     exists conn, objects (server_ sys) !! id = Some conn /\ closed_ conn = false) /\
  tm_ok (topic_manager_ (broker_ sys)) /\
  (forall t s, s ∈ GetSubscribers t (topic_manager_ (broker_ sys)) ->
     is_Some (objects (server_ sys) !! sub_conn_id s)) /\
  (forall t h m, m ∈ members_of t h (topic_manager_ (broker_ sys)) ->
     is_Some (objects (server_ sys) !! member_conn_id m)).
Proof.
  intros (n & _ & [[[Ho Ht _] _] Htm Hconns])%reachable_ok. split; [|split; [done|split]].
  - intros id. split; [apply Ht|]. intros (conn & Hc & Hop).
    destruct (Ho id conn Hc) as (_ & _ & Hin). destruct (Hin Hop) as [|Hnil]; [done|].
    by apply not_elem_of_nil in Hnil.
  - intros t s Hs. pose proof (tm_conns_subs _ _ t Hconns) as Hall.
    exact (proj1 (Forall_forall _ _) Hall s Hs).
  - intros t h m. unfold members_of, GetConsumerGroup. destruct Hconns as [_ Hg].
    destruct (consumer_groups_ _ !! t) as [groups|] eqn:E; [|by intros ?%not_elem_of_nil]. cbn.
    destruct (groups !! h) as [g|] eqn:Eg; [|by intros ?%not_elem_of_nil]. cbn. intros Hm.
    exact (proj1 (Forall_forall _ _) (Hg t groups E h g Eg) m Hm).
Qed.

(** C28: the broker never blocks while sockets work: in every state it can
    reach, every event, with all the frames it brings and everything their
    handlers send, every heartbeat round and every stop returns.  (A push to a
    socket that fails blocks for ever: see [broken_push_deadlocks].) *)
Theorem system_never_blocks sys op : reachable proto zlib sys -> sockets_work op ->
  exists out sys', system_step proto zlib sys op = Some (out, sys').
Proof.
  intros (n & Hn & Hok)%reachable_ok Hw.
  destruct (system_step_ok proto zlib n op sys Hn Hok) as [_ H2].
  destruct (H2 Hw) as [[out sys'] Heq]. by exists out, sys'.
Qed.

(** C29: a heartbeat round takes exactly the idle connections from the table,
    drops exactly their subscriptions and memberships, keeps all others in their
    order, and touches neither the store nor the deduplication window. *)
Theorem heartbeat_drops_subscriptions sys order now : reachable proto zlib sys ->
  let ids := idle_connections order now (server_ sys) in
  exists sys', system_step proto zlib sys (SysHeartbeat order now) = Some ([], sys') /\
    (forall id, id ∈ connections_ (server_ sys') <->
       id ∈ connections_ (server_ sys) /\ id ∉ ids) /\
    (forall t, GetSubscribers t (topic_manager_ (broker_ sys')) =
       filter (λ s, sub_conn_id s ∉ ids) (GetSubscribers t (topic_manager_ (broker_ sys)))) /\
    (forall t h, members_of t h (topic_manager_ (broker_ sys')) =
       filter (λ m, member_conn_id m ∉ ids)
         (members_of t h (topic_manager_ (broker_ sys)))) /\
    store_ (broker_ sys') = store_ (broker_ sys) /\
    dedup_window_ (broker_ sys') = dedup_window_ (broker_ sys).
Proof.
  intros (n & _ & [[Hok _] _ _])%reachable_ok. cbv zeta. cbn [system_step]. unfold system_heartbeat.
  destruct (HeartbeatLoop_round_spec n order now (server_ sys) Hok)
    as (s' & -> & _ & _ & _ & Hset). cbn [mbind option_bind].
  set (ids := idle_connections _ _ _) in *. eexists. split; [done|]. cbn [server_ broker_].
  rewrite closed_ids_tm. destruct (closed_ids_subs ids (topic_manager_ (broker_ sys))) as [Hs Hm].
  split; [exact Hset|]. split; [exact Hs|].
  split; [exact Hm|]. clear. generalize (broker_ sys). intros b. revert b.
  induction ids as [|id ids IH]; intros b; [done|]. cbn [foldl].
  exact (IH (OnConnectionClosed id b)).
Qed.

(** A peer that goes away does not take its subscriptions along.  Its
    connection is closed and leaves the table, but the broker is not told: its
    subscriptions stay, what is pushed to them goes nowhere, and the heartbeat no
    longer sees the connection; the same subscriber id cannot subscribe again. *)
Theorem disconnect_leaves_subscriptions sys id conn reads now_ms envs answers :
  reachable proto zlib sys -> objects (server_ sys) !! id = Some conn -> closed_ conn = false ->
  (recv_loop reads (read_buffer_ conn)).2 = false ->
  exists sys', system_step proto zlib sys (SysEvent reads now_ms envs answers id) = Some ([], sys') /\
    broker_ sys' = broker_ sys /\
    (id ∉ connections_ (server_ sys')) /\
    (forall net f, TcpServer.SendTo net id f (server_ sys') = Some (false, [], server_ sys')) /\
    (forall order now, id ∉ idle_connections order now (server_ sys')) /\
    (forall t s c', s ∈ GetSubscribers t (topic_manager_ (broker_ sys)) -> sub_conn_id s = id ->
       (Subscribe t (mkSubscriberInfo (sub_id s) c') "" (topic_manager_ (broker_ sys'))).1 = false).
Proof.
  intros (n & _ & [[Hok Hclean] _ _])%reachable_ok Hc Hop Heof.
  assert (id ∈ connections_ (server_ sys)) as Hin.
  { destruct Hok as [Ho _ _]. destruct (Ho id conn Hc) as (_ & _ & Hin).
    destruct (Hin Hop) as [|Hnil]; [done|]. by apply not_elem_of_nil in Hnil. }
  cbn [system_step]. unfold system_event, on_event. rewrite bool_decide_true by done. rewrite Hc.
  set (conn' := set_closed (set_read (recv_loop reads (read_buffer_ conn)).1 (streaming_codec_ conn) conn)).
  assert (OnRead reads now_ms conn = Some ([], conn')) as ->.
  { unfold OnRead, conn'. rewrite Hop. destruct (recv_loop _ _) as [buffer al]. cbn in Heof. subst al.
    unfold Close. cbn. by rewrite Hop. }
  cbn [mbind option_bind]. unfold update. cbn [closed_ conn' set_closed]. rewrite Hop. cbn.
  assert (id ∉ connections_ (server_ sys) ∖ {[id]}) as Hnotin.
  { apply not_elem_of_difference. right. by apply elem_of_singleton. }
  eexists. split; [done|]. cbn [server_ broker_]. split; [done|]. split; [done|]. split_and!.
  - intros net f. unfold TcpServer.SendTo. by rewrite bool_decide_false.
  - intros order now. unfold idle_connections.
    rewrite list_elem_of_filter, registered_elem. by intros [_ ?].
  - intros t s c' Hs _. unfold Subscribe. fold (ensure_topic t (topic_manager_ (broker_ sys))).
    destruct (ensure_topic_fields t (topic_manager_ (broker_ sys))) as [-> _]. cbn.
    assert (existsb (λ info, bool_decide (sub_id info = sub_id s))
      (GetSubscribers t (topic_manager_ (broker_ sys))) = true) as He.
    { apply existsb_exists. exists s. split; [by apply list_elem_of_In|by apply bool_decide_true]. }
    unfold GetSubscribers in He. by rewrite He.
Qed.

(** ** Heartbeats between a client and the broker *)

(** An open connection with nothing buffered, whose write buffer has room. *)
Record conn_idle (conn : Connection) : Prop := {
  ci_open : closed_ conn = false;
  ci_read : read_buffer_ conn = [];
  ci_codec : codec_ok (streaming_codec_ conn);
  ci_buffer : codec_buffer (streaming_codec_ conn) = [];
  ci_write : write_buffer_ conn = [];
  ci_room : 10 <= max_write_buffer conn;
}.

#[local] Abbreviation ping := (control_frame FrameType.Ping).
#[local] Abbreviation pong := (control_frame FrameType.Pong).

Lemma conn_eta_write conn : write_buffer_ conn = [] -> set_write_buffer [] conn = conn.
Proof. destruct conn. cbn. by intros ->. Qed.

(** A control frame that leaves at once leaves the connection as it was. *)
Lemma send_control t conn : conn_idle conn ->
  SendFrame [Accepted 10] (control_frame t) conn = mkSent true conn (Encode (control_frame t)).
Proof.
  intros [Hop _ _ _ Hw Hm]. unfold SendFrame. rewrite Hop, Hw, bool_decide_true by done.
  cbn [negb orb app]. change (zlen (@nil byte)) with 0. change (zlen (Encode (control_frame t))) with 10.
  case_if.
  - change (u64 (0 + 10)) with 10. rewrite (proj2 (Z.ltb_ge _ 10)) by done.
    assert (send_loop [Accepted 10] (Encode (control_frame t)) = (Encode (control_frame t), Drained))
      as -> by done.
    cbv zeta. change (drop _ _) with (@nil byte). by rewrite conn_eta_write.
  - pose proof (EncodeHeaderToBuffer_bytes (control_frame t) (replicate 10 Byte.x00)) as Hh.
    change (zlen (replicate 10 Byte.x00)) with 10 in Hh. rewrite Hh by done. done.
Qed.

(** Reading one control frame. *)
Lemma read_control t now_ms conn : conn_idle conn ->
  exists conn', OnRead [Received (Encode (control_frame t))] now_ms conn =
      Some ([control_frame t], conn') /\ conn_idle conn' /\
    last_active_time_ms_ conn' = u64 now_ms /\ conn_id_ conn' = conn_id_ conn.
Proof.
  intros [Hop Hr Hc Hb Hw Hm].
  destruct (OnRead_spec [Received (Encode (control_frame t))] now_ms conn Hop Hr eq_refl Hc)
    as (conn' & Heq & Hop' & Hr' & Hc' & Hb').
  pose proof (ref_decode_frames [control_frame t]) as Hd. cbn [fmap list_fmap concat] in Hd.
  rewrite app_nil_r in Hd. change (received (control_frame t)) with (control_frame t) in Hd.
  assert (Forall sendable [control_frame t]) as Hs by (constructor; [by split_and!|constructor]).
  rewrite Hb in Heq, Hb'. cbn [app] in Heq, Hb'.
  change (recv_data [Received (Encode (control_frame t))]) with (Encode (control_frame t) ++ []) in *.
  rewrite app_nil_r, (Hd Hs) in Heq, Hb'. cbn [fst snd] in Heq, Hb'.
  exists conn'. split; [done|]. clear Hd Hs.
  unfold OnRead in Heq. rewrite Hop in Heq. destruct (recv_loop _ _) as [buffer al].
  destruct al; [|by unfold Close in Heq; cbn in Heq; rewrite Hop in Heq].
  cbn [negb] in Heq. cbv zeta in Heq.
  match type of Heq with context [feed ?a ?b] => destruct (feed a b) as [[fs codec]|]; [|done] end.
  injection Heq as _ <-. split; [by split|done].
Qed.

Lemma client_ping t c conn : connected_ c = true -> connection_ c = Some conn -> conn_idle conn ->
  let late := client_timeout c <? t - int64_of (last_pong_time_ms_ c) in
  PingLoop_round [Accepted 10] t c =
    (negb late, Encode ping, set_connection (if late then set_closed conn else conn) c).
Proof.
  intros Hcon Hconn Hi. cbv zeta. unfold PingLoop_round, Client_SendFrame.
  rewrite Hcon, Hconn, (ci_open _ Hi), (send_control _ _ Hi). cbn [negb sent_ok sent_wire sent_conn].
  change (client_timeout (set_connection conn c)) with (client_timeout c).
  change (last_pong_time_ms_ (set_connection conn c)) with (last_pong_time_ms_ c).
  cbn [connection_ set_connection set_link]. unfold Close. rewrite (ci_open _ Hi).
  by destruct (_ <? _).
Qed.

Lemma client_pong now_ms sends t c conn : 0 <= t < 2 ^ 63 ->
  connected_ c = true -> connection_ c = Some conn -> conn_idle conn ->
  exists c' conn', ReadLoop_round [Received (Encode pong)] now_ms sends (λ _, t) c =
      Some (true, if frame_handler_ c then [pong] else [], [], c') /\
    connected_ c' = true /\ connection_ c' = Some conn' /\ conn_idle conn' /\
    int64_of (last_pong_time_ms_ c') = t /\ client_timeout c' = client_timeout c.
Proof.
  intros Ht Hcon Hconn Hi. unfold ReadLoop_round. rewrite Hcon, Hconn, (ci_open _ Hi). cbn [negb].
  destruct (read_control FrameType.Pong now_ms conn Hi) as (conn' & -> & Hi' & _).
  cbn [mbind option_bind on_frames on_frame].
  unfold on_frame. rewrite bool_decide_false, bool_decide_true by done.
  rewrite app_nil_r. eexists _, conn'. split; [reflexivity|]. split_and!; try done.
  cbn. unfold int64_of. rewrite u64_id by lia. by rewrite (proj2 (Z.ltb_lt _ _)) by lia.
Qed.

(** A ping is answered on its connection, which counts as active. *)
Lemma server_ping n sys id conn now_ms envs : server_clean n (server_ sys) ->
  objects (server_ sys) !! id = Some conn -> conn_idle conn ->
  heartbeat_enabled (config_of (broker_ sys)) = true ->
  exists sys' conn',
    system_step proto zlib sys (SysEvent [Received (Encode ping)] now_ms envs
      (λ _ _, [Accepted 10]) id) = Some ([(id, Encode pong)], sys') /\
    objects (server_ sys') !! id = Some conn' /\ last_active_time_ms_ conn' = u64 now_ms /\
    server_config (server_ sys') = server_config (server_ sys).
Proof.
  intros [[Ho Ht _] _] Hc Hi Hhb.
  assert (id ∈ connections_ (server_ sys)) as Hin.
  { destruct (Ho id conn Hc) as (_ & _ & Hin).
    destruct (Hin (ci_open _ Hi)) as [|Hnil]; [done|]. by apply not_elem_of_nil in Hnil. }
  cbn [system_step]. unfold system_event, on_event. rewrite bool_decide_true by done. rewrite Hc.
  destruct (read_control FrameType.Ping now_ms conn Hi) as (conn' & -> & Hi' & Hact & _).
  cbn [mbind option_bind]. unfold update. rewrite (ci_open _ Hi), (ci_open _ Hi').
  cbn [negb andb mbind option_bind handle_frames]. unfold handle_frame.
  cbn [server_ broker_ objects set_objects]. rewrite lookup_insert_eq.
  assert (OnFrameReceived proto zlib (envs 0%nat) conn' ping (broker_ sys) =
    (broker_ sys, conn', [Reply pong])) as ->.
  { unfold OnFrameReceived. cbv zeta. rewrite Hhb. done. }
  cbn [run_actions run_action]. unfold send_on. cbn [objects set_objects]. rewrite lookup_insert_eq.
  cbv zeta. rewrite (send_control _ _ Hi'). cbn [sent_ok sent_wire sent_conn]. unfold update.
  rewrite (ci_open _ Hi'). cbn. eexists _, conn'. split; [done|]. cbn.
  rewrite lookup_insert_eq. done.
Qed.

(** C30: heartbeats keep a connection alive.  From a quiet connection the
    client's ping is one frame for the broker, which answers it with a pong if
    its heartbeat is enabled, and the client takes note; from then on the broker
    does not reap the connection before its timeout, and the client's ping loop
    goes on exactly until its own timeout, at which it closes the connection. *)
Theorem heartbeat_keeps_alive sys id sconn c conn t1 t2 t3 t4 envs sends :
  reachable proto zlib sys -> objects (server_ sys) !! id = Some sconn -> conn_idle sconn ->
  connected_ c = true -> connection_ c = Some conn -> conn_idle conn ->
  t1 - int64_of (last_pong_time_ms_ c) <= client_timeout c ->
  0 <= t2 < 2 ^ 63 -> 0 <= t4 < 2 ^ 63 ->
  heartbeat_enabled (config_of (broker_ sys)) = true ->
  exists c1 sys' c2,
    PingLoop_round [Accepted 10] t1 c = (true, Encode ping, c1) /\
    system_step proto zlib sys (SysEvent [Received (Encode ping)] t2 envs (λ _ _, [Accepted 10]) id) =
      Some ([(id, Encode pong)], sys') /\
    ReadLoop_round [Received (Encode pong)] t3 sends (λ _, t4) c1 =
      Some (true, if frame_handler_ c then [pong] else [], [], c2) /\
    (forall order now, t2 * 1000000 <= now <
         (t2 + heartbeat_timeout_ms (server_config (server_ sys))) * 1000000 ->
       id ∉ idle_connections order now (server_ sys')) /\
    (forall t, let '(go, wire, c3) := PingLoop_round [Accepted 10] t c2 in
       wire = Encode ping /\ go = (t - t4 <=? client_timeout c) /\ IsConnected c3 = go).
Proof.
  intros (n & _ & [Hclean _ _])%reachable_ok Hs Hsi Hcon Hconn Hci Ht1 Ht2 Ht4 Hhb.
  destruct (server_ping n sys id sconn t2 envs Hclean Hs Hsi Hhb)
    as (sys' & sconn' & Hstep & Hs' & Hact & Hcfg).
  pose proof (client_ping t1 c conn Hcon Hconn Hci) as Hping. cbv zeta in Hping.
  rewrite (proj2 (Z.ltb_ge _ _)) in Hping by lia. cbn [negb] in Hping.
  destruct (client_pong t3 sends t4 (set_connection conn c) conn Ht4 Hcon eq_refl Hci)
    as (c2 & conn2 & Hpong & Hcon2 & Hconn2 & Hci2 & Hlast & Htimeout).
  exists (set_connection conn c), sys', c2. split_and!; try done.
  - intros order now Hnow Hidle. apply list_elem_of_filter in Hidle as [Hidle _].
    unfold is_idle in Hidle. rewrite Hs', Hcfg in Hidle. unfold idle in Hidle.
    apply andb_true_iff in Hidle as [_ Hle]. apply Z.leb_le in Hle.
    rewrite Hact, u64_id in Hle by lia. revert Hle. apply Z.lt_nge.
    apply Z.quot_lt_upper_bound; lia.
  - intros t. rewrite (client_ping t c2 conn2 Hcon2 Hconn2 Hci2). rewrite Hlast, Htimeout.
    change (client_timeout (set_connection conn c)) with (client_timeout c).
    split; [done|]. unfold IsConnected. cbn [connected_ connection_ set_connection set_link].
    rewrite Hcon2, Z.ltb_antisym, negb_involutive. split; [done|].
    destruct (_ <=? _); cbn; [|done]. by rewrite (ci_open _ Hci2).
Qed.
End theorems.

(** ** Concrete runs *)

Definition demo_subscribe : list recv_answer :=
  [Received (Encode (make_frame FrameType.Subscribe []))].

(** Two clients connect, the first one subscribes to a topic. *)
Definition demo_ops : list system_op :=
  [SysStart true; SysAccept 0; SysAccept 9000;
   SysEvent demo_subscribe 100 (λ _, demo_env) (λ _ _, [Accepted 1000]) 1].

Definition demo_start : System (MemoryMessageStore SpscRingBuffer) :=
  System_new (MemoryMessageStore_new 200 1 5000) BrokerConfig_default 0.

Definition demo_system : System (MemoryMessageStore SpscRingBuffer) :=
  match system_run demo_proto store_zlib demo_ops demo_start with
  | Some (_, sys) => sys
  | None => demo_start
  end.

Lemma demo_reachable : reachable demo_proto store_zlib demo_system.
Proof.
  exists (MemoryMessageStore_new 200 1 5000), BrokerConfig_default, 0, demo_ops.
  eexists. split; [done|]. vm_compute. reflexivity.
Qed.

Example demo_subscribers : GetSubscribers "t" (topic_manager_ (broker_ demo_system)) =
  [mkSubscriberInfo "s" 1].
Proof. by vm_compute. Qed.

Lemma system_invariant_witness : is_Some (objects (server_ demo_system) !! 1).
Proof.
  destruct (system_invariant demo_proto store_zlib demo_system demo_reachable) as (_ & _ & Hs & _).
  apply (Hs "t" (mkSubscriberInfo "s" 1)). rewrite demo_subscribers. by left.
Defined.

Lemma system_never_blocks_witness : exists out sys',
  system_step demo_proto store_zlib demo_system
    (SysEvent demo_subscribe 200 (λ _, demo_env) (λ _ _, [SendAgain]) 2) = Some (out, sys').
Proof.
  apply system_never_blocks; [exact demo_reachable|]. intros i j. by repeat constructor.
Defined.

(** The first client is idle for sixteen seconds. *)
Lemma heartbeat_drops_subscriptions_witness : exists sys',
  system_step demo_proto store_zlib demo_system (SysHeartbeat key_order 16100000000) =
    Some ([], sys') /\ GetSubscribers "t" (topic_manager_ (broker_ sys')) = [].
Proof.
  destruct (heartbeat_drops_subscriptions demo_proto store_zlib demo_system key_order 16100000000
    demo_reachable) as (sys' & Heq & _ & Hs & _).
  exists sys'. split; [exact Heq|]. rewrite (Hs "t"). by vm_compute.
Defined.

Lemma disconnect_leaves_subscriptions_witness : exists sys',
  system_step demo_proto store_zlib demo_system
    (SysEvent [Received []] 200 (λ _, demo_env) (λ _ _, []) 1) = Some ([], sys') /\
  (1 ∉ connections_ (server_ sys')) /\
  (Subscribe "t" (mkSubscriberInfo "s" 3) "" (topic_manager_ (broker_ sys'))).1 = false.
Proof.
  assert (exists conn, objects (server_ demo_system) !! 1 = Some conn /\ closed_ conn = false /\
    (recv_loop [Received []] (read_buffer_ conn)).2 = false) as (conn & Hc & Hop & Heof).
  { eexists. split; [vm_compute; reflexivity|]. split; reflexivity. }
  destruct (disconnect_leaves_subscriptions demo_proto store_zlib demo_system 1 conn
    [Received []] 200 (λ _, demo_env) (λ _ _, []) demo_reachable Hc Hop Heof)
    as (sys' & Heq & _ & Hn & _ & _ & Hsub).
  exists sys'. split; [exact Heq|]. split; [exact Hn|].
  apply (Hsub "t" (mkSubscriberInfo "s" 1) 3); [|reflexivity]. rewrite demo_subscribers. by left.
Defined.

Definition demo_link : Connection := Connection_new 1 None 0.

Lemma heartbeat_keeps_alive_witness : exists c1 sys',
  PingLoop_round [Accepted 10] 5000 demo_client = (true, Encode (control_frame FrameType.Ping), c1) /\
  system_step demo_proto store_zlib demo_system
    (SysEvent [Received (Encode (control_frame FrameType.Ping))] 14000 (λ _, demo_env)
      (λ _ _, [Accepted 10]) 2) = Some ([(2, Encode (control_frame FrameType.Pong))], sys').
Proof.
  assert (exists sconn, objects (server_ demo_system) !! 2 = Some sconn /\ conn_idle sconn)
    as (sconn & Hs & Hsi).
  { eexists. split; [vm_compute; reflexivity|]. by split. }
  destruct (heartbeat_keeps_alive demo_proto store_zlib demo_system 2 sconn demo_client demo_link
    5000 14000 14000 5001 (λ _, demo_env) (λ _, []) demo_reachable Hs Hsi eq_refl eq_refl
    ltac:(by split) ltac:(by vm_compute) ltac:(done) ltac:(done) ltac:(by vm_compute))
    as (c1 & sys' & c2 & H1 & H2 & _).
  exists c1, sys'. split; [exact H1|exact H2].
Defined.
