(* ===== verification/Streams.v ===== *)
(** * What the running broker writes to its connections

    [SendFrame] of [network/connection.cpp], as the handlers of [mq/broker.cpp]
    call it through [network/tcp_server.cpp]: the bytes that leave on each
    connection, over one handler, one event and a whole run. *)

From S2P Require Import Prelude Types Config RingBuffer Frame StreamingCodec RateLimiter Connection.
From S2P Require Import TcpServer TopicManager Dedup Compression Store MessageStore Broker BrokerProps System.
From S2P Require Import BrokerTheorems TcpClient SystemTheorems.
#[local] Open Scope Z_scope.

(** The bytes handed to the kernel for connection [c]. *)
Definition output_to (c : ConnectionId) (out : output) : list byte :=
  concat (omap (λ p, if p.1 =? c then Some p.2 else None) out).

(** The frames the effects of a handler called for [id] have for [c]. *)
Definition addressed (c id : ConnectionId) (acts : list action) : list Frame :=
  omap (λ a, match a with
             | Reply f => if id =? c then Some f else None
             | SendTo d f => if d =? c then Some f else None
             end) acts.

(** A frame with the protocol's magic number and version. *)
Definition headed (f : Frame) : Prop := magic f = kFrameMagic /\ version f = kFrameVersion.

Definition sends_headed (a : action) : Prop :=
  match a with Reply f => headed f | SendTo _ f => headed f end.

Lemma addressed_headed c id acts : Forall sends_headed acts -> Forall headed (addressed c id acts).
Proof.
  unfold addressed. induction 1 as [|a acts Ha Hacts IH]; [constructor|].
  cbn [omap list_omap]. destruct a as [f|d f]; case_if; [by constructor|done|by constructor|done].
Qed.

Lemma output_to_app c out out' : output_to c (out ++ out') = output_to c out ++ output_to c out'.
Proof. unfold output_to. by rewrite omap_app, concat_app. Qed.

Lemma output_to_one c d wire : output_to c [(d, wire)] = if d =? c then wire else [].
Proof. unfold output_to. cbn. case_if; cbn; by rewrite ?app_nil_r. Qed.

Lemma addressed_cons c id a acts :
  addressed c id (a :: acts) = addressed c id [a] ++ addressed c id acts.
Proof. unfold addressed. cbn. by destruct a; case_if. Qed.

(** ** One connection *)

(** [conn] became [conn'] while [wire] left, some of [frames] being sent: an
    open connection has all of the frames it took on the wire or in its buffer,
    a broken one a beginning of them.  With nothing buffered and zero copy the
    first frame is one of those taken. *)
Record streamed (frames : list Frame) (wire : list byte) (conn conn' : Connection) : Prop := {
  st_config : config_ conn' = config_ conn;
  st_quiet : frames = [] -> wire = [];
  st_closed : closed_ conn = true -> closed_ conn' = true /\ wire = [];
  st_taken : closed_ conn = false -> exists fs, sublist fs frames /\
    if closed_ conn' then wire `prefix_of` write_buffer_ conn ++ concat (Encode <$> fs)
    else wire ++ write_buffer_ conn' = write_buffer_ conn ++ concat (Encode <$> fs) /\
      (write_buffer_ conn = [] -> use_zero_copy conn = true -> head fs = head frames);
}.

Lemma streamed_keep conn conn' : config_ conn' = config_ conn ->
  closed_ conn' = closed_ conn -> write_buffer_ conn' = write_buffer_ conn ->
  streamed [] [] conn conn'.
Proof.
  intros Hcfg Hcl Hwb. split; [done|done| |].
  - intros Hc. by rewrite Hcl.
  - intros Hc. exists []. split; [done|]. rewrite Hcl, Hc, Hwb. cbn. by rewrite app_nil_r.
Qed.

Lemma streamed_close conn : streamed [] [] conn (set_closed conn).
Proof.
  split; [done..|]. intros _. exists []. split; [done|]. cbn [closed_ set_closed].
  apply prefix_nil.
Qed.

Lemma use_zero_copy_config conn conn' : config_ conn' = config_ conn ->
  use_zero_copy conn' = use_zero_copy conn.
Proof. unfold use_zero_copy. by intros ->. Qed.

(** One after the other. *)
Lemma streamed_trans frames1 wire1 frames2 wire2 conn conn1 conn2 :
  streamed frames1 wire1 conn conn1 -> streamed frames2 wire2 conn1 conn2 ->
  streamed (frames1 ++ frames2) (wire1 ++ wire2) conn conn2.
Proof.
  intros [Hcfg1 Hq1 Hcl1 Ht1] [Hcfg2 Hq2 Hcl2 Ht2]. split; [congruence| | |].
  { intros [-> ->]%app_eq_nil. by rewrite Hq1, Hq2. }
  { intros [Hc ->]%Hcl1. by destruct (Hcl2 Hc) as [? ->]. }
  intros Hc. destruct (Ht1 Hc) as (fs1 & Hsub1 & H1). destruct (closed_ conn1) eqn:Hc1.
  - destruct (Hcl2 eq_refl) as [-> ->]. exists fs1. split; [by apply sublist_inserts_r|].
    by rewrite app_nil_r.
  - destruct H1 as [H1 Hh1]. destruct (Ht2 eq_refl) as (fs2 & Hsub2 & H2).
    exists (fs1 ++ fs2). split; [by apply sublist_app|].
    rewrite fmap_app, concat_app, (app_assoc (write_buffer_ conn)), <- H1.
    destruct (closed_ conn2).
    + rewrite <- !app_assoc. by apply prefix_app.
    + destruct H2 as [H2 Hh2]. rewrite <- !app_assoc, H2. split; [done|]. intros Hwb Hz.
      specialize (Hh1 Hwb Hz). destruct frames1 as [|f frames1].
      * apply sublist_nil_r in Hsub1 as ->. cbn in *. apply Hh2; [|by rewrite (use_zero_copy_config conn)].
        rewrite Hwb in H1. cbn in H1. by apply app_eq_nil in H1 as [_ H1].
      * by destruct fs1.
Qed.

(** A frame that meets an empty write buffer is never refused on the zero-copy path. *)
Lemma SendFrame_zero_copy answers f conn : closed_ conn = false -> write_buffer_ conn = [] ->
  use_zero_copy conn = true -> let r := SendFrame answers f conn in
  closed_ (sent_conn r) = false -> sent_ok r = true.
Proof.
  intros Hc Hwb Hz. cbv zeta. unfold SendFrame. rewrite Hc, Hwb, Hz, bool_decide_true by done.
  cbn [negb orb].
  pose proof (EncodeHeaderToBuffer_bytes f (replicate 10 Byte.x00)) as Hh.
  change (zlen (replicate 10 Byte.x00)) with 10 in Hh. rewrite Hh by done. clear Hh.
  change (10 =? 0) with false. cbv iota. cbv zeta. unfold Close.
  destruct answers as [|[n| |] answers]; cbn [sent_ok sent_conn]; try done.
  - repeat case_if; cbn [sent_ok sent_conn]; rewrite ?Hc; done.
  - by rewrite Hc.
Qed.

Lemma SendFrame_streamed answers f conn :
  let r := SendFrame answers f conn in streamed [f] (sent_wire r) conn (sent_conn r).
Proof.
  cbv zeta. destruct (SendFrame_codec answers f conn) as (_ & _ & _ & Hcfg).
  split; [done|done| |].
  { intros Hc. unfold SendFrame. by rewrite Hc. }
  intros Hc. destruct (SendFrame_spec answers f conn Hc) as [_ Hs].
  pose proof (SendFrame_zero_copy answers f conn Hc) as Hz. cbv zeta in Hz.
  destruct (SendFrame answers f conn) as [ok conn' wire]. cbn [sent_ok sent_conn sent_wire] in *.
  destruct ok.
  - destruct Hs as [-> ->]. exists [f]. split; [done|]. cbn. by rewrite app_nil_r.
  - destruct (closed_ conn') eqn:Hc'.
    + exists [f]. split; [done|]. cbn. by rewrite app_nil_r.
    + destruct Hs as [-> ->]. exists []. split; [by apply sublist_nil_l|]. cbn.
      rewrite app_nil_r. split; [done|]. intros Hwb Hzc. by specialize (Hz Hwb Hzc eq_refl).
Qed.

Lemma OnRead_streamed reads now_ms conn fs conn' : OnRead reads now_ms conn = Some (fs, conn') ->
  streamed [] [] conn conn'.
Proof.
  unfold OnRead. destruct (closed_ conn) eqn:Hc; [intros [= _ <-]; by apply streamed_keep|].
  destruct (recv_loop _ _) as [buffer al]. destruct al; cbn [negb].
  - cbv zeta. destruct (feed _ _) as [[gs codec]|]; [|done]. cbn. intros [= _ <-].
    by apply streamed_keep.
  - intros [= _ <-]. unfold Close. cbn. rewrite Hc.
    apply (streamed_trans [] [] [] [] _ (set_read buffer (streaming_codec_ conn) conn));
      [by apply streamed_keep|apply streamed_close].
Qed.

(** ** All connections, one handler *)

Record written (frames : ConnectionId -> list Frame) (out : output) (s s' : TcpServer) : Prop := {
  wr_conn : forall c conn, objects s !! c = Some conn -> exists conn',
    objects s' !! c = Some conn' /\ streamed (frames c) (output_to c out) conn conn';
  wr_none : forall c, objects s !! c = None -> objects s' !! c = None /\ output_to c out = [];
}.

Lemma written_ext frames frames' out s s' : (forall c, frames c = frames' c) ->
  written frames out s s' -> written frames' out s s'.
Proof.
  intros Heq [Hc Hn]. split; [|done]. intros c conn H. rewrite <- Heq. by apply Hc.
Qed.

Lemma written_trans frames1 out1 frames2 out2 s s1 s2 :
  written frames1 out1 s s1 -> written frames2 out2 s1 s2 ->
  written (λ c, frames1 c ++ frames2 c) (out1 ++ out2) s s2.
Proof.
  intros [Hc1 Hn1] [Hc2 Hn2]. split.
  - intros c conn Hc. destruct (Hc1 c conn Hc) as (conn1 & H1 & Hs1).
    destruct (Hc2 c conn1 H1) as (conn2 & H2 & Hs2). exists conn2. split; [done|].
    rewrite output_to_app. by eapply streamed_trans.
  - intros c [H1 Ho1]%Hn1. destruct (Hn2 c H1) as [H2 Ho2]. split; [done|].
    by rewrite output_to_app, Ho1, Ho2.
Qed.

(** Only the connection of [id] is another one. *)
Lemma written_insert (frames : ConnectionId -> list Frame) wire id conn conn' s s' :
  objects s !! id = Some conn -> objects s' = <[id := conn']> (objects s) ->
  streamed (frames id) wire conn conn' -> (forall c, c <> id -> frames c = []) ->
  written frames [(id, wire)] s s'.
Proof.
  intros Hid Hobj Hst Hf. split; intros c; rewrite Hobj, output_to_one.
  - intros conn0 Hc. destruct (decide (c = id)) as [->|Hne].
    + rewrite lookup_insert_eq, Z.eqb_refl. exists conn'. split; [done|]. congruence.
    + rewrite lookup_insert_ne, (proj2 (Z.eqb_neq id c)), Hf by done. exists conn0.
      split; [done|]. by apply streamed_keep.
  - intros Hc. assert (c <> id) as Hne by congruence.
    by rewrite lookup_insert_ne, (proj2 (Z.eqb_neq id c)) by done.
Qed.

(** Nothing is sent. *)
Lemma written_nothing (frames : ConnectionId -> list Frame) id s :
  (forall c conn, objects s !! c = Some conn -> closed_ conn = false -> frames c = []) ->
  written frames [(id, [])] s s.
Proof.
  intros Hf. split; intros c; rewrite output_to_one; destruct (id =? c); try done.
  all: intros conn Hc; exists conn; split; [done|]; destruct (closed_ conn) eqn:Hcl;
    [by split; [..|by rewrite Hcl]|rewrite (Hf c conn Hc Hcl); by apply streamed_keep].
Qed.

Lemma send_on_written n locked answers f id s ok wire s' : server_ok n s ->
  send_on locked answers f id s = Some (ok, wire, s') ->
  written (λ c, if id =? c then [f] else []) [(id, wire)] s s' /\ server_ok n s'.
Proof.
  intros Hok Hsend. pose proof (send_on_inv _ _ _ _ _ _ _ _ Hok Hsend) as Hok'. split; [|done].
  clear Hok'. revert Hsend. unfold send_on. destruct (objects s !! id) as [conn|] eqn:Hc.
  - cbv zeta. destruct (update _ _ _ _ _) as [s1|] eqn:Hup; [|done]. cbn. intros [= _ <- <-].
    destruct (update_inv locked n [] id conn _ s s1 Hok Hc (SendFrame_evolves _ _ _) Hup)
      as (_ & Hobj & _).
    apply (written_insert _ _ id conn _ s s1 Hc Hobj); [rewrite Z.eqb_refl; apply SendFrame_streamed|].
    intros c Hne. by rewrite (proj2 (Z.eqb_neq id c)).
  - intros [= _ <- <-]. apply written_nothing. intros c conn Hc' _.
    rewrite (proj2 (Z.eqb_neq id c)) by congruence. done.
Qed.

Lemma run_action_written n answers id a s out s' : server_ok n s ->
  run_action answers id a s = Some (out, s') ->
  written (λ c, addressed c id [a]) out s s' /\ server_ok n s'.
Proof.
  intros Hok. unfold addressed. destruct a as [f|d f]; cbn [run_action omap list_omap].
  - destruct (send_on _ _ _ _ _) as [[[ok wire] s1]|] eqn:Hs; [|done]. cbn. intros [= <- <-].
    destruct (send_on_written _ _ _ _ _ _ _ _ _ Hok Hs) as [[Hw1 Hw2] Hok']. split; [|done].
    split; [|done]. intros c conn Hc. specialize (Hw1 c conn Hc). by destruct (id =? c).
  - unfold TcpServer.SendTo. case_bool_decide as Hin.
    + destruct (send_on _ _ _ _ _) as [[[ok wire] s1]|] eqn:Hs; [|done]. cbn. intros [= <- <-].
      destruct (send_on_written _ _ _ _ _ _ _ _ _ Hok Hs) as [[Hw1 Hw2] Hok']. split; [|done].
      split; [|done]. intros c conn Hc. specialize (Hw1 c conn Hc). by destruct (d =? c).
    + cbn. intros [= <- <-]. split; [|done]. apply written_nothing. intros c conn Hc Hop.
      destruct (sv_objects _ _ _ Hok c conn Hc) as (_ & _ & Hreg).
      destruct (Hreg Hop) as [Hreg'|[]%elem_of_nil].
      rewrite (proj2 (Z.eqb_neq d c)) by congruence. done.
Qed.

Lemma run_actions_written n answers i id acts s out s' : server_ok n s ->
  run_actions answers i id acts s = Some (out, s') ->
  written (λ c, addressed c id acts) out s s' /\ server_ok n s'.
Proof.
  revert i s out. induction acts as [|a acts IH]; intros i s out Hok; cbn [run_actions].
  { intros [= <- <-]. split; [|done]. split; [|done]. intros c conn Hc. exists conn.
    split; [done|]. by apply streamed_keep. }
  destruct (run_action _ _ _ _) as [[out1 s1]|] eqn:H1; [|done]. cbn.
  destruct (run_actions _ _ _ _ _) as [[out2 s2]|] eqn:H2; [|done]. intros [= <- <-].
  destruct (run_action_written _ _ _ _ _ _ _ Hok H1) as [Hw1 Hok1].
  destruct (IH _ _ _ Hok1 H2) as [Hw2 Hok2]. split; [|done].
  apply (written_ext (λ c, addressed c id [a] ++ addressed c id acts)).
  { intros c. symmetry. apply addressed_cons. }
  exact (written_trans _ _ _ _ _ _ _ Hw1 Hw2).
Qed.

(** ** Whole runs *)

(** What left while [s] became [s'], connections that were accepted included. *)
Record streams (out : output) (s s' : TcpServer) : Prop := {
  sx_old : forall c conn, objects s !! c = Some conn -> exists conn' frames,
    objects s' !! c = Some conn' /\ Forall headed frames /\
    streamed frames (output_to c out) conn conn';
  sx_new : forall c conn', objects s !! c = None -> objects s' !! c = Some conn' ->
    exists conn frames, closed_ conn = false /\ write_buffer_ conn = [] /\
      Forall headed frames /\ streamed frames (output_to c out) conn conn';
  sx_none : forall c, objects s' !! c = None -> output_to c out = [];
}.

Lemma streams_trans out1 out2 s s1 s2 :
  streams out1 s s1 -> streams out2 s1 s2 -> streams (out1 ++ out2) s s2.
Proof.
  intros [Ho1 Hf1 Hn1] [Ho2 Hf2 Hn2]. split; intros c; rewrite output_to_app.
  - intros conn Hc. destruct (Ho1 c conn Hc) as (conn1 & fs1 & Hc1 & Hf1' & H1).
    destruct (Ho2 c conn1 Hc1) as (conn2 & fs2 & Hc2 & Hf2' & H2). exists conn2, (fs1 ++ fs2).
    split; [done|]. split; [by apply Forall_app|by eapply streamed_trans].
  - intros conn2 Hc Hc2. destruct (objects s1 !! c) as [conn1|] eqn:Hc1.
    + destruct (Hf1 c conn1 Hc Hc1) as (conn & fs1 & Hop & Hwb & Hf1' & H1).
      destruct (Ho2 c conn1 Hc1) as (conn2' & fs2 & Hc2' & Hf2' & H2). simplify_eq.
      exists conn, (fs1 ++ fs2). split; [done|]. split; [done|].
      split; [by apply Forall_app|by eapply streamed_trans].
    + rewrite (Hn1 c Hc1). exact (Hf2 c conn2 Hc1 Hc2).
  - intros Hc2. rewrite (Hn2 c Hc2). destruct (objects s1 !! c) as [conn1|] eqn:Hc1.
    { destruct (Ho2 c conn1 Hc1) as (? & ? & ? & _). congruence. }
    by rewrite (Hn1 c Hc1).
Qed.

Lemma written_streams frames out s s' : (forall c, Forall headed (frames c)) ->
  written frames out s s' -> streams out s s'.
Proof.
  intros Hf [Hc Hn]. split.
  - intros c conn H. destruct (Hc c conn H) as (conn' & ? & ?). by exists conn', (frames c).
  - intros c conn' H. destruct (Hn c H) as [? _]. congruence.
  - intros c H. destruct (objects s !! c) as [conn|] eqn:E; [|by apply Hn].
    destruct (Hc c conn E) as (? & ? & _). congruence.
Qed.

(** Nothing leaves; connections may be closed, or given another limiter, codec or clock. *)
Lemma written_quiet s s' :
  (forall c conn, objects s !! c = Some conn -> exists conn', objects s' !! c = Some conn' /\
     streamed [] [] conn conn') ->
  (forall c, objects s !! c = None -> objects s' !! c = None) -> written (λ _, []) [] s s'.
Proof. intros Hc Hn. split; [exact Hc|]. intros c H. split; [by apply Hn|done]. Qed.

Lemma written_same s s' : objects s' = objects s -> written (λ _, []) [] s s'.
Proof.
  intros Hobj. apply written_quiet; intros c; rewrite Hobj; [|done].
  intros conn Hc. exists conn. split; [done|by apply streamed_keep].
Qed.

Lemma streams_quiet s s' : written (λ _, []) [] s s' -> streams [] s s'.
Proof. by apply written_streams. Qed.

Lemma streams_same s s' : objects s' = objects s -> streams [] s s'.
Proof. intros Hobj. by apply streams_quiet, written_same. Qed.

Lemma streams_refl s : streams [] s s.
Proof. by apply streams_same. Qed.

Lemma written_set id conn conn' s s' :
  objects s !! id = Some conn -> objects s' = <[id := conn']> (objects s) ->
  streamed [] [] conn conn' -> written (λ _, []) [] s s'.
Proof.
  intros Hid Hobj Hst. apply written_quiet; intros c; rewrite Hobj.
  - intros conn0 Hc. destruct (decide (c = id)) as [->|Hne].
    + rewrite lookup_insert_eq. exists conn'. split; [done|]. congruence.
    + rewrite lookup_insert_ne by done. exists conn0. split; [done|]. by apply streamed_keep.
  - intros Hc. by rewrite lookup_insert_ne by congruence.
Qed.

Lemma update_objects locked id conn conn' s s' :
  update locked id conn conn' s = Some s' -> objects s' = <[id := conn']> (objects s).
Proof.
  unfold update, close_handler. destruct (_ && _); [|by intros [= <-]].
  destruct locked; [done|]. by intros [= <-].
Qed.

Lemma close_all_streams ids s s' : close_all ids s = Some s' -> streams [] s s'.
Proof.
  unfold close_all. revert s. induction ids as [|id ids IH]; intros s.
  { intros [= <-]. apply streams_refl. }
  cbn [foldl mbind option_bind]. destruct (close_connection false id s) as [s1|] eqn:H1.
  2:{ intros H. exfalso. revert H. clear. by induction ids. }
  intros H2. apply IH in H2. apply (streams_trans [] [] s s1 s'); [|done].
  revert H1. unfold close_connection. destruct (objects s !! id) as [conn|] eqn:Hc.
  - intros Hup%update_objects. apply streams_quiet, (written_set id conn _ s s1 Hc Hup). unfold Close.
    destruct (closed_ conn) eqn:Hcl; [by apply streamed_keep|apply streamed_close].
  - intros [= <-]. apply streams_refl.
Qed.

Lemma on_event_written reads now_ms id s frames s' :
  on_event reads now_ms id s = Some (frames, s') -> written (λ _, []) [] s s'.
Proof.
  unfold on_event. case_bool_decide; [|intros [= _ <-]; by apply written_same].
  destruct (objects s !! id) as [conn|] eqn:Hc; [|intros [= _ <-]; by apply written_same].
  destruct (OnRead _ _ _) as [[fs conn']|] eqn:Hr; [|done]. cbn.
  destruct (update _ _ _ _ _) as [s1|] eqn:Hup; [|done]. intros [= _ <-].
  apply (written_set id conn conn' s s1 Hc (update_objects _ _ _ _ _ _ Hup)).
  by eapply OnRead_streamed.
Qed.

Section system.
Context {St : Type} `{MessageStore St} (proto : Proto) (zlib : Zlib).
Implicit Types (sys : System St).

(** ** The frames the handlers send *)

Lemma push_groups_headed topic frame i groups tm : (forall j, headed (frame j)) ->
  Forall sends_headed (push_groups topic frame i groups tm).1.
Proof.
  intros Hf. revert i tm. induction groups as [|g groups IH]; intros i tm; [constructor|].
  cbn [push_groups]. destruct (select_target topic g tm) as [target tm1].
  specialize (IH (i + 1)%nat tm1). destruct (push_groups _ _ _ _ _) as [acts tm2].
  destruct target; [constructor; [apply Hf|done]|done].
Qed.

Lemma push_topics_headed env i batch topics tm :
  Forall sends_headed (push_topics proto env i batch topics tm).1.
Proof.
  revert i tm. induction topics as [|[t ms] topics IH]; intros i tm; [constructor|].
  cbn [push_topics].
  set (f := topic_frame _ _ _ _). assert (headed f) as Hf.
  { unfold f, topic_frame. by repeat case_match. }
  pose proof (push_groups_headed t (λ _, f) 0 (GetConsumerGroups (order env i) t tm) tm
    (λ _, Hf)) as Hg.
  destruct (push_groups _ _ _ _ _) as [grouped tm1]. specialize (IH (i + 1)%nat tm1).
  destruct (push_topics _ _ _ _ _ _) as [acts tm2]. cbn [fst] in *. rewrite !Forall_app.
  split; [|by split]. apply Forall_fmap, Forall_forall. by intros sub _.
Qed.

Lemma HandlePublish_headed env conn frame (b : Broker St) :
  Forall sends_headed (HandlePublish proto zlib env conn frame b).2.
Proof.
  unfold HandlePublish. destruct (parse_PublishRequest _ _) as [req|]; [|by repeat constructor].
  cbv zeta. case_if; [by repeat constructor|].
  destruct (connection_permit _ _ _ _) as [[] conn1]; [|by repeat constructor].
  destruct (global_permit _ _ _) as [[] b1]; [|by repeat constructor]. cbn [negb].
  destruct (compress_payload _ _ _ _ _) as [payload compressed].
  destruct (ms_publish _ _ _ _ _ _) as [[[] id] st]; [|by repeat constructor]. cbn [negb].
  match goal with |- context [push_groups ?t ?f ?j ?gs ?tm] =>
    pose proof (push_groups_headed t f j gs tm ltac:(by intros k)) as Hg;
    destruct (push_groups t f j gs tm) as [grouped tm1] end.
  cbn [snd]. rewrite !Forall_app. split; [|split; [done|by repeat constructor]].
  apply Forall_fmap, Forall_forall. by intros sub _.
Qed.

Lemma HandleBatchPublish_headed env conn frame (b : Broker St) :
  Forall sends_headed (HandleBatchPublish proto zlib env conn frame b).2.
Proof.
  unfold HandleBatchPublish.
  destruct (parse_BatchPublishRequest _ _) as [reqs|]; [|by repeat constructor].
  case_bool_decide; [by repeat constructor|]. cbv zeta.
  destruct (connection_permit _ _ _ _) as [[] conn1]; [|by repeat constructor].
  destruct (global_permit _ _ _) as [[] b1]; [|by repeat constructor]. cbn [negb].
  case_if; [by repeat constructor|].
  destruct (publish_batch _ _ _ _ _) as [stored b2].
  destruct (last stored) as [m|]; [|by repeat constructor].
  match goal with |- context [push_topics proto env ?j ?batch ?ts ?tm] =>
    pose proof (push_topics_headed env j batch ts tm) as Hg;
    destruct (push_topics proto env j batch ts tm) as [acts tm1] end.
  cbn [snd]. rewrite Forall_app. split; [done|by repeat constructor].
Qed.

Lemma HandlePull_headed env frame (b : Broker St) :
  Forall sends_headed (HandlePull proto env frame b).2.
Proof.
  unfold HandlePull. destruct (parse_PullRequest _ _) as [req|]; [|by repeat constructor].
  cbv zeta. destruct (ms_pull _ _ _ _ _ _ _) as [messages st]. cbn [snd]. rewrite Forall_app.
  split; [|by repeat constructor]. case_if; [by repeat constructor|].
  apply Forall_fmap, Forall_forall. by intros m _.
Qed.

(** Every frame any handler sends is one of the protocol. *)
Lemma OnFrameReceived_headed env conn frame (b : Broker St) :
  Forall sends_headed (OnFrameReceived proto zlib env conn frame b).2.
Proof.
  unfold OnFrameReceived, keeping. cbv zeta.
  case_bool_decide; [apply HandlePublish_headed|].
  case_bool_decide; [case_if; [apply HandleBatchPublish_headed|by repeat constructor]|].
  case_bool_decide.
  { unfold HandleSubscribe. destruct (parse_SubscribeRequest _ _); [|by repeat constructor].
    destruct (Subscribe _ _ _ _) as [? ?]. by repeat constructor. }
  case_bool_decide.
  { unfold HandleUnsubscribe. destruct (parse_UnsubscribeRequest _ _); [|by repeat constructor].
    destruct (Unsubscribe _ _ _ _) as [? ?]. by repeat constructor. }
  case_bool_decide; [apply HandlePull_headed|].
  case_bool_decide.
  { unfold HandleAck. destruct (parse_AckRequest _ _); [|by repeat constructor].
    cbv zeta. destruct (ms_ack _ _ _ _ _) as [? ?]. by repeat constructor. }
  case_bool_decide; [case_if; by repeat constructor|].
  case_bool_decide; [|by repeat constructor].
  unfold HandleAdmin. destruct (parse_AdminRequest _ _) as [req|]; [|by repeat constructor].
  cbv zeta. repeat case_if; by repeat constructor.
Qed.

(** ** The server's connections *)

(** One frame: exactly what its handler's effects have for each connection. *)
Lemma handle_frame_written n env answers id frame sys conn out sys' : system_ok n sys ->
  objects (server_ sys) !! id = Some conn ->
  handle_frame proto zlib env answers id frame sys = Some (out, sys') ->
  written (λ c, addressed c id (OnFrameReceived proto zlib env conn frame (broker_ sys)).2)
    out (server_ sys) (server_ sys') /\
  broker_ sys' = (OnFrameReceived proto zlib env conn frame (broker_ sys)).1.1.
Proof.
  intros [Hs _ _] Hc. unfold handle_frame. rewrite Hc.
  pose proof (OnFrameReceived_link proto zlib env conn frame (broker_ sys)) as Hlink.
  destruct (OnFrameReceived _ _ _ _ _ _) as [[b conn'] acts]. cbn [fst snd] in *.
  destruct (set_link_clean n _ id conn conn' Hs Hc Hlink) as [Hs1 _].
  destruct (run_actions _ _ _ _ _) as [[out' s2]|] eqn:Hr; [|done]. cbn. intros [= <- <-].
  split; [|done]. cbn [server_].
  destruct (run_actions_written _ _ _ _ _ _ _ _ (sc_ok _ _ Hs1) Hr) as [[Hw1 Hw2] _].
  split; intros c.
  - intros conn0 Hc0. destruct (decide (c = id)) as [->|Hne].
    + simplify_eq. destruct (Hw1 id conn') as (conn2 & H2 & Hst2).
      { cbn [objects set_objects]. by rewrite lookup_insert_eq. }
      exists conn2. split; [done|].
      apply (streamed_trans [] [] _ _ conn conn'); [|done].
      apply streamed_keep; apply Hlink.
    + apply Hw1. cbn [objects set_objects]. by rewrite lookup_insert_ne.
  - intros Hn. apply Hw2. cbn [objects set_objects]. by rewrite lookup_insert_ne by congruence.
Qed.

Lemma handle_frames_streams n envs answers i id frames sys out sys' : system_ok n sys ->
  handle_frames proto zlib envs answers i id frames sys = Some (out, sys') ->
  streams out (server_ sys) (server_ sys').
Proof.
  revert i sys out. induction frames as [|frame frames IH]; intros i sys out Hok; cbn [handle_frames].
  { intros [= <- <-]. apply streams_refl. }
  destruct (handle_frame _ _ _ _ _ _ _) as [[out1 sys1]|] eqn:H1; [|done]. cbn.
  destruct (handle_frames _ _ _ _ _ _ _ _) as [[out2 sys2]|] eqn:H2; [|done]. intros [= <- <-].
  pose proof (handle_frame_ok proto zlib _ _ _ _ _ _ _ Hok H1) as Hok1.
  apply (streams_trans _ _ _ (server_ sys1)); [|exact (IH _ _ _ Hok1 H2)].
  destruct (objects (server_ sys) !! id) as [conn|] eqn:Hc.
  - eapply written_streams; [|exact (proj1 (handle_frame_written n _ _ _ _ _ _ _ _ Hok Hc H1))].
    intros c. apply addressed_headed, OnFrameReceived_headed.
  - unfold handle_frame in H1. rewrite Hc in H1. injection H1 as <- <-. apply streams_refl.
Qed.

Lemma system_step_streams n op sys out sys' : system_ok n sys -> n < 2 ^ 64 - 2 ->
  system_step proto zlib sys op = Some (out, sys') -> streams out (server_ sys) (server_ sys').
Proof.
  intros Hok Hn. pose proof Hok as [Hs _ _].
  destruct op as [opened|now_ms|reads now_ms envs answers id|order now|env topic payload|order];
    cbn [system_step].
  - intros [= <- <-]. unfold Broker_Start, Start. by destruct opened; apply streams_same.
  - intros [= <- <-]. destruct (sc_ok _ _ Hs) as [Ho _ Hx].
    assert (objects (server_ sys) !! next_conn_id_ (server_ sys) = None) as Hfresh.
    { apply eq_None_not_Some. intros [conn Hc]. destruct (Ho _ conn Hc) as (_ & ? & _). lia. }
    split; cbn [server_ accept_client objects].
    + intros c conn Hc. rewrite lookup_insert_ne by congruence. exists conn, [].
      split; [done|]. split; [done|by apply streamed_keep].
    + intros c conn' Hc. destruct (decide (next_conn_id_ (server_ sys) = c)) as [<-|Hne].
      * rewrite lookup_insert_eq. intros [= <-]. eexists _, [].
        split; [|split; [|split; [|by apply streamed_keep]]]; done.
      * rewrite lookup_insert_ne by done. congruence.
    + done.
  - unfold system_event.
    destruct (on_event_clean n reads now_ms id _ Hs) as (frames & s1 & Hev & Hs1 & Hd).
    rewrite Hev. cbn [mbind option_bind]. intros Hfs.
    apply (streams_trans [] _ _ s1); [by eapply streams_quiet, on_event_written|].
    refine (handle_frames_streams n _ _ _ _ _ _ _ _ _ Hfs).
    destruct Hok as [_ Htm Hconns]. split; [done|done|].
    eapply tm_conns_impl; [|exact Hconns]. exact Hd.
  - unfold system_heartbeat, HeartbeatLoop_round.
    destruct (close_all _ _) as [s1|] eqn:Hcl; [|done]. cbn. intros [= <- <-].
    by eapply close_all_streams.
  - intros [= <- <-]. apply streams_refl.
  - unfold Broker_Stop, Stop. destruct (close_all _ _) as [s1|] eqn:Hcl; [|done]. cbn.
    intros [= <- <-]. apply (streams_trans [] [] _ (set_connections ∅ (set_running false (server_ sys))));
      [by apply streams_same|exact (close_all_streams _ _ _ Hcl)].
Qed.

Lemma system_run_streams n ops sys out sys' : 0 <= n -> n + zlen ops < 2 ^ 64 - 2 ->
  system_ok n sys -> system_run proto zlib ops sys = Some (out, sys') ->
  streams out (server_ sys) (server_ sys').
Proof.
  revert n sys out. induction ops as [|op ops IH]; intros n sys out Hn0 Hn Hok.
  { intros [= <- <-]. apply streams_refl. }
  cbn [system_run length] in *.
  destruct (system_step _ _ sys op) as [[out1 sys1]|] eqn:H1; [|done]. cbn.
  destruct (system_run _ _ ops sys1) as [[out2 sys2]|] eqn:H2; [|done]. intros [= <- <-].
  apply (streams_trans _ _ _ (server_ sys1)).
  - apply (system_step_streams n op); [done|lia|done].
  - apply (IH (n + 1)); [lia|lia| |done].
    destruct (system_step_ok proto zlib n op sys ltac:(lia) Hok) as [Hstep _]. exact (Hstep _ H1).
Qed.

(** C27: the broker never sends a torn frame.  After any run of the whole
    broker - whatever its clients send, however the kernel cuts what is written
    to them, whoever is dropped - all that was ever handed to the kernel for an
    open connection, followed by its write buffer, is a sequence of whole frames
    of the protocol, and for a broken one a beginning of such a sequence.  Once
    the buffer is empty a peer that reads it, in any pieces, decodes exactly
    these frames, if none is larger than the protocol allows. *)
Theorem server_writes_frames store config now ops out sys c conn :
  zlen ops < 2 ^ 64 - 3 ->
  system_run proto zlib ops (System_new store config now) = Some (out, sys) ->
  objects (server_ sys) !! c = Some conn ->
  exists fs, Forall headed fs /\
    if closed_ conn then output_to c out `prefix_of` concat (Encode <$> fs)
    else output_to c out ++ write_buffer_ conn = concat (Encode <$> fs) /\
      (write_buffer_ conn = [] -> Forall (λ f, zlen (frame_payload f) <= kMaxPayloadSize) fs ->
       forall reads id cfg t0, Forall alive reads ->
         concat ((λ r, recv_data r.1) <$> reads) = output_to c out ->
         exists peer, read_all reads (Connection_new id cfg t0) = Some (received <$> fs, peer)).
Proof.
  intros Hops Hrun Hc.
  destruct (system_run_streams 0 ops _ _ _ ltac:(lia) ltac:(lia) (system_new_ok store config now)
    Hrun) as [_ Hnew _].
  destruct (Hnew c conn (lookup_empty _) Hc) as (conn0 & frames & Hop & Hwb & Hall & [_ _ _ Ht]).
  destruct (Ht Hop) as (fs & Hsub & Hfs). rewrite Hwb in Hfs.
  pose proof (Forall_sublist _ _ _ Hsub Hall) as Hhead.
  exists fs. split; [exact Hhead|]. destruct (closed_ conn); [exact Hfs|].
  destruct Hfs as [Hfs _]. split; [exact Hfs|]. intros Hempty Hsize reads id cfg t0 Halive Hreads.
  rewrite Hempty, app_nil_r in Hfs. cbn [app] in Hfs.
  destruct (read_all_spec reads (Connection_new id cfg t0)) as (peer & Hread & _); [done..|].
  rewrite Hreads, Hfs in Hread. cbn [codec_buffer streaming_codec_ Connection_new codec_new app] in Hread.
  rewrite ref_decode_frames in Hread; [by exists peer|].
  clear -Hhead Hsize. induction Hhead as [|f fs [Hm Hv] _ IH]; [constructor|].
  apply Forall_cons in Hsize as [Hf Hsize]. constructor; [by split_and!|by apply IH].
Qed.
End system.

(** ** A concrete run *)

(** The second client subscribes too, but its socket takes three bytes only. *)
Definition demo_torn : list system_op :=
  demo_ops ++ [SysEvent demo_subscribe 200 (λ _, demo_env) (λ _ _, [Accepted 3]) 2].

Lemma server_writes_frames_witness : exists out sys fs,
  system_run demo_proto store_zlib demo_torn demo_start = Some (out, sys) /\
  length (output_to 2 out) = 3%nat /\
  output_to 2 out `prefix_of` concat (Encode <$> fs).
Proof.
  assert (exists out sys conn, system_run demo_proto store_zlib demo_torn demo_start = Some (out, sys) /\
    objects (server_ sys) !! 2 = Some conn /\ closed_ conn = false /\
    length (output_to 2 out) = 3%nat) as (out & sys & conn & Hrun & Hc & Hop & Hlen).
  { eexists _, _, _. split; [vm_compute; reflexivity|]. split; [vm_compute; reflexivity|].
    split; reflexivity. }
  destruct (server_writes_frames demo_proto store_zlib (MemoryMessageStore_new 200 1 5000)
    BrokerConfig_default 0 demo_torn out sys 2 conn eq_refl Hrun Hc) as (fs & _ & Hfs).
  rewrite Hop in Hfs. destruct Hfs as [Hfs _]. exists out, sys, fs.
  split; [exact Hrun|]. split; [exact Hlen|]. rewrite <- Hfs. by exists (write_buffer_ conn).
Defined.
