(* ===== verification/EndToEnd.v ===== *)
(** * From one command line to the other

    The whole system in one line: [main/client_main.cpp] publishing, the broker
    on its server, and [main/client_main.cpp] subscribed, over their connections
    and the program's own compression. *)

From Stdlib Require Import Ascii String.
From S2P Require Import Prelude Types Config ConfigFile RingBuffer Frame StreamingCodec Connection.
From S2P Require Import TcpServer TopicManager Dedup Compression Store StoreProps MessageStore Broker BrokerProps.
From S2P Require Import BrokerInv BrokerTheorems TcpClient ClientMain WireInstance ClientTheorems.
From S2P Require Import System SystemTheorems Streams.
#[local] Open Scope Z_scope.

(** ** What the subscriber gets first *)

Lemma addressed_app c id acts acts' :
  addressed c id (acts ++ acts') = addressed c id acts ++ addressed c id acts'.
Proof. unfold addressed. by rewrite omap_app. Qed.

(** A broadcast comes before everything else. *)
Lemma addressed_broadcast c id f (subs : list SubscriberInfo) rest :
  (exists sub, sub ∈ subs /\ sub_conn_id sub = c) ->
  head (addressed c id (((λ sub, SendTo (sub_conn_id sub) f) <$> subs) ++ rest)) = Some f.
Proof.
  intros (sub & Hsub & <-). induction subs as [|s subs IH]; [by apply not_elem_of_nil in Hsub|].
  cbn [fmap list_fmap app]. rewrite addressed_cons. unfold addressed at 1. cbn [omap list_omap].
  destruct (sub_conn_id s =? sub_conn_id sub) eqn:E; [done|]. cbn [app]. apply IH.
  apply elem_of_cons in Hsub as [->|Hsub]; [by rewrite Z.eqb_refl in E|done].
Qed.

Section theorems.
Context {St : Type} `{MessageStore St} (proto : Proto) (cp : ClientProto) (zlib : Zlib).
Implicit Types (sys : System St) (b : Broker St).

(** What the generated code adds to the topic and the payload of a message: six
    tags and at most five variable-length numbers. *)
Definition push_overhead : Prop := forall push, push_ok push ->
  zlen (serialize_PushMessage proto push) <=
    text_size (push_topic push) + zlen (push_payload push) + 64.

(** An event that brings one whole frame. *)
Lemma event_one_frame n reads now_ms envs answers id sys conn f out sys' : system_ok n sys ->
  objects (server_ sys) !! id = Some conn -> conn_idle conn ->
  alive (reads, now_ms) -> recv_data reads = Encode f -> sendable f ->
  system_step proto zlib sys (SysEvent reads now_ms envs answers id) = Some (out, sys') ->
  exists conn1, written (λ c, addressed c id
      (OnFrameReceived proto zlib (envs 0%nat) conn1 (received f) (broker_ sys)).2)
    out (server_ sys) (server_ sys').
Proof.
  intros [Hs Htm Hconns] Hc [Hop Hr Hok Hbuf _ _] Halive Hdata Hf. cbn [system_step].
  unfold system_event. destruct (on_event _ _ _ _) as [[frames s1]|] eqn:Hev; [|done].
  cbn [mbind option_bind].
  destruct (on_event_clean n reads now_ms id _ Hs) as (frames' & s1' & Hev' & Hs1 & Hd).
  rewrite Hev in Hev'. injection Hev' as <- <-.
  pose proof (on_event_written _ _ _ _ _ _ Hev) as Hw1.
  assert (frames = [received f]) as ->.
  { destruct (sv_objects _ _ _ (sc_ok _ _ Hs) id conn Hc) as (_ & _ & Hreg).
    destruct (Hreg Hop) as [Hin|[]%elem_of_nil]. revert Hev. unfold on_event.
    rewrite bool_decide_true, Hc by done.
    destruct (OnRead_spec reads now_ms conn Hop Hr Halive Hok) as (conn1 & -> & _). cbn.
    destruct (update _ _ _ _ _); [|done]. intros [= <- _].
    pose proof (ref_decode_frames [f]) as Hdec. cbn [fmap list_fmap concat] in Hdec.
    rewrite app_nil_r in Hdec. rewrite Hbuf, Hdata. cbn [app].
    by rewrite Hdec by (constructor; [done|constructor]). }
  assert (system_ok n (mkSystem s1 (broker_ sys))) as Hok1.
  { split; [done|done|]. eapply tm_conns_impl; [|exact Hconns]. exact Hd. }
  destruct (wr_conn _ _ _ _ Hw1 id conn Hc) as (conn1 & Hc1 & _).
  cbn [handle_frames]. destruct (handle_frame _ _ _ _ _ _ _) as [[out1 sys1]|] eqn:Hh; [|done].
  cbn. rewrite app_nil_r. intros [= <- <-]. exists conn1.
  destruct (handle_frame_written proto zlib n _ _ _ _ (mkSystem s1 (broker_ sys)) conn1 _ _
    Hok1 Hc1 Hh) as [Hw2 _].
  exact (written_trans _ _ _ _ _ _ _ Hw1 Hw2).
Qed.

(** A client that reads whole frames hands the first one to its handler. *)
Lemma client_reads_first reads now_ms sends pong_ms c conn f rest : conn_idle conn ->
  connected_ c = true -> connection_ c = Some conn -> frame_handler_ c = true ->
  alive (reads, now_ms) -> recv_data reads = Encode f ++ rest -> sendable f ->
  msg_type f = FrameType.Push ->
  exists others wire c', ReadLoop_round reads now_ms sends pong_ms c =
    Some (true, received f :: others, wire, c').
Proof.
  intros [Hop Hr Hok Hbuf _ _] Hcon Hconn Hh Halive Hdata Hf Ht. unfold ReadLoop_round.
  rewrite Hcon, Hconn, Hop. cbn [negb].
  destruct (OnRead_spec reads now_ms conn Hop Hr Halive Hok) as (conn' & -> & _).
  pose proof (ref_decode_garbage [] f rest (not_elem_of_nil _) Hf) as Hdec. cbn [app] in Hdec.
  rewrite Hbuf, Hdata. cbn [app mbind option_bind]. rewrite Hdec.
  cbn [fst on_frames]. unfold on_frame at 1. cbn [msg_type received].
  rewrite !bool_decide_false by by rewrite Ht.
  destruct (on_frames _ _ _ _ _) as [[users wires] c']. cbn [frame_handler_ set_connection set_link].
  rewrite Hh. by eexists _, _, _.
Qed.
(** A push fits in a frame. *)
Lemma publish_push_sendable env req id b i :
  push_overhead -> request_ok req -> in_width 64 id ->
  text_size (pub_topic req) + zlen (pub_payload req) + 64 <= kMaxPayloadSize ->
  sendable (publish_push proto zlib env req id b i) /\
  msg_type (publish_push proto zlib env req id b i) = FrameType.Push.
Proof.
  intros Hover (Htopic & _ & _ & _ & Hreq) Hid Hsize.
  pose proof (compress_payload_shorter zlib (pub_topic req) (pub_payload req)
    (pub_compressed req) b) as Hshort.
  unfold publish_push. destruct (compress_payload _ _ _ _ _) as [payload compressed].
  cbn [fst] in Hshort. split; [|done]. split; [done|]. split; [done|].
  cbn [push_frame make_frame frame_payload].
  match goal with |- zlen (serialize_PushMessage _ ?p) <= _ => pose proof (Hover p) as Hp end.
  cbn [push_topic push_payload] in Hp. assert (kMaxPayloadSize < 2 ^ 30) by done.
  etrans; [apply Hp|lia]. split; [done|]. split; [done|]. split; [apply u64_range|].
  split; [done|]. cbn. lia.
Qed.

(** What a fresh publish sends: an error, or pushes with each subscriber's first. *)
Lemma fresh_publish n env conn frame b req : 0 <= n < 2 ^ 64 - 2 ->
  tm_ok (topic_manager_ b) -> ms_wf n (store_ b) ->
  parse_PublishRequest proto (frame_payload frame) = Some req ->
  IsDuplicate (pub_producer_id req) (pub_sequence_id req) (dedup_window_ b) = false ->
  let acts := (HandlePublish proto zlib env conn frame b).2 in
  (exists code msg, code <> Success /\ acts = [SendResponse_code proto code msg 0]) \/
  (exists id, in_width 64 id /\ forall c conn_id,
    (exists sub, sub ∈ GetSubscribers (pub_topic req) (topic_manager_ b) /\ sub_conn_id sub = c) ->
    head (addressed c conn_id acts) = Some (publish_push proto zlib env req id b 2)).
Proof.
  intros Hn Htm Hwf Hparse Hfresh. cbv zeta.
  pose proof (HandlePublish_spec proto zlib env conn frame b Htm) as Hout.
  destruct (HandlePublish _ _ _ _ _ _) as [[b' conn'] acts]. cbn [snd].
  destruct Hout as [code msg b' Hcode _ _|req' Hparse' _ Hdup|req' b' id _ _ _
    |req' b' id Hparse' _ Hst _ _ _ _].
  - left. exists code, msg. split; [|done]. by destruct Hcode as [->| ->].
  - congruence.
  - left. exists BufferFull. by eexists.
  - right. rewrite Hparse in Hparse'. injection Hparse' as <-. exists id. split.
    { exact (ms_publish_id _ _ _ _ _ _ _ _ _ Hn Hwf Hst). }
    intros c conn_id Hsub. unfold publish_actions. by apply addressed_broadcast.
Qed.
End theorems.

(** ** The composition *)

#[local] Open Scope string_scope.
#[local] Open Scope Z_scope.

(** A [publish] command that handed all of its request, [wire], to the kernel. *)
Record publisher (cp : ClientProto) (argv : list string) (p1 p2 : Z) (wire : list byte) : Prop := {
  pb_command : arg argv 3 = "publish";
  pb_argc : 6 <= zlen argv;
  pb_draw : u64_draw (p1, p2);
  pb_topic : ascii_text (arg argv 4) = true;
  pb_size : text_size (arg argv 4) + text_size (arg argv 5) + 64 <= kMaxPayloadSize;
  pb_main : exists conn_ms pong_ms answers lines frame c conn,
    client_main cp p1 p2 Established conn_ms pong_ms answers argv = Sent lines frame true wire c /\
    connection_ c = Some conn /\ write_buffer_ conn = [] /\
    zlen (frame_payload frame) <= kMaxPayloadSize;
}.

(** The broker's connection [c] had nothing to write before the event and has
    written all that the event gave it. *)
Record drained {St} (c : ConnectionId) (sys sys' : System St) : Prop := {
  dr_before : exists conn, objects (server_ sys) !! c = Some conn /\
    write_buffer_ conn = [] /\ use_zero_copy conn = true;
  dr_after : exists conn, objects (server_ sys') !! c = Some conn /\
    closed_ conn = false /\ write_buffer_ conn = [];
}.

(** A connected client between two reads. *)
Record listening (k : TcpClient) : Prop := {
  ls_connected : connected_ k = true;
  ls_handler : frame_handler_ k = true;
  ls_link : exists conn, connection_ k = Some conn /\ conn_idle conn;
}.

Section end_to_end.
Context {St : Type} `{MessageStore St} (proto : Proto) (cp : ClientProto) (zlib : Zlib).
Implicit Types (sys : System St).

(** The frame on the wire. *)
Lemma publisher_wire argv p1 p2 wire : publisher cp argv p1 p2 wire ->
  let f := mkFrame kFrameMagic kFrameVersion FrameType.Publish 0
    (serialize_PublishRequest cp (publish_command p1 p2 argv)) in
  wire = Encode f /\ sendable f /\ request_ok (publish_command p1 p2 argv).
Proof.
  intros [Hcmd Hargc Hdraw Htopic Hsize Hmain]. cbv zeta. unfold kMaxPayloadSize in Hsize.
  destruct Hmain as (conn_ms & pong_ms & answers & lines & frame & c & conn & Hmain & Hconn & Hwb & Hlen).
  destruct (client_main_publish cp p1 p2 conn_ms pong_ms answers argv Hcmd Hargc)
    as (lines' & c' & Heq & Hc').
  rewrite Heq in Hmain. injection Hmain as _ <- Hok <- ->. rewrite Hconn in Hc'. injection Hc' as ->.
  clear Heq. set (f := mkFrame _ _ _ _ _) in *.
  pose proof (SendFrame_spec answers f (Connection_new 1 None conn_ms) eq_refl) as [_ Hs].
  rewrite Hok, Hwb, app_nil_r in Hs. destruct Hs as [_ Hs]. split; [exact Hs|].
  split; [by split_and!|]. apply publish_command_ok; [done|done|lia].
Qed.

Lemma written_reply p f out s s' conn : written (λ c, addressed c p [Reply f]) out s s' ->
  objects s !! p = Some conn -> write_buffer_ conn = [] -> output_to p out `prefix_of` Encode f.
Proof.
  intros [Hw _] Hp Hwb. destruct (Hw p conn Hp) as (conn' & _ & [_ _ Hcl Ht]). revert Ht.
  unfold addressed. cbn [omap list_omap]. rewrite Z.eqb_refl. intros Ht.
  destruct (closed_ conn) eqn:Hc; [destruct (Hcl eq_refl) as [_ ->]; apply prefix_nil|].
  destruct (Ht eq_refl) as (fs & Hsub & Hfs). rewrite Hwb in Hfs. cbn [app] in Hfs.
  assert (concat (Encode <$> fs) `prefix_of` Encode f) as Hpre.
  { apply sublist_cons_r in Hsub as [->%sublist_nil_r|(l & -> & ->%sublist_nil_r)];
      [apply prefix_nil|]. cbn. by rewrite app_nil_r. }
  destruct (closed_ conn'); [by etrans|]. destruct Hfs as [Hfs _]. rewrite <- Hfs in Hpre.
  etrans; [|exact Hpre]. by apply prefix_app_r.
Qed.

Lemma written_other p f out s s' c : written (λ c, addressed c p [Reply f]) out s s' ->
  c <> p -> output_to c out = [].
Proof.
  intros [Hw Hn] Hne. destruct (objects s !! c) as [conn|] eqn:Hc; [|by apply Hn].
  destruct (Hw c conn Hc) as (conn' & _ & [_ Hq _ _]). apply Hq. unfold addressed.
  cbn [omap list_omap]. by rewrite (proj2 (Z.eqb_neq p c)).
Qed.

(** A drained connection has the first frame it was given on the wire. *)
Lemma drained_first frames out sys sys' c f :
  written frames out (server_ sys) (server_ sys') -> drained c sys sys' ->
  head (frames c) = Some f -> exists rest, output_to c out = (Encode f ++ rest)%list.
Proof.
  intros [Hw _] [(conn & Hc & Hwb & Hz) (conn' & Hc' & Hop' & Hwb')] Hhead.
  destruct (Hw c conn Hc) as (conn'' & Hc'' & [_ _ Hcl Ht]). simplify_eq.
  destruct (closed_ conn) eqn:Hop; [destruct (Hcl eq_refl); congruence|].
  destruct (Ht eq_refl) as (fs & _ & Hfs). rewrite Hop', Hwb, Hwb', app_nil_r in Hfs.
  destruct Hfs as [-> Hfirst]. rewrite <- (Hfirst eq_refl Hz) in Hhead.
  destruct fs as [|g fs]; [done|]. injection Hhead as ->. by eexists.
Qed.

(** C38: from one command line to the other, through the whole system.  In any
    state the running broker can reach, an event that brings what [publish] sent
    makes it answer the publisher with an error and write nothing to anyone
    else, or else every client subscribed to the topic whose connection drains
    is handed the message's push first of all it reads, however the bytes are
    cut, and prints it as one line with the topic and the message given on the
    command line, compressed or not. *)
Theorem message_reaches_subscriber n sys p pconn argv p1 p2 wire reads now_ms envs answers out sys' :
  wire_contract proto cp -> push_overhead proto -> zlib_contract zlib ->
  reachable proto zlib sys -> 0 <= n < 2 ^ 64 - 2 -> ms_wf n (store_ (broker_ sys)) ->
  publisher cp argv p1 p2 wire ->
  IsDuplicate (GenerateProducerId p1 p2) 1 (dedup_window_ (broker_ sys)) = false ->
  objects (server_ sys) !! p = Some pconn -> conn_idle pconn ->
  alive (reads, now_ms) -> recv_data reads = wire ->
  system_step proto zlib sys (SysEvent reads now_ms envs answers p) = Some (out, sys') ->
  (exists code msg answer, code <> Success /\ SendResponse_code proto code msg 0 = Reply answer /\
     output_to p out `prefix_of` Encode answer /\ (forall c, c <> p -> output_to c out = [])) \/
  (exists msg_id, forall sub k sreads t sends pongs,
     sub ∈ GetSubscribers (arg argv 4) (topic_manager_ (broker_ sys)) ->
     drained (sub_conn_id sub) sys sys' -> listening k ->
     alive (sreads, t) -> recv_data sreads = output_to (sub_conn_id sub) out ->
     exists push others sent k' compressed,
       ReadLoop_round sreads t sends pongs k = Some (true, push :: others, sent, k') /\
       print_frame cp zlib push =
         ["[PUSH] topic=" ++ arg argv 4 ++ " msg_id=" ++ decimal msg_id
          ++ " retry=0 compressed=" ++ show_flag compressed ++ " payload=" ++ arg argv 5]).
Proof.
  intros Hwc Hover Hz (n' & _ & Hok)%reachable_ok Hn Hwf Hpub Hfresh Hp Hidle Halive Hreads Hstep.
  destruct (publisher_wire _ _ _ _ Hpub) as (-> & Hsend & Hreq). set (f := mkFrame _ _ _ _ _) in *.
  destruct (event_one_frame proto zlib n' _ _ _ _ _ _ _ f _ _ Hok Hp Hidle Halive Hreads Hsend
    Hstep) as [conn1 Hw].
  change (OnFrameReceived proto zlib (envs 0%nat) conn1 (received f) (broker_ sys))
    with (HandlePublish proto zlib (envs 0%nat) conn1 (received f) (broker_ sys)) in Hw.
  destruct (fresh_publish proto zlib n (envs 0%nat) conn1 (received f) (broker_ sys)
    (publish_command p1 p2 argv) Hn (so_tm _ _ Hok) Hwf (wc_publish _ _ Hwc _ Hreq) Hfresh)
    as [(code & msg & Hcode & Hacts)|(id & Hid & Hhead)].
  - left. exists code, msg. eexists. split; [exact Hcode|]. split; [done|].
    rewrite Hacts in Hw. split; [by apply (written_reply _ _ _ _ _ _ Hw Hp (ci_write _ Hidle))|].
    intros c Hne. by apply (written_other p _ _ _ _ _ Hw).
  - right. exists id. intros sub k sreads t sends pongs Hsub Hdr [Hcon Hh (kconn & Hlink & Hki)] Hal Hdata.
    destruct (drained_first _ _ _ _ _ _ Hw Hdr (Hhead _ p (ex_intro _ sub (conj Hsub eq_refl))))
      as [rest Hrest]. rewrite Hrest in Hdata.
    destruct (publish_push_sendable proto zlib (envs 0%nat) (publish_command p1 p2 argv) id
      (broker_ sys) 2 Hover Hreq Hid) as [Hs Ht].
    { cbn [publish_command pub_topic pub_payload]. rewrite length_bytes_of. apply Hpub. }
    destruct (client_reads_first sreads t sends pongs k kconn _ rest Hki Hcon Hlink Hh Hal Hdata Hs Ht)
      as (others & sent & k' & Hround).
    destruct (print_publish_push proto cp zlib (envs 0%nat) _ id (broker_ sys) 2 Hwc Hz Hreq
      eq_refl Hid) as [compressed Hprint].
    eexists _, others, sent, k', compressed. split; [exact Hround|]. rewrite Hprint.
    cbn [pub_topic pub_payload publish_command]. by rewrite text_of_bytes.
Qed.
End end_to_end.

(** ** A concrete run *)

Lemma wire_push_overhead : push_overhead wire_proto.
Proof.
  intros m (_ & _ & _ & _ & Hsize). cbn [wire_proto serialize_PushMessage]. unfold write, push_format.
  cbn [enc map_format pair_format text_format bytes_format uint_format flag_format fst snd].
  rewrite !length_app, !length_be_push, length_bytes_of. lia.
Qed.

(** One client subscribes to the topic, a second one connects. *)
Definition demo_setup : list system_op :=
  [SysStart true; SysAccept 0; SysAccept 9000;
   SysEvent [Received (Encode (make_frame FrameType.Subscribe
               (serialize_SubscribeRequest wire_client (mkSubscribeRequest "t" "s" ""))))]
     100 (λ _, demo_env) (λ _ _, [Accepted 1000]) 1].

Definition demo_serving : System (MemoryMessageStore SpscRingBuffer) :=
  match system_run wire_proto store_zlib demo_setup demo_start with
  | Some (_, sys) => sys
  | None => demo_start
  end.

Lemma demo_serving_reachable : reachable wire_proto store_zlib demo_serving.
Proof.
  exists (MemoryMessageStore_new 200 1 5000), BrokerConfig_default, 0, demo_setup.
  eexists. split; [done|]. vm_compute. reflexivity.
Qed.

Lemma demo_store_wf : ms_wf 1 (store_ (broker_ demo_serving)).
Proof.
  assert (store_ (broker_ demo_serving) = snd (ms_create "t" (MemoryMessageStore_new 200 1 5000))) as ->
    by by vm_compute.
  apply (ms_create_wf 0); [done|]. apply store_wf_new. unfold params_ok, kMaxPayloadSize. lia.
Qed.

Lemma demo_publisher_ok : publisher wire_client demo_argv 1 2 demo_wire.
Proof.
  split; [by vm_compute..|]. exists 0, 0, [Accepted 1000], [Out "Connected to 127.0.0.1:9090"],
    demo_frame, demo_publisher, (Connection_new 1 None 0). by split_and!; vm_compute.
Qed.

(** The event, with what it writes and what it leaves. *)
Definition demo_event : option (output * System (MemoryMessageStore SpscRingBuffer)) :=
  system_step wire_proto store_zlib demo_serving
    (SysEvent [Received demo_wire] 9100 (λ _, demo_env) (λ _ _, [Accepted 1000]) 2).

Definition demo_out : output := default [] (fst <$> demo_event).
Definition demo_after : System (MemoryMessageStore SpscRingBuffer) :=
  default demo_serving (snd <$> demo_event).

Lemma demo_drained : drained 1 demo_serving demo_after.
Proof.
  split.
  - eexists. split; [vm_compute; reflexivity|]. by split.
  - eexists. split; [vm_compute; reflexivity|]. by split.
Qed.

Lemma message_reaches_subscriber_witness : exists push others sent k' msg_id compressed,
  ReadLoop_round [Received (output_to 1 demo_out)] 9200 (λ _, []) (λ _, 0) demo_publisher =
    Some (true, push :: others, sent, k') /\
  print_frame wire_client store_zlib push =
    ["[PUSH] topic=" ++ "t" ++ " msg_id=" ++ decimal msg_id
     ++ " retry=0 compressed=" ++ show_flag compressed ++ " payload=" ++ "hello"].
Proof.
  assert (exists pconn, objects (server_ demo_serving) !! 2 = Some pconn /\ conn_idle pconn)
    as (pconn & Hp & Hi).
  { eexists. split; [vm_compute; reflexivity|]. by split. }
  destruct (message_reaches_subscriber wire_proto wire_client store_zlib 1 demo_serving 2 pconn
    demo_argv 1 2 demo_wire [Received demo_wire] 9100 (λ _, demo_env) (λ _ _, [Accepted 1000])
    demo_out demo_after wire_contract_holds wire_push_overhead store_zlib_contract
    demo_serving_reachable ltac:(done) demo_store_wf demo_publisher_ok ltac:(by vm_compute) Hp Hi
    ltac:(by vm_compute) ltac:(by vm_compute) ltac:(by vm_compute))
    as [(code & msg & answer & _ & _ & _ & Hnone)|[msg_id Hdisplay]].
  - exfalso. specialize (Hnone 1 ltac:(done)). apply (f_equal length) in Hnone. by vm_compute in Hnone.
  - destruct (Hdisplay (mkSubscriberInfo "s" 1) demo_publisher [Received (output_to 1 demo_out)]
      9200 (λ _, []) (λ _, 0)) as (push & others & sent & k' & compressed & Hread & Hprint).
    + apply list_elem_of_lookup. exists 0%nat. by vm_compute.
    + exact demo_drained.
    + split; [done..|]. eexists. split; [vm_compute; reflexivity|]. by split.
    + by vm_compute.
    + by vm_compute.
    + exists push, others, sent, k', msg_id, compressed. split; [exact Hread|exact Hprint].
Defined.
