(* ===== verification/ClientThreads.v ===== *)
(** * The client's threads: [network/tcp_client.cpp], [network/connection.cpp]

    The read thread, the ping thread and the thread that calls [Connect],
    [SendFrame] and [Disconnect], one access to shared state per step:
    [connected_], [connection_] under [conn_mutex_], and the flag and the
    descriptor of each connection that was made, with what the kernel has behind
    its descriptors.  The bytes are left out, and of a frame received only whether
    it is a ping is kept. *)

From S2P Require Import Prelude Types.
#[local] Open Scope Z_scope.

(** ** Shared state *)

(** An open descriptor is the socket of the [n]-th connection made, or belongs
    to another part of the process. *)
Inductive owner := Link (n : nat) | Other.

#[export] Instance owner_eq_dec : EqDecision owner.
Proof. solve_decision. Defined.

(** [closed_] and [fd_]. *)
Record link := mkLink { l_closed : bool; l_fd : Z }.

Record client_shared := mkShared {
  c_fds : gmap Z owner;
  links : gmap nat link;
  made : nat;               (* connections made so far *)
  current : option nat;     (* connection_ *)
  c_connected : bool;       (* connected_ *)
}.

Definition client_shared_new : client_shared := mkShared ∅ ∅ 0 None false.

Definition set_c_fds (f : gmap Z owner) (s : client_shared) : client_shared :=
  mkShared f (links s) (made s) (current s) (c_connected s).
Definition set_links (l : gmap nat link) (s : client_shared) : client_shared :=
  mkShared (c_fds s) l (made s) (current s) (c_connected s).
Definition set_current (c : option nat) (s : client_shared) : client_shared :=
  mkShared (c_fds s) (links s) (made s) c (c_connected s).
Definition set_connected (b : bool) (s : client_shared) : client_shared :=
  mkShared (c_fds s) (links s) (made s) (current s) b.

(** A descriptor the kernel may hand out. *)
Definition unused_fd (f : Z) (s : client_shared) : bool :=
  (0 <=? f) && bool_decide (c_fds s !! f = None).

(** ** [Connection::Close] *)

(** The winner of the exchange closes the descriptor and resets it; the client's
    connections have no close handler. *)
Inductive link_closing := C_claim | C_close | C_reset.

(** [None] in the result is the end of the call. *)
Definition link_close_step (c : link_closing) (n : nat) (s : client_shared) :
    option (option link_closing * client_shared) :=
  l ← links s !! n;
  match c with
  | C_claim =>
      if l_closed l then Some (None, s)
      else Some (Some C_close, set_links (<[n := mkLink true (l_fd l)]> (links s)) s)
  | C_close => Some (Some C_reset, if 0 <=? l_fd l then set_c_fds (delete (l_fd l) (c_fds s)) s else s)
  | C_reset => Some (None, set_links (<[n := mkLink true (-1)]> (links s)) s)
  end.

(** ** [TcpClient::SendFrame] *)

(** From [S_check] on the call holds [conn_mutex_]. *)
Inductive sending :=
  | S_test
  | S_lock
  | S_check (n : nat)          (* connection_->IsClosed() *)
  | S_enter (n : nat)          (* the test of Connection::SendFrame *)
  | S_load (n : nat)
  | S_write (n : nat) (f : Z)
  | S_close (c : link_closing) (n : nat).

(** What [send], [writev] and [recv] answer; [Refused] is a full write buffer,
    found before anything is sent, [Partly] a write that is followed by another one. *)
Inductive net_answer :=
  | Written | Partly | WouldBlock | Refused | Failed
  | Bytes | Drained (pings : list bool) | Eof.

(** On behalf of connection [n] bytes of [who] are received or sent. *)
Inductive client_observation := Received (n : nat) (who : owner) | Sent (n : nat) (who : owner).

(** [inl] is where the call is, [inr] what it returned. *)
Definition send_step (free : bool) (ans : net_answer) (pc : sending) (s : client_shared)
    : option ((sending + bool) * client_shared * list client_observation) :=
  match pc with
  | S_test => Some (if c_connected s then inl S_lock else inr false, s, [])
  | S_lock =>
      if free then
        Some (match current s with Some n => inl (S_check n) | None => inr false end, s, [])
      else None
  | S_check n =>
      l ← links s !! n; Some (if l_closed l then inr false else inl (S_enter n), s, [])
  | S_enter n =>
      l ← links s !! n;
      Some (if l_closed l then inr false
            else match ans with Refused => inr false | _ => inl (S_load n) end, s, [])
  | S_load n => l ← links s !! n; Some (inl (S_write n (l_fd l)), s, [])
  | S_write n f =>
      match ans, c_fds s !! f with
      | Written, Some who => Some (inr true, s, [Sent n who])
      | Partly, Some who => Some (inl (S_load n), s, [Sent n who])
      | WouldBlock, Some _ => Some (inr true, s, [])
      | _, _ => Some (inl (S_close C_claim n), s, [])
      end
  | S_close c n =>
      '(c', s) ← link_close_step c n s;
      Some (match c' with Some c => inl (S_close c n) | None => inr false end, s, [])
  end.

Definition send_holds (pc : sending) : bool :=
  match pc with S_test | S_lock => false | _ => true end.

(** ** The read thread *)

(** [R_off] is a thread that has not been started or has been joined; [R_frames]
    are the frames still to be handed to the handler, with whether each is a
    ping, which the handler answers with a pong. *)
Inductive reader_pc :=
  | R_off
  | R_test
  | R_take
  | R_check (n : nat)
  | R_enter (n : nat)
  | R_load (n : nat)
  | R_recv (n : nat) (f : Z)
  | R_frames (pings : list bool)
  | R_pong (pc : sending) (pings : list bool)
  | R_close (c : link_closing) (n : nat)
  | R_end.

Definition reader_step (free : bool) (ans : net_answer) (pc : reader_pc) (s : client_shared)
    : option (reader_pc * client_shared * list client_observation) :=
  match pc with
  | R_test => Some (if c_connected s then R_take else R_end, s, [])
  | R_take =>
      if free then Some (match current s with Some n => R_check n | None => R_end end, s, []) else None
  | R_check n => l ← links s !! n; Some (if l_closed l then R_end else R_enter n, s, [])
  | R_enter n => l ← links s !! n; Some (if l_closed l then R_test else R_load n, s, [])
  | R_load n => l ← links s !! n; Some (R_recv n (l_fd l), s, [])
  | R_recv n f =>
      match c_fds s !! f, ans with
      | Some who, Bytes => Some (R_load n, s, [Received n who])
      | Some _, Drained pings => Some (R_frames pings, s, [])
      | _, _ => Some (R_close C_claim n, s, [])
      end
  | R_frames [] => Some (R_test, s, [])
  | R_frames (ping :: pings) => Some (if ping then R_pong S_test pings else R_frames pings, s, [])
  | R_pong pc pings =>
      '(r, s, obs) ← send_step free ans pc s;
      Some (match r with inl pc => R_pong pc pings | inr _ => R_frames pings end, s, obs)
  | R_close c n =>
      '(c', s) ← link_close_step c n s;
      Some (match c' with Some c => R_close c n | None => R_test end, s, [])
  | R_off | R_end => None
  end.

(** ** The ping thread *)

Inductive pinger_pc :=
  | P_off
  | P_test
  | P_sleep
  | P_again
  | P_send (pc : sending)
  | P_late
  | P_take
  | P_close (c : link_closing) (n : nat)
  | P_end.

(** [late] tells whether the last pong is too long ago. *)
Definition pinger_step (free late : bool) (ans : net_answer) (pc : pinger_pc) (s : client_shared)
    : option (pinger_pc * client_shared * list client_observation) :=
  match pc with
  | P_test => Some (if c_connected s then P_sleep else P_end, s, [])
  | P_sleep => Some (P_again, s, [])
  | P_again => Some (if c_connected s then P_send S_test else P_end, s, [])
  | P_send pc =>
      '(r, s, obs) ← send_step free ans pc s;
      Some (match r with
            | inl pc => P_send pc
            | inr true => P_late
            | inr false => P_end
            end, s, obs)
  | P_late => Some (if late then P_take else P_test, s, [])
  | P_take =>
      if free then
        Some (match current s with Some n => P_close C_claim n | None => P_end end, s, [])
      else None
  | P_close c n =>
      '(c', s) ← link_close_step c n s;
      Some (match c' with Some c => P_close c n | None => P_end end, s, [])
  | P_off | P_end => None
  end.

(** ** The thread that uses the client *)

Inductive user_pc :=
  | U_idle
  | U_send (pc : sending)
  | U_lock                     (* Disconnect, after clearing connected_ *)
  | U_close (c : link_closing) (n : nat)
  | U_join_read
  | U_join_ping.

Record client_threads := mkThreads {
  reader : reader_pc;
  pinger : pinger_pc;
  user : user_pc;
}.

Definition client_threads_new : client_threads := mkThreads R_off P_off U_idle.

(** [conn_mutex_] is held across steps by a [SendFrame] and by [Disconnect]. *)
Definition reader_holds (pc : reader_pc) : bool :=
  match pc with R_pong pc _ => send_holds pc | _ => false end.
Definition pinger_holds (pc : pinger_pc) : bool :=
  match pc with P_send pc => send_holds pc | _ => false end.
Definition user_holds (pc : user_pc) : bool :=
  match pc with U_send pc => send_holds pc | U_close _ _ => true | _ => false end.

Definition mutex_free (t : client_threads) : bool :=
  negb (reader_holds (reader t) || pinger_holds (pinger t) || user_holds (user t)).

(** [Connect], from the socket it has connected: the other threads do not run.
    Assigning to a joinable [std::thread] terminates the program, which is no step. *)
Definition connect_step (f : Z) (heartbeat_on : bool) (t : client_threads) (s : client_shared)
    : option (client_threads * client_shared) :=
  match reader t, pinger t, user t with
  | R_off, P_off, U_idle =>
      if unused_fd f s then
        Some (mkThreads R_test (if heartbeat_on then P_test else P_off) U_idle,
          mkShared (<[f := Link (made s)]> (c_fds s)) (<[made s := mkLink false f]> (links s))
            (S (made s)) (Some (made s)) true)
      else None
  | _, _, _ => None
  end.

Inductive call := CallSend | CallDisconnect.

Definition user_step (ans : net_answer) (what : call) (t : client_threads) (s : client_shared)
    : option (client_threads * client_shared * list client_observation) :=
  let goto pc := mkThreads (reader t) (pinger t) pc in
  match user t with
  | U_idle =>
      match what with
      | CallSend => Some (goto (U_send S_test), s, [])
      | CallDisconnect => Some (goto U_lock, set_connected false s, [])
      end
  | U_send pc =>
      '(r, s, obs) ← send_step (mutex_free t) ans pc s;
      Some (goto (match r with inl pc => U_send pc | inr _ => U_idle end), s, obs)
  | U_lock =>
      if mutex_free t then
        Some (goto (match current s with Some n => U_close C_claim n | None => U_join_read end), s, [])
      else None
  | U_close c n =>
      '(c', s) ← link_close_step c n s;
      Some (match c' with
            | Some c => (goto (U_close c n), s, [])
            | None => (goto U_join_read, set_current None s, [])
            end)
  | U_join_read =>
      match reader t with
      | R_off | R_end => Some (mkThreads R_off (pinger t) U_join_ping, s, [])
      | _ => None
      end
  | U_join_ping =>
      match pinger t with
      | P_off | P_end => Some (mkThreads (reader t) P_off U_idle, s, [])
      | _ => None
      end
  end.

(** ** All together *)

#[export] Instance link_closing_eq_dec : EqDecision link_closing.
Proof. solve_decision. Defined.
#[export] Instance sending_eq_dec : EqDecision sending.
Proof. solve_decision. Defined.
#[export] Instance reader_pc_eq_dec : EqDecision reader_pc.
Proof. solve_decision. Defined.
#[export] Instance pinger_pc_eq_dec : EqDecision pinger_pc.
Proof. solve_decision. Defined.

(** Other parts of the process open and close descriptors of their own. *)
Inductive step :=
  | StepConnect (f : Z) (heartbeat_on : bool)
  | StepUser (ans : net_answer) (what : call)
  | StepReader (ans : net_answer)
  | StepPinger (late : bool) (ans : net_answer)
  | StepOpen (f : Z)
  | StepShut (f : Z).

Definition process : Type := client_threads * client_shared.

Definition process_step (st : step) (w : process) : option (process * list client_observation) :=
  let '(t, s) := w in
  match st with
  | StepConnect f heartbeat_on => w ← connect_step f heartbeat_on t s; Some (w, [])
  | StepUser ans what => user_step ans what t s
  | StepReader ans =>
      '(pc, s, obs) ← reader_step (mutex_free t) ans (reader t) s;
      Some ((mkThreads pc (pinger t) (user t), s), obs)
  | StepPinger late ans =>
      '(pc, s, obs) ← pinger_step (mutex_free t) late ans (pinger t) s;
      Some ((mkThreads (reader t) pc (user t), s), obs)
  | StepOpen f => if unused_fd f s then Some ((t, set_c_fds (<[f := Other]> (c_fds s)) s), []) else None
  | StepShut f =>
      if bool_decide (c_fds s !! f = Some Other) then Some ((t, set_c_fds (delete f (c_fds s)) s), [])
      else None
  end.

Fixpoint process_run (sts : list step) (w : process) : option (process * list client_observation) :=
  match sts with
  | [] => Some (w, [])
  | st :: sts =>
      '(w, obs) ← process_step st w;
      '(w, obs') ← process_run sts w;
      Some (w, obs ++ obs')
  end.

Definition process_reachable (w : process) : Prop :=
  exists sts obs, process_run sts (client_threads_new, client_shared_new) = Some (w, obs).
