(* ===== verification/ClientThreadsInv.v ===== *)
(** * The invariant of the client's threads

    Connections, their descriptors and [conn_mutex_] in every state the threads of
    [ClientThreads] can reach.  What a thread does to the connections is seen
    through its [view]: three threads, two kinds of change. *)

From S2P Require Import Prelude Types ClientThreads.
#[local] Open Scope Z_scope.

(** ** What a thread knows of the connections *)

Inductive who := WReader | WPinger | WUser.

#[export] Instance who_eq_dec : EqDecision who.
Proof. solve_decision. Defined.

(** The call of [Close] the thread is in, once it has won the exchange. *)
Definition won (c : link_closing) (n : nat) : option (link_closing * nat) :=
  match c with C_claim => None | _ => Some (c, n) end.

(** The connections the thread points to; the descriptor it has read. *)
Record view := mkView {
  v_won : option (link_closing * nat);
  v_refs : list nat;
  v_loaded : option (nat * Z);
}.

Definition quiet : view := mkView None [] None.
Definition at_link (n : nat) : view := mkView None [n] None.
Definition with_fd (n : nat) (f : Z) : view := mkView None [n] (Some (n, f)).
Definition in_close (c : link_closing) (n : nat) : view := mkView (won c n) [n] None.

Definition sending_view (pc : sending) : view :=
  match pc with
  | S_test | S_lock => quiet
  | S_check n | S_enter n | S_load n => at_link n
  | S_write n f => with_fd n f
  | S_close c n => in_close c n
  end.

Definition reader_view (pc : reader_pc) : view :=
  match pc with
  | R_check n | R_enter n | R_load n => at_link n
  | R_recv n f => with_fd n f
  | R_pong pc _ => sending_view pc
  | R_close c n => in_close c n
  | _ => quiet
  end.

Definition pinger_view (pc : pinger_pc) : view :=
  match pc with P_send pc => sending_view pc | P_close c n => in_close c n | _ => quiet end.

Definition user_view (pc : user_pc) : view :=
  match pc with U_send pc => sending_view pc | U_close c n => in_close c n | _ => quiet end.

Definition views (t : client_threads) (w : who) : view :=
  match w with
  | WReader => reader_view (reader t)
  | WPinger => pinger_view (pinger t)
  | WUser => user_view (user t)
  end.

(** ** The invariant of the connections *)

Record links_ok (vs : who -> view) (s : client_shared) : Prop := {
  lo_fds : forall f n, c_fds s !! f = Some (Link n) -> 0 <= f /\ exists l,
    links s !! n = Some l /\ l_fd l = f /\
    (l_closed l = false \/ exists w, v_won (vs w) = Some (C_close, n));
  lo_open : forall n l, links s !! n = Some l -> l_closed l = false ->
    c_fds s !! l_fd l = Some (Link n) /\ current s = Some n;
  lo_won : forall w c n, v_won (vs w) = Some (c, n) -> exists l,
    links s !! n = Some l /\ l_closed l = true /\
    (c = C_close -> c_fds s !! l_fd l = Some (Link n));
  lo_once : forall w1 w2 c1 c2 n, v_won (vs w1) = Some (c1, n) -> v_won (vs w2) = Some (c2, n) ->
    w1 = w2;
  lo_refs : forall w n, n ∈ v_refs (vs w) -> is_Some (links s !! n);
  lo_loaded : forall w n f l, v_loaded (vs w) = Some (n, f) -> links s !! n = Some l ->
    l_closed l = false -> l_fd l = f;
  lo_current : forall n, current s = Some n -> is_Some (links s !! n);
  lo_made : forall n, is_Some (links s !! n) -> (n < made s)%nat;
}.

(** Nothing shared changes: at most a connection is taken from [connection_], or
    the descriptor of one read. *)
Definition stays (v v' : view) (s : client_shared) : Prop :=
  v_won v = None /\ v_won v' = None /\
  (forall n, n ∈ v_refs v' -> n ∈ v_refs v \/ current s = Some n) /\
  (forall n f, v_loaded v' = Some (n, f) ->
     v_loaded v = Some (n, f) \/ exists l, links s !! n = Some l /\ l_fd l = f).

(** A step of [Close]. *)
Definition closes (v v' : view) (s s' : client_shared) : Prop :=
  exists c n c', v = in_close c n /\ link_close_step c n s = Some (c', s') /\
    v' = match c' with Some c => in_close c n | None => quiet end.

Lemma links_ok_ext vs vs' s : (forall w, vs' w = vs w) -> links_ok vs s -> links_ok vs' s.
Proof.
  intros Heq []. split; try done.
  - intros f n Hf. destruct (lo_fds0 f n Hf) as (? & l & ? & ? & [?|[w ?]]); split; try done;
      exists l; split_and!; try done; [by left|right]. exists w. by rewrite Heq.
  - intros w c n. rewrite Heq. apply lo_won0.
  - intros w1 w2 c1 c2 n. rewrite !Heq. apply lo_once0.
  - intros w n. rewrite Heq. apply lo_refs0.
  - intros w n f l. rewrite Heq. apply lo_loaded0.
Qed.

Lemma stays_ok vs vs' w s : links_ok vs s -> stays (vs w) (vs' w) s ->
  (forall w', w' <> w -> vs' w' = vs w') -> links_ok vs' s.
Proof.
  intros [] (Hw & Hw' & Hrefs & Hload) Hothers.
  assert (forall w', v_won (vs' w') = v_won (vs w')) as Hwon.
  { intros w'. destruct (decide (w' = w)) as [->|Hne]; [congruence|by rewrite Hothers]. }
  split; try done.
  - intros f n Hf. destruct (lo_fds0 f n Hf) as (? & l & ? & ? & [?|[w1 ?]]); split; try done;
      exists l; split_and!; try done; [by left|right]. exists w1. by rewrite Hwon.
  - intros w1 c n. rewrite Hwon. apply lo_won0.
  - intros w1 w2 c1 c2 n. rewrite !Hwon. apply lo_once0.
  - intros w1 n. destruct (decide (w1 = w)) as [->|Hne]; [|rewrite Hothers by done; apply lo_refs0].
    intros [Hn|Hn]%Hrefs; eauto.
  - intros w1 n f l. destruct (decide (w1 = w)) as [->|Hne];
      [|rewrite Hothers by done; apply lo_loaded0].
    intros [Hn|(l' & Hl' & Hf)]%Hload Hl Hop; [eauto|congruence].
Qed.

Lemma link_insert (ls : gmap nat link) n l l' m k : ls !! n = Some l -> <[n := l']> ls !! m = Some k ->
  (m = n /\ k = l') \/ (m <> n /\ ls !! m = Some k).
Proof.
  intros Hn. destruct (decide (m = n)) as [->|].
  - rewrite lookup_insert_eq. intros [= <-]. by left.
  - rewrite lookup_insert_ne by done. by right.
Qed.

Section close.
Context (vs vs' : who -> view) (s : client_shared) (w : who) (n : nat) (l : link).
Hypothesis (Hok : links_ok vs s) (Hl : links s !! n = Some l).
Hypothesis (Hothers : forall w', w' <> w -> vs' w' = vs w').

(** The thread in the call is the only one that has won it. *)
Lemma won_other c w' c' : v_won (vs w) = Some (c, n) -> w' <> w -> v_won (vs w') = Some (c', n) -> False.
Proof. intros Hw Hne Hw'. by eapply Hne, (lo_once _ _ Hok). Qed.

(** The views after a step that has no new pointer and no descriptor. *)
Lemma refs_after (ls : gmap nat link) : v_refs (vs' w) ⊆ [n] -> (forall m, is_Some (links s !! m) -> is_Some (ls !! m)) ->
  forall w' m, m ∈ v_refs (vs' w') -> is_Some (ls !! m).
Proof.
  intros Hr Hls w' m Hm. apply Hls. destruct (decide (w' = w)) as [->|Hne].
  - apply Hr, list_elem_of_singleton in Hm as ->. by rewrite Hl.
  - rewrite Hothers in Hm by done. by apply (lo_refs _ _ Hok w').
Qed.

Lemma link_claim_ok : l_closed l = false -> v_won (vs w) = None -> vs' w = in_close C_close n ->
  links_ok vs' (set_links (<[n := mkLink true (l_fd l)]> (links s)) s).
Proof.
  intros Hop Hnone Hv. set (l' := mkLink true (l_fd l)). pose proof Hok as [].
  destruct (lo_open0 n l Hl Hop) as [Hfd _].
  assert (forall w' c, v_won (vs w') = Some (c, n) -> False) as Hno.
  { intros w' c Hw. destruct (lo_won0 w' c n Hw) as (k & ? & ? & _). congruence. }
  assert (forall m, is_Some (links s !! m) -> is_Some (<[n := l']> (links s) !! m)) as Hkeep.
  { intros m Hm. apply lookup_insert_is_Some'. by right. }
  split; cbn [c_fds links current made set_links].
  - intros f m Hf. destruct (lo_fds0 f m Hf) as (? & k & Hk & Hkf & Hor). split; [done|].
    destruct (decide (m = n)) as [->|Hne].
    + exists l'. rewrite lookup_insert_eq. split_and!; [done|cbn; congruence|].
      right. exists w. by rewrite Hv.
    + exists k. rewrite lookup_insert_ne by done. split_and!; try done.
      destruct Hor as [|[w' Hw']]; [by left|right]. exists w'. rewrite Hothers; [done|].
      intros ->. congruence.
  - intros m k Hk Hkop. apply (link_insert _ _ l) in Hk as [[-> ->]|[_ Hk]]; [done|by apply lo_open0|done].
  - intros w' c m Hw'. destruct (decide (w' = w)) as [->|Hne].
    + rewrite Hv in Hw'. injection Hw' as <- <-. exists l'. by rewrite lookup_insert_eq.
    + rewrite Hothers in Hw' by done. destruct (lo_won0 w' c m Hw') as (k & Hk & ?).
      exists k. rewrite lookup_insert_ne; [done|]. intros <-. by eapply Hno.
  - intros w1 w2 c1 c2 m H1 H2.
    destruct (decide (w1 = w)) as [->|Hn1], (decide (w2 = w)) as [->|Hn2]; [done|..].
    + rewrite Hv in H1. injection H1 as <- <-. rewrite Hothers in H2 by done. by edestruct Hno.
    + rewrite Hv in H2. injection H2 as <- <-. rewrite Hothers in H1 by done. by edestruct Hno.
    + rewrite Hothers in H1, H2 by done. by eapply lo_once0.
  - eapply refs_after; [by rewrite Hv|exact Hkeep].
  - intros w' m f k Hld Hk Hkop. destruct (decide (w' = w)) as [->|Hne]; [by rewrite Hv in Hld|].
    rewrite Hothers in Hld by done. apply (link_insert _ _ l) in Hk as [[-> ->]|[_ Hk]]; [done|eauto|done].
  - intros m Hm. by apply Hkeep, lo_current0.
  - intros m [<-|[_ Hm]]%lookup_insert_is_Some; [apply lo_made0; by rewrite Hl|by apply lo_made0].
Qed.

Lemma link_fd_closed_ok : v_won (vs w) = Some (C_close, n) -> vs' w = in_close C_reset n ->
  0 <= l_fd l /\ links_ok vs' (set_c_fds (delete (l_fd l) (c_fds s)) s).
Proof.
  intros Hwon Hv. pose proof Hok as [].
  destruct (lo_won0 w _ n Hwon) as (k & Hk & Hcl & Hfd). rewrite Hl in Hk. injection Hk as <-.
  specialize (Hfd eq_refl). split; [by destruct (lo_fds0 _ _ Hfd)|].
  assert (forall m k, m <> n -> c_fds s !! l_fd k = Some (Link m) ->
    delete (l_fd l) (c_fds s) !! l_fd k = Some (Link m)) as Hother.
  { intros m k Hne Hm. rewrite lookup_delete_ne; [done|]. intros Heq. congruence. }
  split; cbn [c_fds links current made set_c_fds]; try done.
  - intros f m [Hf Hm]%lookup_delete_Some. destruct (lo_fds0 f m Hm) as (? & k & Hk & Hkf & Hor).
    split; [done|]. exists k. split_and!; try done. destruct Hor as [|[w' Hw']]; [by left|right].
    exists w'. rewrite Hothers; [done|]. intros ->. congruence.
  - intros m k Hk Hop. destruct (lo_open0 m k Hk Hop) as [? ?]. split; [|done].
    apply Hother; [|done]. intros ->. congruence.
  - intros w' c m Hw'. destruct (decide (w' = w)) as [->|Hne].
    + rewrite Hv in Hw'. injection Hw' as <- <-. by exists l.
    + rewrite Hothers in Hw' by done. destruct (lo_won0 w' c m Hw') as (k & Hk & Hc & Hf).
      exists k. split_and!; try done. intros ->. apply Hother; [|by apply Hf]. intros ->.
      by eapply won_other.
  - intros w1 w2 c1 c2 m H1 H2.
    assert (forall w' c, v_won (vs' w') = Some (c, m) -> exists c', v_won (vs w') = Some (c', m)) as Hold.
    { intros w' c. destruct (decide (w' = w)) as [->|Hne]; [|rewrite Hothers by done; eauto].
      rewrite Hv. intros [= _ <-]. eauto. }
    destruct (Hold _ _ H1) as [? ?], (Hold _ _ H2) as [? ?]. by eapply lo_once0.
  - eapply refs_after; [by rewrite Hv|done].
  - intros w' m f k Hld. destruct (decide (w' = w)) as [->|Hne]; [by rewrite Hv in Hld|].
    rewrite Hothers in Hld by done. by apply (lo_loaded0 w' m f k).
Qed.

Lemma link_fd_reset_ok : v_won (vs w) = Some (C_reset, n) -> vs' w = quiet ->
  links_ok vs' (set_links (<[n := mkLink true (-1)]> (links s)) s).
Proof.
  intros Hwon Hv. pose proof Hok as [].
  destruct (lo_won0 w _ n Hwon) as (k & Hk & Hcl & _). rewrite Hl in Hk. injection Hk as <-.
  assert (forall m, is_Some (links s !! m) -> is_Some (<[n := mkLink true (-1)]> (links s) !! m)) as Hkeep.
  { intros m Hm. apply lookup_insert_is_Some'. by right. }
  split; cbn [c_fds links current made set_links].
  - intros f m Hf. destruct (lo_fds0 f m Hf) as (? & k & Hk & Hkf & Hor). split; [done|].
    assert (m <> n) as Hne.
    { intros ->. rewrite Hl in Hk. injection Hk as <-. destruct Hor as [|[w' Hw']]; [congruence|].
      destruct (decide (w' = w)) as [->|Hne]; [congruence|by eapply won_other]. }
    exists k. rewrite lookup_insert_ne by done. split_and!; try done.
    destruct Hor as [|[w' Hw']]; [by left|right]. exists w'. rewrite Hothers; [done|].
    intros ->. congruence.
  - intros m k Hk Hkop. apply (link_insert _ _ l) in Hk as [[-> ->]|[_ Hk]]; [done|by apply lo_open0|done].
  - intros w' c m Hw'. destruct (decide (w' = w)) as [->|Hne]; [by rewrite Hv in Hw'|].
    rewrite Hothers in Hw' by done. destruct (lo_won0 w' c m Hw') as (k & Hk & ?).
    exists k. rewrite lookup_insert_ne; [done|]. intros <-. by eapply won_other.
  - intros w1 w2 c1 c2 m H1 H2.
    destruct (decide (w1 = w)) as [->|Hn1]; [by rewrite Hv in H1|].
    destruct (decide (w2 = w)) as [->|Hn2]; [by rewrite Hv in H2|].
    rewrite Hothers in H1, H2 by done. by eapply lo_once0.
  - eapply refs_after; [rewrite Hv; by intros ? ?%not_elem_of_nil|exact Hkeep].
  - intros w' m f k Hld Hk Hkop. destruct (decide (w' = w)) as [->|Hne]; [by rewrite Hv in Hld|].
    rewrite Hothers in Hld by done. apply (link_insert _ _ l) in Hk as [[-> ->]|[_ Hk]]; [done|eauto|done].
  - intros m Hm. by apply Hkeep, lo_current0.
  - intros m [<-|[_ Hm]]%lookup_insert_is_Some; [apply lo_made0; by rewrite Hl|by apply lo_made0].
Qed.
End close.

Lemma closes_ok vs vs' w s s' : links_ok vs s -> closes (vs w) (vs' w) s s' ->
  (forall w', w' <> w -> vs' w' = vs w') -> links_ok vs' s'.
Proof.
  intros Hok (c & n & c' & Hv & Hstep & Hv') Hothers. unfold link_close_step in Hstep.
  destruct (links s !! n) as [l|] eqn:Hl; [|done]. cbn [mbind option_bind] in Hstep.
  assert (v_won (vs w) = won c n) as Hw by by rewrite Hv.
  destruct c.
  - destruct (l_closed l) eqn:Hcl; injection Hstep as <- <-.
    + apply (stays_ok vs vs' w s Hok); [|done]. rewrite Hv, Hv'.
      split_and!; try done. by intros ? ?%not_elem_of_nil.
    + by eapply (link_claim_ok vs vs' s w n l).
  - injection Hstep as <- <-. destruct (link_fd_closed_ok vs vs' s w n l Hok Hl Hothers Hw Hv') as [Hpos Hok'].
    by rewrite (proj2 (Z.leb_le 0 _) Hpos).
  - injection Hstep as <- <-. by eapply (link_fd_reset_ok vs vs' s w n l).
Qed.

(** ** Steps as changes of a view *)

Definition moves (v v' : view) (s s' : client_shared) : Prop :=
  s' = s /\ stays v v' s \/ closes v v' s s'.

Lemma moves_ok vs vs' w s s' : links_ok vs s -> moves (vs w) (vs' w) s s' ->
  (forall w', w' <> w -> vs' w' = vs w') -> links_ok vs' s'.
Proof. intros Hok [[-> Hs]|Hc] Hothers; [by eapply stays_ok|by eapply closes_ok]. Qed.

Lemma link_close_step_frame c n s c' s' : link_close_step c n s = Some (c', s') ->
  current s' = current s /\ c_connected s' = c_connected s /\ made s' = made s.
Proof.
  unfold link_close_step. destruct (links s !! n); [|done]. cbn. intros Hstep.
  by repeat case_match; simplify_eq.
Qed.

Lemma moves_frame v v' s s' : moves v v' s s' ->
  current s' = current s /\ c_connected s' = c_connected s /\ made s' = made s.
Proof. intros [[-> _]|(c & n & c' & _ & Hc & _)]; [done|by eapply link_close_step_frame]. Qed.

Lemma stays_quiet v s : v_won v = None -> stays v quiet s.
Proof. intros Hv. split_and!; try done. by intros n ?%not_elem_of_nil. Qed.

Lemma stays_refs v v' s : v_won v = None -> v_won v' = None -> v_refs v' = v_refs v ->
  v_loaded v' = None -> stays v v' s.
Proof. intros H1 H2 H3 H4. split_and!; try done; [rewrite H3; by left|congruence]. Qed.

Lemma stays_take v n s : v_won v = None -> current s = Some n -> stays v (at_link n) s.
Proof. intros Hv Hc. split_and!; try done. intros m ->%list_elem_of_singleton. by right. Qed.

Lemma stays_claim v n s : v_won v = None -> current s = Some n -> stays v (in_close C_claim n) s.
Proof. intros Hv Hc. split_and!; try done. intros m ->%list_elem_of_singleton. by right. Qed.

Lemma stays_load n l s : links s !! n = Some l -> stays (at_link n) (with_fd n (l_fd l)) s.
Proof. intros Hl. split_and!; try done; [by left|]. intros m f [= <- <-]. right. by exists l. Qed.

Create HintDb views.
#[local] Hint Resolve stays_quiet stays_take stays_claim stays_load : views.
#[local] Hint Extern 1 (stays _ _ _) => apply stays_refs; reflexivity : views.

Ltac stay := left; split; [reflexivity|]; cbn; auto with views.

Definition result_view (r : sending + bool) : view :=
  match r with inl pc => sending_view pc | inr _ => quiet end.

Lemma send_step_moves free ans pc s r s' obs : send_step free ans pc s = Some (r, s', obs) ->
  moves (sending_view pc) (result_view r) s s'.
Proof.
  intros Hstep. unfold send_step, mbind, option_bind in Hstep.
  destruct pc as [| |n|n|n|n f|c n]; try (repeat case_match; simplify_eq; stay).
  destruct (link_close_step c n s) as [[c' s1]|] eqn:Hc; [|done]. injection Hstep as <- <- _.
  right. exists c, n, c'. split; [done|]. split; [done|]. by destruct c'.
Qed.

Lemma reader_step_moves free ans pc s pc' s' obs : reader_step free ans pc s = Some (pc', s', obs) ->
  moves (reader_view pc) (reader_view pc') s s'.
Proof.
  intros Hstep. unfold reader_step, mbind, option_bind in Hstep.
  destruct pc as [| | |n|n|n|n f|[|[] pings]|pc pings|c n|];
    try (repeat case_match; simplify_eq; stay).
  - destruct (send_step free ans pc s) as [[[r s1] obs1]|] eqn:Hs; [|done].
    injection Hstep as <- <- _. apply send_step_moves in Hs. by destruct r.
  - destruct (link_close_step c n s) as [[c' s1]|] eqn:Hc; [|done]. injection Hstep as <- <- _.
    right. exists c, n, c'. split; [done|]. split; [done|]. by destruct c'.
Qed.

Lemma pinger_step_moves free late ans pc s pc' s' obs :
  pinger_step free late ans pc s = Some (pc', s', obs) ->
  moves (pinger_view pc) (pinger_view pc') s s'.
Proof.
  intros Hstep. unfold pinger_step, mbind, option_bind in Hstep.
  destruct pc as [| | | |pc| | |c n|]; try (repeat case_match; simplify_eq; stay).
  - destruct (send_step free ans pc s) as [[[r s1] obs1]|] eqn:Hs; [|done].
    injection Hstep as <- <- _. apply send_step_moves in Hs. by destruct r as [|[]].
  - destruct (link_close_step c n s) as [[c' s1]|] eqn:Hc; [|done]. injection Hstep as <- <- _.
    right. exists c, n, c'. split; [done|]. split; [done|]. by destruct c'.
Qed.

(** Who gets the mutex found it free. *)
Lemma send_step_holds free ans pc s pc' s' obs : send_step free ans pc s = Some (inl pc', s', obs) ->
  send_holds pc' = true -> send_holds pc = true \/ free = true.
Proof.
  intros Hstep Hh. unfold send_step, mbind, option_bind in Hstep.
  destruct pc; cbn; auto; repeat case_match; simplify_eq; auto.
Qed.

Lemma reader_step_holds free ans pc s pc' s' obs : reader_step free ans pc s = Some (pc', s', obs) ->
  reader_holds pc' = true -> reader_holds pc = true \/ free = true.
Proof.
  intros Hstep Hh. unfold reader_step, mbind, option_bind in Hstep.
  destruct pc; repeat case_match; simplify_eq; try done.
  by eapply send_step_holds.
Qed.

Lemma pinger_step_holds free late ans pc s pc' s' obs :
  pinger_step free late ans pc s = Some (pc', s', obs) ->
  pinger_holds pc' = true -> pinger_holds pc = true \/ free = true.
Proof.
  intros Hstep Hh. unfold pinger_step, mbind, option_bind in Hstep.
  destruct pc; repeat case_match; simplify_eq; try done.
  by eapply send_step_holds.
Qed.

(** ** The whole *)

(** [Disconnect] has cleared [connected_]; it has reset [connection_]. *)
Definition leaving (pc : user_pc) : bool :=
  match pc with U_lock | U_close _ _ | U_join_read | U_join_ping => true | _ => false end.
Definition joining (pc : user_pc) : bool :=
  match pc with U_join_read | U_join_ping => true | _ => false end.

Record stage_ok (t : client_threads) (s : client_shared) : Prop := {
  sg_flag : leaving (user t) = true -> c_connected s = false;
  sg_gone : joining (user t) = true -> current s = None;
  sg_close : forall c n, user t = U_close c n -> current s = Some n;
  sg_off : reader t = R_off -> current s = None /\ c_connected s = false /\
    (pinger t = P_off \/ user t = U_join_ping);
  sg_join : user t = U_join_ping -> reader t = R_off;
}.

Definition holders (t : client_threads) : nat :=
  Nat.b2n (reader_holds (reader t)) + Nat.b2n (pinger_holds (pinger t)) + Nat.b2n (user_holds (user t)).

Record process_ok (w : process) : Prop := {
  po_links : links_ok (views w.1) w.2;
  po_lock : (holders w.1 <= 1)%nat;
  po_stage : stage_ok w.1 w.2;
}.

Lemma free_holders t : mutex_free t = true -> holders t = 0%nat.
Proof.
  unfold mutex_free, holders.
  by destruct (reader_holds (reader t)), (pinger_holds (pinger t)), (user_holds (user t)).
Qed.

(** One thread's holding changes. *)
Lemma holders_le (b b' : bool) (rest : nat) free : (b' = true -> b = true \/ free = true) ->
  (free = true -> Nat.b2n b + rest = 0)%nat -> (Nat.b2n b + rest <= 1)%nat ->
  (Nat.b2n b' + rest <= 1)%nat.
Proof.
  destruct b'; intros H1 H2 H3; [|cbn; lia].
  destruct (H1 eq_refl) as [->| ->]; [done|]. specialize (H2 eq_refl). cbn. lia.
Qed.

Lemma step_reader_ok ans t s pc s' obs : process_ok (t, s) ->
  reader_step (mutex_free t) ans (reader t) s = Some (pc, s', obs) ->
  process_ok (mkThreads pc (pinger t) (user t), s').
Proof.
  intros [Hl Hk [Hsf Hsg Hsc Hso Hsj]] Hstep. cbn in *.
  pose proof (reader_step_moves _ _ _ _ _ _ _ Hstep) as Hm.
  destruct (moves_frame _ _ _ _ Hm) as (Hcur & Hcon & _).
  assert (reader t <> R_off) as Hne by (intros Heq; by rewrite Heq in Hstep).
  split; cbn.
  - apply (moves_ok (views t) _ WReader s s' Hl Hm). by intros [] ?.
  - unfold holders in *. cbn. rewrite <- Nat.add_assoc in *.
    apply (holders_le (reader_holds (reader t)) _ _ (mutex_free t)); [|intros Hf|done].
    + by eapply reader_step_holds.
    + apply free_holders in Hf. unfold holders in Hf. lia.
  - split; cbn; rewrite ?Hcur, ?Hcon; try done.
    + intros ->. exfalso. apply Hne. unfold reader_step, mbind, option_bind in Hstep.
      by destruct (reader t); repeat case_match; simplify_eq.
    + intros Hj. by destruct Hne, Hsj.
Qed.

Lemma step_pinger_ok late ans t s pc s' obs : process_ok (t, s) ->
  pinger_step (mutex_free t) late ans (pinger t) s = Some (pc, s', obs) ->
  process_ok (mkThreads (reader t) pc (user t), s').
Proof.
  intros [Hl Hk [Hsf Hsg Hsc Hso Hsj]] Hstep. cbn in *.
  pose proof (pinger_step_moves _ _ _ _ _ _ _ _ Hstep) as Hm.
  destruct (moves_frame _ _ _ _ Hm) as (Hcur & Hcon & _).
  assert (pinger t <> P_off) as Hne by (intros Heq; by rewrite Heq in Hstep).
  split; cbn.
  - apply (moves_ok (views t) _ WPinger s s' Hl Hm). by intros [] ?.
  - unfold holders in *. cbn.
    assert (Nat.b2n (pinger_holds pc) + (Nat.b2n (reader_holds (reader t)) +
      Nat.b2n (user_holds (user t))) <= 1)%nat; [|lia].
    apply (holders_le (pinger_holds (pinger t)) _ _ (mutex_free t)); [|intros Hf|lia].
    + by eapply pinger_step_holds.
    + apply free_holders in Hf. unfold holders in Hf. lia.
  - split; cbn; rewrite ?Hcur, ?Hcon; try done.
    intros Hr. destruct (Hso Hr) as (? & ? & [|]); [done|]. split_and!; [done|done|by right].
Qed.

Lemma links_ok_connected vs b s : links_ok vs s -> links_ok vs (set_connected b s).
Proof. by intros []. Qed.

(** [connection_.reset()], once the connection is closed. *)
Lemma links_ok_gone vs s : links_ok vs s ->
  (forall n l, links s !! n = Some l -> l_closed l = true) -> links_ok vs (set_current None s).
Proof. intros [] Hall. split; cbn; try done. intros n l Hl Hop. by rewrite (Hall n l Hl) in Hop. Qed.

Lemma link_close_step_end c n s s' : link_close_step c n s = Some (None, s') ->
  (exists l, links s' !! n = Some l /\ l_closed l = true) /\
  forall m, m <> n -> links s' !! m = links s !! m.
Proof.
  unfold link_close_step. destruct (links s !! n) as [l|] eqn:Hl; [|done]. cbn. intros Hstep.
  destruct c; repeat case_match; simplify_eq; [by split; [exists l|]|].
  split; [eexists; cbn; by rewrite lookup_insert_eq|]. intros m Hne. cbn. by rewrite lookup_insert_ne.
Qed.

(** The user's thread in a call that is not [Disconnect]. *)
Lemma user_send_ok ans t s pc r s' obs : process_ok (t, s) -> user t = U_send pc ->
  send_step (mutex_free t) ans pc s = Some (r, s', obs) ->
  process_ok (mkThreads (reader t) (pinger t)
    (match r with inl pc => U_send pc | inr _ => U_idle end), s').
Proof.
  intros [Hl Hk [Hsf Hsg Hsc Hso Hsj]] Hu Hstep. cbn in *.
  pose proof (send_step_moves _ _ _ _ _ _ _ Hstep) as Hm.
  destruct (moves_frame _ _ _ _ Hm) as (Hcur & Hcon & _). split; cbn.
  - apply (moves_ok (views t) _ WUser s s' Hl); [|by intros [] ?]. cbn. rewrite Hu. by destruct r.
  - unfold holders in *. cbn. rewrite Hu in Hk. cbn in Hk.
    assert (Nat.b2n (user_holds match r with inl pc0 => U_send pc0 | inr _ => U_idle end) +
      (Nat.b2n (reader_holds (reader t)) + Nat.b2n (pinger_holds (pinger t))) <= 1)%nat; [|lia].
    apply (holders_le (send_holds pc) _ _ (mutex_free t)); [|intros Hf|lia].
    + destruct r as [pc'|]; [by eapply send_step_holds|done].
    + apply free_holders in Hf. unfold holders in Hf. rewrite Hu in Hf. cbn in Hf. lia.
  - split; cbn; rewrite ?Hcur, ?Hcon; try (by destruct r).
    intros Hr. destruct (Hso Hr) as (? & ? & [|]); [by split_and!; [..|left]|congruence].
Qed.

Lemma user_close_ok t s c n c' s' : process_ok (t, s) -> user t = U_close c n ->
  link_close_step c n s = Some (c', s') ->
  process_ok match c' with
             | Some c => (mkThreads (reader t) (pinger t) (U_close c n), s')
             | None => (mkThreads (reader t) (pinger t) U_join_read, set_current None s')
             end.
Proof.
  intros [Hl Hk [Hsf Hsg Hsc Hso Hsj]] Hu Hstep. cbn in *.
  destruct (link_close_step_frame _ _ _ _ _ Hstep) as (Hcur & Hcon & _).
  pose proof (Hsc c n Hu) as Hn. rewrite Hu in Hsf. specialize (Hsf eq_refl).
  assert (forall u, user_view u = match c' with Some c => in_close c n | None => quiet end ->
    links_ok (views (mkThreads (reader t) (pinger t) u)) s') as Hlinks.
  { intros u Heq. apply (closes_ok (views t) _ WUser s s' Hl); [|by intros [] ?].
    exists c, n, c'. cbn. by rewrite Hu. }
  destruct c' as [c1|]; split; cbn [fst snd].
  - by apply Hlinks.
  - unfold holders in *. by rewrite Hu in Hk.
  - split; cbn; rewrite ?Hcur, ?Hcon; try done; [by intros ? ? [= <- <-]|].
    intros Hr. destruct (Hso Hr) as (? & ? & _). congruence.
  - apply links_ok_gone; [by apply Hlinks|]. intros m k Hm.
    destruct (link_close_step_end _ _ _ _ Hstep) as [(l & Hl1 & Hcl) Hother].
    destruct (decide (m = n)) as [->|Hne]; [congruence|]. rewrite Hother in Hm by done.
    destruct (l_closed k) eqn:Hop; [done|]. destruct (lo_open _ _ Hl m k Hm Hop) as [_ Heq]. congruence.
  - unfold holders in *. rewrite Hu in Hk. cbn in *. lia.
  - split; cbn; rewrite ?Hcon; try done.
    intros Hr. destruct (Hso Hr) as (? & ? & _). congruence.
Qed.

Lemma step_user_ok ans what t s w obs : process_ok (t, s) ->
  user_step ans what t s = Some (w, obs) -> process_ok w.
Proof.
  intros Hok Hstep. unfold user_step, mbind, option_bind in Hstep.
  destruct (user t) as [|pc| |c n| |] eqn:Hu.
  - destruct what; injection Hstep as <- <-; destruct Hok as [Hl Hk [Hsf Hsg Hsc Hso Hsj]]; cbn in *.
    + split; cbn; [|unfold holders in *; by rewrite Hu in Hk|].
      * apply (links_ok_ext (views t)); [|done]. intros []; cbn; by rewrite ?Hu.
      * rewrite Hu in *. split; cbn; try done. intros Hr. destruct (Hso Hr) as (? & ? & [|]); [auto|done].
    + split; cbn; [|unfold holders in *; by rewrite Hu in Hk|].
      * apply links_ok_connected, (links_ok_ext (views t)); [|done]. intros []; cbn; by rewrite ?Hu.
      * rewrite Hu in *. split; cbn; try done. intros Hr. destruct (Hso Hr) as (? & ? & [|]); [auto|done].
  - destruct (send_step _ _ _ _) as [[[r s1] obs1]|] eqn:Hs; [|done]. injection Hstep as <- <-.
    by eapply user_send_ok.
  - destruct (mutex_free t) eqn:Hfree; [|done]. injection Hstep as <- <-.
    destruct Hok as [Hl Hk [Hsf Hsg Hsc Hso Hsj]]. cbn in *. rewrite Hu in *.
    apply free_holders in Hfree. unfold holders in *. rewrite Hu in Hfree. cbn in Hfree.
    destruct (current s) as [n|] eqn:Hc; split; unfold holders; cbn; try lia.
    + apply (stays_ok (views t) _ WUser s Hl); [|by intros [] ?]. cbn. rewrite Hu.
      by apply stays_claim.
    + split; cbn; rewrite ?Hc; try done; [by intros ? ? [= _ ->]|].
      intros Hr. by destruct (Hso Hr).
    + apply (links_ok_ext (views t)); [|done]. intros []; cbn; by rewrite ?Hu.
    + split; cbn; rewrite ?Hc; try done.
      intros Hr. destruct (Hso Hr) as (? & ? & [|]); [auto|done].
  - destruct (link_close_step c n s) as [[c' s1]|] eqn:Hs; [|done]. injection Hstep as Heq.
    pose proof (user_close_ok _ _ _ _ _ _ Hok Hu Hs) as Hnext. destruct c'; by injection Heq as <- <-.
  - destruct Hok as [Hl Hk [Hsf Hsg Hsc Hso Hsj]]. cbn in *. rewrite Hu in *.
    assert (reader_view (reader t) = quiet /\ w = (mkThreads R_off (pinger t) U_join_ping, s))
      as [Hv ->] by (destruct (reader t); simplify_eq; done).
    split; cbn; [|unfold holders in *; cbn; lia|].
    + apply (links_ok_ext (views t)); [|done]. intros []; cbn; by rewrite ?Hu, ?Hv.
    + split; cbn; try done. intros _. split_and!; auto.
  - destruct Hok as [Hl Hk [Hsf Hsg Hsc Hso Hsj]]. cbn in *. rewrite Hu in *.
    specialize (Hsj eq_refl). destruct (Hso Hsj) as (Hcur & Hcon & _).
    assert (pinger_view (pinger t) = quiet /\ w = (mkThreads (reader t) P_off U_idle, s))
      as [Hv ->] by (destruct (pinger t); simplify_eq; done).
    split; cbn; [|unfold holders in *; cbn; lia|].
    + apply (links_ok_ext (views t)); [|done]. intros []; cbn; by rewrite ?Hu, ?Hv.
    + split; cbn; try done. intros _. split_and!; auto.
Qed.

Lemma step_connect_ok f heartbeat_on t s w : process_ok (t, s) ->
  connect_step f heartbeat_on t s = Some w -> process_ok w.
Proof.
  intros [[] Hk [Hsf Hsg Hsc Hso Hsj]] Hstep. cbn in *. unfold connect_step in Hstep.
  destruct (reader t) eqn:Hr; try done. destruct (pinger t) eqn:Hp; try done.
  destruct (user t) eqn:Hu; try done. destruct (unused_fd f s) eqn:Hf; [|done].
  injection Hstep as <-. unfold unused_fd in Hf. apply andb_true_iff in Hf as [Hpos Hf].
  apply Z.leb_le in Hpos. apply bool_decide_eq_true in Hf.
  destruct (Hso eq_refl) as (Hcur & _ & _).
  assert (forall w, views t w = quiet) as Hv by (intros []; cbn; by rewrite ?Hr, ?Hp, ?Hu).
  set (t' := mkThreads _ _ _). assert (forall w, views t' w = quiet) as Hv'.
  { unfold t'. by intros []; [|destruct heartbeat_on|]. }
  assert (links s !! made s = None) as Hfresh.
  { apply eq_None_not_Some. intros Hm. apply lo_made0 in Hm. lia. }
  split; cbn.
  - split; cbn; try (by intros; rewrite Hv' in * ).
    + intros g n. destruct (decide (g = f)) as [->|Hne].
      * rewrite lookup_insert_eq. intros [= <-]. split; [done|]. exists (mkLink false f).
        rewrite lookup_insert_eq. auto.
      * rewrite lookup_insert_ne by done. intros Hg. destruct (lo_fds0 g n Hg) as (? & l & Hl & ? & Hor).
        split; [done|]. exists l. rewrite lookup_insert_ne by congruence. split_and!; try done.
        destruct Hor as [|[w Hw]]; [by left|]. by rewrite Hv in Hw.
    + intros n l. destruct (decide (n = made s)) as [->|Hne].
      * rewrite lookup_insert_eq. intros [= <-] _. by rewrite lookup_insert_eq.
      * rewrite lookup_insert_ne by done. intros Hl Hop. destruct (lo_open0 n l Hl Hop). congruence.
    + intros w n. rewrite Hv'. by intros ?%not_elem_of_nil.
    + intros n [= <-]. rewrite lookup_insert_eq. by eexists.
    + intros n [<-|[_ Hn]]%lookup_insert_is_Some; [lia|]. apply lo_made0 in Hn. lia.
  - unfold holders. cbn. destruct heartbeat_on; cbn; lia.
  - by split.
Qed.

(** Descriptors of other parts of the process come and go. *)
Lemma links_ok_fds vs s fds' : links_ok vs s ->
  (forall f n, fds' !! f = Some (Link n) <-> c_fds s !! f = Some (Link n)) ->
  links_ok vs (set_c_fds fds' s).
Proof.
  intros [] Hf. split; cbn; try done.
  - intros f n. rewrite Hf. apply lo_fds0.
  - intros n l. rewrite Hf. apply lo_open0.
  - intros w c n Hw. destruct (lo_won0 w c n Hw) as (l & ? & ? & Hc). exists l. by rewrite Hf.
Qed.

Lemma process_step_ok st w r : process_ok w -> process_step st w = Some r -> process_ok r.1.
Proof.
  destruct w as [t s]. intros Hok Hstep. unfold process_step, mbind, option_bind in Hstep.
  destruct st as [f hb|ans what|ans|late ans|f|f].
  - destruct (connect_step f hb t s) as [w|] eqn:Hs; [|done]. injection Hstep as <-.
    by eapply step_connect_ok.
  - destruct r as [w obs]. by eapply step_user_ok.
  - destruct (reader_step _ _ _ _) as [[[pc s'] obs]|] eqn:Hs; [|done]. injection Hstep as <-.
    by eapply step_reader_ok.
  - destruct (pinger_step _ _ _ _ _) as [[[pc s'] obs]|] eqn:Hs; [|done]. injection Hstep as <-.
    by eapply step_pinger_ok.
  - destruct (unused_fd f s) eqn:Hf; [|done]. injection Hstep as <-.
    apply andb_true_iff in Hf as [_ Hf]. apply bool_decide_eq_true in Hf.
    destruct Hok as [Hl Hk Hst]. split; [|done|by destruct Hst]. apply links_ok_fds; [done|].
    intros g n. destruct (decide (g = f)) as [->|Hne]; [|by rewrite lookup_insert_ne].
    rewrite lookup_insert_eq. split; congruence.
  - case_bool_decide as Hf; [|done]. injection Hstep as <-.
    destruct Hok as [Hl Hk Hst]. split; [|done|by destruct Hst]. apply links_ok_fds; [done|].
    intros g n. destruct (decide (g = f)) as [->|Hne]; [|by rewrite lookup_delete_ne].
    rewrite lookup_delete_eq. split; congruence.
Qed.

Lemma process_run_ok sts w r : process_ok w -> process_run sts w = Some r -> process_ok r.1.
Proof.
  revert w r. induction sts as [|st sts IH]; intros w r Hok; [by intros [= <-]|].
  cbn [process_run]. destruct (process_step st w) as [[w1 obs]|] eqn:Hs; [|done].
  cbn [mbind option_bind].
  destruct (process_run sts w1) as [[w2 obs']|] eqn:Hr; [|done]. intros [= <-].
  apply (IH w1 (w2, obs')); [|done]. by apply (process_step_ok _ _ _ Hok Hs).
Qed.

Lemma process_reachable_ok w : process_reachable w -> process_ok w.
Proof.
  intros (sts & obs & Hrun). apply (process_run_ok sts (client_threads_new, client_shared_new) (w, obs)); [|done].
  split; cbn; [|unfold holders; cbn; lia|split; cbn; try done; auto].
  assert (forall w, views client_threads_new w = quiet) as Hv by by intros [].
  split; cbn; try done; intros *; rewrite ?Hv; try done.
  - by intros ?%not_elem_of_nil.
  - by intros [? Hn].
Qed.
