(* ===== verification/ClientThreadsTheorems.v ===== *)
(** * What the client's threads guarantee

    One connection at a time with one sender at a time, descriptors closed once,
    and the end of [Disconnect]. *)

From S2P Require Import Prelude Types ClientThreads ClientThreadsInv.
#[local] Open Scope Z_scope.

(** ** What is left to do once [Disconnect] has begun *)

Definition link_close_rank (c : link_closing) : nat := match c with C_claim => 3 | C_close => 2 | C_reset => 1 end.

Definition sending_rank (pc : sending) : nat :=
  match pc with
  | S_test => 9 | S_lock => 8 | S_check _ => 7 | S_enter _ => 6 | S_load _ => 5 | S_write _ _ => 4
  | S_close c _ => link_close_rank c
  end.

Definition frames_rank (pings : list bool) : nat := 2 + 11 * length pings.

Definition reader_rank (pc : reader_pc) : nat :=
  match pc with
  | R_off | R_end => 0
  | R_test => 1
  | R_close c _ => link_close_rank c + 1
  | R_recv _ _ => 5 | R_load _ => 6 | R_enter _ => 7 | R_check _ => 8 | R_take => 9
  | R_frames pings => frames_rank pings
  | R_pong pc pings => sending_rank pc + 1 + frames_rank pings
  end.

Definition pinger_rank (pc : pinger_pc) : nat :=
  match pc with
  | P_off | P_end => 0
  | P_test | P_again => 1
  | P_sleep => 2
  | P_close c _ => link_close_rank c
  | P_take => 4
  | P_late => 5
  | P_send pc => sending_rank pc + 5
  end.

Definition user_rank (pc : user_pc) : nat :=
  match pc with
  | U_idle | U_send _ => 0
  | U_join_ping => 1
  | U_join_read => 2
  | U_close c _ => link_close_rank c + 2
  | U_lock => 6
  end.

Definition client_rank (t : client_threads) : nat :=
  reader_rank (reader t) + pinger_rank (pinger t) + user_rank (user t).

(** What the kernel takes or delivers in one step, and what else the process does. *)
Definition answer_work (ans : net_answer) : nat :=
  match ans with Partly | Bytes => 2 | Drained pings => 11 * length pings | _ => 0 end.

Definition client_work (st : step) : nat :=
  match st with
  | StepReader ans | StepPinger _ ans => answer_work ans
  | StepOpen _ | StepShut _ => 1
  | _ => 0
  end.

Definition client_total_work (sts : list step) : nat := sum_list (client_work <$> sts).

(** [Disconnect] is under way before every step of the schedule. *)
Fixpoint under_way (sts : list step) (w : process) : Prop :=
  match sts with
  | [] => True
  | st :: sts =>
      leaving (user w.1) = true /\
      match process_step st w with Some (w, _) => under_way sts w | None => True end
  end.

(** ** Every step decreases it *)

Lemma link_close_step_rank c n s c' s' : link_close_step c n s = Some (c', s') ->
  (match c' with Some c => link_close_rank c | None => 0 end < link_close_rank c)%nat.
Proof.
  intros Hstep. destruct c' as [c1|]; [|destruct c; cbn; lia].
  unfold link_close_step, mbind, option_bind in Hstep. repeat case_match; simplify_eq; cbn; lia.
Qed.

Lemma send_step_rank free ans pc s r s' obs : send_step free ans pc s = Some (r, s', obs) ->
  (match r with inl pc => sending_rank pc | inr _ => 0 end < sending_rank pc + answer_work ans)%nat.
Proof.
  intros Hstep. unfold send_step, mbind, option_bind in Hstep.
  destruct pc as [| |n|n|n|n f|c n]; try (repeat case_match; simplify_eq; cbn; lia).
  destruct (link_close_step c n s) as [[c' s1]|] eqn:Hc; [|done]. injection Hstep as <- <- _.
  pose proof (link_close_step_rank _ _ _ _ _ Hc). destruct c' as [c1|]; cbn in *; lia.
Qed.

Lemma reader_step_rank free ans pc s pc' s' obs : c_connected s = false ->
  reader_step free ans pc s = Some (pc', s', obs) ->
  (reader_rank pc' < reader_rank pc + answer_work ans)%nat.
Proof.
  intros Hcon Hstep. unfold reader_step, mbind, option_bind in Hstep. rewrite Hcon in Hstep.
  destruct pc as [| | |n|n|n|n f|[|[] pings]|pc pings|c n|];
    try (repeat case_match; simplify_eq; cbn; unfold frames_rank; cbn; lia).
  - destruct (send_step free ans pc s) as [[[r s1] obs1]|] eqn:Hs; [|done].
    injection Hstep as <- <- _. apply send_step_rank in Hs. destruct r; cbn in *; lia.
  - destruct (link_close_step c n s) as [[c' s1]|] eqn:Hc; [|done]. injection Hstep as <- <- _.
    pose proof (link_close_step_rank _ _ _ _ _ Hc). destruct c' as [c1|]; cbn in *; lia.
Qed.

Lemma pinger_step_rank free late ans pc s pc' s' obs : c_connected s = false ->
  pinger_step free late ans pc s = Some (pc', s', obs) ->
  (pinger_rank pc' < pinger_rank pc + answer_work ans)%nat.
Proof.
  intros Hcon Hstep. unfold pinger_step, mbind, option_bind in Hstep. rewrite Hcon in Hstep.
  destruct pc as [| | | |pc| | |c n|]; try (repeat case_match; simplify_eq; cbn; lia).
  - destruct (send_step free ans pc s) as [[[r s1] obs1]|] eqn:Hs; [|done].
    injection Hstep as <- <- _. apply send_step_rank in Hs. destruct r as [|[]]; cbn in *; lia.
  - destruct (link_close_step c n s) as [[c' s1]|] eqn:Hc; [|done]. injection Hstep as <- <- _.
    pose proof (link_close_step_rank _ _ _ _ _ Hc). destruct c' as [c1|]; cbn in *; lia.
Qed.

Lemma process_step_rank st t s t' s' obs : c_connected s = false -> leaving (user t) = true ->
  process_step st (t, s) = Some ((t', s'), obs) ->
  (client_rank t' < client_rank t + client_work st)%nat /\
  (leaving (user t') = true \/ user t' = U_idle /\ pinger t' = P_off).
Proof.
  intros Hcon Hu Hstep. unfold process_step, mbind, option_bind in Hstep.
  destruct st as [f hb|ans what|ans|late ans|f|f].
  - unfold connect_step in Hstep. repeat case_match; simplify_eq; cbn in Hu; congruence.
  - unfold user_step, mbind, option_bind in Hstep.
    destruct (user t) as [|pc| |c n| |] eqn:Hut; try done; unfold client_rank; rewrite ?Hut.
    + repeat case_match; simplify_eq; cbn; split; auto; lia.
    + destruct (link_close_step c n s) as [[c' s1]|] eqn:Hc; [|done].
      pose proof (link_close_step_rank _ _ _ _ _ Hc).
      destruct c' as [c1|]; simplify_eq; cbn in *; split; auto; lia.
    + destruct (reader t); simplify_eq; cbn; split; auto; lia.
    + destruct (pinger t); simplify_eq; cbn; split; auto; lia.
  - destruct (reader_step _ _ _ _) as [[[pc s1] obs1]|] eqn:Hs; [|done]. simplify_eq.
    apply reader_step_rank in Hs; [|done]. unfold client_rank. cbn. split; [lia|by left].
  - destruct (pinger_step _ _ _ _ _) as [[[pc s1] obs1]|] eqn:Hs; [|done]. simplify_eq.
    apply pinger_step_rank in Hs; [|done]. unfold client_rank. cbn. split; [lia|by left].
  - repeat case_match; simplify_eq. cbn. split; [lia|by left].
  - repeat case_match; simplify_eq. cbn. split; [lia|by left].
Qed.

Lemma disconnect_bounded sts t s r : process_ok (t, s) -> process_run sts (t, s) = Some r ->
  under_way sts (t, s) -> (length sts <= client_rank t + client_total_work sts)%nat.
Proof.
  revert t s r. induction sts as [|st sts IH]; intros t s r Hok; [cbn; lia|].
  cbn [process_run under_way length fst].
  destruct (process_step st (t, s)) as [[[t1 s1] obs1]|] eqn:Hs; [|done].
  cbn [mbind option_bind].
  destruct (process_run sts (t1, s1)) as [[w2 obs2]|] eqn:Hr; [|done]. intros _ [Hu Hunder].
  pose proof (sg_flag _ _ (po_stage _ Hok) Hu) as Hcon.
  destruct (process_step_rank _ _ _ _ _ _ Hcon Hu Hs) as [Hrank _].
  pose proof (process_step_ok _ _ _ Hok Hs) as Hok1.
  specialize (IH t1 s1 (w2, obs2) Hok1 Hr Hunder).
  change (client_total_work (st :: sts)) with (client_work st + client_total_work sts)%nat. lia.
Qed.

(** ** Somebody can always go on *)

Definition is_thread_step (st : step) : bool :=
  match st with StepUser _ _ | StepReader _ | StepPinger _ _ => true | _ => false end.

Lemma close_can_step c n s : is_Some (links s !! n) -> exists r, link_close_step c n s = Some r.
Proof.
  intros [l Hl]. unfold link_close_step. rewrite Hl. cbn. destruct c; [destruct (l_closed l)|..]; by eexists.
Qed.

(** A call of [SendFrame] waits for the mutex only. *)
Lemma send_can_step free pc s : (forall n, n ∈ v_refs (sending_view pc) -> is_Some (links s !! n)) ->
  send_holds pc = true \/ free = true -> exists r, send_step free Failed pc s = Some r.
Proof.
  intros Hrefs Hh.
  destruct pc as [| |n|n|n|n f|c n]; cbn in *; try (by eexists);
    try (destruct (Hrefs n ltac:(by left)) as [l Hl]; rewrite Hl; cbn; by eexists).
  - destruct Hh as [|[= ->]]; [done|by eexists].
  - destruct (close_can_step c n s (Hrefs n ltac:(by left))) as [[c' s'] ->]. by eexists.
Qed.

Lemma reader_can_step free pc s : (forall n, n ∈ v_refs (reader_view pc) -> is_Some (links s !! n)) ->
  reader_holds pc = true \/ free = true -> pc <> R_off -> pc <> R_end ->
  exists r, reader_step free Failed pc s = Some r.
Proof.
  intros Hrefs Hh Hoff Hend.
  destruct pc as [| | |n|n|n|n f|[|ping pings]|pc pings|c n|]; cbn in *; try done; try (by eexists);
    try (destruct (Hrefs n ltac:(by left)) as [l Hl]; rewrite Hl; cbn; by eexists).
  - destruct Hh as [|[= ->]]; [done|by eexists].
  - destruct (c_fds s !! f); by eexists.
  - destruct (send_can_step free pc s Hrefs Hh) as [[[r s'] obs] ->]. by eexists.
  - destruct (close_can_step c n s (Hrefs n ltac:(by left))) as [[c' s'] ->]. by eexists.
Qed.

Lemma pinger_can_step free pc s : (forall n, n ∈ v_refs (pinger_view pc) -> is_Some (links s !! n)) ->
  pinger_holds pc = true \/ free = true -> pc <> P_off -> pc <> P_end ->
  exists r, pinger_step free true Failed pc s = Some r.
Proof.
  intros Hrefs Hh Hoff Hend.
  destruct pc as [| | | |pc| | |c n|]; cbn in *; try done; try (by eexists).
  - destruct (send_can_step free pc s Hrefs Hh) as [[[r s'] obs] ->]. by eexists.
  - destruct Hh as [|[= ->]]; [done|by eexists].
  - destruct (close_can_step c n s (Hrefs n ltac:(by left))) as [[c' s'] ->]. by eexists.
Qed.

Lemma disconnect_progress t s : process_ok (t, s) -> leaving (user t) = true ->
  exists st r, is_thread_step st = true /\ process_step st (t, s) = Some r.
Proof.
  intros [Hl _ _] Hu. cbn in Hl.
  assert (forall w n, n ∈ v_refs (views t w) -> is_Some (links s !! n)) as Hrefs by apply (lo_refs _ _ Hl).
  assert (reader_holds (reader t) = true \/ mutex_free t = true -> reader t <> R_off ->
    reader t <> R_end -> exists st r, is_thread_step st = true /\ process_step st (t, s) = Some r) as Hread.
  { intros Hh H1 H2. destruct (reader_can_step (mutex_free t) (reader t) s (Hrefs WReader) Hh H1 H2)
      as [[[pc s'] obs] Heq]. exists (StepReader Failed). cbn. rewrite Heq. by eexists. }
  assert (pinger_holds (pinger t) = true \/ mutex_free t = true -> pinger t <> P_off ->
    pinger t <> P_end -> exists st r, is_thread_step st = true /\ process_step st (t, s) = Some r) as Hping.
  { intros Hh H1 H2. destruct (pinger_can_step (mutex_free t) (pinger t) s (Hrefs WPinger) Hh H1 H2)
      as [[[pc s'] obs] Heq]. exists (StepPinger true Failed). cbn. rewrite Heq. by eexists. }
  destruct (reader_holds (reader t)) eqn:Hr.
  { apply Hread; [by left|intros Heq; by rewrite Heq in Hr..]. }
  destruct (pinger_holds (pinger t)) eqn:Hp.
  { apply Hping; [by left|intros Heq; by rewrite Heq in Hp..]. }
  destruct (user t) as [|pc| |c n| |] eqn:Hut; try done.
  - exists (StepUser Failed CallSend). cbn. unfold user_step. rewrite Hut.
    unfold mutex_free. rewrite Hr, Hp, Hut. by eexists.
  - destruct (close_can_step c n s (Hrefs WUser n ltac:(cbn; rewrite Hut; by left))) as [[c' s'] Hc].
    exists (StepUser Failed CallSend). cbn. unfold user_step. rewrite Hut, Hc. by eexists.
  - assert (mutex_free t = true) as Hfree by (unfold mutex_free; by rewrite Hr, Hp, Hut).
    destruct (decide (reader t = R_off \/ reader t = R_end)) as [Hj|Hj];
      [|apply Hread; [by right|intros ?; apply Hj; auto..]].
    exists (StepUser Failed CallSend). cbn. unfold user_step. rewrite Hut.
    destruct Hj as [-> | ->]; by eexists.
  - assert (mutex_free t = true) as Hfree by (unfold mutex_free; by rewrite Hr, Hp, Hut).
    destruct (decide (pinger t = P_off \/ pinger t = P_end)) as [Hj|Hj];
      [|apply Hping; [by right|intros ?; apply Hj; auto..]].
    exists (StepUser Failed CallSend). cbn. unfold user_step. rewrite Hut.
    destruct Hj as [-> | ->]; by eexists.
Qed.

(** ** What is received and sent *)

(** Only where a descriptor has been read. *)
Lemma send_step_observed free ans pc s r s' obs n who : send_step free ans pc s = Some (r, s', obs) ->
  Received n who ∈ obs \/ Sent n who ∈ obs ->
  exists f, v_loaded (sending_view pc) = Some (n, f) /\ c_fds s !! f = Some who.
Proof.
  intros Hstep Hobs. unfold send_step, mbind, option_bind in Hstep.
  destruct pc; repeat case_match; simplify_eq;
    try (destruct Hobs as [Ho|Ho]; by apply not_elem_of_nil in Ho);
    destruct Hobs as [Ho%list_elem_of_singleton|Ho%list_elem_of_singleton]; simplify_eq; by eexists.
Qed.

Lemma observed t s st w obs n who : process_step st (t, s) = Some (w, obs) ->
  Received n who ∈ obs \/ Sent n who ∈ obs ->
  exists v f, v_loaded (views t v) = Some (n, f) /\ c_fds s !! f = Some who.
Proof.
  intros Hstep Hobs. unfold process_step, mbind, option_bind in Hstep.
  assert (Received n who ∈ [] \/ Sent n who ∈ [] -> False) as Hnil.
  { by intros [Ho|Ho]; apply not_elem_of_nil in Ho. }
  destruct st as [f hb|ans what|ans|late ans|f|f].
  - destruct (connect_step _ _ _ _); simplify_eq. by exfalso.
  - exists WUser. unfold user_step, mbind, option_bind in Hstep. cbn.
    destruct (user t); [..|destruct (reader t)|destruct (pinger t)];
      try (by repeat case_match; simplify_eq; exfalso).
    destruct (send_step _ _ _ _) as [[[r s1] obs1]|] eqn:Hs; [|done]. simplify_eq.
    by eapply send_step_observed.
  - exists WReader. destruct (reader_step _ _ _ _) as [[[pc s1] obs1]|] eqn:Hs; [|done]. simplify_eq.
    unfold reader_step, mbind, option_bind in Hs. cbn.
    destruct (reader t) as [| | |m|m|m|m f|[|[] pings]|pc' pings|c m|]; cbn;
      try (by repeat case_match; simplify_eq; exfalso).
    + repeat case_match; simplify_eq; try (by exfalso);
        destruct Hobs as [Ho%list_elem_of_singleton|Ho%list_elem_of_singleton]; simplify_eq; by eexists.
    + destruct (send_step _ _ _ _) as [[[r s2] obs2]|] eqn:Hs2; [|done]. simplify_eq.
      by eapply send_step_observed.
  - exists WPinger. destruct (pinger_step _ _ _ _ _) as [[[pc s1] obs1]|] eqn:Hs; [|done]. simplify_eq.
    unfold pinger_step, mbind, option_bind in Hs. cbn.
    destruct (pinger t); cbn; try (by repeat case_match; simplify_eq; exfalso).
    destruct (send_step _ _ _ _) as [[[r s2] obs2]|] eqn:Hs2; [|done]. simplify_eq.
    by eapply send_step_observed.
  - repeat case_match; simplify_eq. by exfalso.
  - repeat case_match; simplify_eq. by exfalso.
Qed.

(** *** Schedules *)

(** The read thread has read the descriptor, [5], when [Disconnect] closes it and
    another part of the process is given the same number. *)
Definition client_reused_descriptor : list step :=
  [StepConnect 5 true] ++ replicate 5 (StepReader WouldBlock) ++
  [StepUser WouldBlock CallDisconnect] ++ replicate 3 (StepUser WouldBlock CallSend) ++
  [StepOpen 5; StepReader Bytes].

(** A session: a request is sent, a ping is answered, [Disconnect] finds the ping
    thread asleep. *)
Definition session : list step :=
  [StepConnect 5 true] ++ replicate 7 (StepUser Written CallSend) ++
  replicate 5 (StepReader WouldBlock) ++ [StepReader (Drained [true; false])] ++
  replicate 9 (StepReader Written) ++ [StepPinger false Written] ++
  replicate 5 (StepUser WouldBlock CallDisconnect) ++
  [StepReader WouldBlock; StepUser WouldBlock CallSend] ++
  replicate 2 (StepPinger false WouldBlock) ++ [StepUser WouldBlock CallSend].

(** ** Properties *)

(** C35: one connection, one sender.  Under every schedule of the client's threads
    at most one of them is inside [SendFrame] or the closing part of
    [Disconnect]; at most one connection is open, and it is the current one, with
    the descriptor it was given; a thread about to close a descriptor closes that
    of the connection it has claimed, and every socket belongs to a connection
    that is open or about to be closed by exactly one thread; what is received or
    sent for an open connection is on its own socket.  For one that is being
    closed it need not be: the read thread can receive what is meant for another
    part of the process. *)
Theorem client_connection_safe :
  (forall t s, process_reachable (t, s) ->
     (holders t <= 1)%nat /\
     (forall n l, links s !! n = Some l -> l_closed l = false ->
        c_fds s !! l_fd l = Some (Link n) /\ current s = Some n) /\
     (forall w n, v_won (views t w) = Some (C_close, n) -> exists l, links s !! n = Some l /\
        l_closed l = true /\ c_fds s !! l_fd l = Some (Link n) /\
        forall w' c, v_won (views t w') = Some (c, n) -> w' = w) /\
     (forall f n, c_fds s !! f = Some (Link n) -> exists l, links s !! n = Some l /\ l_fd l = f /\
        (l_closed l = false \/ exists w, v_won (views t w) = Some (C_close, n))) /\
     (forall st w obs n who l, process_step st (t, s) = Some (w, obs) ->
        Received n who ∈ obs \/ Sent n who ∈ obs ->
        links s !! n = Some l -> l_closed l = false -> who = Link n)) /\
  (exists t s l obs, process_run client_reused_descriptor (client_threads_new, client_shared_new) = Some ((t, s), obs) /\
     obs = [Received 0 Other] /\ links s !! 0%nat = Some l /\ l_closed l = true).
Proof.
  split.
  - intros t s [Hl Hk _]%process_reachable_ok. cbn in *. split_and!; [done|apply (lo_open _ _ Hl)|..].
    + intros w n Hw. destruct (lo_won _ _ Hl w _ n Hw) as (l & Hn & Hc & Hfd). exists l.
      split_and!; try done; [by apply Hfd|]. intros w' c Hw'. by eapply (lo_once _ _ Hl).
    + intros f n Hf. by destruct (lo_fds _ _ Hl f n Hf).
    + intros st w obs n who l Hstep Hobs Hn Hop.
      destruct (lo_open _ _ Hl n l Hn Hop) as [Hfd _].
      assert (forall v f, v_loaded (views t v) = Some (n, f) -> c_fds s !! f = Some who ->
        who = Link n) as Hown.
      { intros v f Hv Hf. rewrite (lo_loaded _ _ Hl v n f l Hv Hn Hop) in Hfd. congruence. }
      destruct (observed _ _ _ _ _ _ _ Hstep Hobs) as (v & f & Hv & Hf). by eapply Hown.
  - eexists _, _, _, _. split; [vm_compute; reflexivity|]. by split_and!.
Qed.

(** C36: disconnecting.  Whatever the schedule, while [Disconnect] is under way one
    of the three threads can always go on, and the threads take no more steps
    than the state allows and what the kernel still takes and delivers asks for:
    it returns, and with it the destructor.  Before any later call both threads
    have been joined, [connection_] is empty, every connection made is closed and
    none of their sockets is open.  A session of this kind exists: one request is
    sent and a ping answered before. *)
Theorem disconnect_completes :
  (forall t s, process_reachable (t, s) ->
     (leaving (user t) = true ->
        (exists st r, is_thread_step st = true /\ process_step st (t, s) = Some r) /\
        forall sts r, process_run sts (t, s) = Some r -> under_way sts (t, s) ->
          (length sts <= client_rank t + client_total_work sts)%nat) /\
     (forall ans what w obs, leaving (user t) = true ->
        process_step (StepUser ans what) (t, s) = Some (w, obs) -> leaving (user w.1) = false ->
        reader w.1 = R_off /\ pinger w.1 = P_off /\ user w.1 = U_idle) /\
     (reader t = R_off -> user t = U_idle ->
        pinger t = P_off /\ current s = None /\ c_connected s = false /\
        (forall n l, links s !! n = Some l -> l_closed l = true) /\
        (forall f n, c_fds s !! f <> Some (Link n)))) /\
  (exists t s obs, process_run session (client_threads_new, client_shared_new) = Some ((t, s), obs) /\
     t = client_threads_new /\ links s !! 0%nat = Some (mkLink true (-1)) /\
     obs = [Sent 0 (Link 0); Sent 0 (Link 0)]).
Proof.
  split; [|eexists _, _, _; split; [vm_compute; reflexivity|by split_and!]].
  intros t s Hok%process_reachable_ok. split; [|split].
  - intros Hu. split; [by apply disconnect_progress|]. intros sts r. by apply disconnect_bounded.
  - intros ans what w obs Hu Hstep Hend. pose proof (process_step_ok _ _ _ Hok Hstep) as Hok'.
    destruct w as [t' s']. pose proof (sg_flag _ _ (po_stage _ Hok) Hu) as Hcon.
    destruct (process_step_rank _ _ _ _ _ _ Hcon Hu Hstep) as [_ [|[Hi Hp]]]; [cbn in *; congruence|].
    split_and!; try done. cbn. cbn in Hstep. unfold user_step, mbind, option_bind in Hstep.
    destruct (user t) eqn:Hut; repeat case_match; simplify_eq; cbn in *; try done;
      exact (sg_join _ _ (po_stage _ Hok) Hut).
  - intros Hr Hu. destruct Hok as [Hl _ Hst]. cbn in *.
    destruct (sg_off _ _ Hst Hr) as (Hcur & Hcon & [Hp|]); [|congruence].
    assert (forall n l, links s !! n = Some l -> l_closed l = true) as Hall.
    { intros n l Hn. destruct (l_closed l) eqn:Hop; [done|].
      destruct (lo_open _ _ Hl n l Hn Hop) as [_ Heq]. congruence. }
    split_and!; try done. intros f n Hf.
    destruct (lo_fds _ _ Hl f n Hf) as (_ & l & Hn & _ & [Hop|[w Hw]]); [by rewrite (Hall n l Hn) in Hop|].
    destruct w; cbn in Hw; by rewrite ?Hr, ?Hp, ?Hu in Hw.
Qed.
