(* ===== verification/InForce.v ===== *)
(** * The configuration in force

    Every part of the running broker keeps its own copy of the configuration, or
    values taken from it: the configuration manager, the server, each connection
    and its rate limiter, the global limiter, the deduplication window, the store.
    No step changes any of them. *)

From S2P Require Import Prelude Types Config RingBuffer Frame StreamingCodec RateLimiter Connection.
From S2P Require Import TcpServer TopicManager Dedup Compression Store StoreProps MessageStore Broker.
From S2P Require Import BrokerProps System.
#[local] Open Scope Z_scope.

(** A bucket with this rate and the configured burst. *)
Definition bucket_from (cfg : BrokerConfig) (rate : Z) (l : TokenBucket) : Prop :=
  rate_per_second_ l = rate /\ burst_size_ l = rate_limit_burst cfg.

Lemma Acquire_bucket cfg rate tokens now l : bucket_from cfg rate l ->
  bucket_from cfg rate (Acquire tokens now l).2.
Proof. unfold Acquire. by destruct (dge _ _). Qed.

(** A connection of a server that has [cfg]. *)
Record conn_from (cfg : BrokerConfig) (conn : Connection) : Prop := {
  cf_config : config_ conn = Some cfg;
  cf_limiter : forall l, publish_limiter_ conn = Some l -> bucket_from cfg (conn_publish_rate cfg) l;
}.

Lemma AcquirePublishPermit_from cfg tokens now_new now conn : conn_from cfg conn ->
  conn_from cfg (AcquirePublishPermit tokens now_new now conn).2.
Proof.
  intros [Hc Hl]. unfold AcquirePublishPermit. rewrite Hc. destruct (negb _); [done|]. cbv zeta.
  match goal with |- context [Acquire tokens now ?l] =>
    assert (bucket_from cfg (conn_publish_rate cfg) l) as Hb
      by (destruct (publish_limiter_ conn); [by apply Hl|done]);
    apply (Acquire_bucket cfg _ tokens now) in Hb; destruct (Acquire tokens now l) as [ok l'] end.
  split; [done|]. by intros ? [= <-].
Qed.

Lemma SendFrame_from cfg answers frame conn : conn_from cfg conn ->
  conn_from cfg (sent_conn (SendFrame answers frame conn)).
Proof.
  intros [Hc Hl]. unfold SendFrame, Close. repeat case_match; cbn in *; simplify_eq/=; by split.
Qed.

Lemma OnRead_from cfg answers now_ms conn frames conn' :
  OnRead answers now_ms conn = Some (frames, conn') -> conn_from cfg conn -> conn_from cfg conn'.
Proof.
  intros Hr [Hc Hl]. unfold OnRead, Close in Hr. destruct (closed_ conn) eqn:Hcl; [by simplify_eq|].
  destruct (recv_loop _ _) as [buffer al]. destruct al; cbn [negb] in Hr.
  - match type of Hr with context [feed ?a ?b] => destruct (feed a b) as [[fs codec]|] end;
      cbn in Hr; [|done]. by simplify_eq.
  - cbn in Hr. rewrite Hcl in Hr. by simplify_eq.
Qed.

(** ** The server *)

Record server_from (cfg : BrokerConfig) (s : TcpServer) : Prop := {
  sf_config : server_config s = cfg;
  sf_conns : map_Forall (λ _ conn, conn_from cfg conn) (objects s);
}.

Section server.
Context (cfg : BrokerConfig).
Implicit Types (s : TcpServer).

Lemma server_from_set id conn s : server_from cfg s -> conn_from cfg conn ->
  server_from cfg (set_objects (<[id := conn]> (objects s)) s).
Proof. intros [Hs Hc] Hconn. split; [done|]. by apply map_Forall_insert_2. Qed.

Lemma update_from locked id conn conn' s s' : server_from cfg s -> conn_from cfg conn' ->
  update locked id conn conn' s = Some s' -> server_from cfg s'.
Proof.
  intros Hs Hc. pose proof (server_from_set id conn' s Hs Hc) as [Hs' Hc'].
  unfold update, close_handler. repeat case_match; intros; simplify_eq; by split.
Qed.

Lemma close_connection_from locked id s s' : server_from cfg s ->
  close_connection locked id s = Some s' -> server_from cfg s'.
Proof.
  intros Hs. unfold close_connection. destruct (objects s !! id) as [conn|] eqn:Hi;
    [|by intros [= <-]]. apply update_from; [done|].
  destruct (sf_conns _ _ Hs id conn Hi) as [Hc Hl]. unfold Close. by case_match; split.
Qed.

Lemma close_all_from ids s s' : server_from cfg s -> close_all ids s = Some s' -> server_from cfg s'.
Proof.
  unfold close_all. revert s. induction ids as [|id ids IH]; intros s Hs; [by intros [= <-]|].
  cbn [foldl mbind option_bind]. destruct (close_connection false id s) as [s1|] eqn:Hcl.
  - apply IH. by eapply close_connection_from.
  - clear. induction ids as [|id' ids IH]; [done|exact IH].
Qed.

Lemma send_on_from locked answers frame id s r : server_from cfg s ->
  send_on locked answers frame id s = Some r -> server_from cfg r.2.
Proof.
  intros Hs. unfold send_on. destruct (objects s !! id) as [conn|] eqn:Hi; [|by intros [= <-]].
  cbv zeta. destruct (update _ _ _ _ _) as [s'|] eqn:Hup; [|done]. intros [= <-].
  eapply update_from; [done| |done]. by apply SendFrame_from, (sf_conns _ _ Hs id).
Qed.

Lemma on_event_from answers now_ms id s frames s' : server_from cfg s ->
  on_event answers now_ms id s = Some (frames, s') -> server_from cfg s'.
Proof.
  intros Hs. unfold on_event. case_bool_decide; [|by intros [= <- <-]].
  destruct (objects s !! id) as [conn|] eqn:Hi; [|by intros [= <- <-]].
  destruct (OnRead _ _ _) as [[fs conn']|] eqn:Hr; [|done]. cbn.
  destruct (update _ _ _ _ _) as [s1|] eqn:Hup; [|done]. intros [= <- <-].
  eapply update_from; [done| |done]. eapply OnRead_from; [done|]. by apply (sf_conns _ _ Hs id).
Qed.

Lemma run_action_from answers id a s r : server_from cfg s ->
  run_action answers id a s = Some r -> server_from cfg r.2.
Proof.
  intros Hs. destruct a as [f|c f]; cbn [run_action].
  - destruct (send_on _ _ _ _ _) as [[[ok wire] s1]|] eqn:Hsend; [|done]. intros [= <-].
    exact (send_on_from _ _ _ _ _ _ Hs Hsend).
  - unfold TcpServer.SendTo. case_bool_decide; [|by intros [= <-]].
    destruct (send_on _ _ _ _ _) as [[[ok wire] s1]|] eqn:Hsend; [|done]. intros [= <-].
    exact (send_on_from _ _ _ _ _ _ Hs Hsend).
Qed.

Lemma run_actions_from answers i id acts s r : server_from cfg s ->
  run_actions answers i id acts s = Some r -> server_from cfg r.2.
Proof.
  revert i s r. induction acts as [|a acts IH]; intros i s r Hs; [by intros [= <-]|].
  cbn [run_actions]. destruct (run_action _ _ _ _) as [[out s1]|] eqn:Ha; [|done]. cbn.
  destruct (run_actions _ _ _ _ s1) as [[outs s2]|] eqn:Hacts; [|done]. intros [= <-].
  exact (IH _ _ _ (run_action_from _ _ _ _ _ Hs Ha) Hacts).
Qed.
End server.

(** ** The broker *)

Section broker.
Context {St : Type} `{MessageStore St} (proto : Proto) (zlib : Zlib).
Context (cfg : BrokerConfig) (P : St -> Prop).
Implicit Types (b : Broker St).

(** What holds of the store whatever it is asked. *)
Record store_keeps : Prop := {
  sk_publish : forall t p ttl now1 now2 st, P st -> P (ms_publish t p ttl now1 now2 st).2;
  sk_pull : forall t c max g now steady st, P st -> P (ms_pull t c max g now steady st).2;
  sk_ack : forall t c id g st, P st -> P (ms_ack t c id g st).2;
  sk_create : forall t st, P st -> P (ms_create t st).2;
  sk_delete : forall t st, P st -> P (ms_delete t st).2;
}.

Record broker_from b : Prop := {
  bf_config : config_of b = cfg;
  bf_limiter : match global_publish_limiter_ b with
    | Some l => rate_limit_enabled cfg = true /\ bucket_from cfg (global_publish_rate cfg) l
    | None => rate_limit_enabled cfg = false
    end;
  bf_dedup : max_producers_ (dedup_window_ b) = dedup_window_size cfg;
  bf_store : P (store_ b);
}.

Context (HP : store_keeps).

Lemma broker_from_store b st : broker_from b -> P st -> broker_from (with_store st b).
Proof. intros [Hc Hl Hd _] Hst. by split. Qed.

Lemma broker_from_tm b tm : broker_from b -> broker_from (with_tm tm b).
Proof. intros [Hc Hl Hd Hst]. by split. Qed.

Lemma broker_from_mark b p s now : broker_from b ->
  broker_from (with_dedup (MarkProcessed p s now (dedup_window_ b)) b).
Proof.
  intros [Hc Hl Hd Hst]. split; try done. cbn. unfold MarkProcessed. by case_bool_decide.
Qed.

Lemma global_permit_from tokens env b : broker_from b -> broker_from (global_permit tokens env b).2.
Proof.
  intros Hb. unfold global_permit. case_if; [|done]. pose proof Hb as [Hc Hl Hd Hst].
  destruct (global_publish_limiter_ b) as [l|] eqn:El; [|done]. destruct Hl as [He Hl].
  apply (Acquire_bucket cfg _ tokens (steady env 2)) in Hl.
  destruct (Acquire tokens (steady env 2) l) as [ok l']. by split.
Qed.

Lemma publish_batch_from env i reqs b : broker_from b ->
  broker_from (publish_batch zlib env i reqs b).2.
Proof.
  revert i b. induction reqs as [|req reqs IH]; intros i b Hb; cbn [publish_batch]; [done|].
  destruct (compress_payload _ _ _ _ b) as [payload z].
  set (ttl := if ttl_enabled _ then _ else _).
  pose proof (sk_publish HP (pub_topic req) payload ttl (sys env i) (sys env (i + 1)) _
    (bf_store _ Hb)) as Hst.
  destruct (ms_publish _ _ _ _ _ _) as [[success id] st].
  specialize (IH (i + 3)%nat (with_store st b) (broker_from_store _ _ Hb Hst)).
  by destruct (publish_batch _ _ _ _ _) as [stored b'].
Qed.

Lemma HandlePublish_from env conn frame b : broker_from b -> conn_from cfg conn ->
  broker_from (HandlePublish proto zlib env conn frame b).1.1 /\
  conn_from cfg (HandlePublish proto zlib env conn frame b).1.2.
Proof.
  intros Hb Hconn. unfold HandlePublish. destruct (parse_PublishRequest _ _) as [req|]; [|done].
  cbv zeta. destruct (_ && IsDuplicate _ _ _); [done|].
  assert (conn_from cfg (connection_permit 1 env b conn).2) as Hconn'
    by (unfold connection_permit; case_if; [by apply AcquirePublishPermit_from|done]).
  destruct (connection_permit _ _ _ _) as [[] conn1]; [|done]. cbn [negb].
  pose proof (global_permit_from 1 env b Hb) as Hb1.
  destruct (global_permit _ _ _) as [[] b1]; [|done]. cbn [negb snd] in *.
  destruct (compress_payload _ _ _ _ _) as [payload z].
  set (ttl := if ttl_enabled _ then _ else _).
  pose proof (sk_publish HP (pub_topic req) payload ttl (sys env 0) (sys env 1) _
    (bf_store _ Hb1)) as Hst.
  destruct (ms_publish _ _ _ _ _ _) as [[[] id] st]; cbn [negb];
    [|by split; [apply broker_from_store|]].
  destruct (push_groups _ _ _ _ _) as [grouped tm]. cbn [fst snd] in *.
  pose proof (broker_from_tm _ tm (broker_from_store _ _ Hb1 Hst)) as Hb2.
  split; [|done]. case_if; [|done]. by apply broker_from_mark.
Qed.

Lemma HandleBatchPublish_from env conn frame b : broker_from b -> conn_from cfg conn ->
  broker_from (HandleBatchPublish proto zlib env conn frame b).1.1 /\
  conn_from cfg (HandleBatchPublish proto zlib env conn frame b).1.2.
Proof.
  intros Hb Hconn. unfold HandleBatchPublish.
  destruct (parse_BatchPublishRequest _ _) as [reqs|]; [|done]. case_bool_decide; [done|]. cbv zeta.
  assert (conn_from cfg (connection_permit (u32 (zlen reqs)) env b conn).2) as Hconn'
    by (unfold connection_permit; case_if; [by apply AcquirePublishPermit_from|done]).
  destruct (connection_permit _ _ _ _) as [[] conn1]; [|done]. cbn [negb].
  pose proof (global_permit_from (u32 (zlen reqs)) env b Hb) as Hb1.
  destruct (global_permit _ _ _) as [[] b1]; [|done]. cbn [negb snd] in *.
  case_if; [done|]. pose proof (publish_batch_from env 0 reqs b1 Hb1) as Hb2.
  destruct (publish_batch _ _ _ _ _) as [stored b2]. destruct (last stored) as [m|]; [|done].
  destruct (push_topics _ _ _ _ _ _) as [acts tm]. split; [by apply broker_from_tm|done].
Qed.

Lemma HandleAdmin_from env frame b : broker_from b ->
  broker_from (HandleAdmin proto env frame b).1.
Proof.
  intros Hb. unfold HandleAdmin. destruct (parse_AdminRequest _ _) as [req|]; [|done]. cbv zeta.
  pose proof (sk_delete HP (admin_topic req) _ (bf_store _ Hb)) as Hst.
  repeat (case_if; [first [done|case_bool_decide; [done|]]|]); try done; cbn [fst].
  - by apply broker_from_tm, broker_from_store.
  - by apply broker_from_store, (sk_create HP).
Qed.

Lemma OnFrameReceived_from env conn frame b : broker_from b -> conn_from cfg conn ->
  broker_from (OnFrameReceived proto zlib env conn frame b).1.1 /\
  conn_from cfg (OnFrameReceived proto zlib env conn frame b).1.2.
Proof.
  intros Hb Hconn. unfold OnFrameReceived, keeping. cbv zeta.
  case_bool_decide; [by apply HandlePublish_from|].
  case_bool_decide; [case_if; [by apply HandleBatchPublish_from|done]|].
  case_bool_decide.
  { split; [|done]. unfold HandleSubscribe. destruct (parse_SubscribeRequest _ _) as [req|]; [|done].
    destruct (Subscribe _ _ _ _) as [[] tm]; cbn [fst]; [|by apply broker_from_tm].
    apply broker_from_store; [by apply broker_from_tm|]. apply (sk_create HP), Hb. }
  case_bool_decide.
  { split; [|done]. unfold HandleUnsubscribe.
    destruct (parse_UnsubscribeRequest _ _) as [req|]; [|done].
    destruct (Unsubscribe _ _ _ _) as [ok tm]. by apply broker_from_tm. }
  case_bool_decide.
  { split; [|done]. unfold HandlePull. destruct (parse_PullRequest _ _) as [req|]; [|done]. cbv zeta.
    match goal with |- context [ms_pull ?t ?c ?m ?g ?n ?s ?st] =>
      pose proof (sk_pull HP t c m g n s st (bf_store _ Hb)) as Hst;
      destruct (ms_pull t c m g n s st) end. by apply broker_from_store. }
  case_bool_decide.
  { split; [|done]. unfold HandleAck. destruct (parse_AckRequest _ _) as [req|]; [|done]. cbv zeta.
    match goal with |- context [ms_ack ?t ?c ?m ?g ?st] =>
      pose proof (sk_ack HP t c m g st (bf_store _ Hb)) as Hst;
      destruct (ms_ack t c m g st) end. by apply broker_from_store. }
  case_bool_decide; [done|]. case_bool_decide; [|done].
  split; [|done]. by apply HandleAdmin_from.
Qed.

(** ** The running broker *)

Record system_from (sys : System St) : Prop := {
  sy_server : server_from cfg (server_ sys);
  sy_broker : broker_from (broker_ sys);
}.

Lemma handle_frame_from env answers id frame sys r : system_from sys ->
  handle_frame proto zlib env answers id frame sys = Some r -> system_from r.2.
Proof.
  intros [Hs Hb]. unfold handle_frame. destruct (objects (server_ sys) !! id) as [conn|] eqn:Hi;
    [|by intros [= <-]].
  destruct (OnFrameReceived_from env conn frame (broker_ sys) Hb (sf_conns _ _ Hs id conn Hi))
    as [Hb' Hconn'].
  destruct (OnFrameReceived _ _ _ _ _ _) as [[b conn'] acts]. cbn [fst snd] in *. cbv zeta.
  destruct (run_actions _ _ _ _ _) as [[out s]|] eqn:Ha; [|done]. intros [= <-].
  split; [|done]. cbn. refine (run_actions_from cfg _ _ _ _ _ _ _ Ha). by apply server_from_set.
Qed.

Lemma handle_frames_from envs answers i id frames sys r : system_from sys ->
  handle_frames proto zlib envs answers i id frames sys = Some r -> system_from r.2.
Proof.
  revert i sys r. induction frames as [|frame frames IH]; intros i sys r Hsys; [by intros [= <-]|].
  cbn [handle_frames]. destruct (handle_frame _ _ _ _ _ _ _) as [[out sys1]|] eqn:Hf; [|done]. cbn.
  destruct (handle_frames _ _ _ _ _ _ _ sys1) as [[outs sys2]|] eqn:Hfs; [|done]. intros [= <-].
  exact (IH _ _ _ (handle_frame_from _ _ _ _ _ _ Hsys Hf) Hfs).
Qed.

Lemma closed_ids_from ids b : broker_from b ->
  broker_from (foldl (λ b id, OnConnectionClosed id b) b ids).
Proof.
  revert b. induction ids as [|id ids IH]; intros b Hb; [done|]. cbn [foldl].
  by apply IH, broker_from_tm.
Qed.

Lemma system_step_from op sys r : system_from sys -> system_step proto zlib sys op = Some r ->
  system_from r.2.
Proof.
  intros [Hs Hb]. destruct op as [opened|now_ms|reads now_ms envs answers id|order now|env topic payload
    |order]; cbn [system_step].
  - intros [= <-]. unfold Broker_Start, Start. destruct opened; [|done].
    destruct Hs as [Hcfg Hc]. by split; [split|].
  - intros [= <-]. destruct Hs as [Hcfg Hc]. split; [|done]. split; [done|]. cbn.
    apply map_Forall_insert_2; [|done]. by split; [cbn; congruence|].
  - unfold system_event. destruct (on_event _ _ _ _) as [[frames s]|] eqn:He; [|done].
    cbn [mbind option_bind]. apply handle_frames_from. split; [|done].
    by eapply on_event_from.
  - unfold system_heartbeat, HeartbeatLoop_round.
    destruct (close_all _ _) as [s|] eqn:Hcl; [|done]. intros [= <-].
    split; [by eapply close_all_from|by apply closed_ids_from].
  - intros [= <-]. unfold PublishLocal.
    pose proof (sk_publish HP topic payload 0 (Broker.sys env 0) (Broker.sys env 1) _
      (bf_store _ Hb)) as Hst.
    destruct (ms_publish _ _ _ _ _ _) as [[ok id] st]. split; [done|]. by apply broker_from_store.
  - unfold Broker_Stop, Stop. destruct (close_all _ _) as [s|] eqn:Hcl; [|done]. intros [= <-].
    split; [|done]. eapply close_all_from; [|done]. destruct Hs as [Hcfg Hc]. by split.
Qed.

Lemma system_run_from ops sys r : system_from sys -> system_run proto zlib ops sys = Some r ->
  system_from r.2.
Proof.
  revert sys r. induction ops as [|op ops IH]; intros sys r Hsys; [by intros [= <-]|].
  cbn [system_run]. destruct (system_step _ _ _ _) as [[out sys1]|] eqn:Hop; [|done]. cbn.
  destruct (system_run _ _ _ sys1) as [[outs sys2]|] eqn:Hops; [|done]. intros [= <-].
  exact (IH _ _ (system_step_from _ _ _ Hsys Hop) Hops).
Qed.

Lemma system_new_from store now : P store -> system_from (System_new store cfg now).
Proof.
  intros Hst. split; [split; [done|apply map_Forall_empty]|]. split; try done. cbn.
  by destruct (rate_limit_enabled cfg).
Qed.
End broker.

(** ** The in-memory store *)

Section memory.
Context {B : Type} `{FifoBuffer B}.

(** The values the store was made with. *)
Definition store_from (cfg : BrokerConfig) (st : MemoryMessageStore B) : Prop :=
  default_buffer_size_ st = default_ring_buffer_size cfg /\
  max_retry_count_ st = max_retry_count cfg /\ pending_timeout_ms_ st = pending_timeout_ms cfg.

Lemma store_step_from cfg st e : store_from cfg st -> store_from cfg (store_step st e).
Proof.
  intros Hst. destruct e; cbn [store_step];
    unfold CreateTopic, DeleteTopic, Publish, Pull, Ack, PullDlq, retry_topic, expire_topic;
    repeat case_match; simplify_eq; exact Hst.
Qed.

Lemma memory_keeps cfg : store_keeps (store_from cfg).
Proof.
  split; intros.
  - by apply (store_step_from _ _ (EvPublish _ _ _ _ _)).
  - by apply (store_step_from _ _ (EvPull _ _ _ _ _ _)).
  - by apply (store_step_from _ _ (EvAck _ _ _ _)).
  - by apply (store_step_from _ _ (EvCreate _)).
  - by apply (store_step_from _ _ (EvDelete _)).
Qed.
End memory.
