(* ===== verification/ServerMain.v ===== *)
(** * The server program: [main/server_main.cpp]

    From the command line and the configuration file to the running broker. *)

From Stdlib Require Import Ascii String.
From S2P Require Import Prelude Types Config ConfigFile RingBuffer Store MessageStore Broker.
From S2P Require Import RateLimiter Connection Dedup Compression TcpServer System InForce BrokerTheorems ClientMain.
#[local] Open Scope string_scope.
#[local] Open Scope Z_scope.

(** [config.port = p]. *)
Definition with_port (p : Z) (c : BrokerConfig) : BrokerConfig := {|
  port := p;
  batch_publish_enabled := batch_publish_enabled c;
  batch_push_enabled := batch_push_enabled c;
  max_batch_size := max_batch_size c;
  heartbeat_enabled := heartbeat_enabled c;
  heartbeat_interval_ms := heartbeat_interval_ms c;
  heartbeat_timeout_ms := heartbeat_timeout_ms c;
  heartbeat_check_interval_ms := heartbeat_check_interval_ms c;
  rate_limit_enabled := rate_limit_enabled c;
  global_publish_rate := global_publish_rate c;
  conn_publish_rate := conn_publish_rate c;
  rate_limit_burst := rate_limit_burst c;
  max_write_buffer_size := max_write_buffer_size c;
  ttl_enabled := ttl_enabled c;
  default_ttl_ms := default_ttl_ms c;
  expiration_check_interval_ms := expiration_check_interval_ms c;
  compression_enabled := compression_enabled c;
  compression_threshold_bytes := compression_threshold_bytes c;
  zero_copy_enabled := zero_copy_enabled c;
  dedup_enabled := dedup_enabled c;
  dedup_window_size := dedup_window_size c;
  default_ring_buffer_size := default_ring_buffer_size c;
  max_retry_count := max_retry_count c;
  pending_timeout_ms := pending_timeout_ms c;
  retry_interval_ms := retry_interval_ms c;
|}.

(** What the arguments ask for. *)
Inductive options :=
  | SaveDefault (file : string)
  | Help
  | Run (config : BrokerConfig) (config_file : string).

(** The loop over [argv], from the argument after those consumed. *)
Fixpoint parse_options (args : list string) (config : BrokerConfig) (config_file : string)
    : options :=
  match args with
  | [] => Run config config_file
  | arg :: args =>
      match args with
      | value :: args' =>
          if bool_decide (arg = "--port") then
            parse_options args' (with_port (u16 (atoi value)) config) config_file
          else if bool_decide (arg = "--config") then parse_options args' config value
          else if bool_decide (arg = "--save-config") then SaveDefault value
          else if bool_decide (arg = "--help") || bool_decide (arg = "-h") then Help
          else parse_options args config config_file
      | [] =>
          if bool_decide (arg = "--help") || bool_decide (arg = "-h") then Help
          else Run config config_file
      end
  end.

Definition PrintUsage (prog : string) : list line := Out <$> [
  "Usage: " ++ prog ++ " [options]";
  "Options:";
  "  --port <port>         Server port (default: 9090)";
  "  --config <file>       Load config from JSON file";
  "  --save-config <file>  Save default config to JSON file and exit";
  "  --help                Show this help"].

Definition on_off (b : bool) : string := if b then "on" else "off".

(** What is printed once the broker runs. *)
Definition banner (config : BrokerConfig) : list line := Out <$> [
  "PMQ Broker started on port " ++ decimal (port config);
  "Features: batch=" ++ on_off (batch_publish_enabled config)
    ++ " heartbeat=" ++ on_off (heartbeat_enabled config)
    ++ " rate_limit=" ++ on_off (rate_limit_enabled config)
    ++ " ttl=" ++ on_off (ttl_enabled config)
    ++ " compression=" ++ on_off (compression_enabled config);
  "Press Ctrl+C to stop."].

(** The program exits, having written a file or not, or serves; with the lines
    printed until then. *)
Inductive server_result :=
  | ServerExit (code : Z) (written : option (string * string)) (lines : list line)
  | Serving (sys : System (MemoryMessageStore SpscRingBuffer)) (lines : list line).

(** [files] are the files that can be read, [writable] those that can be
    written; [opened] tells whether the server's sockets can be set up. *)
Definition server_main (files : string -> option string) (writable : string -> bool)
    (opened : bool) (now : Z) (argv : list string) : server_result :=
  match parse_options (drop 1 argv) BrokerConfig_default "" with
  | SaveDefault file =>
      if writable file then
        ServerExit 0 (Some (file, SaveToFile BrokerConfig_default))
          [Out ("Default config saved to " ++ file)]
      else ServerExit 1 None [Err ("Failed to save config to " ++ file)]
  | Help => ServerExit 0 None (PrintUsage (arg argv 0))
  | Run config config_file =>
      let from_file := negb (bool_decide (config_file = "")) in
      let '(loaded, config) :=
        if from_file then LoadFromFile (files config_file) config else (true, config) in
      if negb loaded then ServerExit 1 None [Err ("Failed to load config from " ++ config_file)]
      else
        let lines := if from_file then [Out ("Loaded config from " ++ config_file)] else [] in
        let store := MemoryMessageStore_new (default_ring_buffer_size config)
                       (max_retry_count config) (pending_timeout_ms config) in
        let '(started, sys) := Broker_Start opened (System_new store config now) in
        if started then Serving sys (lines ++ banner config)%list
        else ServerExit 1 None
               (lines ++ [Err ("Failed to start broker on port " ++ decimal (port config))])%list
  end.

(** [SignalHandler]: the main loop ends when the broker no longer runs. *)
Definition SignalHandler (order : Traversal ConnectionId)
    (sys : System (MemoryMessageStore SpscRingBuffer))
    : option (System (MemoryMessageStore SpscRingBuffer)) := Broker_Stop order sys.

(** ** Properties *)

Lemma default_config_ok p : 0 <= p < 2 ^ 16 -> config_ok (with_port p BrokerConfig_default).
Proof. intros Hp. split; [exact Hp|repeat constructor; cbn; lia|repeat constructor; cbn; lia]. Qed.

(** The options set nothing but the port. *)
Lemma parse_options_port args p config_file0 config config_file : 0 <= p < 2 ^ 16 ->
  parse_options args (with_port p BrokerConfig_default) config_file0 = Run config config_file ->
  exists p, config = with_port p BrokerConfig_default /\ 0 <= p < 2 ^ 16.
Proof.
  assert (forall n args p config_file0, (length args <= n)%nat -> 0 <= p < 2 ^ 16 ->
    parse_options args (with_port p BrokerConfig_default) config_file0 = Run config config_file ->
    exists p, config = with_port p BrokerConfig_default /\ 0 <= p < 2 ^ 16) as Hall;
    [|by intros; eapply Hall].
  intros n. induction n as [|n IH]; intros [|arg args'] q f0 Hlen Hq; cbn [length] in Hlen;
    try lia; cbn [parse_options]; try (intros [= <- _]; by exists q).
  destruct args' as [|value args'].
  { case_if; [done|]. intros [= <- _]. by exists q. }
  cbn [length] in Hlen. case_if.
  { apply (IH args' (u16 (atoi value))); [lia|by apply wrap_in_width]. }
  case_if; [apply IH; [lia|done]|]. case_if; [done|]. case_if; [done|].
  apply IH; [cbn [length]; lia|done].
Qed.

(** What a server serves with. *)
Lemma server_main_serving files writable opened now argv sys lines :
  server_main files writable opened now argv = Serving sys lines ->
  exists config config_file cfg,
    parse_options (drop 1 argv) BrokerConfig_default "" = Run config config_file /\
    (if negb (bool_decide (config_file = "")) then LoadFromFile (files config_file) config
     else (true, config)) = (true, cfg) /\
    sys = mkSystem (set_running true (TcpServer_new cfg))
      (Broker_new (MemoryMessageStore_new (default_ring_buffer_size cfg) (max_retry_count cfg)
         (pending_timeout_ms cfg)) cfg now).
Proof.
  unfold server_main. destruct (parse_options _ _ _) as [file| |config config_file].
  - by case_if.
  - done.
  - cbv zeta.
    destruct (if negb (bool_decide (config_file = "")) then LoadFromFile (files config_file) config
              else (true, config)) as [loaded cfg] eqn:E.
    destruct loaded; cbn [negb]; [|done]. unfold Broker_Start, Start.
    destruct opened; [|done]. intros [= <- _]. by exists config, config_file, cfg.
Qed.

(** Whatever the command line and whatever text the configuration file holds,
    the numbers read are narrowed to the ranges of the C++ types of their fields. *)
Theorem server_config_typed files writable opened now argv sys lines :
  server_main files writable opened now argv = Serving sys lines ->
  config_ok (server_config (server_ sys)).
Proof.
  intros (config & config_file & cfg & Hopt & Hload & ->)%server_main_serving.
  cbn [server_ server_config set_running TcpServer_new].
  change BrokerConfig_default with (with_port 9090 BrokerConfig_default) in Hopt.
  destruct (parse_options_port _ 9090 _ _ _ ltac:(done) Hopt) as (p & -> & Hp).
  pose proof (default_config_ok p Hp) as Hok.
  destruct (bool_decide _); cbn in Hload; [by injection Hload as <-|].
  pose proof (LoadFromFile_ok (files config_file) _ Hok) as Hok'. by rewrite Hload in Hok'.
Qed.

(** C39: the configuration is in force everywhere and for good.  Whatever the
    command line and the file, the configuration is the default one with the port
    of the options, and with a file what is loaded from it over that; and whatever
    the server then does - clients, events, heartbeats, restarts - its server and
    its broker have it, every connection has it and limits its client at the
    configured rate, the broker limits all of them at the global rate if limits
    are enabled, and the deduplication window and the store have the sizes, the
    retry limit and the acknowledgement timeout it asks for. *)
Theorem configuration_in_force proto zlib files writable opened now argv sys lines ops out sys' :
  server_main files writable opened now argv = Serving sys lines ->
  system_run proto zlib ops sys = Some (out, sys') ->
  exists p config_file cfg,
    parse_options (drop 1 argv) BrokerConfig_default "" =
      Run (with_port p BrokerConfig_default) config_file /\
    (if bool_decide (config_file = "") then cfg = with_port p BrokerConfig_default
     else LoadFromFile (files config_file) (with_port p BrokerConfig_default) = (true, cfg)) /\
    server_config (server_ sys') = cfg /\ config_of (broker_ sys') = cfg /\
    (forall id conn, objects (server_ sys') !! id = Some conn -> config_ conn = Some cfg /\
       forall l, publish_limiter_ conn = Some l ->
         rate_per_second_ l = conn_publish_rate cfg /\ burst_size_ l = rate_limit_burst cfg) /\
    match global_publish_limiter_ (broker_ sys') with
    | Some l => rate_limit_enabled cfg = true /\
        rate_per_second_ l = global_publish_rate cfg /\ burst_size_ l = rate_limit_burst cfg
    | None => rate_limit_enabled cfg = false
    end /\
    max_producers_ (dedup_window_ (broker_ sys')) = dedup_window_size cfg /\
    default_buffer_size_ (store_ (broker_ sys')) = default_ring_buffer_size cfg /\
    max_retry_count_ (store_ (broker_ sys')) = max_retry_count cfg /\
    pending_timeout_ms_ (store_ (broker_ sys')) = pending_timeout_ms cfg.
Proof.
  intros (config & config_file & cfg & Hopt & Hload & ->)%server_main_serving Hrun.
  pose proof Hopt as Hport.
  change BrokerConfig_default with (with_port 9090 BrokerConfig_default) in Hport.
  destruct (parse_options_port _ 9090 _ _ _ ltac:(done) Hport) as (p & -> & Hp).
  exists p, config_file, cfg. split; [exact Hopt|].
  split; [destruct (bool_decide _); cbn in Hload; [by injection Hload as <-|done]|].
  match type of Hrun with system_run _ _ _ ?sys0 = _ => assert (system_from cfg (store_from cfg) sys0) as Hsys end.
  { split; [by split; [|apply map_Forall_empty]|].
    exact (sy_broker _ _ _ (system_new_from cfg (store_from cfg) (MemoryMessageStore_new
      (default_ring_buffer_size cfg) (max_retry_count cfg) (pending_timeout_ms cfg)) now
      ltac:(done))). }
  destruct (system_run_from proto zlib cfg _ (memory_keeps cfg) _ _ _ Hsys Hrun)
    as [[Hs Hc] [Hcfg Hl Hd (Hsize & Hretry & Htimeout)]].
  split_and!; try done. intros id conn Hi. destruct (Hc id conn Hi) as [Hcc Hcl].
  split; [done|]. intros l. apply Hcl.
Qed.

(** C40: the configuration file decides: what [--save-config] writes, [--config]
    serves, and any saved configuration is served as it was saved, even where an
    option on the command line says otherwise; without a file the options only
    set the port.  The port printed is the one served. *)
Theorem config_file_decides files writable now argv config config_file :
  parse_options (drop 1 argv) BrokerConfig_default "" = Run config config_file ->
  (config_file = "" -> exists p sys, config = with_port p BrokerConfig_default /\
     server_main files writable true now argv = Serving sys (banner config) /\
     config_of (broker_ sys) = config) /\
  (forall c, config_file <> "" -> files config_file = Some (SaveToFile c) -> config_ok c ->
     exists sys, server_main files writable true now argv =
         Serving sys (Out ("Loaded config from " ++ config_file) :: banner c) /\
       config_of (broker_ sys) = c) /\
  (config_file <> "" -> files config_file = None ->
     server_main files writable true now argv =
       ServerExit 1 None [Err ("Failed to load config from " ++ config_file)]) /\
  (forall prog file, writable file = true ->
     server_main files writable true now [prog; "--save-config"; file] =
       ServerExit 0 (Some (file, SaveToFile BrokerConfig_default))
         [Out ("Default config saved to " ++ file)]).
Proof.
  intros Hopt. split_and!.
  - intros ->. pose proof Hopt as Hport.
    change BrokerConfig_default with (with_port 9090 BrokerConfig_default) in Hport.
    destruct (parse_options_port _ 9090 _ _ _ ltac:(done) Hport) as (p & -> & Hp).
    exists p. unfold server_main. rewrite Hopt. by eexists.
  - intros c Hf Hfile Hok. unfold server_main. rewrite Hopt, bool_decide_false by done. cbn [negb].
    rewrite Hfile, LoadFromFile_SaveToFile by done. by eexists.
  - intros Hf Hfile. unfold server_main. rewrite Hopt, bool_decide_false by done.
    by rewrite Hfile.
  - intros prog file Hw. unfold server_main.
    change (parse_options _ _ _) with (SaveDefault file) at 1. cbv iota. by rewrite Hw.
Qed.

(** ** Concrete runs *)

Definition demo_files (file : string) : option string :=
  if bool_decide (file = "a.json") then Some (SaveToFile BrokerConfig_default) else None.

Definition demo_server_argv : list string := ["pmq_server"; "--port"; "7000"; "--config"; "a.json"].

Lemma server_config_typed_witness : exists sys lines,
  server_main demo_files (λ _, true) true 0 ["pmq_server"; "--port"; "70000"] = Serving sys lines /\
  config_ok (server_config (server_ sys)).
Proof.
  eexists _, _. split; [reflexivity|].
  eapply (server_config_typed demo_files (λ _, true) true 0 ["pmq_server"; "--port"; "70000"]).
  reflexivity.
Defined.

(** A client accepted by a server that has loaded a file. *)
Lemma configuration_in_force_witness : exists sys lines out sys' conn,
  server_main demo_files (λ _, true) true 0 demo_server_argv = Serving sys lines /\
  system_run demo_proto store_zlib [SysAccept 3] sys = Some (out, sys') /\
  objects (server_ sys') !! 1 = Some conn /\ config_ conn = Some BrokerConfig_default.
Proof.
  eexists _, _, _, _, _. split; [vm_compute; reflexivity|]. split; [vm_compute; reflexivity|].
  split; [vm_compute; reflexivity|].
  destruct (configuration_in_force demo_proto store_zlib demo_files (λ _, true) true 0
    demo_server_argv _ _ [SysAccept 3] _ _ ltac:(vm_compute; reflexivity)
    ltac:(vm_compute; reflexivity)) as (p & file & cfg & _ & _ & Hserver & _ & Hconns & _).
  etransitivity; [apply (Hconns 1); vm_compute; reflexivity|].
  rewrite <- Hserver. vm_compute. reflexivity.
Defined.

(** The port of the file, not that of the command line. *)
Lemma config_file_decides_witness : exists sys lines,
  server_main demo_files (λ _, true) true 0 demo_server_argv = Serving sys lines /\
  port (config_of (broker_ sys)) = 9090.
Proof.
  destruct (config_file_decides demo_files (λ _, true) 0 demo_server_argv
    (with_port 7000 BrokerConfig_default) "a.json") as (_ & Hfile & _); [by vm_compute|].
  destruct (Hfile BrokerConfig_default ltac:(done) eq_refl) as (sys & Heq & Hcfg).
  - split; repeat constructor; cbn; lia.
  - eexists sys, _. split; [exact Heq|]. by rewrite Hcfg.
Defined.
