(* ===== verification/StoreConcurrent.v ===== *)
(** * The store between several threads: [storage/memory_message_store.cpp]

    The operations of [Store] at the granularity of their accesses to what
    threads share.  A call looks its topic up under [topics_mutex_], keeps the
    pointer, and works on the topic under the topic's own mutex; [Publish] takes
    its identifier and pushes to the ring buffer without that mutex, hence also
    between two of the [Pop]s of a [Pull]; a retry scan takes [dlq_mutex_] message
    by message.  Threads run sequences of calls; a schedule says whose turn it is.

    A [Push] and a [Pop] are single steps, as [RingConcurrent] justifies for one
    producer; and what a call does to data that only the holder of the topic's
    mutex touches (the log, the offsets, the pending messages, the retry queue) is
    one step between two accesses to anything else.  A background round visits
    several topics: each visit is one call, which looks its topic up itself. *)

From S2P Require Import Prelude Types RingBuffer Store StoreSpec StoreInv StoreProps.
#[local] Open Scope Z_scope.

(** ** Answers of the atomic operations *)

Inductive answer :=
  | APublish (ok : bool) (id : MessageId)
  | AMessages (messages : list StoredMessage)
  | AFlag (b : bool)
  | ADone.

Definition with_next {B} (n : MessageId) (td : TopicData B) : TopicData B :=
  mkTopicData (td_topic_name td) (ring_buffer td) (message_log td) (retry_queue td)
    (subscriber_offsets td) (group_offsets td) (pending_acks td) n.

Section concurrent.
Context {B : Type} `{FifoBuffer B}.

Definition store_answer (st : MemoryMessageStore B) (e : store_event) : answer :=
  match e with
  | EvCreate topic => AFlag (CreateTopic topic st).1
  | EvDelete topic => AFlag (DeleteTopic topic st).1
  | EvPublish topic payload ttl now1 now2 =>
      let '(ok, id) := (Publish topic payload ttl now1 now2 st).1 in APublish ok id
  | EvPull topic consumer max g now steady =>
      AMessages (Pull topic consumer max g now steady st).1
  | EvAck topic consumer mid g => AFlag (Ack topic consumer mid g st).1
  | EvPullDlq topic max => AMessages (PullDlq topic max st).1
  | EvRetry _ _ | EvExpire _ _ => ADone
  end.

(** ** Pieces of the operations *)

(** One iteration of [DrainRingBuffer]: whether the ring buffer had a record. *)
Definition drain_step (td : TopicData B) : bool * TopicData B :=
  let '(buf, ring) := fb_pop (ring_buffer td) in
  let log :=
    match buf with
    | Some buf => match parse_record buf with
                  | Some msg => message_log td ++ [msg]
                  | None => message_log td
                  end
    | None => message_log td
    end in
  (bool_decide (is_Some buf),
   mkTopicData (td_topic_name td) ring log (retry_queue td) (subscriber_offsets td)
     (group_offsets td) (pending_acks td) (next_msg_id td)).

(** What [Pull] does once the ring buffer is drained. *)
Definition pull_drained (consumer_id : string) (max_messages : Z) (is_group : bool)
    (now_ms : Z) (steady_now : nat -> Z) (td : TopicData B)
    : list StoredMessage * TopicData B :=
  let consumer_key := MakeConsumerKey is_group consumer_id in
  let '(result, offset, acks) :=
    pull_log max_messages now_ms steady_now consumer_key (message_log td) []
      (offset_of is_group consumer_key td) (pending_acks td) in
  let '(result, queue, acks) :=
    pull_retry max_messages now_ms steady_now consumer_key (retry_queue td) result acks in
  (result,
   mkTopicData (td_topic_name td) (ring_buffer td) (message_log td) queue
     (if is_group then subscriber_offsets td else <[consumer_key := offset]> (subscriber_offsets td))
     (if is_group then <[consumer_key := offset]> (group_offsets td) else group_offsets td)
     acks (next_msg_id td)).

Definition with_queue (queue : list StoredMessage) (td : TopicData B) : TopicData B :=
  mkTopicData (td_topic_name td) (ring_buffer td) (message_log td) queue
    (subscriber_offsets td) (group_offsets td) (pending_acks td) (next_msg_id td).

(** ** Shared state and threads *)

(** [names] is [topics_], its pointers are keys of [heap]; [owner] says which
    thread holds the mutex of the topic at an address. *)
Record shared := mkShared {
  names : gmap TopicName nat;
  heap : gmap nat (TopicData B);
  sh_dlq : gmap TopicName (list StoredMessage);
  next_addr : nat;
  names_locked : bool;        (* topics_mutex_, held across steps by a deletion *)
  owner : gmap nat nat;
  sh_buffer_size : Z;
  sh_max_retry : Z;
  sh_timeout : Z;
}.

Definition shared_new (buffer_size max_retry timeout : Z) : shared :=
  mkShared ∅ ∅ ∅ 0 false ∅ buffer_size max_retry timeout.

Definition set_heap (a : nat) (td : TopicData B) (sh : shared) : shared :=
  mkShared (names sh) (<[a := td]> (heap sh)) (sh_dlq sh) (next_addr sh) (names_locked sh)
    (owner sh) (sh_buffer_size sh) (sh_max_retry sh) (sh_timeout sh).
Definition set_sh_dlq (dlq : gmap TopicName (list StoredMessage)) (sh : shared) : shared :=
  mkShared (names sh) (heap sh) dlq (next_addr sh) (names_locked sh) (owner sh)
    (sh_buffer_size sh) (sh_max_retry sh) (sh_timeout sh).
Definition set_owner (o : gmap nat nat) (sh : shared) : shared :=
  mkShared (names sh) (heap sh) (sh_dlq sh) (next_addr sh) (names_locked sh) o
    (sh_buffer_size sh) (sh_max_retry sh) (sh_timeout sh).

(** A new topic object, under its name. *)
Definition allocate (topic : TopicName) (sh : shared) : shared :=
  mkShared (<[topic := next_addr sh]> (names sh))
    (<[next_addr sh := TopicData_new (sh_buffer_size sh) topic]> (heap sh)) (sh_dlq sh)
    (S (next_addr sh)) (names_locked sh) (owner sh) (sh_buffer_size sh) (sh_max_retry sh)
    (sh_timeout sh).

(** Erasing the topic of a name, [topics_mutex_] being held until its dead
    letters are erased too. *)
Definition erase_topic (topic : TopicName) (a : nat) (sh : shared) : shared :=
  mkShared (delete topic (names sh)) (delete a (heap sh)) (sh_dlq sh) (next_addr sh) true
    (owner sh) (sh_buffer_size sh) (sh_max_retry sh) (sh_timeout sh).
Definition erase_dlq (topic : TopicName) (sh : shared) : shared :=
  mkShared (names sh) (heap sh) (delete (MakeDlqName topic) (sh_dlq sh)) (next_addr sh) false
    (owner sh) (sh_buffer_size sh) (sh_max_retry sh) (sh_timeout sh).

(** Where a thread is in its first call: it holds a pointer; its publish has its
    identifier; it drains, or has drained, the ring buffer, or scans the pending
    messages, under the topic's mutex; it has erased a topic.  A scan goes through
    the consumers, and through the messages of the first of them. *)
Inductive pc :=
  | Idle
  | Located (a : nat)
  | Assigned (a : nat) (id : MessageId)
  | Draining (a : nat)
  | Drained (a : nat)
  | Scanning (a : nat) (consumers : list (string * list (MessageId * PendingMessage)))
  | Erased.

Definition scan_order (s : scan) (td : TopicData B)
    : list (string * list (MessageId * PendingMessage)) :=
  (λ e, (e.1, entries (scan_ids s) e.2)) <$> entries (scan_keys s) (pending_acks td).

(** The messages of a consumer that [pending_map.erase] leaves. *)
Definition erase_timed_out (timeout : Z) (s : scan) (key : string) (td : TopicData B)
    : TopicData B :=
  let pending_map := default ∅ (pending_acks td !! key) in
  let to_remove :=
    (filter (λ e, timed_out timeout (scan_now s) e.2) (entries (scan_ids s) pending_map)).*1 in
  with_pending (<[key := foldl (λ m id, delete id m) pending_map to_remove]> (pending_acks td)) td.

(** A lookup under [topics_mutex_]; [missing] is the answer without the topic. *)
Definition lookup_step (topic : TopicName) (missing : answer) (sh : shared)
    : pc * option answer * shared :=
  if names_locked sh then (Idle, None, sh)
  else match names sh !! topic with
       | None => (Idle, Some missing, sh)
       | Some a => (Located a, None, sh)
       end.

(** The start of a call. *)
Definition first_step (e : store_event) (sh : shared) : pc * option answer * shared :=
  match e with
  | EvCreate topic =>
      if names_locked sh then (Idle, None, sh)
      else match names sh !! topic with
           | Some _ => (Idle, Some (AFlag false), sh)
           | None => (Idle, Some (AFlag true), allocate topic sh)
           end
  | EvDelete topic =>
      if names_locked sh then (Idle, None, sh)
      else match names sh !! topic with
           | None => (Idle, Some (AFlag false), sh)
           | Some a => (Erased, None, erase_topic topic a sh)
           end
  | EvPublish topic _ _ _ _ =>
      if names_locked sh then (Idle, None, sh)
      else match names sh !! topic with
           | Some a => (Located a, None, sh)
           | None => (Located (next_addr sh), None, allocate topic sh)
           end
  | EvPull topic _ _ _ _ _ => lookup_step topic (AMessages []) sh
  | EvAck topic _ _ _ => lookup_step topic (AFlag false) sh
  | EvRetry topic _ | EvExpire topic _ => lookup_step topic ADone sh
  | EvPullDlq topic max =>
      match sh_dlq sh !! MakeDlqName topic with
      | None => (Idle, Some (AMessages []), sh)
      | Some dlq =>
          let count := Z.to_nat (Z.min max (zlen dlq)) in
          (Idle, Some (AMessages (take count dlq)),
            set_sh_dlq (<[MakeDlqName topic := drop count dlq]> (sh_dlq sh)) sh)
      end
  end.

(** The step on the topic at [a] of a call that has located it; a thread that
    waits for the topic's mutex stays where it is. *)
Definition located_step (i a : nat) (e : store_event) (td : TopicData B) (sh : shared)
    : pc * option answer * shared :=
  let free := bool_decide (owner sh !! a = None) in
  match e with
  | EvPublish _ _ _ _ _ =>
      (Assigned a (next_msg_id td), None,
        set_heap a (with_next (u64 (next_msg_id td + 1)) td) sh)
  | EvPull _ _ _ _ _ _ =>
      if free then (Draining a, None, set_owner (<[a := i]> (owner sh)) sh)
      else (Located a, None, sh)
  | EvAck _ consumer mid g =>
      if free then
        let '(ok, td') := ack_topic consumer mid g td in
        (Idle, Some (AFlag ok), set_heap a td' sh)
      else (Located a, None, sh)
  | EvRetry _ s =>
      if free then (Scanning a (scan_order s td), None, set_owner (<[a := i]> (owner sh)) sh)
      else (Located a, None, sh)
  | EvExpire _ now =>
      if free then (Idle, Some ADone, set_heap a (ExpireTopicMessages now td) sh)
      else (Located a, None, sh)
  | EvCreate _ | EvDelete _ | EvPullDlq _ _ => (Located a, None, sh)
  end.

(** One step of a scan. *)
Definition scan_step (a : nat) (s : scan)
    (consumers : list (string * list (MessageId * PendingMessage))) (td : TopicData B) (sh : shared)
    : pc * option answer * shared :=
  match consumers with
  | (key, entry :: entries) :: consumers =>
      let '(queue, dlq) :=
        retry_one (sh_max_retry sh) (sh_timeout sh) (scan_now s) (scan_now_ms s)
          (MakeDlqName (td_topic_name td)) (retry_queue td, sh_dlq sh) entry in
      (Scanning a ((key, entries) :: consumers), None,
        set_sh_dlq dlq (set_heap a (with_queue queue td) sh))
  | (key, []) :: consumers =>
      (Scanning a consumers, None, set_heap a (erase_timed_out (sh_timeout sh) s key td) sh)
  | [] =>
      (Idle, Some ADone,
        set_owner (delete a (owner sh))
          (set_heap a (with_pending (drop_empty (pending_acks td)) td) sh))
  end.

(** One step of the [i]-th thread's call, which answers when it returns; [None]
    is an access to a topic that has been freed. *)
Definition call_step (i : nat) (e : store_event) (p : pc) (sh : shared)
    : option (pc * option answer * shared) :=
  match p, e with
  | Idle, _ => Some (first_step e sh)
  | Located a, _ => td ← heap sh !! a; Some (located_step i a e td sh)
  | Assigned a id, EvPublish _ payload ttl now1 now2 =>
      td ← heap sh !! a;
      let '((ok, _), td') := publish_topic payload ttl now1 now2 (with_next id td) in
      Some (Idle, Some (APublish ok id), set_heap a (with_next (next_msg_id td) td') sh)
  | Draining a, EvPull _ _ _ _ _ _ =>
      td ← heap sh !! a;
      let '(more, td') := drain_step td in
      Some (if more then Draining a else Drained a, None, set_heap a td' sh)
  | Drained a, EvPull _ consumer max g now steady =>
      td ← heap sh !! a;
      let '(result, td') := pull_drained consumer max g now steady td in
      Some (Idle, Some (AMessages result), set_owner (delete a (owner sh)) (set_heap a td' sh))
  | Scanning a consumers, EvRetry _ s =>
      td ← heap sh !! a; Some (scan_step a s consumers td sh)
  | Erased, EvDelete topic => Some (Idle, Some (AFlag true), erase_dlq topic sh)
  | _, _ => Some (p, None, sh)
  end.

(** A thread: the calls still to return, the first of them at [pc]. *)
Record thread := mkThread { todo : list store_event; at_pc : pc }.

Record config := mkConfig { threads : list thread; memory : shared }.

Definition init (programs : list (list store_event)) (buffer_size max_retry timeout : Z) : config :=
  mkConfig ((λ calls, mkThread calls Idle) <$> programs) (shared_new buffer_size max_retry timeout).

(** The [i]-th thread makes a step: the call that returned, with its answer. *)
Definition config_step (i : nat) (c : config)
    : option (list (nat * store_event * answer) * config) :=
  match threads c !! i with
  | Some (mkThread (e :: calls) p) =>
      '(p', ans, sh') ← call_step i e p (memory c);
      match ans with
      | None => Some ([], mkConfig (<[i := mkThread (e :: calls) p']> (threads c)) sh')
      | Some a => Some ([(i, e, a)], mkConfig (<[i := mkThread calls p']> (threads c)) sh')
      end
  | _ => Some ([], c)
  end.

(** The calls in the order in which they return. *)
Fixpoint exec (schedule : list nat) (c : config)
    : option (list (nat * store_event * answer) * config) :=
  match schedule with
  | [] => Some ([], c)
  | i :: schedule =>
      '(hist, c) ← config_step i c;
      '(hist', c) ← exec schedule c;
      Some (hist ++ hist', c)
  end.
End concurrent.

#[export] Instance answer_eq_dec : EqDecision answer.
Proof. solve_decision. Defined.

Definition steady_zero : nat -> Z := λ _, 0.

(** Two threads publish to a topic, a third one pulls twice. *)
Definition two_producers : list (list store_event) :=
  [[EvPublish "t" [Byte.x61] 0 0 0]; [EvPublish "t" [Byte.x62] 0 0 0];
   [EvPull "t" "s" 10 false 0 steady_zero; EvPull "t" "s" 10 false 0 steady_zero]].

(** A thread deletes the topic it has published to, another one pulls. *)
Definition pull_and_delete : list (list store_event) :=
  [[EvPublish "t" [Byte.x61] 0 0 0; EvDelete "t"]; [EvPull "t" "s" 10 false 0 steady_zero]].

(** The answers of the calls one after the other. *)
Fixpoint answers_from (st : MemoryMessageStore SpscRingBuffer) (evs : list store_event)
    : list answer :=
  match evs with [] => [] | e :: evs => store_answer st e :: answers_from (store_step st e) evs end.

(** Trying every order. *)
Lemma no_order st calls answers :
  forallb (λ evs, negb (bool_decide (answers_from st evs ≡ₚ answers))) (permutations calls) = true ->
  forall evs, evs ≡ₚ calls -> ~ answers_from st evs ≡ₚ answers.
Proof.
  intros Hall evs Hevs Heq. symmetry in Hevs. apply permutations_Permutation in Hevs.
  rewrite forallb_forall in Hall. apply list_elem_of_In, Hall in Hevs.
  by rewrite bool_decide_true in Hevs.
Qed.

(** ** Properties *)

(** C15: both conditions are needed.  With two publishing threads a message can
    be lost: the first one takes its identifier, the second one publishes, a
    consumer pulls that message and moves past both identifiers, and the first
    one's message, accepted afterwards, is never delivered to it; no order of the
    four calls explains the answers.  With a deletion a pull that has looked the
    topic up works on freed memory. *)
Theorem store_races :
  (exists schedule hist cfg,
     exec (B := SpscRingBuffer) schedule (init two_producers 200 3 5000) = Some (hist, cfg) /\
     hist.*2 = [APublish true 2; AMessages [mkStoredMessage 2 "" [Byte.x62] 0 0 0];
                APublish true 1; AMessages []] /\
     forall evs, evs ≡ₚ concat two_producers ->
       ~ answers_from (MemoryMessageStore_new 200 3 5000) evs ≡ₚ hist.*2) /\
  (exists schedule, exec (B := SpscRingBuffer) schedule (init pull_and_delete 200 3 5000) = None).
Proof.
  split.
  - exists [0; 0; 1; 1; 1; 2; 2; 2; 2; 2; 0; 2; 2; 2; 2; 2]%nat. eexists _, _.
    split; [vm_compute; reflexivity|]. split; [reflexivity|]. apply no_order.
    vm_compute. reflexivity.
  - exists [0; 0; 0; 1; 0; 1]%nat. vm_compute. reflexivity.
Qed.

(** A publish of two messages while one pulls; the ring has room for one. *)
Definition pull_while_publishing : list (list store_event) :=
  [[EvPublish "t" [Byte.x61] 0 0 0; EvPublish "t" [Byte.x62] 0 0 0];
   [EvPull "t" "s" 10 false 0 steady_zero]].

(** Two messages that are not retried time out; another thread reads the dead
    letters. *)
Definition scan_while_reading : list (list store_event) :=
  [[EvPublish "t" [Byte.x61] 0 0 0; EvPublish "t" [Byte.x62] 0 0 0;
    EvPull "t" "s" 10 false 0 steady_zero;
    EvRetry "t" (mkScan key_order key_order 10000000000 0)];
   [EvPullDlq "t" 10; EvPullDlq "t" 10]].

(** A pull and a retry scan are not atomic.  A publish can use the room that the
    first [Pop]s of a pull have made, and be seen by the same pull; a reader of the
    dead letters can see a scan half done.  No order of the calls explains the
    answers. *)
Theorem calls_not_atomic :
  (exists schedule hist cfg,
     exec (B := SpscRingBuffer) schedule (init pull_while_publishing 40 3 5000) = Some (hist, cfg) /\
     hist.*2 = [APublish true 1; APublish true 2;
       AMessages [mkStoredMessage 1 "" [Byte.x61] 0 0 0; mkStoredMessage 2 "" [Byte.x62] 0 0 0]] /\
     forall evs, evs ≡ₚ concat pull_while_publishing ->
       ~ answers_from (MemoryMessageStore_new 40 3 5000) evs ≡ₚ hist.*2) /\
  (exists schedule hist cfg,
     exec (B := SpscRingBuffer) schedule (init scan_while_reading 200 0 5000) = Some (hist, cfg) /\
     drop 3 hist.*2 = [AMessages [mkStoredMessage 2 "" [Byte.x62] 0 0 0]; ADone;
       AMessages [mkStoredMessage 1 "" [Byte.x61] 0 0 0]] /\
     forall evs, evs ≡ₚ concat scan_while_reading ->
       ~ answers_from (MemoryMessageStore_new 200 0 5000) evs ≡ₚ hist.*2).
Proof.
  split.
  - exists ([0; 0; 0; 1; 1; 1; 0; 0; 0] ++ replicate 3 1)%nat. eexists _, _.
    split; [vm_compute; reflexivity|]. split; [reflexivity|]. apply no_order.
    vm_compute. reflexivity.
  - exists (replicate 6 0 ++ replicate 6 0 ++ [0; 0; 0; 1] ++ replicate 4 0 ++ [1])%nat. eexists _, _.
    split; [vm_compute; reflexivity|]. split; [reflexivity|]. apply no_order.
    vm_compute. reflexivity.
Qed.
