(* ===== verification/StorePieces.v ===== *)
(** * The store between several threads: the pieces of the calls

    The atomic pieces that the steps of [StoreConcurrent] amount to, and what the
    operations on a topic do not look at: a publish goes on at the topic's front,
    its ring buffer and next identifier, while the holder of the topic's mutex is
    at work. *)

From S2P Require Import Prelude Types RingBuffer Store StoreSpec StoreInv StoreProps StoreConcurrent.
#[local] Open Scope Z_scope.

(** ** Pieces *)

(** A whole call, or a part of one: the topic a publish finds missing, one
    iteration of the draining of a pull, one pending message of a scan. *)
Inductive piece :=
  | Whole (e : store_event)
  | NewTopic (topic : TopicName)
  | DrainOne (topic : TopicName)
  | ScanOne (topic : TopicName) (s : scan) (key : string) (id : MessageId).

Definition event_topic (e : store_event) : TopicName :=
  match e with
  | EvCreate t | EvDelete t | EvPublish t _ _ _ _ | EvPull t _ _ _ _ _ | EvAck t _ _ _
  | EvPullDlq t _ | EvRetry t _ | EvExpire t _ => t
  end.

Section pieces.
Context {B : Type} `{FifoBuffer B}.

(** One pending message of a scan, all at once: it is taken off and put where the
    scan puts it. *)
Definition scan_one (max_retry timeout : Z) (s : scan) (key : string) (id : MessageId)
    (dlq : gmap TopicName (list StoredMessage)) (td : TopicData B)
    : gmap TopicName (list StoredMessage) * TopicData B :=
  match pending_of (pending_acks td) key !! id with
  | None => (dlq, td)
  | Some p =>
      let '(queue, dlq) := retry_one max_retry timeout (scan_now s) (scan_now_ms s)
        (MakeDlqName (td_topic_name td)) (retry_queue td, dlq) (id, p) in
      let pending_map := pending_of (pending_acks td) key in
      (dlq, with_pending
         (<[key := if timed_out timeout (scan_now s) p then delete id pending_map else pending_map]>
            (pending_acks td)) (with_queue queue td))
  end.

(** One iteration of the loop of [DrainRingBuffer]. *)
Definition drain_one (td : TopicData B) : TopicData B :=
  let '(ring, log) := drain_ring 1 (ring_buffer td) (message_log td) in
  mkTopicData (td_topic_name td) ring log (retry_queue td) (subscriber_offsets td)
    (group_offsets td) (pending_acks td) (next_msg_id td).

Definition piece_step (st : MemoryMessageStore B) (p : piece) : MemoryMessageStore B :=
  match p with
  | Whole e => store_step st e
  | NewTopic topic => (CreateTopic topic st).2
  | DrainOne topic =>
      match topics_ st !! topic with
      | Some td => with_topics (insert topic (drain_one td)) st
      | None => st
      end
  | ScanOne topic s key id =>
      match topics_ st !! topic with
      | Some td =>
          let '(dlq, td) := scan_one (max_retry_count_ st) (pending_timeout_ms_ st) s key id
            (dlq_storage_ st) td in
          with_dlq dlq (with_topics (insert topic td) st)
      | None => st
      end
  end.

Definition piece_run (st : MemoryMessageStore B) (ps : list piece) : MemoryMessageStore B :=
  foldl piece_step st ps.

(** The pieces that the next step of a call amounts to. *)
Definition step_pieces (e : store_event) (p : pc) (sh : shared (B := B)) : list piece :=
  match p, e with
  | Idle, EvDelete _ => []
  | Idle, EvPullDlq _ _ => [Whole e]
  | Idle, EvCreate _ => if names_locked sh then [] else [Whole e]
  | Idle, EvPublish topic _ _ _ _ =>
      if names_locked sh then []
      else match names sh !! topic with Some _ => [] | None => [NewTopic topic] end
  | Idle, _ =>
      if names_locked sh then []
      else match names sh !! event_topic e with Some _ => [] | None => [Whole e] end
  | Located a, EvAck _ _ _ _ | Located a, EvExpire _ _ =>
      if bool_decide (owner sh !! a = None) then [Whole e] else []
  | Assigned _ _, EvPublish _ _ _ _ _ => [Whole e]
  | Draining a, EvPull topic _ _ _ _ _ =>
      match heap sh !! a with
      | Some td => if (drain_step td).1 then [DrainOne topic] else [Whole e]
      | None => []
      end
  | Scanning _ ((key, (id, _) :: _) :: _), EvRetry topic s => [ScanOne topic s key id]
  | Scanning _ [], EvRetry _ _ => [Whole e]
  | _, _ => []
  end.

(** ** What the operations on a topic do not look at *)

(** Another ring buffer and next identifier. *)
Definition with_front (ring : B) (n : MessageId) (td : TopicData B) : TopicData B :=
  mkTopicData (td_topic_name td) ring (message_log td) (retry_queue td) (subscriber_offsets td)
    (group_offsets td) (pending_acks td) n.

(** The next identifier, or the ring buffer as well, plays no role. *)
Definition next_free {R} (f : TopicData B -> R * TopicData B) : Prop :=
  forall k td, f (with_next k td) = ((f td).1, with_next k (f td).2).
Definition front_free {R} (f : TopicData B -> R * TopicData B) : Prop :=
  forall r k td, f (with_front r k td) = ((f td).1, with_front r k (f td).2).

Lemma with_next_id (td : TopicData B) : with_next (next_msg_id td) td = td.
Proof. by destruct td. Qed.

Lemma front_next {R} (f : TopicData B -> R * TopicData B) : front_free f -> next_free f.
Proof.
  intros Hf k td. pose proof (Hf (ring_buffer td) (next_msg_id td) td) as H0.
  pose proof (Hf (ring_buffer td) k td) as Hk.
  assert (with_front (ring_buffer td) (next_msg_id td) td = td) as Heq by by destruct td.
  rewrite Heq in H0. change (with_next k td) with (with_front (ring_buffer td) k td). rewrite Hk.
  f_equal. apply (f_equal (λ r, ring_buffer r.2)) in H0. cbn in H0. unfold with_next, with_front.
  by rewrite <- H0.
Qed.

Lemma next_free_keeps {R} (f : TopicData B -> R * TopicData B) td :
  next_free f -> next_msg_id (f td).2 = next_msg_id td.
Proof.
  intros Hf. specialize (Hf (next_msg_id td) td). rewrite with_next_id in Hf.
  apply (f_equal (λ r, next_msg_id r.2)) in Hf. exact Hf.
Qed.

Lemma front_free_keeps {R} (f : TopicData B -> R * TopicData B) td :
  front_free f -> ring_buffer (f td).2 = ring_buffer td /\ next_msg_id (f td).2 = next_msg_id td.
Proof.
  intros Hf. specialize (Hf (ring_buffer td) (next_msg_id td) td).
  assert (with_front (ring_buffer td) (next_msg_id td) td = td) as Heq by by destruct td.
  rewrite Heq in Hf. rewrite Hf. done.
Qed.

Lemma pull_drained_front consumer max g now steady :
  front_free (pull_drained consumer max g now steady).
Proof.
  intros r k [name ring log queue subs groups acks next].
  unfold pull_drained, offset_of, with_front. cbn.
  destruct (pull_log _ _ _ _ _ _ _ _) as [[result offset] acks1].
  by destruct (pull_retry _ _ _ _ _ _ _) as [[result' queue'] acks2].
Qed.

Lemma drain_next_free : next_free drain_step.
Proof. intros k td. unfold drain_step. cbn. by destruct (fb_pop _). Qed.

Lemma ack_next_free consumer mid g : next_free (ack_topic consumer mid g).
Proof.
  intros k td. unfold ack_topic. cbn [pending_acks with_next].
  by destruct (default ∅ _ !! mid).
Qed.

Lemma scan_one_next_free max_retry timeout s key id dlq :
  next_free (scan_one max_retry timeout s key id dlq).
Proof.
  intros k td. unfold scan_one. cbn [pending_acks retry_queue td_topic_name with_next].
  destruct (pending_of _ key !! id) as [p|]; [|done].
  by destruct (retry_one _ _ _ _ _ _ _) as [queue dlq'].
Qed.

Definition retry_step (max_retry timeout : Z) (s : scan) (dlq : gmap TopicName (list StoredMessage))
    (td : TopicData B) : gmap TopicName (list StoredMessage) * TopicData B :=
  let '(td', dlq') := ProcessPendingRetries max_retry timeout (scan_keys s) (scan_ids s)
    (scan_now s) (scan_now_ms s) td dlq in (dlq', td').

Lemma retry_next_free max_retry timeout s dlq : next_free (retry_step max_retry timeout s dlq).
Proof.
  intros k td. unfold retry_step, ProcessPendingRetries.
  cbn [pending_acks retry_queue td_topic_name with_next].
  by destruct (foldl _ _ _) as [acks [queue dlq']].
Qed.

Lemma expire_next_free now : next_free (λ td, (tt, ExpireTopicMessages now td)).
Proof. done. Qed.

(** ** The pieces of a pull *)

Lemma pull_topic_drained consumer max g now steady td :
  pull_topic consumer max g now steady td =
  pull_drained consumer max g now steady (DrainRingBuffer td).
Proof. done. Qed.

Lemma drain_step_one td : (drain_step td).2 = drain_one td.
Proof.
  unfold drain_step, drain_one. cbn [drain_ring].
  destruct (fb_pop (ring_buffer td)) as [[buf|] ring]; [|done]. by destruct (parse_record buf).
Qed.

Lemma drain_empty td : (drain_step td).1 = false -> DrainRingBuffer td = (drain_step td).2.
Proof.
  unfold drain_step, DrainRingBuffer. cbn [drain_ring]. destruct (fb_pop (ring_buffer td)) as [[buf|] ring];
    [by rewrite bool_decide_true|done].
Qed.

(** A pull that finds the ring buffer empty. *)
Definition pull_last (consumer : string) (max : Z) (g : bool) (now : Z) (steady : nat -> Z)
    (td : TopicData B) : (bool * list StoredMessage) * TopicData B :=
  let '(more, td) := drain_step td in
  let '(result, td) := pull_drained consumer max g now steady td in ((more, result), td).

Lemma pull_last_unfold consumer max g now steady td :
  pull_last consumer max g now steady td =
  (((drain_step td).1, (pull_drained consumer max g now steady (drain_step td).2).1),
   (pull_drained consumer max g now steady (drain_step td).2).2).
Proof.
  unfold pull_last. destruct (drain_step td) as [more td1]. cbn [fst snd].
  by destruct (pull_drained _ _ _ _ _ td1).
Qed.

Lemma pull_last_next_free consumer max g now steady : next_free (pull_last consumer max g now steady).
Proof.
  intros k td. unfold pull_last. rewrite drain_next_free. destruct (drain_step td) as [more td1].
  cbn [fst snd]. rewrite (front_next _ (pull_drained_front _ _ _ _ _)).
  by destruct (pull_drained _ _ _ _ _ td1).
Qed.

Lemma pull_last_spec consumer max g now steady td : (drain_step td).1 = false ->
  pull_topic consumer max g now steady td =
  ((pull_last consumer max g now steady td).1.2, (pull_last consumer max g now steady td).2).
Proof.
  intros Hd. rewrite pull_topic_drained, drain_empty by done. unfold pull_last.
  destruct (drain_step td) as [more td1]. cbn [snd]. by destruct (pull_drained _ _ _ _ _ td1).
Qed.

(** ** The pieces of a scan *)

(** The pending messages of a consumer that a scan has not treated: those not
    timed out, and those still to come. *)
Definition untreated (timeout : Z) (s : scan) (es : list (MessageId * PendingMessage))
    (pm : gmap MessageId PendingMessage) : gmap MessageId PendingMessage :=
  filter (λ e, negb (timed_out timeout (scan_now s) e.2) || bool_decide (e.1 ∈ es.*1) = true) pm.

Lemma lookup_untreated timeout s es pm id :
  untreated timeout s es pm !! id =
  p ← pm !! id; if negb (timed_out timeout (scan_now s) p) || bool_decide (id ∈ es.*1)
                then Some p else None.
Proof.
  unfold untreated. rewrite map_lookup_filter. destruct (pm !! id) as [p|]; [|done]. cbn.
  destruct (negb _ || _); [by rewrite option_guard_True|by rewrite option_guard_False].
Qed.

Lemma untreated_all timeout s order pm : untreated timeout s (entries order pm) pm = pm.
Proof.
  apply map_eq. intros id. rewrite lookup_untreated. destruct (pm !! id) as [p|] eqn:Hp; [|done]. cbn.
  rewrite bool_decide_true; [by rewrite orb_true_r|].
  apply list_elem_of_fmap. exists (id, p). split; [done|]. by apply elem_of_entries.
Qed.

Lemma untreated_none timeout s pm :
  untreated timeout s [] pm =
  foldl (λ m id, delete id m) pm
    (filter (λ e : MessageId * PendingMessage, timed_out timeout (scan_now s) e.2)
       (entries (scan_ids s) pm)).*1.
Proof.
  apply map_eq. intros id. fold (remaining timeout (scan_now s) (scan_ids s) pm).
  rewrite lookup_untreated, lookup_remaining. destruct (pm !! id) as [p|]; [|done]. cbn.
  rewrite orb_false_r. by destruct (timed_out _ _ p).
Qed.

Lemma untreated_next timeout s id p es pm : pm !! id = Some p -> id ∉ es.*1 ->
  untreated timeout s es pm =
  if timed_out timeout (scan_now s) p then delete id (untreated timeout s ((id, p) :: es) pm)
  else untreated timeout s ((id, p) :: es) pm.
Proof.
  intros Hp Hid. apply map_eq. intros i. destruct (decide (i = id)) as [->|Hne].
  - rewrite lookup_untreated, Hp. cbn. rewrite bool_decide_false by done.
    destruct (timed_out timeout (scan_now s) p) eqn:Ht; [by rewrite lookup_delete_eq|].
    rewrite lookup_untreated, Hp. cbn. by rewrite Ht.
  - transitivity (untreated timeout s ((id, p) :: es) pm !! i).
    + rewrite !lookup_untreated. destruct (pm !! i) as [q|]; [|done]. cbn.
      rewrite (bool_decide_ext (i ∈ id :: es.*1) (i ∈ es.*1)); [done|].
      rewrite elem_of_cons. naive_solver.
    + destruct (timed_out _ _ p); [by rewrite lookup_delete_ne|done].
Qed.

(** A scan at [consumers] of a topic. *)
Record scan_ok (timeout : Z) (s : scan) (td : TopicData B)
    (consumers : list (string * list (MessageId * PendingMessage))) : Prop := {
  so_keys : NoDup consumers.*1;
  so_rest : forall key es, (key, es) ∈ consumers -> exists pm, pending_acks td !! key = Some pm /\
    es `suffix_of` entries (scan_ids s) pm;
  so_full : forall key es, (key, es) ∈ tail consumers ->
    es = entries (scan_ids s) (pending_of (pending_acks td) key);
  so_done : forall key id p, pending_of (pending_acks td) key !! id = Some p ->
    timed_out timeout (scan_now s) p = true -> key ∈ consumers.*1;
}.

Lemma scan_ok_start timeout s td : scan_ok timeout s td (scan_order s td).
Proof.
  assert (forall key es, (key, es) ∈ scan_order s td -> exists pm,
    pending_acks td !! key = Some pm /\ es = entries (scan_ids s) pm) as Hin.
  { intros key es ([k pm] & [= -> ->] & Hpm)%list_elem_of_fmap.
    apply elem_of_entries in Hpm. by exists pm. }
  assert ((scan_order s td).*1 = (entries (scan_keys s) (pending_acks td)).*1) as Hkeys.
  { unfold scan_order. by rewrite <- list_fmap_compose. }
  split.
  - rewrite Hkeys. apply NoDup_entries_keys.
  - intros key es (pm & Hpm & ->)%Hin. by exists pm.
  - intros key es Hes. assert ((key, es) ∈ scan_order s td) as (pm & Hpm & ->)%Hin.
    { destruct (scan_order s td); [done|by right]. }
    unfold pending_of. by rewrite Hpm.
  - intros key id p Hp _. rewrite Hkeys. unfold pending_of in Hp.
    destruct (pending_acks td !! key) as [pm|] eqn:Hk; [|cbn in Hp; by rewrite lookup_empty in Hp].
    apply list_elem_of_fmap. exists (key, pm). split; [done|]. by apply elem_of_entries.
Qed.

Lemma scan_ok_acks timeout s td td' consumers : pending_acks td' = pending_acks td ->
  scan_ok timeout s td consumers -> scan_ok timeout s td' consumers.
Proof. intros Ha [Hk Hr Hf Hd]. split; [done|..]; by rewrite Ha. Qed.

(** Nothing is treated yet of a consumer that the scan comes to. *)
Lemma untreated_full timeout s (td : TopicData B) key pm : pending_acks td !! key = Some pm ->
  with_pending (<[key := untreated timeout s (entries (scan_ids s) pm)
                          (pending_of (pending_acks td) key)]> (pending_acks td)) td = td.
Proof.
  intros Hpm. unfold pending_of. rewrite Hpm. change (default ∅ (Some pm)) with pm.
  rewrite untreated_all, insert_id by done. by destruct td.
Qed.

Lemma untreated_start timeout s (td : TopicData B) key es consumers :
  scan_order s td = (key, es) :: consumers ->
  with_pending (<[key := untreated timeout s es (pending_of (pending_acks td) key)]>
    (pending_acks td)) td = td.
Proof.
  intros Horder. assert ((key, es) ∈ scan_order s td) as Hin by (rewrite Horder; by left).
  apply list_elem_of_fmap in Hin as ([k pm] & [= -> ->] & Hpm). apply elem_of_entries in Hpm.
  by apply untreated_full.
Qed.

(** The first message of the first consumer. *)
Lemma scan_ok_entry timeout s td key id p es consumers :
  scan_ok timeout s td ((key, (id, p) :: es) :: consumers) ->
  scan_ok timeout s td ((key, es) :: consumers) /\
  exists pm, pending_acks td !! key = Some pm /\ pm !! id = Some p /\ id ∉ es.*1.
Proof.
  intros [Hk Hr Hf Hd]. destruct (Hr key ((id, p) :: es)) as (pm & Hpm & pre & Heq); [by left|].
  split; [split|].
  - done.
  - intros key' es' [[= -> ->]|Hin]%elem_of_cons; [|apply Hr; by right].
    exists pm. split; [done|]. exists (pre ++ [(id, p)]). by rewrite <- app_assoc.
  - exact Hf.
  - exact Hd.
  - exists pm. split; [done|]. split.
    + apply (elem_of_entries (scan_ids s)). rewrite Heq, elem_of_app. right. by left.
    + pose proof (NoDup_entries_keys (scan_ids s) pm) as Hnd. rewrite Heq, fmap_app in Hnd.
      apply NoDup_app in Hnd as (_ & _ & Hnd). cbn in Hnd. by apply NoDup_cons in Hnd as [? _].
Qed.

(** The end of the first consumer. *)
Lemma scan_ok_consumer timeout s td key consumers :
  scan_ok timeout s td ((key, []) :: consumers) ->
  scan_ok timeout s (erase_timed_out timeout s key td) consumers /\
  erase_timed_out timeout s key td =
    with_pending (<[key := untreated timeout s [] (pending_of (pending_acks td) key)]>
      (pending_acks td)) td.
Proof.
  intros [Hk Hr Hf Hd].
  assert (erase_timed_out timeout s key td =
    with_pending (<[key := untreated timeout s [] (pending_of (pending_acks td) key)]>
      (pending_acks td)) td) as Heq.
  { unfold erase_timed_out. by rewrite untreated_none. }
  split; [|done]. rewrite Heq. cbn in Hk. apply NoDup_cons in Hk as [Hkey Hk].
  assert (forall key' es, (key', es) ∈ consumers -> key' <> key) as Hne.
  { intros key' es Hin ->. apply Hkey. by apply (list_elem_of_fmap_2 fst) in Hin. }
  split; cbn [pending_acks with_pending].
  - done.
  - intros key' es Hin. rewrite lookup_insert_ne by (symmetry; by eapply Hne). apply Hr. by right.
  - intros key' es Hin. assert ((key', es) ∈ consumers) as Hin' by (destruct consumers; [done|by right]).
    rewrite pending_of_set, decide_False by by eapply Hne. apply Hf. done.
  - intros key' id p. rewrite pending_of_set. case_decide as Hk'.
    + intros Hp Ht. rewrite lookup_untreated in Hp.
      destruct (pending_of (pending_acks td) key !! id) as [q|]; [|done]. cbn in Hp.
      destruct (timed_out timeout (scan_now s) q) eqn:Hq; [done|]. cbn in Hp. congruence.
    + intros Hp Ht. pose proof (Hd key' id p Hp Ht) as Hin. cbn in Hin.
      by apply elem_of_cons in Hin as [->|Hin].
Qed.

Lemma untreated_consumer timeout s td key key' es' consumers :
  scan_ok timeout s td ((key, []) :: (key', es') :: consumers) ->
  let td1 := erase_timed_out timeout s key td in
  with_pending (<[key' := untreated timeout s es' (pending_of (pending_acks td1) key')]>
    (pending_acks td1)) td1 = td1.
Proof.
  intros Hscan. cbv zeta. pose proof Hscan as [Hk Hr Hf _].
  apply scan_ok_consumer in Hscan as [_ ->].
  destruct (Hr key' es') as (pm & Hpm & _); [right; by left|].
  rewrite (Hf key' es') by by left. unfold pending_of at 1. rewrite Hpm.
  change (default ∅ (Some pm)) with pm. apply untreated_full.
  cbn [pending_acks with_pending]. rewrite lookup_insert_ne; [done|]. intros ->.
  cbn in Hk. apply NoDup_cons in Hk as [Hk _]. apply Hk. by left.
Qed.

(** The next message, with what is not treated yet. *)
Lemma scan_one_view max_retry timeout s key id p es dlq td pm :
  pending_acks td !! key = Some pm -> pm !! id = Some p -> id ∉ es.*1 ->
  scan_one max_retry timeout s key id dlq
    (with_pending (<[key := untreated timeout s ((id, p) :: es) (pending_of (pending_acks td) key)]>
       (pending_acks td)) td) =
  let '(queue, dlq') := retry_one max_retry timeout (scan_now s) (scan_now_ms s)
    (MakeDlqName (td_topic_name td)) (retry_queue td, dlq) (id, p) in
  (dlq', with_pending (<[key := untreated timeout s es (pending_of (pending_acks td) key)]>
           (pending_acks td)) (with_queue queue td)).
Proof.
  intros Hpm Hp Hid.
  assert (pending_of (pending_acks td) key = pm) as Hof by (unfold pending_of; by rewrite Hpm).
  unfold scan_one. cbn [pending_acks with_pending td_topic_name retry_queue].
  rewrite pending_of_set, decide_True, Hof, lookup_untreated, Hp by done. cbn [mbind option_bind].
  rewrite bool_decide_true, orb_true_r by by left.
  destruct (retry_one _ _ _ _ _ _ _) as [queue dlq']. f_equal.
  rewrite (untreated_next timeout s id p es pm Hp Hid), insert_insert_eq. done.
Qed.

(** A scan that finds nothing timed out only drops the consumers without
    pending messages. *)
Lemma retry_nothing max_retry timeout s dlq td :
  (forall key id p, pending_of (pending_acks td) key !! id = Some p ->
     timed_out timeout (scan_now s) p = false) ->
  retry_step max_retry timeout s dlq td = (dlq, with_pending (drop_empty (pending_acks td)) td).
Proof.
  intros Hnone. unfold retry_step, ProcessPendingRetries. rewrite retry_consumers_fold.
  assert (forall key pm, (key, pm) ∈ entries (scan_keys s) (pending_acks td) ->
    pending_acks td !! key = Some pm /\ remaining timeout (scan_now s) (scan_ids s) pm = pm) as Hin.
  { intros key pm Hpm%elem_of_entries. split; [done|]. apply map_eq. intros id.
    rewrite lookup_remaining. destruct (pm !! id) as [p|] eqn:Hp; [|done]. cbn.
    rewrite (Hnone key id p); [done|]. unfold pending_of. by rewrite Hpm. }
  assert (foldl (λ a e, <[e.1 := remaining timeout (scan_now s) (scan_ids s) e.2]> a)
    (pending_acks td) (entries (scan_keys s) (pending_acks td)) = pending_acks td) as ->.
  { revert Hin. induction (entries (scan_keys s) (pending_acks td)) as [|[key pm] es IH]; intros Hin;
      [done|]. cbn [foldl fst snd]. destruct (Hin key pm) as [Hk ->]; [by left|].
    rewrite insert_id by done. apply IH. intros k' pm' Hin'. apply Hin. by right. }
  assert (foldl (retry_one max_retry timeout (scan_now s) (scan_now_ms s)
    (MakeDlqName (td_topic_name td)) ) (retry_queue td, dlq)
    (scanned (scan_keys s) (scan_ids s) (pending_acks td)) = (retry_queue td, dlq)) as Hfold.
  { assert (forall id p, (id, p) ∈ scanned (scan_keys s) (scan_ids s) (pending_acks td) ->
      timed_out timeout (scan_now s) p = false) as Hall
      by (intros id p [key Hp]%elem_of_scanned; by eapply Hnone).
    revert Hall. generalize (scanned (scan_keys s) (scan_ids s) (pending_acks td)).
    intros es. induction es as [|[id p] es IH]; intros Hall; [done|].
    cbn [foldl]. unfold retry_one at 2. rewrite (Hall id p) by by left.
    apply IH. intros id' p' Hin'. apply (Hall id' p'). by right. }
  unfold scanned in Hfold. rewrite Hfold. by destruct td.
Qed.

(** ** The pieces of a call one after the other *)

Lemma drain_ring_fuel cap fuel1 fuel2 ring q log : fb_rep cap ring q ->
  (length q < fuel1)%nat -> (length q < fuel2)%nat ->
  drain_ring fuel1 ring log = drain_ring fuel2 ring log.
Proof.
  revert fuel2 ring q log. induction fuel1 as [|fuel1 IH]; intros fuel2 ring q log Hrep H1 H2; [lia|].
  destruct fuel2 as [|fuel2]; [lia|]. cbn [drain_ring].
  destruct (fb_pop_rep cap ring q Hrep) as (ring' & -> & Hrep'). unfold fifo_pop in *.
  destruct q as [|m q]; [done|]. cbn [length] in *. destruct (zlen m <=? kMaxPayloadSize); [|done].
  cbn [fst snd] in *. destruct (parse_record m); apply (IH _ _ q); by first [done|lia].
Qed.

(** Draining after a single pop. *)
Lemma drain_one_more cap (td : TopicData B) q : fb_rep cap (ring_buffer td) q ->
  (drain_step td).1 = true -> DrainRingBuffer (drain_step td).2 = DrainRingBuffer td.
Proof.
  intros Hrep. destruct (fb_pop_rep cap _ q Hrep) as (ring' & Hpop & Hrep').
  pose proof (fb_bound_rep cap _ _ Hrep) as Hb. pose proof (fb_bound_rep cap _ _ Hrep') as Hb'.
  unfold drain_step. rewrite Hpop. unfold fifo_pop in *.
  destruct q as [|m q]; [done|]. destruct (zlen m <=? kMaxPayloadSize); [|done].
  intros _. cbn [fst snd length] in *. unfold DrainRingBuffer at 2. cbn [drain_ring]. rewrite Hpop.
  assert (forall log, drain_ring (S (fb_bound ring')) ring' log =
    drain_ring (fb_bound (ring_buffer td)) ring' log) as Hfuel
    by (intros log; apply (drain_ring_fuel cap _ _ _ q); by first [done|lia]).
  unfold DrainRingBuffer. cbn [ring_buffer message_log snd td_topic_name retry_queue
    subscriber_offsets group_offsets pending_acks next_msg_id].
  rewrite Hfuel. by destruct (parse_record m).
Qed.

(** One pending message after the other. *)
Definition scan_all (max_retry timeout : Z) (s : scan) (l : list (string * MessageId))
    (r : gmap TopicName (list StoredMessage) * TopicData B)
    : gmap TopicName (list StoredMessage) * TopicData B :=
  foldl (λ r e, scan_one max_retry timeout s e.1 e.2 r.1 r.2) r l.

Lemma scan_all_entries max_retry timeout s key pm es dlq td :
  pending_acks td !! key = Some pm -> es `suffix_of` entries (scan_ids s) pm ->
  scan_all max_retry timeout s ((λ e, (key, e.1)) <$> es)
    (dlq, with_pending (<[key := untreated timeout s es pm]> (pending_acks td)) td) =
  let '(queue, dlq') := foldl (retry_one max_retry timeout (scan_now s) (scan_now_ms s)
    (MakeDlqName (td_topic_name td))) (retry_queue td, dlq) es in
  (dlq', with_pending (<[key := untreated timeout s [] pm]> (pending_acks td)) (with_queue queue td)).
Proof.
  intros Hpm. revert dlq td Hpm. induction es as [|[id p] es IH]; intros dlq td Hpm [pre Hsuf].
  { by destruct td. }
  assert (pm !! id = Some p /\ id ∉ es.*1) as [Hp Hid].
  { split.
    - apply (elem_of_entries (scan_ids s)). rewrite Hsuf, elem_of_app. right. by left.
    - pose proof (NoDup_entries_keys (scan_ids s) pm) as Hnd. rewrite Hsuf, fmap_app in Hnd.
      apply NoDup_app in Hnd as (_ & _ & Hnd). cbn in Hnd. by apply NoDup_cons in Hnd as [? _]. }
  pose proof (scan_one_view max_retry timeout s key id p es dlq td pm Hpm Hp Hid) as Hone.
  unfold pending_of in Hone. rewrite Hpm in Hone. change (default ∅ (Some pm)) with pm in Hone.
  unfold scan_all. cbn [fmap list_fmap foldl fst snd]. rewrite Hone.
  destruct (retry_one _ _ _ _ _ _ _) as [queue dlq1] eqn:Hretry.
  specialize (IH dlq1 (with_queue queue td) Hpm).
  cbn [td_topic_name with_queue retry_queue pending_acks] in IH. apply IH.
  exists (pre ++ [(id, p)]). by rewrite <- app_assoc.
Qed.

(** All that a scan goes through. *)
Definition to_scan (s : scan) (es : list (string * gmap MessageId PendingMessage))
    : list (string * MessageId) :=
  concat ((λ e, (λ e', (e.1, e'.1)) <$> entries (scan_ids s) e.2) <$> es).

Lemma scan_all_consumers max_retry timeout s es dlq td :
  NoDup es.*1 -> (forall key pm, (key, pm) ∈ es -> pending_acks td !! key = Some pm) ->
  scan_all max_retry timeout s (to_scan s es) (dlq, td) =
  let '(queue, dlq') := foldl (retry_one max_retry timeout (scan_now s) (scan_now_ms s)
    (MakeDlqName (td_topic_name td))) (retry_queue td, dlq)
    (concat ((λ e, entries (scan_ids s) e.2) <$> es)) in
  (dlq', with_pending (foldl (λ a e, <[e.1 := remaining timeout (scan_now s) (scan_ids s) e.2]> a)
           (pending_acks td) es) (with_queue queue td)).
Proof.
  revert dlq td. induction es as [|[key pm] es IH]; intros dlq td Hnd Hin; [by destruct td|].
  apply NoDup_cons in Hnd as [Hkey Hnd]. cbn [fst] in Hkey.
  assert (pending_acks td !! key = Some pm) as Hpm by (apply Hin; by left).
  unfold scan_all, to_scan. cbn [fmap list_fmap concat fst snd]. rewrite !foldl_app.
  pose proof (scan_all_entries max_retry timeout s key pm (entries (scan_ids s) pm) dlq td Hpm
    ltac:(done)) as Hfirst.
  pose proof (untreated_full timeout s td key pm Hpm) as Hfull.
  unfold pending_of in Hfull. rewrite Hpm in Hfull. change (default ∅ (Some pm)) with pm in Hfull.
  rewrite Hfull in Hfirst. unfold scan_all in Hfirst. rewrite Hfirst.
  destruct (foldl _ (retry_queue td, dlq) (entries (scan_ids s) pm)) as [queue dlq1].
  rewrite untreated_none. fold (remaining timeout (scan_now s) (scan_ids s) pm).
  apply (IH dlq1 (with_pending (<[key := remaining timeout (scan_now s) (scan_ids s) pm]>
    (pending_acks td)) (with_queue queue td))); [done|].
  intros key' pm' Hin'. cbn [pending_acks with_pending].
  rewrite lookup_insert_ne; [apply Hin; by right|]. intros ->. apply Hkey.
  by apply (list_elem_of_fmap_2 fst) in Hin'.
Qed.

(** After them a scan finds nothing timed out. *)
Lemma scan_all_retry max_retry timeout s dlq td :
  let r := scan_all max_retry timeout s (to_scan s (entries (scan_keys s) (pending_acks td)))
    (dlq, td) in
  retry_step max_retry timeout s r.1 r.2 = retry_step max_retry timeout s dlq td.
Proof.
  cbv zeta. rewrite scan_all_consumers.
  2: apply NoDup_entries_keys.
  2: by intros key pm ?%elem_of_entries.
  unfold retry_step at 2. unfold ProcessPendingRetries. rewrite retry_consumers_fold.
  destruct (foldl (retry_one _ _ _ _ _) _ _) as [queue dlq1]. cbn [fst snd].
  rewrite retry_nothing; [done|]. cbn [pending_acks with_pending].
  intros key id p Hp. rewrite pending_of_remaining, lookup_remaining in Hp.
  destruct (pending_of (pending_acks td) key !! id) as [q|]; [|done]. cbn in Hp.
  destruct (timed_out timeout (scan_now s) q) eqn:Hq; [done|]. congruence.
Qed.

Lemma piece_run_scan t s l st td : topics_ st !! t = Some td ->
  let r := scan_all (max_retry_count_ st) (pending_timeout_ms_ st) s l (dlq_storage_ st, td) in
  piece_run st ((λ e, ScanOne t s e.1 e.2) <$> l) = with_dlq r.1 (with_topics (insert t r.2) st).
Proof.
  revert st td. induction l as [|[key id] l IH]; intros st td Htd.
  { cbn. unfold with_dlq, with_topics. cbn. rewrite insert_id by done. by destruct st. }
  cbv zeta. unfold piece_run, scan_all. cbn [fmap list_fmap foldl fst snd piece_step]. rewrite Htd.
  destruct (scan_one _ _ _ _ _ _ _) as [dlq1 td1]. cbn [fst snd].
  unfold piece_run in IH. rewrite (IH _ td1); [|cbn; by rewrite lookup_insert_eq].
  cbn. unfold with_dlq, with_topics. cbn. by rewrite insert_insert_eq.
Qed.

(** The pieces of a call, if nothing comes between them, are the call. *)
Lemma pieces_uninterrupted st t :
  (forall payload ttl now1 now2, topics_ st !! t = None ->
     let e := EvPublish t payload ttl now1 now2 in
     piece_run st [NewTopic t; Whole e] = store_step st e /\
     store_answer (piece_run st [NewTopic t]) e = store_answer st e) /\
  (forall consumer max g now steady td cap q, topics_ st !! t = Some td ->
     fb_rep cap (ring_buffer td) q -> (drain_step td).1 = true ->
     let e := EvPull t consumer max g now steady in
     piece_run st [DrainOne t; Whole e] = store_step st e /\
     store_answer (piece_run st [DrainOne t]) e = store_answer st e) /\
  (forall s td, topics_ st !! t = Some td ->
     piece_run st (((λ e, ScanOne t s e.1 e.2) <$>
                      to_scan s (entries (scan_keys s) (pending_acks td))) ++ [Whole (EvRetry t s)]) =
     store_step st (EvRetry t s)).
Proof.
  split; [|split].
  - intros payload ttl now1 now2 Hnone. cbn. unfold Publish, CreateTopic. rewrite Hnone. cbn.
    rewrite lookup_insert_eq. change (default _ (Some ?td)) with td.
    destruct (publish_topic _ _ _ _ _) as [[ok id] td1]. cbn. split; [|done].
    unfold with_topics. cbn. by rewrite insert_insert_eq.
  - intros consumer max g now steady td cap q Htd Hrep Hmore. cbn. rewrite Htd. unfold Pull. cbn.
    rewrite lookup_insert_eq, Htd, !pull_topic_drained, <- drain_step_one, (drain_one_more cap td q Hrep Hmore).
    destruct (pull_drained _ _ _ _ _ _) as [result td1]. cbn. split; [|done].
    unfold with_topics. cbn. by rewrite insert_insert_eq.
  - intros s td Htd. unfold piece_run. rewrite foldl_app. fold (piece_run st
      ((λ e, ScanOne t s e.1 e.2) <$> to_scan s (entries (scan_keys s) (pending_acks td)))).
    rewrite (piece_run_scan t s _ st td Htd).
    pose proof (scan_all_retry (max_retry_count_ st) (pending_timeout_ms_ st) s (dlq_storage_ st) td)
      as Hscan. cbv zeta in Hscan.
    destruct (scan_all _ _ _ _ _) as [dlq1 td1]. cbn [fst snd foldl piece_step store_step] in *.
    unfold retry_topic. cbn [topics_ with_dlq with_topics max_retry_count_ pending_timeout_ms_
      dlq_storage_]. rewrite lookup_insert_eq, Htd. unfold retry_step in Hscan.
    destruct (ProcessPendingRetries _ _ _ _ _ _ td1 _) as [td2 dlq2].
    destruct (ProcessPendingRetries _ _ _ _ _ _ td _) as [td3 dlq3]. injection Hscan as -> ->.
    unfold with_dlq, with_topics. cbn. by rewrite insert_insert_eq.
Qed.
End pieces.
