(* ===== verification/StoreSimulation.v ===== *)
(** * The store between several threads: what holds in every reachable state

    The invariant of the threads, the atomic store that a state stands for, and
    that each kind of step preserves both. *)

From S2P Require Import Prelude Types RingBuffer Store StoreSpec StoreInv StoreProps.
From S2P Require Import StoreConcurrent StorePieces.
#[local] Open Scope Z_scope.

Section simulation.
Context {B : Type} `{FifoBuffer B}.

(** ** The invariant *)

Definition is_delete (e : store_event) : bool := match e with EvDelete _ => true | _ => false end.

Definition publishes (t : TopicName) (calls : list store_event) : Prop :=
  exists e, e ∈ calls /\ match e with EvPublish t' _ _ _ _ => t' = t | _ => False end.

(** No call deletes a topic, and no two threads publish to the same topic. *)
Record programs_ok (programs : list (list store_event)) : Prop := {
  po_delete : forall i calls, programs !! i = Some calls -> Forall (λ e, is_delete e = false) calls;
  po_single : forall i j calls1 calls2 t, programs !! i = Some calls1 -> programs !! j = Some calls2 ->
    publishes t calls1 -> publishes t calls2 -> i = j;
}.

Record shared_ok (sh : shared (B := B)) : Prop := {
  sh_inj : forall t1 t2 a, names sh !! t1 = Some a -> names sh !! t2 = Some a -> t1 = t2;
  sh_heap : forall t a, names sh !! t = Some a -> is_Some (heap sh !! a) /\ (a < next_addr sh)%nat;
  sh_unlocked : names_locked sh = false;
}.

(** The pointers held are those of the topics; a publish that has its identifier
    is the last to have taken one; a scan has treated what it has passed. *)
Definition thread_ok (sh : shared (B := B)) (th : thread) : Prop :=
  match at_pc th, todo th with
  | Idle, _ => True
  | Located a, e :: _ => names sh !! event_topic e = Some a
  | Assigned a id, EvPublish t _ _ _ _ :: _ =>
      names sh !! t = Some a /\
      exists td, heap sh !! a = Some td /\ next_msg_id td = u64 (id + 1)
  | Draining a, EvPull t _ _ _ _ _ :: _ | Drained a, EvPull t _ _ _ _ _ :: _ =>
      names sh !! t = Some a
  | Scanning a consumers, EvRetry t s :: _ =>
      names sh !! t = Some a /\
      exists td, heap sh !! a = Some td /\ scan_ok (sh_timeout sh) s td consumers
  | _, _ => False
  end.

(** The topic whose mutex a thread holds. *)
Definition held (th : thread) : option nat :=
  match at_pc th with Draining a | Drained a | Scanning a _ => Some a | _ => None end.

Definition owner_ok (ths : list thread) (o : gmap nat nat) : Prop :=
  forall a i, o !! a = Some i <-> exists th, ths !! i = Some th /\ held th = Some a.

Record config_ok (ths : list thread) (sh : shared) : Prop := {
  cf_shared : shared_ok sh;
  cf_threads : forall i th, ths !! i = Some th -> thread_ok sh th;
  cf_owner : owner_ok ths (owner sh);
  cf_programs : programs_ok (todo <$> ths);
}.

(** ** What the atomic store sees *)

(** The holder of a topic's mutex: a pull that has found the ring buffer empty is
    over, a scan has taken off the messages it has treated. *)
Definition thread_view (timeout : Z) (th : thread) (td : TopicData B) : TopicData B :=
  match at_pc th, todo th with
  | Drained _, EvPull _ consumer max g now steady :: _ =>
      (pull_drained consumer max g now steady td).2
  | Scanning _ ((key, es) :: _), EvRetry _ s :: _ =>
      with_pending (<[key := untreated timeout s es (pending_of (pending_acks td) key)]>
        (pending_acks td)) td
  | _, _ => td
  end.

Definition view (ths : list thread) (sh : shared (B := B)) (a : nat) (td : TopicData B) : TopicData B :=
  match i ← owner sh !! a; ths !! i with
  | Some th => thread_view (sh_timeout sh) th td
  | None => td
  end.

(** Some publish has taken [id] at [a] and not pushed yet. *)
Definition owes (ths : list thread) (a : nat) (id : MessageId) : Prop :=
  exists i th, ths !! i = Some th /\ at_pc th = Assigned a id.

(** The topic is as it was before that publish. *)
Definition seen_as (ths : list thread) (a : nat) (td td' : TopicData B) : Prop :=
  (forall id, owes ths a id -> td' = with_next id td) /\
  ((forall id, ~ owes ths a id) -> td' = td).

Record represents (ths : list thread) (sh : shared) (st : MemoryMessageStore B) : Prop := {
  rp_topics : forall t, match names sh !! t with
    | None => topics_ st !! t = None
    | Some a => exists td td', heap sh !! a = Some td /\ topics_ st !! t = Some td' /\
                  seen_as ths a (view ths sh a td) td'
    end;
  rp_dlq : dlq_storage_ st = sh_dlq sh;
  rp_buffer : default_buffer_size_ st = sh_buffer_size sh;
  rp_retry : max_retry_count_ st = sh_max_retry sh;
  rp_timeout : pending_timeout_ms_ st = sh_timeout sh;
}.

Lemma thread_view_front timeout th : front_free (λ td, (tt, thread_view timeout th td)).
Proof.
  intros r k td. unfold thread_view. cbn [fst snd]. f_equal.
  destruct (at_pc th) as [| | | | |a [|[key es] cs]|], (todo th) as [|[] calls]; try done.
  by rewrite pull_drained_front.
Qed.

Lemma view_front ths sh a : front_free (λ td, (tt, view ths sh a td)).
Proof.
  intros r k td. unfold view. destruct (_ ≫= _) as [th|]; [apply thread_view_front|done].
Qed.

Lemma view_with_next ths sh a k td : view ths sh a (with_next k td) = with_next k (view ths sh a td).
Proof.
  pose proof (front_next _ (view_front ths sh a) k td) as Hv. cbn [fst snd] in Hv. congruence.
Qed.

Lemma view_next_id ths sh a td : next_msg_id (view ths sh a td) = next_msg_id td.
Proof. apply (front_free_keeps _ td (view_front ths sh a)). Qed.

(** A publish does not notice the holder of the topic's mutex. *)
Lemma publish_view payload ttl now1 now2 ths sh a td :
  publish_topic payload ttl now1 now2 (view ths sh a td) =
  ((publish_topic payload ttl now1 now2 td).1,
   view ths sh a (publish_topic payload ttl now1 now2 td).2).
Proof.
  destruct (front_free_keeps _ td (view_front ths sh a)) as [Hr Hn]. cbn [snd] in Hr, Hn.
  unfold publish_topic. rewrite Hr, Hn. cbv zeta. destruct (fb_push _ _) as [ok ring].
  f_equal. cbn [snd].
  pose proof (view_front ths sh a ring (u64 (next_msg_id td + 1)) td) as Hv. cbn [fst snd] in Hv.
  injection Hv as Hv. symmetry. exact Hv.
Qed.

(** ** Changing one thread *)

Definition assigned (th : thread) : option (nat * MessageId) :=
  match at_pc th with Assigned a id => Some (a, id) | _ => None end.

Lemma owes_insert ths i th th' a id : ths !! i = Some th ->
  owes (<[i := th']> ths) a id <->
  assigned th' = Some (a, id) \/ exists j thj, j <> i /\ ths !! j = Some thj /\ at_pc thj = Assigned a id.
Proof.
  intros Hi. pose proof (lookup_lt_Some _ _ _ Hi) as Hlt. split.
  - intros (j & thj & Hj & Hpc). destruct (decide (j = i)) as [->|Hne].
    + rewrite list_lookup_insert_eq in Hj by done. injection Hj as <-. left. unfold assigned.
      by rewrite Hpc.
    + rewrite list_lookup_insert_ne in Hj by done. right. by exists j, thj.
  - intros [Ha|(j & thj & Hne & Hj & Hpc)].
    + exists i, th'. rewrite list_lookup_insert_eq by done. split; [done|].
      unfold assigned in Ha. by destruct (at_pc th'); simplify_eq.
    + exists j, thj. by rewrite list_lookup_insert_ne.
Qed.

Lemma owes_same ths i th th' a id : ths !! i = Some th -> assigned th = assigned th' ->
  owes (<[i := th']> ths) a id <-> owes ths a id.
Proof.
  intros Hi Ha. rewrite (owes_insert ths i th th' a id Hi), <- Ha.
  rewrite <- (owes_insert ths i th th a id Hi). by rewrite list_insert_id.
Qed.

Lemma seen_as_ext ths ths' a td td' : (forall id, owes ths' a id <-> owes ths a id) ->
  seen_as ths a td td' -> seen_as ths' a td td'.
Proof.
  intros He [H1 H2]. split; [by intros id ?%He; apply H1|].
  intros Hn. apply H2. intros id ?. by apply (Hn id), He.
Qed.

Lemma owes_dec ths a : (exists id, owes ths a id) \/ (forall id, ~ owes ths a id).
Proof.
  destruct (decide (Exists (λ th, fst <$> assigned th = Some a) ths)) as [He|Hn].
  - left. apply Exists_exists in He as (th & Hin & Hth). apply list_elem_of_lookup in Hin as [i Hi].
    unfold assigned in Hth. destruct (at_pc th) as [| |a' id| | | |] eqn:Hpc; try done.
    injection Hth as ->. by exists id, i, th.
  - right. intros id (i & th & Hi & Hpc). apply Hn, Exists_exists. exists th.
    split; [by eapply list_elem_of_lookup_2|]. unfold assigned. by rewrite Hpc.
Qed.

Lemma seen_as_local {R} (f : TopicData B -> R * TopicData B) ths a td td' : next_free f ->
  seen_as ths a td td' -> (f td').1 = (f td).1 /\ seen_as ths a (f td).2 (f td').2.
Proof.
  intros Hf [H1 H2]. split.
  - destruct (owes_dec ths a) as [[id Ho]|Hn]; [|by rewrite H2]. by rewrite (H1 id Ho), Hf.
  - split; [intros id Ho; by rewrite (H1 id Ho), Hf|]. intros Hn. by rewrite H2.
Qed.

Lemma programs_ok_insert ths i th th' : ths !! i = Some th ->
  (forall e, e ∈ todo th' -> e ∈ todo th) -> programs_ok (todo <$> ths) ->
  programs_ok (todo <$> <[i := th']> ths).
Proof.
  intros Hi Hsub [Hdel Hsingle]. pose proof (lookup_lt_Some _ _ _ Hi) as Hlt.
  assert (forall j calls, (todo <$> <[i := th']> ths) !! j = Some calls ->
    exists calls', (todo <$> ths) !! j = Some calls' /\ forall e, e ∈ calls -> e ∈ calls') as Hj.
  { intros j calls. rewrite !list_lookup_fmap. destruct (decide (j = i)) as [->|Hne].
    - rewrite list_lookup_insert_eq, Hi by done. intros [= <-]. by exists (todo th).
    - rewrite list_lookup_insert_ne by done. intros Hc. by exists calls. }
  split.
  - intros j calls (calls' & Hc & Hs)%Hj. apply Forall_forall. intros e He%Hs.
    exact (proj1 (Forall_forall _ _) (Hdel j calls' Hc) e He).
  - intros j k calls1 calls2 t (c1 & Hc1 & Hs1)%Hj (c2 & Hc2 & Hs2)%Hj (e1 & He1 & Hp1)
      (e2 & He2 & Hp2). apply (Hsingle j k c1 c2 t Hc1 Hc2); [exists e1|exists e2]; auto.
Qed.

Lemma owner_ok_insert ths i th th' o o' : owner_ok ths o -> ths !! i = Some th ->
  (forall a j, j <> i -> o' !! a = Some j <-> o !! a = Some j) ->
  (forall a, o' !! a = Some i <-> held th' = Some a) ->
  owner_ok (<[i := th']> ths) o'.
Proof.
  intros Ho Hi Hother Hown a j. pose proof (lookup_lt_Some _ _ _ Hi) as Hlt.
  destruct (decide (j = i)) as [->|Hne].
  - rewrite Hown, list_lookup_insert_eq by done. naive_solver.
  - rewrite Hother, list_lookup_insert_ne by done. apply Ho.
Qed.

Lemma owner_ok_same ths i th th' o : owner_ok ths o -> ths !! i = Some th ->
  held th' = held th -> owner_ok (<[i := th']> ths) o.
Proof.
  intros Ho Hi Hh. eapply owner_ok_insert; [done|done|done|]. intros a. rewrite Hh, (Ho a i).
  naive_solver.
Qed.

Lemma owner_ok_lock ths i th th' o a : owner_ok ths o -> ths !! i = Some th ->
  o !! a = None -> held th = None -> held th' = Some a ->
  owner_ok (<[i := th']> ths) (<[a := i]> o).
Proof.
  intros Ho Hi Hfree Hh Hh'. eapply owner_ok_insert; [done|done| |].
  - intros a' j Hne. rewrite lookup_insert_Some. naive_solver.
  - intros a'. rewrite lookup_insert_Some, Hh', (Ho a' i). naive_solver.
Qed.

Lemma owner_ok_unlock ths i th th' o a : owner_ok ths o -> ths !! i = Some th ->
  held th = Some a -> held th' = None -> owner_ok (<[i := th']> ths) (delete a o).
Proof.
  intros Ho Hi Hh Hh'. assert (o !! a = Some i) as Ha by (apply Ho; by exists th).
  eapply owner_ok_insert; [done|done| |].
  - intros a' j Hne. rewrite lookup_delete_Some. naive_solver.
  - intros a'. rewrite lookup_delete_Some, Hh', (Ho a' i). naive_solver.
Qed.

(** ** What a step is to the other threads *)

(** The answer of a pull that is over for the atomic store. *)
Definition pending_answer (sh : shared (B := B)) (i : nat) (th : thread)
    : list (nat * store_event * answer) :=
  match at_pc th, todo th with
  | Drained a, (EvPull _ consumer max g now steady as e) :: _ =>
      match heap sh !! a with
      | Some td => [(i, e, AMessages (pull_drained consumer max g now steady td).1)]
      | None => []
      end
  | _, _ => []
  end.

Definition unnoticed (sh sh' : shared) (th : thread) : Prop :=
  thread_ok sh th -> thread_ok sh' th /\ forall i, pending_answer sh' i th = pending_answer sh i th.

Lemma unnoticed_refl sh th : unnoticed sh sh th.
Proof. by intros ?. Qed.

(** Another topic at [a], another holder of its mutex and other dead letters. *)
Definition update (a : nat) (td : TopicData B) (o : gmap nat nat)
    (dlq : gmap TopicName (list StoredMessage)) (sh : shared) : shared :=
  set_sh_dlq dlq (set_owner o (set_heap a td sh)).

Lemma update_same a td o sh : heap sh !! a = Some td ->
  update a td o (sh_dlq sh) sh = set_owner o sh.
Proof.
  intros Ha. unfold update, set_sh_dlq, set_owner, set_heap. cbn. by rewrite insert_id.
Qed.

Lemma unnoticed_update sh a td td1 o dlq th : heap sh !! a = Some td ->
  (forall id, at_pc th = Assigned a id -> next_msg_id td1 = next_msg_id td) ->
  (held th = Some a -> td1 = with_front (ring_buffer td1) (next_msg_id td1) td) ->
  unnoticed sh (update a td1 o dlq sh) th.
Proof.
  intros Ha Hnext Hheld. unfold unnoticed, thread_ok, pending_answer, held in *.
  cbn [names update set_sh_dlq set_owner set_heap heap sh_timeout].
  destruct th as [[|e calls] p]; cbn [at_pc todo] in *; [destruct p; try done|].
  destruct p as [|a'|a' id|a'|a'|a' cs|]; try done.
  - destruct e; try done. intros (Ht & td0 & Htd0 & Hid). split; [|done]. split; [done|].
    destruct (decide (a' = a)) as [->|Hne].
    + exists td1. rewrite lookup_insert_eq. split; [done|]. rewrite (Hnext id eq_refl). congruence.
    + exists td0. by rewrite lookup_insert_ne.
  - destruct e; try done. intros Ht. split; [done|]. intros i.
    destruct (decide (a' = a)) as [->|Hne].
    + rewrite lookup_insert_eq, Ha, Hheld, pull_drained_front by done. done.
    + by rewrite lookup_insert_ne.
  - destruct e; try done. intros (Ht & td0 & Htd0 & Hscan). split; [|done]. split; [done|].
    destruct (decide (a' = a)) as [->|Hne].
    + exists td1. rewrite lookup_insert_eq. split; [done|]. rewrite Ha in Htd0. injection Htd0 as <-.
      eapply scan_ok_acks; [|done]. by rewrite (Hheld eq_refl).
    + exists td0. by rewrite lookup_insert_ne.
Qed.

(** ** A step of a thread *)

Record moved (ths : list thread) (sh : shared) (i : nat) (th' : thread) (sh' : shared)
    (st' : MemoryMessageStore B) : Prop := {
  mv_ok : config_ok (<[i := th']> ths) sh';
  mv_represents : represents (<[i := th']> ths) sh' st';
  mv_others : forall j thj, j <> i -> ths !! j = Some thj -> unnoticed sh sh' thj;
}.

Lemma config_ok_insert ths sh i th th' sh' : config_ok ths sh -> ths !! i = Some th ->
  (forall e, e ∈ todo th' -> e ∈ todo th) -> shared_ok sh' -> thread_ok sh' th' ->
  owner_ok (<[i := th']> ths) (owner sh') ->
  (forall j thj, j <> i -> ths !! j = Some thj -> unnoticed sh sh' thj) ->
  config_ok (<[i := th']> ths) sh'.
Proof.
  intros [Hs Ht Ho Hp] Hi Hsub Hs' Hth' Ho' Hother. pose proof (lookup_lt_Some _ _ _ Hi) as Hlt.
  split; [done| |done|by eapply programs_ok_insert].
  intros j thj. destruct (decide (j = i)) as [->|Hne].
  - rewrite list_lookup_insert_eq by done. by intros [= <-].
  - rewrite list_lookup_insert_ne by done. intros Hj. eapply Hother; [done..|by apply (Ht j)].
Qed.

Lemma shared_ok_update sh a td o dlq : shared_ok sh -> shared_ok (update a td o dlq sh).
Proof.
  intros [Hi Hh Hl]. split; [done| |done]. intros t a' Ha. cbn in *. destruct (Hh t a' Ha) as [? ?].
  split; [|done]. apply lookup_insert_is_Some'. by right.
Qed.

Lemma view_insert ths sh sh' i th th' a td : owner_ok ths (owner sh) -> ths !! i = Some th ->
  held th <> Some a -> owner sh' !! a = owner sh !! a -> sh_timeout sh' = sh_timeout sh ->
  view (<[i := th']> ths) sh' a td = view ths sh a td.
Proof.
  intros Ho Hi Hh Ha Ht. unfold view. rewrite Ha, Ht.
  destruct (owner sh !! a) as [j|] eqn:Hj; [|done]. cbn.
  rewrite list_lookup_insert_ne; [done|]. intros ->. apply Ho in Hj as (thj & Hthj & Hheld).
  rewrite Hi in Hthj. by injection Hthj as <-.
Qed.

Lemma view_own ths sh i th a td : ths !! i = Some th -> owner sh !! a = Some i ->
  view ths sh a td = thread_view (sh_timeout sh) th td.
Proof. intros Hi Ha. unfold view. rewrite Ha. cbn. by rewrite Hi. Qed.

Lemma view_free ths (sh : shared) a td : owner sh !! a = None -> view ths sh a td = td.
Proof. intros Ha. unfold view. by rewrite Ha. Qed.

Definition same_settings (st st' : MemoryMessageStore B) : Prop :=
  default_buffer_size_ st' = default_buffer_size_ st /\
  max_retry_count_ st' = max_retry_count_ st /\
  pending_timeout_ms_ st' = pending_timeout_ms_ st.

(** One topic changes. *)
Lemma represents_update ths sh st i th th' t a td1 o dlq td' st' :
  config_ok ths sh -> represents ths sh st -> ths !! i = Some th -> names sh !! t = Some a ->
  (forall a', a' <> a -> held th <> Some a' /\ o !! a' = owner sh !! a') ->
  (forall a' id, a' <> a -> owes (<[i := th']> ths) a' id <-> owes ths a' id) ->
  topics_ st' = <[t := td']> (topics_ st) -> dlq_storage_ st' = dlq -> same_settings st st' ->
  seen_as (<[i := th']> ths) a (view (<[i := th']> ths) (update a td1 o dlq sh) a td1) td' ->
  represents (<[i := th']> ths) (update a td1 o dlq sh) st'.
Proof.
  intros [[Hinj _ _] _ Ho _] [Htop Hd Hb Hr Ht] Hi Ha Hframe Howes Hst Hdlq (H1 & H2 & H3) Hseen.
  split; [|cbn; congruence..].
  intros t'. rewrite Hst. cbn [names update set_sh_dlq set_owner set_heap heap].
  destruct (decide (t' = t)) as [->|Hne].
  - rewrite Ha. exists td1, td'. by rewrite !lookup_insert_eq.
  - rewrite lookup_insert_ne by done. specialize (Htop t').
    destruct (names sh !! t') as [a'|] eqn:Ha'; [|done].
    assert (a' <> a) as Hne' by (intros ->; apply Hne; by eapply Hinj).
    destruct (Hframe a' Hne') as [Hheld Howner].
    destruct Htop as (tda & tda' & ? & ? & Hs). exists tda, tda'. rewrite lookup_insert_ne by done.
    split; [done|]. split; [done|].
    rewrite (view_insert ths sh _ i th) by done.
    apply (seen_as_ext ths); [|done]. intros id. by apply Howes.
Qed.

(** What a thread at work on the topic at [a] does with its mutex: from the topic
    it held before to the one it holds after. *)
Inductive mutex_step (i a : nat) : option nat -> option nat -> gmap nat nat -> gmap nat nat -> Prop :=
  | mx_free o : o !! a = None -> mutex_step i a None None o o
  | mx_lock o : o !! a = None -> mutex_step i a None (Some a) o (<[a := i]> o)
  | mx_keep o : o !! a = Some i -> mutex_step i a (Some a) (Some a) o o
  | mx_unlock o : o !! a = Some i -> mutex_step i a (Some a) None o (delete a o).

Lemma mutex_step_inv ths i a th th' o o' : owner_ok ths o -> ths !! i = Some th ->
  mutex_step i a (held th) (held th') o o' ->
  owner_ok (<[i := th']> ths) o' /\
  (forall a', a' <> a -> held th <> Some a' /\ o' !! a' = o !! a') /\
  (forall j thj, j <> i -> ths !! j = Some thj -> held thj <> Some a).
Proof.
  intros Ho Hi Hm.
  assert (o !! a = None \/ o !! a = Some i) as Hfree by (inversion Hm; auto).
  split; [|split].
  - inversion Hm as [o0 Hx Hh Hh'|o0 Hx Hh Hh'|o0 Hx Hh Hh'|o0 Hx Hh Hh']; subst.
    + eapply owner_ok_same; [done|done|congruence].
    + by eapply owner_ok_lock.
    + eapply owner_ok_same; [done|done|congruence].
    + by eapply owner_ok_unlock.
  - intros a' Hne. inversion Hm; subst; rewrite ?lookup_insert_ne, ?lookup_delete_ne by done;
      split; congruence.
  - intros j thj Hne Hj Hh. assert (o !! a = Some j) as Ha by (apply Ho; by exists thj).
    destruct Hfree; congruence.
Qed.

Lemma thread_view_not_held timeout th td : held th = None -> thread_view timeout th td = td.
Proof. unfold thread_view, held. by destruct (at_pc th). Qed.

(** The holder of the mutex, or a thread that finds it free, sees the topic. *)
Lemma mutex_view ths sh i a th td : owner_ok ths (owner sh) -> ths !! i = Some th ->
  match held th with Some a' => a' = a | None => owner sh !! a = None end ->
  view ths sh a td = thread_view (sh_timeout sh) th td.
Proof.
  intros Ho Hi Hm. destruct (held th) as [a'|] eqn:Hh.
  - subst a'. apply (view_own _ _ i); [done|]. apply Ho. by exists th.
  - rewrite view_free by done. by rewrite thread_view_not_held.
Qed.

(** A step on a topic of its holder, or of a thread that finds the mutex free. *)
Lemma topic_sim {R} (f : TopicData B -> R * TopicData B) ths sh st i th th' t a td td1 o dlq :
  config_ok ths sh -> represents ths sh st -> ths !! i = Some th ->
  names sh !! t = Some a -> heap sh !! a = Some td -> next_free f ->
  assigned th = None -> assigned th' = None -> (forall e, e ∈ todo th' -> e ∈ todo th) ->
  mutex_step i a (held th) (held th') (owner sh) o ->
  thread_ok (update a td1 o dlq sh) th' -> next_msg_id td1 = next_msg_id td ->
  thread_view (sh_timeout sh) th' td1 = (f (thread_view (sh_timeout sh) th td)).2 ->
  exists td', topics_ st !! t = Some td' /\
    (f td').1 = (f (thread_view (sh_timeout sh) th td)).1 /\
    forall st', topics_ st' = <[t := (f td').2]> (topics_ st) -> dlq_storage_ st' = dlq ->
      same_settings st st' -> moved ths sh i th' (update a td1 o dlq sh) st'.
Proof.
  intros Hok Hrep Hi Hname Ha Hf Has Has' Hsub Hmutex Hth' Hnext Hview.
  pose proof (rp_topics _ _ _ Hrep t) as Ht. rewrite Hname in Ht.
  destruct Ht as (td0 & td' & Ha0 & Htd' & Hseen). rewrite Ha in Ha0. injection Ha0 as <-.
  destruct (mutex_step_inv ths i a th th' _ o (cf_owner _ _ Hok) Hi Hmutex) as (Ho' & Hframe & Hothers).
  rewrite (mutex_view ths sh i a th) in Hseen; [|apply Hok|done|by inversion Hmutex].
  destruct (seen_as_local f ths a _ td' Hf Hseen) as [Hres Hseen'].
  exists td'. split; [done|]. split; [done|]. intros st' Htop Hdlq Hset. split.
  - eapply config_ok_insert; [done|done|done|apply shared_ok_update, Hok|done|done|].
    intros j thj Hne Hj. eapply unnoticed_update; [done|done|].
    intros Hh. by apply (Hothers j thj) in Hh.
  - eapply represents_update; [done|done|done|done|done| |done|done|done|].
    + intros a' id _. eapply owes_same; [done|congruence].
    + assert ((<[i := th']> ths) !! i = Some th') as Hi'
        by (apply list_lookup_insert_eq; by eapply lookup_lt_Some).
      rewrite (mutex_view _ _ i a th'); [|done|done|].
      * cbn [sh_timeout update set_sh_dlq set_owner set_heap]. rewrite Hview.
        apply (seen_as_ext ths); [|done]. intros id. eapply owes_same; [done|congruence].
      * cbn [owner update set_sh_dlq set_owner]. inversion Hmutex; try done; subst.
        by rewrite lookup_delete_eq.
  - intros j thj Hne Hj. eapply unnoticed_update; [done|done|].
    intros Hh. by apply (Hothers j thj) in Hh.
Qed.

(** The same when the atomic store does not change. *)
Lemma silent_sim ths sh st i th th' t a td td1 o :
  config_ok ths sh -> represents ths sh st -> ths !! i = Some th ->
  names sh !! t = Some a -> heap sh !! a = Some td ->
  assigned th = None -> assigned th' = None -> (forall e, e ∈ todo th' -> e ∈ todo th) ->
  mutex_step i a (held th) (held th') (owner sh) o ->
  thread_ok (update a td1 o (sh_dlq sh) sh) th' -> next_msg_id td1 = next_msg_id td ->
  thread_view (sh_timeout sh) th' td1 = thread_view (sh_timeout sh) th td ->
  moved ths sh i th' (update a td1 o (sh_dlq sh) sh) st.
Proof.
  intros Hok Hrep Hi Hname Ha Has Has' Hsub Hmutex Hth' Hnext Hview.
  destruct (topic_sim (λ td, (tt, td)) ths sh st i th th' t a td td1 o (sh_dlq sh)
    Hok Hrep Hi Hname Ha ltac:(done) Has Has' Hsub Hmutex Hth' Hnext Hview) as (td' & Htd' & _ & Hm).
  apply Hm; [by rewrite insert_id|apply Hrep|done].
Qed.

(** A step that only moves a thread without the mutex of a topic. *)
Lemma move_sim ths sh st i th th' : config_ok ths sh -> represents ths sh st ->
  ths !! i = Some th -> assigned th = None -> assigned th' = None ->
  held th = None -> held th' = None ->
  (forall e, e ∈ todo th' -> e ∈ todo th) -> thread_ok sh th' -> moved ths sh i th' sh st.
Proof.
  intros Hok [Htop Hd Hb Hr Ht] Hi Ha Ha' Hh Hh' Hsub Hth'. split; [| |by intros; apply unnoticed_refl].
  - eapply config_ok_insert; [done|done|done|apply Hok|done| |by intros; apply unnoticed_refl].
    eapply owner_ok_same; [apply Hok|done|congruence].
  - split; try done. intros t. specialize (Htop t). destruct (names sh !! t) as [a|]; [|done].
    destruct Htop as (td & td' & ? & ? & Hs). exists td, td'. split; [done|]. split; [done|].
    rewrite (view_insert ths sh sh i th) by first [done|apply Hok|congruence].
    eapply seen_as_ext; [|done]. intros id. eapply owes_same; [done|congruence].
Qed.

(** The same with other dead letters. *)
Lemma dlq_sim ths sh st i th' dlq : moved ths sh i th' sh st ->
  moved ths sh i th' (set_sh_dlq dlq sh) (with_dlq dlq st).
Proof.
  intros [[[Hi Hh Hl] Ht Ho Hp] [Htop Hd Hb Hr Hto] Hu]. split; [|by split|done].
  split; [by split|done|done|done].
Qed.

(** A step that makes a topic. *)
Lemma allocate_ok (sh : shared (B := B)) topic : shared_ok sh -> names sh !! topic = None ->
  shared_ok (allocate topic sh) /\ forall th, unnoticed sh (allocate topic sh) th.
Proof.
  intros [Hinj Hheap Hl] Hnone.
  assert (forall t a, names sh !! t = Some a -> t <> topic /\ a <> next_addr sh) as Hfresh.
  { intros t a Hta. split; [congruence|]. apply Hheap in Hta as [_ ?]. lia. }
  split.
  - split; cbn [names heap next_addr allocate]; [| |done].
    + intros t1 t2 a. destruct (decide (t1 = topic)) as [->|H1], (decide (t2 = topic)) as [->|H2];
        rewrite ?lookup_insert_eq, ?lookup_insert_ne by done; try done.
      * intros [= <-] Hta. by apply Hfresh in Hta as [_ ?].
      * intros Hta [= <-]. by apply Hfresh in Hta as [_ ?].
      * apply Hinj.
    + intros t a. destruct (decide (t = topic)) as [->|Hne].
      * rewrite lookup_insert_eq. intros [= <-]. rewrite lookup_insert_eq. split; [by eexists|lia].
      * rewrite lookup_insert_ne by done. intros Hta. destruct (Hheap t a Hta) as [? ?].
        split; [|lia]. apply lookup_insert_is_Some'. by right.
  - intros th. unfold unnoticed, thread_ok, pending_answer.
    cbn [names heap allocate sh_timeout].
    destruct (at_pc th) as [|a|a id|a|a|a cs|]; [done|..]; destruct (todo th) as [|e calls]; try done.
    all: try (destruct e; try done); try intros [Hta Hrest]; try intros Hta;
      pose proof (Hfresh _ _ Hta) as Hne; rewrite ?lookup_insert_ne by (symmetry; apply Hne); done.
Qed.

Lemma allocate_sim ths sh st i th th' topic : config_ok ths sh -> represents ths sh st ->
  ths !! i = Some th -> assigned th = None -> assigned th' = None ->
  held th = None -> held th' = None ->
  (forall e, e ∈ todo th' -> e ∈ todo th) -> names sh !! topic = None ->
  thread_ok (allocate topic sh) th' ->
  moved ths sh i th' (allocate topic sh) (CreateTopic topic st).2 /\
  (CreateTopic topic st).1 = true.
Proof.
  intros Hok Hrep Hi Ha Ha' Hh Hh' Hsub Hnone Hth'. pose proof Hrep as [Htop Hd Hb Hr Ht].
  pose proof (Htop topic) as Hmissing. rewrite Hnone in Hmissing.
  destruct (allocate_ok sh topic (cf_shared _ _ Hok) Hnone) as [Hsh' Hother].
  assert (owner_ok (<[i := th']> ths) (owner sh)) as Ho'
    by (eapply owner_ok_same; [apply Hok|done|congruence]).
  unfold CreateTopic. rewrite Hmissing. split; [|done]. cbn [snd]. split; [| |by intros; apply Hother].
  { eapply config_ok_insert; [done|done|done|done|done|done|by intros; apply Hother]. }
  assert (forall a id, owes (<[i := th']> ths) a id <-> owes ths a id) as Howes
    by (intros a id; eapply owes_same; [done|congruence]).
  split; try done. intros t. cbn [names allocate heap topics_ with_topics].
  destruct (decide (t = topic)) as [->|Hne].
  - rewrite !lookup_insert_eq. eexists _, _. split; [done|]. split; [done|]. rewrite Hb.
    assert (forall j thj, ths !! j = Some thj -> held thj = Some (next_addr sh) \/
      (exists id, at_pc thj = Assigned (next_addr sh) id) -> False) as Hnew.
    { intros j thj Hj Hat. pose proof (cf_threads _ _ Hok j thj Hj) as Hthj. unfold thread_ok in Hthj.
      assert (exists t, names sh !! t = Some (next_addr sh)) as (t & Hta).
      { unfold held in Hat. destruct (at_pc thj), (todo thj) as [|[] calls]; try done;
          destruct Hat as [Hat|[? Hat]]; simplify_eq; naive_solver. }
      apply (sh_heap _ (cf_shared _ _ Hok)) in Hta as [_ Hlt]. lia. }
    rewrite (view_insert ths sh _ i th) by first [done|apply Hok|congruence].
    rewrite view_free.
    2:{ destruct (owner sh !! next_addr sh) as [j|] eqn:Hj; [|done]. exfalso.
        apply (cf_owner _ _ Hok) in Hj as (thj & Hthj & Hheld). eapply Hnew; [done|by left]. }
    split; [|done]. intros id (j & thj & Hj & Hpc)%Howes. exfalso.
    eapply Hnew; [done|right; by exists id].
  - rewrite !(lookup_insert_ne _ topic t) by done. specialize (Htop t).
    destruct (names sh !! t) as [a|] eqn:Hna; [|done].
    assert (a <> next_addr sh) as Hna'.
    { intros ->. apply (sh_heap _ (cf_shared _ _ Hok)) in Hna as [_ Hlt]. lia. }
    destruct Htop as (td & td' & ? & ? & Hs). exists td, td'. rewrite lookup_insert_ne by done.
    split; [done|]. split; [done|].
    rewrite (view_insert ths sh _ i th) by first [done|apply Hok|congruence].
    eapply seen_as_ext; [|done]. intros id. apply Howes.
Qed.

(** ** Publishing *)

(** Only the thread that publishes to a topic owes it an identifier. *)
Lemma sole_producer ths sh i e calls p t a j thj id :
  config_ok ths sh -> ths !! i = Some (mkThread (e :: calls) p) ->
  match e with EvPublish t' _ _ _ _ => t' = t | _ => False end ->
  names sh !! t = Some a -> ths !! j = Some thj -> at_pc thj = Assigned a id -> j = i.
Proof.
  intros [[Hinj _ _] Hths _ [_ Hsingle]] Hi He Ha Hj Hpc.
  pose proof (Hths j thj Hj) as Hthj. unfold thread_ok in Hthj. rewrite Hpc in Hthj.
  destruct (todo thj) as [|e' calls'] eqn:Htodo; [done|]. destruct e'; try done.
  destruct Hthj as [Ht _]. pose proof (Hinj _ _ _ Ht Ha) as ->.
  eapply (Hsingle j i (todo thj) (e :: calls) t).
  - by rewrite list_lookup_fmap, Hj.
  - by rewrite list_lookup_fmap, Hi.
  - rewrite Htodo. eexists. split; [by left|done].
  - exists e. split; [by left|done].
Qed.

Section publish.
Variables (ths : list thread) (sh : shared (B := B)) (st : MemoryMessageStore B) (i : nat).
Variables (t : TopicName) (payload : Payload) (ttl now1 now2 : Z) (calls : list store_event).
Variables (a : nat) (td : TopicData B) (p : pc).
Abbreviation e := (EvPublish t payload ttl now1 now2).
Hypothesis Hok : config_ok ths sh.
Hypothesis Hrep : represents ths sh st.
Hypothesis Ha : heap sh !! a = Some td.
Hypothesis Hi : ths !! i = Some (mkThread (e :: calls) p).
Hypothesis Hname : names sh !! t = Some a.
Hypothesis Hpc : p = Located a \/ exists id, p = Assigned a id.

Lemma others_owe th' a' id : (forall k id', assigned th' = Some (k, id') -> k = a) ->
  a' <> a -> owes (<[i := th']> ths) a' id <-> owes ths a' id.
Proof.
  intros Hth' Hne. rewrite (owes_insert _ _ _ _ _ _ Hi). split.
  - intros [Has|(j & thj & _ & Hj & Hat)]; [by apply Hth' in Has|by exists j, thj].
  - intros (j & thj & Hj & Hat). right. exists j, thj. split; [|done]. intros ->.
    rewrite Hi in Hj. injection Hj as <-. cbn in Hat. destruct Hpc as [->|[? ->]]; congruence.
Qed.

(** A step that changes the front of the topic. *)
Lemma front_sim th' td1 td' st' : held th' = None ->
  td1 = with_front (ring_buffer td1) (next_msg_id td1) td ->
  (forall k id, assigned th' = Some (k, id) -> k = a) ->
  (forall e', e' ∈ todo th' -> e' ∈ e :: calls) ->
  thread_ok (set_heap a td1 sh) th' ->
  topics_ st' = <[t := td']> (topics_ st) -> dlq_storage_ st' = dlq_storage_ st ->
  same_settings st st' -> seen_as (<[i := th']> ths) a (view ths sh a td1) td' ->
  moved ths sh i th' (set_heap a td1 sh) st'.
Proof.
  intros Hh' Hfront Hassigned Hsub Hth' Htop Hdlq Hset Hseen.
  assert (held (mkThread (e :: calls) p) = None) as Hh by by destruct Hpc as [->|[? ->]].
  change (set_heap a td1 sh) with (update a td1 (owner sh) (sh_dlq sh) sh) in *.
  assert (forall j thj, j <> i -> ths !! j = Some thj ->
    unnoticed sh (update a td1 (owner sh) (sh_dlq sh) sh) thj) as Hothers.
  { intros j thj Hne Hj. eapply unnoticed_update; [done| |done]. intros id Hat. exfalso. apply Hne.
    exact (sole_producer _ _ _ _ _ _ _ _ _ _ _ Hok Hi eq_refl Hname Hj Hat). }
  split; [| |done].
  - eapply config_ok_insert; [done|done|done|apply shared_ok_update, Hok|done| |done].
    eapply owner_ok_same; [apply Hok|done|congruence].
  - eapply represents_update; [done|done|done|done| | |done| |done|].
    + intros a' Hne. split; [congruence|done].
    + intros a' id Hne. by apply others_owe.
    + rewrite Hdlq. apply Hrep.
    + rewrite (view_insert ths sh _ i (mkThread (e :: calls) p)) by
        first [done|apply Hok|congruence]. done.
Qed.

(** Taking the identifier. *)
Lemma fetch_sim : p = Located a ->
  moved ths sh i (mkThread (e :: calls) (Assigned a (next_msg_id td)))
    (set_heap a (with_next (u64 (next_msg_id td + 1)) td) sh) st.
Proof.
  intros Hp. assert (forall id, ~ owes ths a id) as Hnone.
  { intros id (j & thj & Hj & Hat).
    assert (j = i) as -> by exact (sole_producer _ _ _ _ _ _ _ _ _ _ _ Hok Hi eq_refl Hname Hj Hat).
    rewrite Hi in Hj. injection Hj as <-. cbn in Hat. congruence. }
  pose proof (rp_topics _ _ _ Hrep t) as Ht. rewrite Hname in Ht.
  destruct Ht as (td0 & td' & Htd & Htd' & _ & Hseen). rewrite Ha in Htd. injection Htd as <-.
  apply (front_sim _ _ td'); [done|done|by intros k id [= <- _]|done| | |done|done|].
  - split; [done|]. eexists. cbn [heap set_heap]. rewrite lookup_insert_eq. by split.
  - by rewrite insert_id.
  - rewrite view_with_next. rewrite (Hseen Hnone). split.
    + intros id Ho. apply (owes_insert _ _ _ _ _ _ Hi) in Ho as [[= <-]|(j & thj & _ & Hj & Hat)].
      * rewrite <- (view_next_id ths sh a td). symmetry. exact (with_next_id (view ths sh a td)).
      * exfalso. apply (Hnone id). by exists j, thj.
    + intros Hn. exfalso. apply (Hn (next_msg_id td)). apply (owes_insert _ _ _ _ _ _ Hi). by left.
Qed.

(** Pushing the record. *)
Lemma push_sim id : p = Assigned a id -> next_msg_id td = u64 (id + 1) ->
  let '((ok, _), td1) := publish_topic payload ttl now1 now2 (with_next id td) in
  moved ths sh i (mkThread calls Idle) (set_heap a (with_next (next_msg_id td) td1) sh)
    (Publish t payload ttl now1 now2 st).2 /\
  (Publish t payload ttl now1 now2 st).1 = (ok, id).
Proof.
  intros Hp Hnext. pose proof (rp_topics _ _ _ Hrep t) as Ht. rewrite Hname in Ht.
  destruct Ht as (td0 & td' & Htd & Htd' & Hseen & _). rewrite Ha in Htd. injection Htd as <-.
  assert (owes ths a id) as Howes by (by exists i, (mkThread (e :: calls) p)).
  rewrite (Hseen id Howes), <- view_with_next in Htd'. unfold Publish. rewrite Htd'.
  change (default _ (Some ?td)) with td. rewrite publish_view.
  assert (exists ok ring, publish_topic payload ttl now1 now2 (with_next id td) =
    ((ok, id), with_front ring (next_msg_id td) td)) as (ok & ring & ->).
  { unfold publish_topic. cbv zeta. cbn [next_msg_id with_next].
    destruct (fb_push _ _) as [ok ring]. exists ok, ring. by rewrite Hnext. }
  cbn [fst snd]. split; [|done].
  eapply front_sim; [done|done|done|intros ? ?; by right|done|done|done|done|].
  split; [|done]. intros id' Ho. exfalso.
  apply (owes_insert _ _ _ _ _ _ Hi) in Ho as [[=]|(j & thj & Hne & Hj & Hat)].
  apply Hne. exact (sole_producer _ _ _ _ _ _ _ _ _ _ _ Hok Hi eq_refl Hname Hj Hat).
Qed.
End publish.
End simulation.
