(* ===== verification/StoreLinearizable.v ===== *)
(** * The store between several threads: linearizability

    The order in which the pieces of the calls take effect under a schedule, and
    that the calls' answers and the topics are those of the atomic store running
    the pieces in that order. *)

From S2P Require Import Prelude Types RingBuffer Store StoreSpec StoreInv StoreProps.
From S2P Require Import StoreConcurrent StorePieces StoreSimulation.
#[local] Open Scope Z_scope.

(** ** Orders of pieces *)

(** Parts of a call. *)
Definition part_of (e : store_event) (x : piece) : Prop :=
  match x, e with
  | NewTopic t, EvPublish t' _ _ _ _ => t' = t
  | DrainOne t, EvPull t' _ _ _ _ _ => t' = t
  | ScanOne t s _ _, EvRetry t' s' => t' = t /\ s' = s
  | _, _ => False
  end.

(** The pieces carry out calls one after the other, parts of a call before the
    call itself, and leave the last argument. *)
Inductive carried_out : list store_event -> list piece -> list store_event -> Prop :=
  | co_nil calls : carried_out calls [] calls
  | co_whole e calls xs rest :
      carried_out calls xs rest -> carried_out (e :: calls) (Whole e :: xs) rest
  | co_part e calls x xs rest :
      part_of e x -> carried_out (e :: calls) xs rest -> carried_out (e :: calls) (x :: xs) rest.

Lemma carried_out_app calls1 calls2 calls3 xs ys :
  carried_out calls1 xs calls2 -> carried_out calls2 ys calls3 -> carried_out calls1 (xs ++ ys) calls3.
Proof.
  intros H1 H2. induction H1 as [|e calls xs rest _ IH|e calls x xs rest Hx _ IH]; [done|..];
    cbn; constructor; auto.
Qed.

Section linearizable.
Context {B : Type} `{FifoBuffer B}.

(** The pieces that the steps of a schedule amount to, each with its thread. *)
Definition thread_pieces (i : nat) (c : config (B := B)) : list (nat * piece) :=
  match threads c !! i with
  | Some (mkThread (e :: _) p) => pair i <$> step_pieces e p (memory c)
  | _ => []
  end.

Fixpoint linearization (schedule : list nat) (c : config (B := B)) : list (nat * piece) :=
  match schedule with
  | [] => []
  | i :: schedule =>
      thread_pieces i c ++
      match config_step i c with Some (_, c') => linearization schedule c' | None => [] end
  end.

(** The answers of the whole calls among them, run by the atomic store. *)
Fixpoint answered (st : MemoryMessageStore B) (xs : list (nat * piece))
    : list (nat * store_event * answer) :=
  match xs with
  | [] => []
  | (i, x) :: xs =>
      (match x with Whole e => [(i, e, store_answer st e)] | _ => [] end) ++
      answered (piece_step st x) xs
  end.

Lemma answered_app st xs ys :
  answered st (xs ++ ys) = answered st xs ++ answered (piece_run st xs.*2) ys.
Proof.
  revert st. induction xs as [|[i x] xs IH]; intros st; [done|]. cbn [app answered fmap list_fmap].
  rewrite IH, <- app_assoc. done.
Qed.

(** ** The steps of a call *)

(** The calls of a thread that the atomic store has not run. *)
Definition not_run (th : thread) : list store_event :=
  match at_pc th with Drained _ => tail (todo th) | _ => todo th end.

Definition returned (i : nat) (e : store_event) (ans : option answer)
    : list (nat * store_event * answer) :=
  match ans with Some a => [(i, e, a)] | None => [] end.

Section step.
Variables (ths : list thread) (sh : shared (B := B)) (st : MemoryMessageStore B) (i : nat).
Variables (e : store_event) (calls : list store_event) (p : pc).
Hypothesis Hok : config_ok ths sh.
Hypothesis Hrep : represents ths sh st.
Hypothesis Hi : ths !! i = Some (mkThread (e :: calls) p).
Hypothesis Hdelete : is_delete e = false.

Definition next_thread (p' : pc) (ans : option answer) : thread :=
  mkThread (match ans with Some _ => calls | None => e :: calls end) p'.

(** What the next step does, in terms of pieces. *)
Record amounts_to (xs : list piece) (r : pc * option answer * shared) : Prop := {
  am_moved : moved ths sh i (next_thread r.1.1 r.1.2) r.2 (piece_run st xs);
  am_answers : pending_answer sh i (mkThread (e :: calls) p) ++ answered st (pair i <$> xs) =
    returned i e r.1.2 ++ pending_answer r.2 i (next_thread r.1.1 r.1.2);
  am_order : carried_out (not_run (mkThread (e :: calls) p)) xs (not_run (next_thread r.1.1 r.1.2));
}.

Definition simulated : Prop := exists r, call_step i e p sh = Some r /\
  amounts_to (step_pieces e p sh) r.

Lemma present a : names sh !! event_topic e = Some a ->
  exists td, heap sh !! a = Some td /\ exists td', topics_ st !! event_topic e = Some td'.
Proof.
  intros Hn. pose proof (rp_topics _ _ _ Hrep (event_topic e)) as Ht. rewrite Hn in Ht.
  destruct Ht as (td & td' & ? & ? & _). eauto.
Qed.

Lemma still_todo p' ans e' : e' ∈ todo (next_thread p' ans) -> e' ∈ e :: calls.
Proof. destruct ans; [by right|done]. Qed.

(** A step between two program points where no publish and no mutex is
    pending, and which is not a piece. *)
Lemma silent_amounts p' sh' : moved ths sh i (next_thread p' None) sh' st ->
  pending_answer sh i (mkThread (e :: calls) p) = pending_answer sh' i (next_thread p' None) ->
  not_run (mkThread (e :: calls) p) = not_run (next_thread p' None) ->
  amounts_to [] (p', None, sh').
Proof.
  intros Hm Hp Hn. split; [done| |].
  - cbn [fmap list_fmap answered returned fst snd]. by rewrite app_nil_r.
  - cbn [fst snd]. rewrite Hn. constructor.
Qed.

(** A step that is a whole call. *)
Lemma whole_amounts ans sh' : pending_answer sh i (mkThread (e :: calls) p) = [] ->
  not_run (mkThread (e :: calls) p) = e :: calls ->
  store_answer st e = ans ->
  moved ths sh i (next_thread Idle (Some ans)) sh' (store_step st e) ->
  amounts_to [Whole e] (Idle, Some ans, sh').
Proof.
  intros Hp Hn Hans Hm. split; [done| |].
  - rewrite Hp. cbn. by rewrite Hans.
  - cbn [fst snd]. rewrite Hn. constructor. constructor.
Qed.

(** Waiting. *)
Lemma wait_amounts : amounts_to [] (p, None, sh).
Proof.
  apply silent_amounts; [|done|done]. split; [| |by intros; apply unnoticed_refl];
    unfold next_thread; rewrite list_insert_id; done.
Qed.
End step.

Section cases.
Variables (ths : list thread) (sh : shared (B := B)) (st : MemoryMessageStore B) (i : nat).
Variables (e : store_event) (calls : list store_event).
Hypothesis Hok : config_ok ths sh.
Hypothesis Hrep : represents ths sh st.
Hypothesis Hdelete : is_delete e = false.

Abbreviation running p := (ths !! i = Some (mkThread (e :: calls) p)).
Abbreviation amounts p := (amounts_to ths sh st i e calls p).
Abbreviation simulates p := (simulated ths sh st i e calls p).

(** The first step of a call. *)
Lemma idle_sim : running Idle -> simulates Idle.
Proof.
  intros Hi. exists (first_step e sh). split; [by destruct e|]. unfold first_step.
  pose proof (sh_unlocked _ (cf_shared _ _ Hok)) as Hlock.
  assert (forall p' ans, thread_ok sh (next_thread e calls p' ans) ->
    held (next_thread e calls p' ans) = None -> assigned (next_thread e calls p' ans) = None ->
    moved ths sh i (next_thread e calls p' ans) sh st) as Hmove.
  { intros p' ans Hth Hh Ha. eapply move_sim; try done.
    intros e' Hin. exact (still_todo _ _ _ _ _ Hin). }
  assert (forall a, names sh !! event_topic e = Some a -> amounts Idle [] (Located a, None, sh)) as Hloc.
  { intros a Hn. apply silent_amounts; [|done|done]. by apply Hmove. }
  assert (forall ans, store_answer st e = ans -> store_step st e = st ->
    amounts Idle [Whole e] (Idle, Some ans, sh)) as Hret.
  { intros ans Hans Hst. apply whole_amounts; [done..|]. rewrite Hst. by apply Hmove. }
  pose proof (rp_topics _ _ _ Hrep (event_topic e)) as Htop. pose proof (rp_dlq _ _ _ Hrep) as Hd.
  destruct e as [t|t|t payload ttl now1 now2|t consumer max g now steady|t consumer k g|t max|t s|t now];
    try done; cbn [event_topic step_pieces] in *; unfold lookup_step; rewrite ?Hlock;
    lazymatch goal with
    | |- context [names sh !! t] => destruct (names sh !! t) as [a|] eqn:Hn; [try by apply Hloc|
        try (apply Hret; cbn; unfold Pull, Ack; by rewrite ?Htop)]
    | _ => idtac
    end.
  - destruct Htop as (td & td' & _ & Htd' & _). apply Hret; cbn; unfold CreateTopic; by rewrite Htd'.
  - destruct (allocate_sim ths sh st i _ (next_thread (EvCreate t) calls Idle (Some (AFlag true))) t
      Hok Hrep Hi eq_refl eq_refl eq_refl eq_refl) as [Hm Hans]; [by right|done|done|].
    apply whole_amounts; [done..| |done]. cbn. by rewrite Hans.
  - destruct (allocate_sim ths sh st i _
      (next_thread (EvPublish t payload ttl now1 now2) calls (Located (next_addr sh)) None) t
      Hok Hrep Hi eq_refl eq_refl eq_refl eq_refl) as [Hm _]; [done|done| |].
    { unfold thread_ok. cbn. by rewrite lookup_insert_eq. }
    split; [done|done|]. cbn. constructor; [done|constructor].
  - destruct (sh_dlq sh !! MakeDlqName t) as [dlq|] eqn:Hq.
    2:{ apply Hret; cbn; unfold PullDlq; by rewrite Hd, Hq. }
    apply whole_amounts; [done..| |]; cbn; unfold PullDlq; rewrite Hd, Hq; [done|].
    apply dlq_sim. by apply Hmove.
Qed.

(** Taking the topic's mutex. *)
Lemma lock_sim a td p' : running (Located a) -> names sh !! event_topic e = Some a ->
  heap sh !! a = Some td -> owner sh !! a = None ->
  held (mkThread (e :: calls) p') = Some a -> assigned (mkThread (e :: calls) p') = None ->
  not_run (mkThread (e :: calls) p') = e :: calls ->
  pending_answer sh i (mkThread (e :: calls) p') = [] ->
  thread_ok sh (mkThread (e :: calls) p') ->
  thread_view (sh_timeout sh) (mkThread (e :: calls) p') td = td ->
  amounts (Located a) [] (p', None, set_owner (<[a := i]> (owner sh)) sh).
Proof.
  intros Hi Hname Ha Hfree Hh Has Hn Hp Hth Hv. apply silent_amounts; [|done|done].
  rewrite <- (update_same a td _ sh Ha).
  eapply (silent_sim ths sh st i (mkThread (e :: calls) (Located a))); try done.
  - unfold next_thread. rewrite Hh. by constructor.
  - rewrite update_same by done. exact Hth.
Qed.

(** Work on the topic of a call that finds its mutex free. *)
Lemma work_sim {R} (f : TopicData B -> R * TopicData B) a td ans : running (Located a) ->
  names sh !! event_topic e = Some a -> heap sh !! a = Some td -> owner sh !! a = None ->
  next_free f ->
  (forall td', topics_ st !! event_topic e = Some td' -> (f td').1 = (f td).1 ->
     store_answer st e = ans /\ store_step st e = with_topics (insert (event_topic e) (f td').2) st) ->
  amounts (Located a) [Whole e] (Idle, Some ans, set_heap a (f td).2 sh).
Proof.
  intros Hi Hname Ha Hfree Hf Hatomic.
  destruct (topic_sim f ths sh st i _ (next_thread e calls Idle (Some ans)) (event_topic e) a td
    (f td).2 (owner sh) (sh_dlq sh) Hok Hrep Hi Hname Ha Hf) as (td' & Htd' & Hres & Hm); try done.
  - by right.
  - by constructor.
  - by apply next_free_keeps.
  - destruct (Hatomic td' Htd' Hres) as [Hans Hst]. apply whole_amounts; [done..|].
    rewrite Hst. apply Hm; [done|apply Hrep|done].
Qed.

(** A call that has located its topic. *)
Lemma located_sim a : running (Located a) -> simulates (Located a).
Proof.
  intros Hi. pose proof (cf_threads _ _ Hok _ _ Hi) as Hname. unfold thread_ok in Hname. cbn in Hname.
  destruct (present ths sh st e Hrep a Hname) as (td & Htd & td0 & Htd0).
  exists (located_step i a e td sh). split; [unfold call_step; rewrite Htd; by destruct e|].
  pose proof (wait_amounts ths sh st i e calls (Located a) Hok Hrep Hi) as Hwait.
  pose proof (lock_sim a td) as Hlock. pose proof (λ R f, @work_sim R f a td) as Hwork.
  destruct e as [t|t|t payload ttl now1 now2|t consumer max g now steady|t consumer k g|t max|t s|t now];
    try done; cbn [located_step step_pieces event_topic] in *; try case_bool_decide as Hfree;
    try exact Hwait.
  - apply silent_amounts; [|done|done].
    eapply (fetch_sim ths sh st i t payload ttl now1 now2 calls a td (Located a)); try done. by left.
  - by apply Hlock.
  - specialize (Hwork _ (ack_topic consumer k g) (AFlag (ack_topic consumer k g td).1)).
    destruct (ack_topic _ _ _ td) as [ok td1] eqn:Hack. apply Hwork; try done.
    { apply ack_next_free. }
    intros td' Htd' Hres. cbn. unfold Ack. rewrite Htd'.
    destruct (ack_topic _ _ _ td') as [ok' td2]. cbn in *. by subst.
  - destruct (scan_order s td) as [|[key es] cs] eqn:Horder.
    all: pose proof (scan_ok_start (sh_timeout sh) s td) as Hscan; rewrite Horder in Hscan.
    + apply Hlock; try done. split; [done|]. by exists td.
    + apply Hlock; try done; [split; [done|]; by exists td|]. by eapply untreated_start.
  - apply (Hwork _ (λ td, (tt, ExpireTopicMessages now td))); try done.
    intros td' Htd' _. cbn. by rewrite Htd'.
Qed.

(** A publish that has its identifier. *)
Lemma assigned_sim a id : running (Assigned a id) -> simulates (Assigned a id).
Proof.
  intros Hi. pose proof (cf_threads _ _ Hok _ _ Hi) as Hth. unfold thread_ok in Hth. cbn in Hth.
  unfold simulated.
  destruct e as [| |t payload ttl now1 now2| | | | |]; try done.
  destruct Hth as (Hname & td & Htd & Hnext).
  pose proof (push_sim ths sh st i t payload ttl now1 now2 calls a td _ Hok Hrep Htd Hi Hname
    ltac:(by right; exists id) id eq_refl Hnext) as Hpush.
  cbn [call_step step_pieces]. rewrite Htd. cbn [mbind option_bind].
  destruct (publish_topic _ _ _ _ _) as [[ok id'] td1]. destruct Hpush as [Hm Hans].
  eexists. split; [done|]. apply whole_amounts; [done..| |done]. cbn. by rewrite Hans.
Qed.

Lemma owns a p : running p -> held (mkThread (e :: calls) p) = Some a -> owner sh !! a = Some i.
Proof. intros Hi Hh. apply (cf_owner _ _ Hok). by eexists. Qed.

(** A pull that drains the ring buffer. *)
Lemma draining_sim a : running (Draining a) -> simulates (Draining a).
Proof.
  intros Hi. pose proof (owns a _ Hi eq_refl) as Howner.
  pose proof (cf_threads _ _ Hok _ _ Hi) as Hname. unfold thread_ok in Hname. cbn in Hname.
  pose proof (present ths sh st e Hrep a) as Hpresent. unfold simulated.
  destruct e as [| | |t consumer max g now steady| | | |]; try done.
  destruct (Hpresent Hname) as (td & Htd & _).
  cbn [call_step step_pieces]. rewrite Htd. cbn [mbind option_bind].
  pose proof (λ R f p', @topic_sim B R f ths sh st i _
    (next_thread (EvPull t consumer max g now steady) calls p' None) t a td (drain_step td).2
    (owner sh) (sh_dlq sh) Hok Hrep Hi Hname Htd) as Hsim.
  pose proof (next_free_keeps _ td drain_next_free) as Hnext.
  destruct (drain_step td).1 eqn:Hmore.
  - exists (Draining a, None, set_heap a (drain_step td).2 sh).
    split; [destruct (drain_step td) as [more td1]; cbn in Hmore; by rewrite Hmore|].
    destruct (Hsim _ drain_step (Draining a) drain_next_free) as (td' & Htd' & Hres & Hm); try done;
      [by apply mx_keep|].
    split; [|done|cbn; constructor; [done|constructor]].
    cbn [piece_run foldl piece_step fst snd]. rewrite Htd', <- drain_step_one.
    apply Hm; [done|apply Hrep|done].
  - exists (Drained a, None, set_heap a (drain_step td).2 sh).
    split; [destruct (drain_step td) as [more td1]; cbn in Hmore; by rewrite Hmore|].
    destruct (Hsim _ (pull_last consumer max g now steady) (Drained a)
      (pull_last_next_free consumer max g now steady)) as (td' & Htd' & Hres & Hm); try done.
    { by apply mx_keep. }
    { by rewrite pull_last_unfold. }
    change (thread_view _ _ td) with td in Hres. rewrite !pull_last_unfold, Hmore in Hres.
    cbn [fst snd] in Hres. injection Hres as Hmore' Hres.
    pose proof (pull_last_spec consumer max g now steady td' Hmore') as Hpull.
    rewrite (pull_last_unfold _ _ _ _ _ td') in Hpull. cbn [fst snd] in Hpull.
    assert (store_answer st (EvPull t consumer max g now steady) =
      AMessages (pull_drained consumer max g now steady (drain_step td).2).1) as Hans.
    { cbn. unfold Pull. rewrite Htd', Hpull. cbn. by rewrite Hres. }
    split; [| |cbn; constructor; constructor].
    + cbn [piece_run foldl piece_step store_step fst snd]. unfold Pull. rewrite Htd', Hpull.
      apply Hm; [by rewrite pull_last_unfold|apply Hrep|done].
    + unfold pending_answer. cbn [at_pc todo next_thread returned fst snd heap set_heap app fmap list_fmap].
      rewrite lookup_insert_eq. cbn [answered app]. by rewrite Hans.
Qed.

(** A pull that returns. *)
Lemma drained_sim a : running (Drained a) -> simulates (Drained a).
Proof.
  intros Hi. pose proof (owns a _ Hi eq_refl) as Howner.
  pose proof (cf_threads _ _ Hok _ _ Hi) as Hname. unfold thread_ok in Hname. cbn in Hname.
  pose proof (present ths sh st e Hrep a) as Hpresent. unfold simulated.
  destruct e as [| | |t consumer max g now steady| | | |]; try done.
  destruct (Hpresent Hname) as (td & Htd & _).
  cbn [call_step step_pieces]. rewrite Htd. cbn [mbind option_bind].
  destruct (pull_drained consumer max g now steady td) as [result td1] eqn:Hpull.
  eexists. split; [done|]. split; [| |constructor].
  - cbn [fst snd piece_run foldl].
    change (set_owner _ _) with (update a td1 (delete a (owner sh)) (sh_dlq sh) sh).
    eapply (silent_sim ths sh st i _ _ t a td td1); try done.
    + by right.
    + by apply mx_unlock.
    + pose proof (next_free_keeps _ td (front_next _ (pull_drained_front consumer max g now steady)))
        as Hnext. by rewrite Hpull in Hnext.
    + cbn. by rewrite Hpull.
  - unfold pending_answer. cbn. by rewrite Htd, Hpull.
Qed.

(** The steps of a scan. *)
Section scan.
Variables (t : TopicName) (s : scan) (a : nat) (td : TopicData B).
Variable (consumers : list (string * list (MessageId * PendingMessage))).
Hypothesis He : e = EvRetry t s.
Hypothesis Hi : running (Scanning a consumers).
Hypothesis Hname : names sh !! t = Some a.
Hypothesis Htd : heap sh !! a = Some td.
Hypothesis Hscan : scan_ok (sh_timeout sh) s td consumers.

Abbreviation scans := (amounts (Scanning a consumers)
  (step_pieces e (Scanning a consumers) sh) (scan_step a s consumers td sh)).

Lemma scan_entry_sim key id p es cs : consumers = (key, (id, p) :: es) :: cs -> scans.
Proof.
  intros Hcs. pose proof (owns a _ Hi eq_refl) as Howner. rewrite Hcs in *. rewrite He in *.
  destruct (scan_ok_entry _ _ _ _ _ _ _ _ Hscan) as (Hscan' & pm & Hpm & Hp & Hid).
  pose proof (scan_one_view (sh_max_retry sh) (sh_timeout sh) s key id p es (sh_dlq sh) td pm
    Hpm Hp Hid) as Hview.
  cbn [step_pieces scan_step].
  destruct (retry_one _ _ _ _ _ _ _) as [queue dlq].
  destruct (topic_sim (scan_one (sh_max_retry sh) (sh_timeout sh) s key id (sh_dlq sh)) ths sh st i _
    (next_thread (EvRetry t s) calls (Scanning a ((key, es) :: cs)) None) t a td (with_queue queue td)
    (owner sh) dlq Hok Hrep Hi Hname Htd) as (td' & Htd' & Hres & Hm); try done.
  - apply scan_one_next_free.
  - by apply mx_keep.
  - split; [done|]. exists (with_queue queue td). cbn [heap update set_sh_dlq set_owner set_heap].
    rewrite lookup_insert_eq. split; [done|]. by apply (scan_ok_acks _ _ td).
  - cbn [thread_view at_pc todo next_thread]. by rewrite Hview.
  - cbn [thread_view at_pc todo] in Hres. rewrite Hview in Hres.
    pose proof Hrep as [_ Hd _ Hr Ht].
    split; [|done|cbn; constructor; [done|constructor]].
    cbn [piece_run foldl piece_step fst snd]. rewrite Htd', Hr, Ht, Hd.
    destruct (scan_one _ _ _ _ _ _ td') as [dlq' td2]. cbn [fst snd] in *. subst dlq'.
    by apply Hm.
Qed.

Lemma scan_consumer_sim key cs : consumers = (key, []) :: cs -> scans.
Proof.
  intros Hcs. pose proof (owns a _ Hi eq_refl) as Howner. rewrite Hcs in *. rewrite He in *.
  destruct (scan_ok_consumer _ _ _ _ _ Hscan) as [Hscan' Heq].
  cbn [step_pieces scan_step]. apply silent_amounts; [|done|done].
  eapply (silent_sim ths sh st i _ _ t a td (erase_timed_out (sh_timeout sh) s key td) (owner sh));
    try done.
  - by apply mx_keep.
  - split; [done|]. eexists. cbn [heap update set_sh_dlq set_owner set_heap].
    rewrite lookup_insert_eq. by split.
  - cbn [thread_view at_pc todo next_thread]. rewrite <- Heq.
    destruct cs as [|[key' es'] cs]; [done|]. by apply untreated_consumer in Hscan.
Qed.

Lemma scan_end_sim : consumers = [] -> scans.
Proof.
  intros Hcs. pose proof (owns a _ Hi eq_refl) as Howner. rewrite Hcs in *. rewrite He in *.
  cbn [step_pieces scan_step].
  assert (retry_step (sh_max_retry sh) (sh_timeout sh) s (sh_dlq sh) td =
    (sh_dlq sh, with_pending (drop_empty (pending_acks td)) td)) as Hretry.
  { apply retry_nothing. intros key id p Hp. destruct (timed_out _ _ p) eqn:Ht; [|done].
    pose proof (so_done _ _ _ _ Hscan key id p Hp Ht) as Hin. by apply elem_of_nil in Hin. }
  change (set_owner _ _) with (update a (with_pending (drop_empty (pending_acks td)) td)
    (delete a (owner sh)) (sh_dlq sh) sh).
  destruct (topic_sim (retry_step (sh_max_retry sh) (sh_timeout sh) s (sh_dlq sh)) ths sh st i _
    (next_thread (EvRetry t s) calls Idle (Some ADone)) t a td
    (with_pending (drop_empty (pending_acks td)) td) (delete a (owner sh)) (sh_dlq sh)
    Hok Hrep Hi Hname Htd (retry_next_free _ _ _ _)) as (td' & Htd' & Hres & Hm); try done.
  - by right.
  - by apply mx_unlock.
  - cbn [thread_view at_pc todo]. by rewrite Hretry.
  - cbn [thread_view at_pc todo] in Hres. rewrite Hretry in Hres.
    apply whole_amounts; [done..|]. pose proof Hrep as [_ Hd _ Hr Ht].
    cbn [store_step]. unfold retry_topic. rewrite Htd', Hr, Ht, Hd. unfold retry_step in *.
    destruct (ProcessPendingRetries _ _ _ _ _ _ td' _) as [td2 dlq2]. cbn [fst snd] in *. subst dlq2.
    by apply Hm.
Qed.
End scan.

Lemma scanning_sim a consumers : running (Scanning a consumers) -> simulates (Scanning a consumers).
Proof.
  intros Hi. pose proof (cf_threads _ _ Hok _ _ Hi) as Hth. unfold thread_ok in Hth. cbn in Hth.
  assert (exists t s, e = EvRetry t s) as (t & s & He) by (destruct e; eauto; done).
  rewrite He in Hth. destruct Hth as (Hname & td & Htd & Hscan).
  exists (scan_step a s consumers td sh). split.
  - unfold call_step. rewrite He, Htd. done.
  - destruct consumers as [|[key [|[id p] es]] cs].
    + by eapply scan_end_sim.
    + by eapply scan_consumer_sim.
    + by eapply scan_entry_sim.
Qed.

(** Every step of a call that deletes nothing. *)
Lemma call_sim p : running p -> simulates p.
Proof.
  intros Hi. destruct p as [|a|a id|a|a|a consumers|].
  - by apply idle_sim.
  - by apply located_sim.
  - by apply assigned_sim.
  - by apply draining_sim.
  - by apply drained_sim.
  - by apply scanning_sim.
  - pose proof (cf_threads _ _ Hok _ _ Hi) as Hth. by unfold thread_ok in Hth.
Qed.
End cases.

(** ** Schedules *)

Definition pieces_of (i : nat) (xs : list (nat * piece)) : list piece :=
  (filter (λ x, x.1 = i) xs).*2.
Definition answers_of (i : nat) (hist : list (nat * store_event * answer))
    : list (nat * store_event * answer) :=
  filter (λ x, x.1.1 = i) hist.

Lemma answers_of_all i hist : Forall (λ x, x.1.1 = i) hist -> answers_of i hist = hist.
Proof.
  intros Hall. unfold answers_of. induction Hall as [|x hist Hx _ IH]; [done|].
  by rewrite filter_cons_True, IH.
Qed.

Lemma answers_of_none i j hist : j <> i -> Forall (λ x, x.1.1 = i) hist -> answers_of j hist = [].
Proof.
  intros Hne Hall. unfold answers_of. induction Hall as [|x hist Hx _ IH]; [done|].
  rewrite filter_cons_False; [done|congruence].
Qed.

Lemma pieces_of_all i l : pieces_of i (pair i <$> l) = l.
Proof.
  unfold pieces_of. induction l as [|x l IH]; [done|].
  cbn [fmap list_fmap]. rewrite filter_cons_True by done. cbn. by rewrite IH.
Qed.

Lemma pieces_of_none i j l : j <> i -> pieces_of j (pair i <$> l) = [].
Proof.
  intros Hne. unfold pieces_of. induction l as [|x l IH]; [done|].
  cbn [fmap list_fmap]. rewrite filter_cons_False by (cbn; congruence). done.
Qed.

Lemma answered_thread st i l : Forall (λ x, x.1.1 = i) (answered st (pair i <$> l)).
Proof.
  revert st. induction l as [|x l IH]; intros st; [constructor|]. cbn.
  apply Forall_app. split; [destruct x; by repeat constructor|apply IH].
Qed.

(** From one state to a later one: the pieces in between give the answers and the
    state of the atomic store, and carry out the calls of each thread. *)
Record runs_to (st : MemoryMessageStore B) (xs : list (nat * piece))
    (hist : list (nat * store_event * answer)) (c c' : config (B := B)) : Prop := {
  ru_ok : config_ok (threads c') (memory c');
  ru_represents : represents (threads c') (memory c') (piece_run st xs.*2);
  ru_threads : forall j th, threads c !! j = Some th -> exists th', threads c' !! j = Some th' /\
    pending_answer (memory c) j th ++ answers_of j (answered st xs) =
      answers_of j hist ++ pending_answer (memory c') j th' /\
    carried_out (not_run th) (pieces_of j xs) (not_run th');
}.

Lemma runs_to_refl st c : config_ok (threads c) (memory c) ->
  represents (threads c) (memory c) st -> runs_to st [] [] c c.
Proof.
  intros Hok Hrep. split; [done|done|]. intros j th Hj. exists th. split; [done|].
  cbn. split; [by rewrite app_nil_r|constructor].
Qed.

Lemma runs_to_trans st xs1 xs2 hist1 hist2 c1 c2 c3 : runs_to st xs1 hist1 c1 c2 ->
  runs_to (piece_run st xs1.*2) xs2 hist2 c2 c3 -> runs_to st (xs1 ++ xs2) (hist1 ++ hist2) c1 c3.
Proof.
  intros [_ _ H1] [Hok Hrep H2]. split; [done| |].
  - unfold piece_run in *. by rewrite fmap_app, foldl_app.
  - intros j th Hj. destruct (H1 j th Hj) as (th2 & Hj2 & Ha1 & Hc1).
    destruct (H2 j th2 Hj2) as (th3 & Hj3 & Ha2 & Hc2). exists th3. split; [done|].
    unfold answers_of, pieces_of in *. rewrite answered_app, !filter_app, fmap_app.
    split; [|by eapply carried_out_app].
    by rewrite app_assoc, Ha1, <- !app_assoc, Ha2.
Qed.

Lemma config_step_sim st i c : config_ok (threads c) (memory c) ->
  represents (threads c) (memory c) st ->
  exists hist c', config_step i c = Some (hist, c') /\ runs_to st (thread_pieces i c) hist c c'.
Proof.
  intros Hok Hrep. destruct c as [ths sh]. cbn [threads memory] in *.
  unfold config_step, thread_pieces. cbn [threads memory].
  destruct (ths !! i) as [[[|e calls] p]|] eqn:Hi;
    [by exists [], (mkConfig ths sh); split; [|apply runs_to_refl]| |
     by exists [], (mkConfig ths sh); split; [|apply runs_to_refl]].
  pose proof (po_delete _ (cf_programs _ _ Hok) i (e :: calls)) as Hdel.
  rewrite list_lookup_fmap, Hi in Hdel. specialize (Hdel eq_refl).
  apply Forall_cons in Hdel as [Hdel _].
  destruct (call_sim ths sh st i e calls Hok Hrep Hdel p Hi) as ([[p' ans] sh'] & -> & Ham).
  destruct Ham as [[Hok' Hrep' Hothers] Hanswers Horder]. cbn [fst snd] in *.
  exists (returned i e ans), (mkConfig (<[i := next_thread e calls p' ans]> ths) sh').
  split; [by destruct ans|].
  assert (Forall (λ x, x.1.1 = i) (returned i e ans)) as Hret by (destruct ans; by repeat constructor).
  split; [done| |].
  - cbn [threads memory]. by rewrite <- list_fmap_compose, list_fmap_id.
  - cbn [threads memory]. intros j th Hj. destruct (decide (j = i)) as [->|Hne].
    + rewrite list_lookup_insert_eq by by eapply lookup_lt_Some. eexists. split; [done|].
      rewrite Hi in Hj. injection Hj as <-.
      rewrite !answers_of_all, pieces_of_all by first [done|apply answered_thread]. done.
    + rewrite list_lookup_insert_ne by done. exists th. split; [done|].
      rewrite !(answers_of_none i j), pieces_of_none by first [done|apply answered_thread].
      destruct (Hothers j th Hne Hj) as [_ Hpending]; [by eapply cf_threads|].
      rewrite Hpending, app_nil_r. split; [done|constructor].
Qed.

Lemma exec_sim schedule st c : config_ok (threads c) (memory c) ->
  represents (threads c) (memory c) st ->
  exists hist c', exec schedule c = Some (hist, c') /\
    runs_to st (linearization schedule c) hist c c'.
Proof.
  revert st c. induction schedule as [|i schedule IH]; intros st c Hok Hrep.
  { exists [], c. split; [done|]. by apply runs_to_refl. }
  cbn [exec linearization]. destruct (config_step_sim st i c Hok Hrep) as (hist1 & c1 & -> & Hrun1).
  cbn [mbind option_bind].
  destruct (IH _ c1 (ru_ok _ _ _ _ _ Hrun1) (ru_represents _ _ _ _ _ Hrun1))
    as (hist2 & c2 & -> & Hrun2).
  cbn [mbind option_bind]. eexists _, c2. split; [done|]. by eapply runs_to_trans.
Qed.

Lemma init_ok programs c maxr timeout : programs_ok programs ->
  let cfg := init (B := B) programs c maxr timeout in
  config_ok (threads cfg) (memory cfg) /\
  represents (threads cfg) (memory cfg) (MemoryMessageStore_new c maxr timeout).
Proof.
  intros Hp. cbn [threads memory init]. split; [|by split]. split.
  - by split.
  - intros i th Hi. apply list_lookup_fmap_Some in Hi as (calls & -> & _). done.
  - intros a i. split; [done|]. intros (th & Hi & Hh).
    apply list_lookup_fmap_Some in Hi as (calls & -> & _). done.
  - rewrite <- list_fmap_compose.
    replace (compose todo (λ calls, mkThread calls Idle) <$> programs) with programs; [done|].
    by rewrite (list_fmap_ext _ id), list_fmap_id.
Qed.

Lemma linearization_prefix schedule schedule' c :
  linearization schedule c `prefix_of` linearization (schedule ++ schedule') c.
Proof.
  revert c. induction schedule as [|i schedule IH]; intros c; [apply prefix_nil|].
  cbn [app linearization]. apply prefix_app. destruct (config_step i c) as [[hist c']|]; [apply IH|].
  apply prefix_nil.
Qed.

(** ** Property *)

(** C14: the store is linearizable, piece by piece.  When no thread deletes topics
    and each topic has one publishing thread, every schedule of the threads' steps
    (a push, a pop, one pending message of a scan, work under a topic's mutex)
    touches no freed memory, and its steps amount to a sequence of pieces:
    whole calls, and before some of them parts of the same call (the topic a
    publish finds missing, single pops of a pull, single messages of a scan).  The
    pieces of each thread carry out its calls in order; the atomic operations of
    [Store], run in that sequence, give the answers that the calls of each thread
    return, at most one of them (a pull's) not returned yet; the sequence only
    grows with the schedule, hence each piece lies within its call; the dead
    letters are those of the sequential run, and so are the topics once no call is
    under way. *)
Theorem store_linearizable programs schedule c maxr timeout : programs_ok programs ->
  let st0 := MemoryMessageStore_new c maxr timeout in
  let c0 := init (B := B) programs c maxr timeout in
  let xs := linearization schedule c0 in
  exists hist cfg, exec schedule c0 = Some (hist, cfg) /\
    (forall i calls, programs !! i = Some calls -> exists th rest late,
       threads cfg !! i = Some th /\
       carried_out calls (pieces_of i xs) rest /\
       answers_of i (answered st0 xs) = answers_of i hist ++ late /\ (length late <= 1)%nat /\
       (at_pc th = Idle -> rest = todo th /\ late = [])) /\
    (forall schedule', xs `prefix_of` linearization (schedule ++ schedule') c0) /\
    dlq_storage_ (piece_run st0 xs.*2) = sh_dlq (memory cfg) /\
    (Forall (λ th, at_pc th = Idle) (threads cfg) -> forall t,
       topics_ (piece_run st0 xs.*2) !! t = a ← names (memory cfg) !! t; heap (memory cfg) !! a).
Proof.
  intros Hp. cbv zeta. destruct (init_ok programs c maxr timeout Hp) as [Hok Hrep].
  destruct (exec_sim schedule _ _ Hok Hrep) as (hist & cfg & Hexec & Hrun).
  exists hist, cfg. split; [exact Hexec|].
  destruct Hrun as [Hok' [Htop Hdlq _ _ _] Hthreads].
  split; [|split; [intros schedule'; apply linearization_prefix|split; [exact Hdlq|]]].
  - intros i calls Hi. destruct (Hthreads i (mkThread calls Idle)) as (th & Hth & Hans & Horder).
    { cbn. by rewrite list_lookup_fmap, Hi. }
    exists th, (not_run th), (pending_answer (memory cfg) i th).
    split; [done|]. split; [done|]. split; [done|]. unfold pending_answer, not_run. split.
    + destruct (at_pc th), (todo th) as [|[] ?]; cbn; try lia. destruct (heap _ !! _); cbn; lia.
    + by intros ->.
  - intros Hidle t. specialize (Htop t).
    assert (forall i th, threads cfg !! i = Some th -> at_pc th = Idle) as Hpc.
    { intros i th Hi. rewrite Forall_forall in Hidle. apply Hidle. by eapply list_elem_of_lookup_2. }
    destruct (names (memory cfg) !! t) as [a|]; [|done].
    destruct Htop as (td & td' & Htd & Htd' & _ & Hseen). cbn. rewrite Htd, Htd'. f_equal.
    rewrite Hseen; [|by intros id (i & th & Hi & Hat); rewrite (Hpc i th Hi) in Hat].
    apply view_free. destruct (owner (memory cfg) !! a) as [i|] eqn:Ho; [|done]. exfalso.
    apply (cf_owner _ _ Hok') in Ho as (th & Hi & Hheld). unfold held in Hheld.
    by rewrite (Hpc i th Hi) in Hheld.
Qed.
End linearizable.

(** ** Witness *)

Definition one_producer : list (list store_event) :=
  [[EvPublish "t" [Byte.x61] 0 0 0; EvPublish "t" [Byte.x62] 0 0 0];
   [EvPull "t" "s" 10 false 0 steady_zero;
    EvRetry "t" (mkScan key_order key_order 10000000000 0)]].

(** The second publish takes its identifier and pushes while the pull drains. *)
Definition interleaved : list nat := [0; 0; 0; 1; 1; 1; 0; 0; 0; 1; 1; 1; 1; 1; 1; 1; 1; 1]%nat.

Lemma one_producer_ok : programs_ok one_producer.
Proof.
  split.
  - intros i calls Hi. destruct i as [|[|[|i]]]; cbn in Hi; simplify_eq; by repeat constructor.
  - intros i j c1 c2 t Hi Hj (e1 & He1 & Hp1) (e2 & He2 & Hp2).
    destruct i as [|[|[|i]]], j as [|[|[|j]]]; cbn in Hi, Hj; simplify_eq; try done;
      set_unfold in He1; set_unfold in He2; naive_solver.
Qed.

Example interleaved_pieces :
  linearization interleaved (init (B := SpscRingBuffer) one_producer 200 3 5000) =
  let scan := mkScan key_order key_order 10000000000 0 in
  [(0, NewTopic "t"); (0, Whole (EvPublish "t" [Byte.x61] 0 0 0)); (1, DrainOne "t");
   (0, Whole (EvPublish "t" [Byte.x62] 0 0 0)); (1, DrainOne "t");
   (1, Whole (EvPull "t" "s" 10 false 0 steady_zero));
   (1, ScanOne "t" scan "sub:s" 2); (1, ScanOne "t" scan "sub:s" 1);
   (1, Whole (EvRetry "t" scan))]%nat.
Proof. vm_compute. reflexivity. Qed.

Lemma store_linearizable_witness : exists hist cfg th rest late,
  exec (B := SpscRingBuffer) interleaved (init one_producer 200 3 5000) = Some (hist, cfg) /\
  threads cfg !! 1%nat = Some th /\
  carried_out [EvPull "t" "s" 10 false 0 steady_zero;
               EvRetry "t" (mkScan key_order key_order 10000000000 0)]
    (pieces_of 1 (linearization (B := SpscRingBuffer) interleaved (init one_producer 200 3 5000)))
    rest /\
  answers_of 1 (answered (B := SpscRingBuffer) (MemoryMessageStore_new 200 3 5000)
    (linearization interleaved (init one_producer 200 3 5000))) = answers_of 1 hist ++ late.
Proof.
  destruct (store_linearizable (B := SpscRingBuffer) one_producer interleaved 200 3 5000
    one_producer_ok) as (hist & cfg & Hexec & Hthreads & _).
  destruct (Hthreads 1%nat _ eq_refl) as (th & rest & late & Hth & Horder & Hans & _).
  exists hist, cfg, th, rest, late. split; [exact Hexec|]. split; [exact Hth|].
  split; [exact Horder|exact Hans].
Defined.
