(* ===== verification/StoreThreads.v ===== *)
(** * The store's background threads: [storage/memory_message_store.cpp]

    The retry and the expiration thread, from the constructor to the end of the
    destructor, as a transition system: locking, waiting on a condition variable
    with a timeout, the stop flag, notifying and joining.  What a scan does to a
    topic is in [Store]; here it is a step. *)

From S2P Require Import Prelude.
#[local] Open Scope nat_scope.

(** ** One loop *)

(** Where [RetryLoop] or [ExpirationLoop] is.  [wait_for] with a predicate tests
    it with the mutex held, then goes to sleep, releasing the mutex as it does so,
    and takes the mutex again when it is woken; after a timeout it returns, otherwise it tests again. *)
Inductive loop_pc :=
  | L_lock
  | L_test
  | L_block
  | L_wait
  | L_relock (timed_out : bool)
  | L_check
  | L_scan (topics : nat)
  | L_exit.

(** With whether the mutex it waits with ([retry_mutex_], [expiration_mutex_]) is
    held, by the loop or by the destructor. *)
Record loop := mkLoop { at_ : loop_pc; locked : bool }.

(** A step of the running thread; [topics] is the number of topics there are
    when a scan starts.  [None] if the thread is blocked or has ended. *)
Definition loop_step (stop : bool) (topics : nat) (l : loop) : option loop :=
  match at_ l with
  | L_lock => if locked l then None else Some (mkLoop L_test true)
  | L_test => Some (mkLoop (if stop then L_check else L_block) true)
  | L_block => Some (mkLoop L_wait false)
  | L_wait => None
  | L_relock timed_out =>
      if locked l then None else Some (mkLoop (if timed_out then L_check else L_test) true)
  | L_check => Some (if stop then mkLoop L_exit false else mkLoop (L_scan topics) true)
  | L_scan 0 => Some (mkLoop L_lock false)
  | L_scan (S topics) => Some (mkLoop (L_scan topics) true)
  | L_exit => None
  end.

(** The waiting thread is woken: by its timeout, or by a notification or
    spuriously. *)
Definition loop_wake (timed_out : bool) (l : loop) : option loop :=
  match at_ l with
  | L_wait => Some (mkLoop (L_relock timed_out) (locked l))
  | _ => None
  end.

(** [notify_all] wakes the thread if it waits. *)
Definition notify_all (l : loop) : loop := default l (loop_wake false l).

(** ** The store's threads and its destructor *)

Inductive destructor_pc :=
  | D_lock | D_set | D_unlock | D_notify_retry | D_notify_expiration
  | D_join_retry | D_join_expiration | D_done.

Record threads := mkThreads {
  stop_background_threads_ : bool;
  retry_ : loop;
  expiration_ : loop;
  destructor_ : destructor_pc;
}.

(** Both threads have been started. *)
Definition threads_new : threads :=
  mkThreads false (mkLoop L_lock false) (mkLoop L_lock false) D_lock.

Definition ended (l : loop) : bool := match at_ l with L_exit => true | _ => false end.

Definition destructor_step (s : threads) : option threads :=
  let '(mkThreads stop r e pc) := s in
  match pc with
  | D_lock => if locked r then None else Some (mkThreads stop (mkLoop (at_ r) true) e D_set)
  | D_set => Some (mkThreads true r e D_unlock)
  | D_unlock => Some (mkThreads stop (mkLoop (at_ r) false) e D_notify_retry)
  | D_notify_retry => Some (mkThreads stop (notify_all r) e D_notify_expiration)
  | D_notify_expiration => Some (mkThreads stop r (notify_all e) D_join_retry)
  | D_join_retry => if ended r then Some (mkThreads stop r e D_join_expiration) else None
  | D_join_expiration => if ended e then Some (mkThreads stop r e D_done) else None
  | D_done => None
  end.

Inductive thread_event :=
  | RunRetry (topics : nat)
  | RunExpiration (topics : nat)
  | WakeRetry (timed_out : bool)
  | WakeExpiration (timed_out : bool)
  | RunDestructor.

Definition threads_step (ev : thread_event) (s : threads) : option threads :=
  let '(mkThreads stop r e pc) := s in
  match ev with
  | RunRetry topics => r ← loop_step stop topics r; Some (mkThreads stop r e pc)
  | RunExpiration topics => e ← loop_step stop topics e; Some (mkThreads stop r e pc)
  | WakeRetry timed_out => r ← loop_wake timed_out r; Some (mkThreads stop r e pc)
  | WakeExpiration timed_out => e ← loop_wake timed_out e; Some (mkThreads stop r e pc)
  | RunDestructor => destructor_step s
  end.

Fixpoint threads_run (evs : list thread_event) (s : threads) : option threads :=
  match evs with
  | [] => Some s
  | ev :: evs => s ← threads_step ev s; threads_run evs s
  end.

(** ** The invariant *)

(** The loop holds its mutex between [wait_for] and the end of a scan. *)
Definition loop_holds (pc : loop_pc) : bool :=
  match pc with L_test | L_block | L_check | L_scan _ => true | _ => false end.

Definition destructor_holds (pc : destructor_pc) : bool :=
  match pc with D_set | D_unlock => true | _ => false end.

(** The order of the destructor's statements. *)
Definition progress (pc : destructor_pc) : nat :=
  match pc with
  | D_lock => 0 | D_set => 1 | D_unlock => 2 | D_notify_retry => 3 | D_notify_expiration => 4
  | D_join_retry => 5 | D_join_expiration => 6 | D_done => 7
  end.

(** The mutexes exclude; the flag is set by the destructor; the retry thread
    does not sleep once it has been notified, since the flag was set with its
    mutex held; threads end only when told, and are joined when ended. *)
Record threads_ok (s : threads) : Prop := {
  to_retry : locked (retry_ s) = loop_holds (at_ (retry_ s)) || destructor_holds (destructor_ s);
  to_exclusive : loop_holds (at_ (retry_ s)) && destructor_holds (destructor_ s) = false;
  to_expiration : locked (expiration_ s) = loop_holds (at_ (expiration_ s));
  to_stop : stop_background_threads_ s = (2 <=? progress (destructor_ s));
  to_told : 2 <= progress (destructor_ s) -> at_ (retry_ s) <> L_block;
  to_awake : 4 <= progress (destructor_ s) -> at_ (retry_ s) <> L_wait;
  to_told_retry : ended (retry_ s) = true -> stop_background_threads_ s = true;
  to_told_expiration : ended (expiration_ s) = true -> stop_background_threads_ s = true;
  to_joined_retry : 6 <= progress (destructor_ s) -> ended (retry_ s) = true;
  to_joined_expiration : 7 <= progress (destructor_ s) -> ended (expiration_ s) = true;
}.

Lemma threads_new_ok : threads_ok threads_new.
Proof. by split; cbn; lia. Qed.

(** Closes the cases of a step once all program counters are known. *)
Ltac threads_case :=
  cbn in *; simplify_eq/=; try done;
  split; cbn; intros; try done; try lia; naive_solver lia.

Lemma threads_step_ok ev s s' : threads_ok s -> threads_step ev s = Some s' -> threads_ok s'.
Proof.
  destruct s as [stop [rpc rl] [epc el] pc]. intros [H1 H2 H3 H4 H5 H6 H7 H8 H9 H10] Hstep.
  cbn in *. subst rl el stop.
  destruct ev as [k|k|t|t|]; cbn in Hstep.
  - destruct rpc as [| | | |[]| |[|k']|], pc; threads_case.
  - destruct epc as [| | | |[]| |[|k']|], pc; threads_case.
  - destruct rpc, pc; threads_case.
  - destruct epc, pc; threads_case.
  - destruct pc, rpc, epc; threads_case.
Qed.

Lemma threads_run_ok evs s s' : threads_ok s -> threads_run evs s = Some s' -> threads_ok s'.
Proof.
  revert s. induction evs as [|ev evs IH]; intros s Hs Hrun; cbn in Hrun; [by simplify_eq|].
  destruct (threads_step ev s) as [s1|] eqn:E; [|done]. eapply IH; [|exact Hrun].
  by eapply threads_step_ok.
Qed.

(** The states the store's threads can reach. *)
Definition threads_reachable (s : threads) : Prop :=
  exists evs, threads_run evs threads_new = Some s.

Lemma threads_reachable_ok s : threads_reachable s -> threads_ok s.
Proof. intros [evs Hrun]. eapply threads_run_ok; [apply threads_new_ok|exact Hrun]. Qed.

(** ** Termination *)

(** Steps a loop still takes once the stop flag is set. *)
Definition loop_work (pc : loop_pc) : nat :=
  match pc with
  | L_exit => 0 | L_check => 1 | L_test => 2 | L_lock => 3 | L_relock _ => 3 | L_wait => 4
  | L_block => 5
  | L_scan topics => 4 + topics
  end.

Definition work_left (s : threads) : nat :=
  loop_work (at_ (retry_ s)) + loop_work (at_ (expiration_ s)) + (7 - progress (destructor_ s)).

(** Once the flag is set every step, spurious wake-ups included, is progress. *)
Lemma step_makes_progress ev s s' : threads_ok s -> stop_background_threads_ s = true ->
  threads_step ev s = Some s' ->
  work_left s' < work_left s /\ stop_background_threads_ s' = true.
Proof.
  destruct s as [stop [rpc rl] [epc el] pc]. intros [H1 _ H3 _ _ _ _ _ _ _] Hs Hstep. cbn in *.
  subst stop rl el. unfold work_left. destruct ev as [k|k|t|t|]; cbn in Hstep.
  - destruct rpc as [| | | |[]| |[|k']|], pc; cbn in *; simplify_eq/=; split; done || lia.
  - destruct epc as [| | | |[]| |[|k']|], pc; cbn in *; simplify_eq/=; split; done || lia.
  - destruct rpc, pc; cbn in *; simplify_eq/=; split; done || lia.
  - destruct epc, pc; cbn in *; simplify_eq/=; split; done || lia.
  - destruct pc, rpc, epc; cbn in *; simplify_eq/=; split; done || lia.
Qed.

(** Both threads have ended and been joined. *)
Definition destroyed (s : threads) : Prop :=
  destructor_ s = D_done /\ ended (retry_ s) = true /\ ended (expiration_ s) = true.

(** No deadlock. *)
Lemma stuck_destroyed s : threads_ok s -> (forall ev, threads_step ev s = None) -> destroyed s.
Proof.
  destruct s as [stop [rpc rl] [epc el] pc]. intros [H1 H2 H3 H4 H5 H6 H7 H8 H9 H10] Hstuck.
  pose proof (Hstuck (RunRetry 0)) as Sr. pose proof (Hstuck (RunExpiration 0)) as Se.
  pose proof (Hstuck (WakeRetry true)) as Wr. pose proof (Hstuck (WakeExpiration true)) as We.
  pose proof (Hstuck RunDestructor) as Sd. clear Hstuck. cbn in *. subst rl el stop.
  unfold destroyed. cbn.
  destruct rpc as [| | | |t| |[|k]|]; cbn in *; try done;
    destruct epc as [| | | |t'| |[|k']|]; cbn in *; try done;
    destruct pc; cbn in *; try done; naive_solver lia.
Qed.

Lemma run_makes_progress evs s s' : threads_ok s -> stop_background_threads_ s = true ->
  threads_run evs s = Some s' -> length evs + work_left s' <= work_left s.
Proof.
  revert s. induction evs as [|ev evs IH]; intros s Hs Hstop Hrun; cbn in Hrun.
  { simplify_eq. cbn. lia. }
  destruct (threads_step ev s) as [s1|] eqn:E; [|done]. cbn in Hrun.
  destruct (step_makes_progress ev s s1 Hs Hstop E) as [Hlt Hstop1].
  pose proof (IH s1 (threads_step_ok _ _ _ Hs E) Hstop1 Hrun). cbn [length]. lia.
Qed.

(** Topics a scan under way has still to visit. *)
Definition scan_left (l : loop) : nat := match at_ l with L_scan topics => topics | _ => 0 end.

Lemma work_left_bound s : 2 <= progress (destructor_ s) ->
  work_left s <= 15 + scan_left (retry_ s) + scan_left (expiration_ s).
Proof.
  unfold work_left, scan_left. destruct (at_ (retry_ s)), (at_ (expiration_ s)); cbn; lia.
Qed.

(** ** Properties *)

(** The expiration thread tests the flag before it is set and goes to sleep after
    it is notified. *)
Definition missed_wakeup : list thread_event :=
  [RunExpiration 0; RunExpiration 0; RunDestructor; RunDestructor; RunDestructor; RunDestructor; RunDestructor;
   RunExpiration 0; RunRetry 0; RunRetry 0; RunRetry 0; RunDestructor].

(** C16: the store can be destroyed.  However its threads are scheduled, no state
    is a deadlock; once the stop flag is set every schedule, with whatever
    timeouts and spurious wake-ups, ends after at most fifteen steps and the
    topics that scans under way have left, with both threads ended and joined;
    and the retry thread, once notified, never sleeps again.  The expiration
    thread may: the flag is not set under the mutex it waits with, so that its
    notification can be missed, and the destructor then has to wait for its
    timeout. *)
Theorem store_destruction :
  (forall s, threads_reachable s ->
     ((forall ev, threads_step ev s = None) -> destroyed s) /\
     (stop_background_threads_ s = true -> forall evs s', threads_run evs s = Some s' ->
        length evs <= 15 + scan_left (retry_ s) + scan_left (expiration_ s)) /\
     (4 <= progress (destructor_ s) -> at_ (retry_ s) <> L_wait)) /\
  (exists s, threads_reachable s /\ destructor_ s = D_join_expiration /\
     at_ (expiration_ s) = L_wait /\
     forall ev, is_Some (threads_step ev s) <-> exists timed_out, ev = WakeExpiration timed_out).
Proof.
  split.
  - intros s Hs%threads_reachable_ok. split; [by apply stuck_destroyed|]. split.
    + intros Hstop evs s' Hrun. pose proof (run_makes_progress evs s s' Hs Hstop Hrun).
      pose proof (to_stop s Hs) as Hp. rewrite Hstop in Hp. symmetry in Hp.
      apply Nat.leb_le, work_left_bound in Hp. lia.
    + apply Hs.
  - eexists. split; [exists missed_wakeup; reflexivity|]. split; [done|]. split; [done|].
    intros ev. split.
    + intros [s' Hstep]. destruct ev as [k|k|t|t|]; try done. by exists t.
    + intros [t ->]. by eexists.
Qed.
