(* ===== verification/ServerThreads.v ===== *)
(** * The server's threads: [network/tcp_server.cpp], [network/connection.cpp]

    The accept, event and heartbeat threads and the thread that starts and stops
    the server, one access to shared state per step: file descriptors and what
    the kernel has behind them, the flag and the descriptor of each connection,
    the table under [connections_mutex_], the topic manager.  What the broker's
    handlers do is their effects: operations of the topic manager on behalf of
    the connection, answers and pushes ([OnFrameReceived_by] in [System]). *)

From S2P Require Import Prelude Types Config RingBuffer Frame StreamingCodec RateLimiter Connection.
From S2P Require Import TcpServer TopicManager Dedup Compression MessageStore Broker BrokerProps System.
#[local] Open Scope Z_scope.

(** ** Shared state *)

(** What an open descriptor refers to.  Clients are numbered in the order in
    which they are accepted. *)
Inductive resource := RListen | REpoll | RSocket (client : nat).

(** [closed_] and [fd_] of a connection, and the client it was made for. *)
Record handle := mkHandle { h_closed : bool; h_fd : Z; h_client : nat }.

Record net := mkNet {
  fds : gmap Z resource;
  listen_fd_ : Z;
  epoll_fd_ : Z;
  n_running : bool;
  handles : gmap ConnectionId handle;
  table : gset ConnectionId;
  n_next : Z;
  clients : nat;
  topics : TopicManager;
}.

Definition net_new : net := mkNet ∅ (-1) (-1) false ∅ ∅ 1 0 TopicManager_new.

Definition set_fds (f : gmap Z resource) (s : net) : net :=
  mkNet f (listen_fd_ s) (epoll_fd_ s) (n_running s) (handles s) (table s) (n_next s) (clients s)
    (topics s).
Definition set_setup (l e : Z) (r : bool) (s : net) : net :=
  mkNet (fds s) l e r (handles s) (table s) (n_next s) (clients s) (topics s).
Definition set_handles (h : gmap ConnectionId handle) (s : net) : net :=
  mkNet (fds s) (listen_fd_ s) (epoll_fd_ s) (n_running s) h (table s) (n_next s) (clients s)
    (topics s).
Definition set_table (t : gset ConnectionId) (s : net) : net :=
  mkNet (fds s) (listen_fd_ s) (epoll_fd_ s) (n_running s) (handles s) t (n_next s) (clients s)
    (topics s).
Definition set_counts (next : Z) (c : nat) (s : net) : net :=
  mkNet (fds s) (listen_fd_ s) (epoll_fd_ s) (n_running s) (handles s) (table s) next c (topics s).
Definition set_topics (tm : TopicManager) (s : net) : net :=
  mkNet (fds s) (listen_fd_ s) (epoll_fd_ s) (n_running s) (handles s) (table s) (n_next s)
    (clients s) tm.

(** A descriptor the kernel may hand out. *)
Definition free_fd (f : Z) (s : net) : bool :=
  (0 <=? f) && bool_decide (fds s !! f = None).

(** ** [Connection::Close] *)

(** The winner of the exchange closes the descriptor, resets it and runs the
    close handler. *)
Inductive closing := C_claim | C_close | C_reset | C_erase.

(** [free] tells whether [connections_mutex_] can be taken; [Some (None, _)] is
    the end of the call. *)
Definition close_step (free : bool) (c : closing) (id : ConnectionId) (s : net)
    : option (option closing * net) :=
  match handles s !! id with
  | None => Some (None, s)
  | Some h =>
      match c with
      | C_claim =>
          if h_closed h then Some (None, s)
          else Some (Some C_close, set_handles (<[id := mkHandle true (h_fd h) (h_client h)]> (handles s)) s)
      | C_close => Some (Some C_reset, if 0 <=? h_fd h then set_fds (delete (h_fd h) (fds s)) s else s)
      | C_reset => Some (Some C_erase, set_handles (<[id := mkHandle true (-1) (h_client h)]> (handles s)) s)
      | C_erase => if free then Some (None, set_table (table s ∖ {[id]}) s) else None
      end
  end.

(** ** The accept thread *)

Inductive accept_pc :=
  | A_test
  | A_accept
  | A_take (f : Z) (client : nat)
  | A_insert (id : ConnectionId)
  | A_end.

Inductive accept_answer := Client (f : Z) | NoClient | AcceptError.

(** [accept] fails if the listening socket has been closed.  What follows the
    insertion, the registration with [epoll], changes none of this state. *)
Definition accept_step (free : bool) (ans : accept_answer) (pc : accept_pc) (s : net)
    : option (accept_pc * net) :=
  match pc with
  | A_test => Some (if n_running s then A_accept else A_end, s)
  | A_accept =>
      match fds s !! listen_fd_ s, ans with
      | Some RListen, Client f =>
          if free_fd f s then
            Some (A_take f (clients s),
              set_counts (n_next s) (S (clients s)) (set_fds (<[f := RSocket (clients s)]> (fds s)) s))
          else None
      | Some RListen, NoClient => Some (A_test, s)
      | _, _ => Some (A_end, s)
      end
  | A_take f client =>
      let id := n_next s in
      Some (A_insert id,
        set_counts (u64 (id + 1)) (clients s)
          (set_handles (<[id := mkHandle false f client]> (handles s)) s))
  | A_insert id => if free then Some (A_test, set_table ({[id]} ∪ table s) s) else None
  | A_end => None
  end.

(** ** The event thread *)

(** The effects of a frame handler: on the topic manager, an answer on the
    connection, a push to a registered one. *)
Inductive effect := EffTopics (op : tm_op) | EffReply | EffSendTo (c : ConnectionId).

(** What follows the closing of a connection: the next event, or the rest of a
    handler's effects, with whether the lock is held. *)
Inductive after_close :=
  | K_event
  | K_effects (id : ConnectionId) (held : bool) (effs : list effect).

(** [evs] are the events still to be looked at. *)
Inductive event_pc :=
  | E_test
  | E_wait
  | E_next (evs : list ConnectionId)
  | E_check (id : ConnectionId) (evs : list ConnectionId)
  | E_load (id : ConnectionId) (evs : list ConnectionId)
  | E_recv (id : ConnectionId) (f : Z) (evs : list ConnectionId)
  | E_handle (id : ConnectionId) (effs : list effect) (evs : list ConnectionId)
  | E_send (id c : ConnectionId) (held : bool) (effs : list effect) (evs : list ConnectionId)
  | E_send_load (id c : ConnectionId) (held : bool) (effs : list effect) (evs : list ConnectionId)
  | E_write (id c : ConnectionId) (held : bool) (f : Z) (effs : list effect)
      (evs : list ConnectionId)
  | E_close (c : closing) (id : ConnectionId) (k : after_close) (evs : list ConnectionId)
  | E_end.

(** The answers of [epoll_wait], [recv] and [send]; [Drained effs] is the end of
    the data, and the effects of the handlers of the frames it completes. *)
Inductive event_answer :=
  | Events (evs : list ConnectionId) | WaitError
  | Bytes | Drained (effs : list effect) | Eof
  | Written | WriteError
  | Nothing.

(** On behalf of connection [c], bytes of [client] are received or sent. *)
Inductive observation :=
  | Received (c : ConnectionId) (client : nat)
  | Sent (c : ConnectionId) (client : nat).

Definition effect_by (id : ConnectionId) (e : effect) : bool :=
  match e with
  | EffTopics (OpSubscribe _ s _) => sub_conn_id s =? id
  | _ => true
  end.

(** [connections_mutex_] is held across steps during a push only. *)
Definition holds_lock (pc : event_pc) : bool :=
  match pc with
  | E_send _ _ held _ _ | E_send_load _ _ held _ _ | E_write _ _ held _ _ _
  | E_close _ _ (K_effects _ held _) _ => held
  | _ => false
  end.

Definition resume (k : after_close) (evs : list ConnectionId) : event_pc :=
  match k with
  | K_event => E_next evs
  | K_effects id _ effs => E_handle id effs evs
  end.

Definition event_step (ans : event_answer) (pc : event_pc) (s : net)
    : option (event_pc * net * list observation) :=
  match pc with
  | E_test => Some (if n_running s then E_wait else E_end, s, [])
  | E_wait =>
      match fds s !! epoll_fd_ s, ans with
      | Some REpoll, Events evs => Some (E_next evs, s, [])
      | Some REpoll, Nothing => Some (E_test, s, [])
      | _, _ => Some (E_end, s, [])
      end
  | E_next [] => Some (E_test, s, [])
  | E_next (id :: evs) => Some (if bool_decide (id ∈ table s) then E_check id evs else E_next evs, s, [])
  | E_check id evs =>
      match handles s !! id with
      | Some h => Some (if h_closed h then E_next evs else E_load id evs, s, [])
      | None => None
      end
  | E_load id evs => h ← handles s !! id; Some (E_recv id (h_fd h) evs, s, [])
  | E_recv id f evs =>
      match fds s !! f, ans with
      | Some (RSocket client), Bytes => Some (E_load id evs, s, [Received id client])
      | Some (RSocket client), Drained effs =>
          if forallb (effect_by id) effs then Some (E_handle id effs evs, s, []) else None
      | _, _ => Some (E_close C_claim id K_event evs, s, [])
      end
  | E_handle id [] evs => Some (E_next evs, s, [])
  | E_handle id (EffTopics op :: effs) evs =>
      Some (E_handle id effs evs, set_topics (tm_step (topics s) op) s, [])
  | E_handle id (EffReply :: effs) evs => Some (E_send id id false effs evs, s, [])
  | E_handle id (EffSendTo c :: effs) evs =>
      Some (if bool_decide (c ∈ table s) then E_send id c true effs evs else E_handle id effs evs, s, [])
  | E_send id c held effs evs =>
      h ← handles s !! c;
      Some (if h_closed h then E_handle id effs evs else E_send_load id c held effs evs, s, [])
  | E_send_load id c held effs evs =>
      h ← handles s !! c; Some (E_write id c held (h_fd h) effs evs, s, [])
  | E_write id c held f effs evs =>
      match fds s !! f, ans with
      | Some (RSocket client), Written => Some (E_handle id effs evs, s, [Sent c client])
      | Some (RSocket client), Nothing => Some (E_handle id effs evs, s, [])
      | _, _ => Some (E_close C_claim c (K_effects id held effs) evs, s, [])
      end
  | E_close c id k evs =>
      '(c', s) ← close_step (negb (holds_lock pc)) c id s;
      Some (match c' with Some c => E_close c id k evs | None => resume k evs end, s, [])
  | E_end => None
  end.

(** ** The heartbeat thread *)

Inductive heartbeat_pc :=
  | H_test
  | H_again
  | H_scan
  | H_notify (todo ids : list ConnectionId)
  | H_next (ids : list ConnectionId)
  | H_close (c : closing) (id : ConnectionId) (ids : list ConnectionId)
  | H_end.

(** The open connections of the table for which the clock says so. *)
Definition scan (order : Traversal ConnectionId) (idle : ConnectionId -> bool) (s : net)
    : list ConnectionId :=
  filter (λ id, match handles s !! id with Some h => negb (h_closed h) && idle id | None => false end = true)
    (entries order (gset_to_gmap tt (table s))).*1.

Definition heartbeat_step (free : bool) (order : Traversal ConnectionId)
    (idle : ConnectionId -> bool) (pc : heartbeat_pc) (s : net) : option (heartbeat_pc * net) :=
  match pc with
  | H_test => Some (if n_running s then H_again else H_end, s)
  | H_again => Some (if n_running s then H_scan else H_end, s)
  | H_scan => if free then let ids := scan order idle s in Some (H_notify ids ids, s) else None
  | H_notify [] ids => Some (H_next ids, s)
  | H_notify (id :: todo) ids =>
      Some (H_notify todo ids, set_topics (UnsubscribeByConnId id (topics s)).2 s)
  | H_next [] => Some (H_test, s)
  | H_next (id :: ids) => Some (H_close C_claim id ids, s)
  | H_close c id ids =>
      '(c', s) ← close_step free c id s;
      Some (match c' with Some c => H_close c id ids | None => H_next ids end, s)
  | H_end => None
  end.

(** ** Starting and stopping *)

(** [M_new] is before a successful [Start], [M_idle] between the calls. *)
Inductive main_pc :=
  | M_new
  | M_idle
  | M_listen
  | M_epoll
  | M_take
  | M_next (ids : list ConnectionId)
  | M_close (c : closing) (id : ConnectionId) (ids : list ConnectionId)
  | M_join_accept
  | M_join_event
  | M_join_heartbeat.

Record threads := mkThreads {
  accept : accept_pc;
  event : event_pc;
  heartbeat : heartbeat_pc;
  main : main_pc;
  stops : nat; (* calls of [Stop] that have returned *)
}.

(** Nothing has been started; a thread that does not run is not joinable. *)
Definition threads_new : threads := mkThreads A_end E_end H_end M_new 0.

(** How far the system calls of [Start] get, with the descriptors created. *)
Inductive start_answer :=
  | NoSocket | BindFails (f : Z) | ListenFails (f : Z) | NoEpoll (f : Z) | Opened (f e : Z).

(** [heartbeat_on] is [config_.heartbeat_enabled].  Nothing else runs yet. *)
Definition start_step (heartbeat_on : bool) (ans : start_answer) (t : threads) (s : net)
    : option (threads * net) :=
  let opened f s := set_setup f (epoll_fd_ s) (n_running s) (set_fds (<[f := RListen]> (fds s)) s) in
  let close_listen f s := set_setup (-1) (epoll_fd_ s) (n_running s) (set_fds (delete f (fds s)) s) in
  match ans with
  | NoSocket => Some (t, set_setup (-1) (epoll_fd_ s) (n_running s) s)
  | BindFails f | ListenFails f | NoEpoll f =>
      if free_fd f s then Some (t, close_listen f (opened f s)) else None
  | Opened f e =>
      if free_fd f s && free_fd e (opened f s) then
        let s := opened f s in
        Some (mkThreads A_test E_test (if heartbeat_on then H_test else H_end) M_idle (stops t),
          set_setup f e true (set_fds (<[e := REpoll]> (fds s)) s))
      else None
  end.

(** The thread that starts and stops the server; [Stop] begins at [M_idle] or
    [M_new] with clearing the flag. *)
Definition main_step (free : bool) (order : Traversal ConnectionId) (t : threads) (s : net)
    : option (threads * net) :=
  let goto pc := mkThreads (accept t) (event t) (heartbeat t) pc (stops t) in
  match main t with
  | M_new | M_idle => Some (goto M_listen, set_setup (listen_fd_ s) (epoll_fd_ s) false s)
  | M_listen =>
      Some (goto M_epoll, if 0 <=? listen_fd_ s then
        set_setup (-1) (epoll_fd_ s) (n_running s) (set_fds (delete (listen_fd_ s) (fds s)) s) else s)
  | M_epoll =>
      Some (goto M_take, if 0 <=? epoll_fd_ s then
        set_setup (listen_fd_ s) (-1) (n_running s) (set_fds (delete (epoll_fd_ s) (fds s)) s) else s)
  | M_take =>
      if free then
        Some (goto (M_next (entries order (gset_to_gmap tt (table s))).*1), set_table ∅ s)
      else None
  | M_next [] => Some (goto M_join_accept, s)
  | M_next (id :: ids) => Some (goto (M_close C_claim id ids), s)
  | M_close c id ids =>
      '(c', s) ← close_step free c id s;
      Some (goto (match c' with Some c => M_close c id ids | None => M_next ids end), s)
  | M_join_accept => match accept t with A_end => Some (goto M_join_event, s) | _ => None end
  | M_join_event => match event t with E_end => Some (goto M_join_heartbeat, s) | _ => None end
  | M_join_heartbeat =>
      match heartbeat t with
      | H_end => Some (mkThreads (accept t) (event t) (heartbeat t) M_idle (S (stops t)), s)
      | _ => None
      end
  end.

(** ** All together *)

Inductive thread_step :=
  | StepStart (heartbeat_on : bool) (ans : start_answer)
  | StepAccept (ans : accept_answer)
  | StepEvent (ans : event_answer)
  | StepHeartbeat (order : Traversal ConnectionId) (idle : ConnectionId -> bool)
  | StepMain (order : Traversal ConnectionId).

Definition world : Type := threads * net.

(** [Start] is called once it can be: on a server that has not been started. *)
Definition world_step (st : thread_step) (w : world) : option (world * list observation) :=
  let '(t, s) := w in
  let free := negb (holds_lock (event t)) in
  match st with
  | StepStart heartbeat_on ans =>
      match main t with
      | M_new => w ← start_step heartbeat_on ans t s; Some (w, [])
      | _ => None
      end
  | StepAccept ans =>
      '(pc, s) ← accept_step free ans (accept t) s;
      Some ((mkThreads pc (event t) (heartbeat t) (main t) (stops t), s), [])
  | StepEvent ans =>
      '(pc, s, obs) ← event_step ans (event t) s;
      Some ((mkThreads (accept t) pc (heartbeat t) (main t) (stops t), s), obs)
  | StepHeartbeat order idle =>
      '(pc, s) ← heartbeat_step free order idle (heartbeat t) s;
      Some ((mkThreads (accept t) (event t) pc (main t) (stops t), s), [])
  | StepMain order => w ← main_step free order t s; Some (w, [])
  end.

Fixpoint world_run (sts : list thread_step) (w : world) : option (world * list observation) :=
  match sts with
  | [] => Some (w, [])
  | st :: sts =>
      '(w, obs) ← world_step st w;
      '(w, obs') ← world_run sts w;
      Some (w, obs ++ obs')
  end.

(** Few enough steps for the connection numbers not to wrap around. *)
Definition world_reachable (w : world) : Prop :=
  exists sts obs, zlen sts < 2 ^ 64 - 2 /\ world_run sts (threads_new, net_new) = Some (w, obs).
