(* ===== verification/ServerThreadsInv.v ===== *)
(** * The invariant of the server's threads

    Descriptors, connections and the table in every state the threads of
    [ServerThreads] can reach, and the progress of [Stop]: one lemma for each kind
    of change to the shared state, then one for each thread. *)

From S2P Require Import Prelude Types TopicManager ServerThreads.
#[local] Open Scope Z_scope.

(** ** The invariant: descriptors and connections *)

Inductive who := WEvent | WHeartbeat | WMain.

#[export] Instance who_eq_dec : EqDecision who.
Proof. solve_decision. Defined.

(** The call of [Close] a thread is in, once it has won the exchange. *)
Definition won (c : closing) (id : ConnectionId) : option (closing * ConnectionId) :=
  match c with C_claim => None | _ => Some (c, id) end.

Definition active (t : threads) (w : who) : option (closing * ConnectionId) :=
  match w with
  | WEvent => match event t with E_close c id _ _ => won c id | _ => None end
  | WHeartbeat => match heartbeat t with H_close c id _ => won c id | _ => None end
  | WMain => match main t with M_close c id _ => won c id | _ => None end
  end.

(** The connections a thread has a pointer to. *)
Definition event_refs (pc : event_pc) : list ConnectionId :=
  match pc with
  | E_check id _ | E_load id _ | E_recv id _ _ | E_handle id _ _ | E_close _ id K_event _ => [id]
  | E_send id c _ _ _ | E_send_load id c _ _ _ | E_write id c _ _ _ _ => [id; c]
  | E_close _ c (K_effects id _ _) _ => [id; c]
  | _ => []
  end.
Definition heartbeat_refs (pc : heartbeat_pc) : list ConnectionId :=
  match pc with H_notify _ ids | H_next ids => ids | H_close _ id ids => id :: ids | _ => [] end.
Definition main_refs (pc : main_pc) : list ConnectionId :=
  match pc with M_next ids => ids | M_close _ id ids => id :: ids | _ => [] end.
Definition refs (t : threads) : list ConnectionId :=
  event_refs (event t) ++ heartbeat_refs (heartbeat t) ++ main_refs (main t).

(** Who is responsible for an open descriptor. *)
Definition backed (acc : accept_pc) (s : net) (f : Z) (r : resource) : Prop :=
  match r with
  | RListen => listen_fd_ s = f
  | REpoll => epoll_fd_ s = f
  | RSocket p => acc = A_take f p \/
      exists id h, handles s !! id = Some h /\ h_fd h = f /\ h_client h = p
  end.

(** [acc] is where the accept thread is, [act] the closings under way, [ptrs]
    the connections threads point to, [taken] those [Stop] has yet to close. *)
Record net_ok (n : Z) (acc : accept_pc) (act : who -> option (closing * ConnectionId))
    (ptrs taken : list ConnectionId) (s : net) : Prop := {
  no_fds : forall f r, fds s !! f = Some r -> 0 <= f /\ backed acc s f r;
  no_setup : (0 <= listen_fd_ s -> fds s !! listen_fd_ s = Some RListen) /\
    (0 <= epoll_fd_ s -> fds s !! epoll_fd_ s = Some REpoll);
  no_client : forall i j h k, handles s !! i = Some h -> handles s !! j = Some k ->
    h_client h = h_client k -> i = j;
  no_handle : forall id h, handles s !! id = Some h ->
    id < n_next s /\ (h_client h < clients s)%nat;
  no_open : forall id h, handles s !! id = Some h -> h_closed h = false ->
    fds s !! h_fd h = Some (RSocket (h_client h)) /\
    (id ∈ table s \/ acc = A_insert id \/ id ∈ taken);
  no_active : forall w c id, act w = Some (c, id) -> exists h,
    handles s !! id = Some h /\ h_closed h = true /\ c <> C_claim /\
    (c = C_close -> fds s !! h_fd h = Some (RSocket (h_client h))) /\
    (c = C_reset -> fds s !! h_fd h <> Some (RSocket (h_client h))) /\
    (c = C_erase -> h_fd h = -1);
  no_once : forall w1 w2 c1 c2 id, act w1 = Some (c1, id) -> act w2 = Some (c2, id) -> w1 = w2;
  no_closed : forall id h, handles s !! id = Some h -> h_closed h = true ->
    (exists w c, act w = Some (c, id)) \/ (h_fd h = -1 /\ (id ∉ table s));
  no_table : forall id, id ∈ table s -> is_Some (handles s !! id) /\ acc <> A_insert id;
  no_ptrs : forall id, id ∈ ptrs -> is_Some (handles s !! id) /\ acc <> A_insert id;
  no_accept : match acc with
    | A_take f p => fds s !! f = Some (RSocket p) /\ (p < clients s)%nat /\
        forall id h, handles s !! id = Some h -> h_client h <> p
    | A_insert id => exists h, handles s !! id = Some h /\ h_closed h = false
    | _ => True
    end;
  no_next : 0 < n_next s <= n + 1;
}.

Lemma net_ok_weaken n n' acc act ptrs taken s : n <= n' ->
  net_ok n acc act ptrs taken s -> net_ok n' acc act ptrs taken s.
Proof. intros Hn []. split; try done. lia. Qed.

(** A step that only moves a thread on. *)
Lemma net_ok_move n acc act act' ptrs ptrs' taken taken' s : net_ok n acc act ptrs taken s ->
  (forall w, act' w = act w) ->
  (forall id, id ∈ ptrs' -> id ∈ ptrs \/ id ∈ table s) ->
  (forall id h, handles s !! id = Some h -> h_closed h = false -> id ∈ taken -> id ∈ taken') ->
  net_ok n acc act' ptrs' taken' s.
Proof.
  intros [] Hact Hptrs Htaken. split; try done.
  - intros id h Hid Hop. destruct (no_open0 id h Hid Hop) as [? [?|[?|?]]];
      (split; [done|]); [by left|by right; left|right; right; by eapply Htaken].
  - intros w c id. rewrite Hact. apply no_active0.
  - intros w1 w2 c1 c2 id. rewrite !Hact. apply no_once0.
  - intros id h Hid Hcl. destruct (no_closed0 id h Hid Hcl) as [(w & c & Hw)|]; [|by right].
    left. exists w, c. by rewrite Hact.
  - intros id [|]%Hptrs; eauto.
Qed.

(** What [Close] leaves alone. *)
Record close_frame (s s' : net) : Prop := {
  cf_listen : listen_fd_ s' = listen_fd_ s;
  cf_epoll : epoll_fd_ s' = epoll_fd_ s;
  cf_running : n_running s' = n_running s;
  cf_topics : topics s' = topics s;
  cf_table : table s' ⊆ table s;
  cf_handles : forall id h', handles s' !! id = Some h' -> h_closed h' = false ->
    handles s !! id = Some h';
}.

Lemma close_step_frame free c id s c' s' :
  close_step free c id s = Some (c', s') -> close_frame s s'.
Proof.
  unfold close_step. destruct (handles s !! id) as [h|]; [|by intros [= <- <-]].
  assert (forall fd cl id' h', <[id := mkHandle true fd cl]> (handles s) !! id' = Some h' ->
    h_closed h' = false -> handles s !! id' = Some h') as Hins.
  { intros fd cl id' h'. destruct (decide (id' = id)) as [->|];
      [rewrite lookup_insert_eq; by intros [= <-]|by rewrite lookup_insert_ne]. }
  destruct c; repeat case_match; intros; simplify_eq; split; cbn; try done; try set_solver;
    eauto.
Qed.

(** Thread [w] is in [Close] of [id]; the others are where they were. *)
Definition moves_closing (w : who) (act act' : who -> option (closing * ConnectionId))
    (c' : option closing) (id : ConnectionId) : Prop :=
  act' w = (c ← c'; won c id) /\ forall w', w' <> w -> act' w' = act w'.

(** Lookups after a flag or a descriptor of a connection has changed. *)
Lemma handle_insert (hs : gmap ConnectionId handle) id h h' j k :
  hs !! id = Some h -> h_client h' = h_client h -> <[id := h']> hs !! j = Some k ->
  (j = id /\ k = h') \/ (j <> id /\ hs !! j = Some k).
Proof.
  intros Hid Hc. destruct (decide (j = id)) as [->|].
  - rewrite lookup_insert_eq. intros [= <-]. by left.
  - rewrite lookup_insert_ne by done. by right.
Qed.

Section close.
Context (n : Z) (acc : accept_pc) (act act' : who -> option (closing * ConnectionId)).
Context (ptrs taken : list ConnectionId) (s : net) (w : who) (id : ConnectionId) (h : handle).
Hypothesis (Hok : net_ok n acc act ptrs taken s) (Hid : handles s !! id = Some h).
Hypothesis (Hptr : id ∈ ptrs).

Lemma no_client_same h' : h_client h' = h_client h ->
  forall i j k1 k2, <[id := h']> (handles s) !! i = Some k1 ->
    <[id := h']> (handles s) !! j = Some k2 -> h_client k1 = h_client k2 -> i = j.
Proof.
  intros Hc i j k1 k2 H1 H2 Heq. destruct Hok.
  apply (handle_insert _ _ h) in H1 as [[-> ->]|[Hi H1]]; [| |done|done];
    apply (handle_insert _ _ h) in H2 as [[-> ->]|[Hj H2]]; try done.
  - rewrite Hc in Heq. exact (no_client0 _ _ _ _ Hid H2 Heq).
  - rewrite Hc in Heq. exact (no_client0 _ _ _ _ H1 Hid Heq).
  - exact (no_client0 _ _ _ _ H1 H2 Heq).
Qed.

(** The exchange is won. *)
Lemma claim_ok : act w = None -> h_closed h = false -> moves_closing w act act' (Some C_close) id ->
  net_ok n acc act' ptrs taken
    (set_handles (<[id := mkHandle true (h_fd h) (h_client h)]> (handles s)) s).
Proof.
  intros Hw Hop [Hmine Hothers]. cbn in Hmine. pose proof Hok as [].
  set (h' := mkHandle true (h_fd h) (h_client h)).
  assert (forall w' c, act w' = Some (c, id) -> False) as Hnone.
  { intros w' c Ha. destruct (no_active0 _ _ _ Ha) as (k & ? & ? & _). congruence. }
  split; cbn [fds listen_fd_ epoll_fd_ handles table n_next clients set_handles]; try done.
  - intros f r Hf. destruct (no_fds0 f r Hf) as [? Hb]. split; [done|]. destruct r; try done.
    destruct Hb as [|(j & k & Hj & Hk)]; [by left|right]. cbn. destruct (decide (j = id)) as [->|].
    + exists id, h'. rewrite lookup_insert_eq. by simplify_eq.
    + exists j, k. by rewrite lookup_insert_ne.
  - by apply no_client_same.
  - intros j k Hj. apply (handle_insert _ _ h) in Hj as [[-> ->]|[_ Hj]];
      [exact (no_handle0 _ _ Hid)|exact (no_handle0 _ _ Hj)|done|done].
  - intros j k Hj Hk. apply (handle_insert _ _ h) in Hj as [[-> ->]|[_ Hj]]; [done| |done|done].
    by apply no_open0.
  - intros w' c j Ha. destruct (decide (w' = w)) as [->|Hne].
    + rewrite Hmine in Ha. injection Ha as <- <-. exists h'. rewrite lookup_insert_eq. split_and!; try done.
      intros _. exact (proj1 (no_open0 _ _ Hid Hop)).
    + rewrite Hothers in Ha by done. destruct (no_active0 _ _ _ Ha) as (k & Hj & Hk).
      exists k. rewrite lookup_insert_ne; [done|]. intros ->. by eapply Hnone.
  - intros w1 w2 c1 c2 j H1 H2.
    destruct (decide (w1 = w)) as [->|], (decide (w2 = w)) as [->|]; try done.
    + rewrite Hmine in H1. rewrite Hothers in H2 by done. injection H1 as <- <-.
      by edestruct Hnone.
    + rewrite Hmine in H2. rewrite Hothers in H1 by done. injection H2 as <- <-.
      by edestruct Hnone.
    + rewrite Hothers in H1, H2 by done. by eapply no_once0.
  - intros j k Hj Hk. apply (handle_insert _ _ h) in Hj as [[-> ->]|[Hne Hj]]; [| |done|done].
    + left. by exists w, C_close.
    + destruct (no_closed0 j k Hj Hk) as [(w' & c & Ha)|]; [left|by right].
      exists w', c. rewrite Hothers; [done|]. intros ->. congruence.
  - intros j Hj. destruct (no_table0 j Hj) as [? ?]. split; [|done].
    rewrite lookup_insert_is_Some'. by right.
  - intros j Hj. destruct (no_ptrs0 j Hj) as [? ?]. split; [|done].
    rewrite lookup_insert_is_Some'. by right.
  - destruct acc as [| |f p|j|]; try done.
    + destruct no_accept0 as (Hf & Hp & Hn). split_and!; try done. intros j k Hj.
      apply (handle_insert _ _ h) in Hj as [[-> ->]|[_ Hj]];
        [exact (Hn _ _ Hid)|exact (Hn _ _ Hj)|done|done].
    + destruct no_accept0 as (k & Hj & Hk). exists k. rewrite lookup_insert_ne; [done|].
      intros <-. by destruct (no_ptrs0 _ Hptr).
Qed.

(** Only the stage of the closing of [id] changes. *)
Lemma advance_once c c' : act w = Some (c, id) -> moves_closing w act act' c' id ->
  forall w1 w2 c1 c2 j, act' w1 = Some (c1, j) -> act' w2 = Some (c2, j) -> w1 = w2.
Proof.
  intros Hw [Hmine Hothers] w1 w2 c1 c2 j H1 H2. destruct Hok.
  assert (forall w' c', act' w' = Some (c', j) -> exists c'', act w' = Some (c'', j)) as Hold.
  { intros w' d Hd. destruct (decide (w' = w)) as [->|]; [|rewrite <- Hothers by done; eauto].
    rewrite Hmine in Hd. destruct c' as [[]|]; cbn in Hd; try done; injection Hd as <- <-; eauto. }
  destruct (Hold _ _ H1) as [? ?], (Hold _ _ H2) as [? ?]. by eapply no_once0.
Qed.

Lemma advance_closed c c' : act w = Some (c, id) -> moves_closing w act act' c' id ->
  forall j, j <> id -> (exists w' d, act w' = Some (d, j)) -> exists w' d, act' w' = Some (d, j).
Proof.
  intros Hw [_ Hothers] j Hj (w' & d & Hd). exists w', d. rewrite Hothers; [done|].
  intros ->. congruence.
Qed.

(** The descriptor of another connection, or of one being accepted, survives. *)
Lemma other_socket f p : h_client h <> p -> fds s !! f = Some (RSocket p) ->
  fds s !! h_fd h = Some (RSocket (h_client h)) -> delete (h_fd h) (fds s) !! f = Some (RSocket p).
Proof. intros Hp Hf Hh. rewrite lookup_delete_ne; [done|]. intros <-. congruence. Qed.

Lemma fd_closed_ok : act w = Some (C_close, id) -> moves_closing w act act' (Some C_reset) id ->
  0 <= h_fd h /\ net_ok n acc act' ptrs taken (set_fds (delete (h_fd h) (fds s)) s).
Proof.
  intros Hw Hmoves. pose proof Hok as [].
  destruct (no_active0 _ _ _ Hw) as (h0 & Hh0 & Hcl & _ & Hsock & _ & _).
  rewrite Hid in Hh0. injection Hh0 as <-. specialize (Hsock eq_refl).
  destruct (no_fds0 _ _ Hsock) as [Hpos _]. split; [done|].
  assert (forall j k, j <> id -> handles s !! j = Some k -> h_client h <> h_client k) as Hdiff.
  { intros j k Hne Hj Heq. by eapply Hne, no_client0. }
  pose proof Hmoves as [Hmine Hothers]. cbn in Hmine.
  split; cbn [fds listen_fd_ epoll_fd_ handles table n_next clients set_fds]; try done.
  - intros f r [_ Hf]%lookup_delete_Some. by apply no_fds0.
  - destruct no_setup0 as [Hl He]. split; intros H0; rewrite lookup_delete_ne; eauto;
      intros Heq; rewrite Heq in Hsock; [rewrite Hl in Hsock by done|rewrite He in Hsock by done];
      done.
  - intros j k Hj Hk. destruct (no_open0 j k Hj Hk) as [Hs ?]. split; [|done].
    apply other_socket; try done. apply (Hdiff j); [|done]. intros ->. congruence.
  - intros w' c j Ha. destruct (decide (w' = w)) as [->|Hne].
    + rewrite Hmine in Ha. injection Ha as <- <-. exists h. split_and!; try done.
      intros _. by rewrite lookup_delete_eq.
    + rewrite Hothers in Ha by done. destruct (no_active0 _ _ _ Ha) as (k & Hj & Hk & Hc & H1 & H2 & H3).
      assert (j <> id) as Hji by (intros ->; by eapply Hne, no_once0).
      exists k. split_and!; try done.
      * intros ->. apply other_socket; eauto.
      * intros Hr [_ Hd]%lookup_delete_Some. by apply H2.
  - by eapply advance_once.
  - intros j k Hj Hk. destruct (decide (j = id)) as [->|Hji]; [left; eauto|].
    destruct (no_closed0 j k Hj Hk) as [|]; [left|by right]. by eapply advance_closed.
  - destruct acc as [| |f p|j|]; try done. destruct no_accept0 as (Hf & Hp & Hn).
    split_and!; try done. apply other_socket; eauto.
Qed.

Lemma fd_reset_ok : act w = Some (C_reset, id) -> moves_closing w act act' (Some C_erase) id ->
  net_ok n acc act' ptrs taken
    (set_handles (<[id := mkHandle true (-1) (h_client h)]> (handles s)) s).
Proof.
  intros Hw Hmoves. pose proof Hok as [].
  destruct (no_active0 _ _ _ Hw) as (h0 & Hh0 & Hcl & _ & _ & Hgone & _).
  rewrite Hid in Hh0. injection Hh0 as <-. specialize (Hgone eq_refl).
  pose proof Hmoves as [Hmine Hothers]. cbn in Hmine.
  set (h' := mkHandle true (-1) (h_client h)).
  split; cbn [fds listen_fd_ epoll_fd_ handles table n_next clients set_handles]; try done.
  - intros f r Hf. destruct (no_fds0 f r Hf) as [? Hb]. split; [done|]. destruct r; try done.
    destruct Hb as [|(j & k & Hj & Hk & Hc)]; [by left|right]. cbn. exists j, k.
    rewrite lookup_insert_ne; [done|]. intros <-. rewrite Hid in Hj. injection Hj as <-.
    subst. by apply Hgone.
  - by apply no_client_same.
  - intros j k Hj. apply (handle_insert _ _ h) in Hj as [[-> ->]|[_ Hj]];
      [exact (no_handle0 _ _ Hid)|exact (no_handle0 _ _ Hj)|done|done].
  - intros j k Hj Hk. apply (handle_insert _ _ h) in Hj as [[-> ->]|[_ Hj]]; [done| |done|done].
    by apply no_open0.
  - intros w' c j Ha. destruct (decide (w' = w)) as [->|Hne].
    + rewrite Hmine in Ha. injection Ha as <- <-. exists h'. by rewrite lookup_insert_eq.
    + rewrite Hothers in Ha by done. destruct (no_active0 _ _ _ Ha) as (k & Hj & Hk).
      exists k. rewrite lookup_insert_ne; [done|]. intros <-. by eapply Hne, no_once0.
  - by eapply advance_once.
  - intros j k Hj Hk. apply (handle_insert _ _ h) in Hj as [[-> ->]|[Hne Hj]];
      [left; eauto| |done|done].
    destruct (no_closed0 j k Hj Hk) as [|]; [left|by right]. by eapply advance_closed.
  - intros j Hj. destruct (no_table0 j Hj) as [? ?]. split; [|done].
    rewrite lookup_insert_is_Some'. by right.
  - intros j Hj. destruct (no_ptrs0 j Hj) as [? ?]. split; [|done].
    rewrite lookup_insert_is_Some'. by right.
  - destruct acc as [| |f p|j|]; try done.
    + destruct no_accept0 as (Hf & Hp & Hn). split_and!; try done. intros j k Hj.
      apply (handle_insert _ _ h) in Hj as [[-> ->]|[_ Hj]];
        [exact (Hn _ _ Hid)|exact (Hn _ _ Hj)|done|done].
    + destruct no_accept0 as (k & Hj & Hk). exists k. rewrite lookup_insert_ne; [done|].
      intros <-. by destruct (no_ptrs0 _ Hptr).
Qed.

Lemma erased_ok : act w = Some (C_erase, id) -> moves_closing w act act' None id ->
  net_ok n acc act' ptrs taken (set_table (table s ∖ {[id]}) s).
Proof.
  intros Hw Hmoves. pose proof Hok as [].
  destruct (no_active0 _ _ _ Hw) as (h0 & Hh0 & Hcl & _ & _ & _ & Hfd).
  rewrite Hid in Hh0. injection Hh0 as <-. specialize (Hfd eq_refl).
  pose proof Hmoves as [Hmine Hothers]. cbn in Hmine.
  split; cbn [fds listen_fd_ epoll_fd_ handles table n_next clients set_table]; try done.
  - intros j k Hj Hk. destruct (no_open0 j k Hj Hk) as [? Hor]. split; [done|].
    destruct Hor as [Hin|]; [left|by right]. assert (j <> id) by congruence. set_solver.
  - intros w' c j Ha. rewrite Hothers in Ha by (intros ->; congruence). by eapply no_active0.
  - by eapply advance_once.
  - intros j k Hj Hk. destruct (decide (j = id)) as [->|Hji].
    + right. rewrite Hid in Hj. injection Hj as <-. split; [done|set_solver].
    + destruct (no_closed0 j k Hj Hk) as [|[? ?]]; [left|right; split; [done|set_solver]].
      by eapply advance_closed.
  - intros j [Hj _]%elem_of_difference. by apply no_table0.
Qed.
End close.

(** Every step of [Close] keeps the invariant; at its end the connection is
    closed. *)
Lemma close_ok n acc act act' ptrs taken s w c id free c' s' :
  net_ok n acc act ptrs taken s -> act w = won c id -> id ∈ ptrs ->
  close_step free c id s = Some (c', s') -> moves_closing w act act' c' id ->
  net_ok n acc act' ptrs taken s' /\
  (c' = None -> forall h, handles s' !! id = Some h -> h_closed h = true).
Proof.
  intros Hok Hw Hptr Hstep Hmoves. unfold close_step in Hstep.
  destruct (no_ptrs _ _ _ _ _ _ Hok id Hptr) as [[h Hid] _]. rewrite Hid in Hstep.
  destruct c; cbn in Hw.
  - destruct (h_closed h) eqn:Hcl; simplify_eq.
    + split; [|intros _ k; rewrite Hid; by intros [= <-]].
      eapply net_ok_move; eauto. intros w'. destruct Hmoves as [Hm Ho].
      destruct (decide (w' = w)) as [->|]; [by rewrite Hm, Hw|by apply Ho].
    + split; [|done]. by eapply claim_ok.
  - destruct (fd_closed_ok n acc act act' ptrs taken s w id h Hok Hid Hw) as [Hpos Hok'].
    { destruct (0 <=? h_fd h); by simplify_eq. }
    rewrite (proj2 (Z.leb_le _ _) Hpos) in Hstep. simplify_eq. by split.
  - simplify_eq. split; [|done]. by eapply fd_reset_ok.
  - destruct free; simplify_eq. split; [by eapply erased_ok|]. intros _ k. cbn. rewrite Hid.
    intros [= <-]. destruct (no_active _ _ _ _ _ _ Hok _ _ _ Hw) as (k & Hk & ? & _). congruence.
Qed.

(** ** The accept thread *)

(** Not between a client's arrival and its registration. *)
Definition between (acc : accept_pc) : bool :=
  match acc with A_take _ _ | A_insert _ => false | _ => true end.

Lemma accept_move n acc acc' act ptrs taken s : net_ok n acc act ptrs taken s ->
  between acc = true -> between acc' = true -> net_ok n acc' act ptrs taken s.
Proof.
  intros [] Hb Hb'. split; try done.
  - intros f r Hf. destruct (no_fds0 f r Hf) as [? Hbk]. split; [done|]. destruct r; try done.
    destruct Hbk as [->|]; [done|by right].
  - intros id h Hid Hop. destruct (no_open0 id h Hid Hop) as [? [?|[->|?]]]; auto. done.
  - intros id Hid. destruct (no_table0 id Hid). split; [done|]. by intros ->.
  - intros id Hid. destruct (no_ptrs0 id Hid). split; [done|]. by intros ->.
  - by destruct acc'.
Qed.

(** A client has been accepted on a free descriptor. *)
Lemma accepted_ok n act ptrs taken s f : net_ok n A_accept act ptrs taken s ->
  0 <= f -> fds s !! f = None ->
  net_ok n (A_take f (clients s)) act ptrs taken
    (set_counts (n_next s) (S (clients s)) (set_fds (<[f := RSocket (clients s)]> (fds s)) s)).
Proof.
  intros [] Hpos Hnone.
  assert (forall g r, fds s !! g = Some r -> f <> g) as Hfresh by (intros g r Hg <-; congruence).
  split; cbn [fds listen_fd_ epoll_fd_ handles table n_next clients set_fds set_counts]; try done.
  - intros g r Hg. destruct (decide (g = f)) as [->|].
    + rewrite lookup_insert_eq in Hg. simplify_eq. split; [done|]. by left.
    + rewrite lookup_insert_ne in Hg by done. destruct (no_fds0 g r Hg) as [? Hb].
      split; [done|]. destruct r; try done. destruct Hb as [|]; [done|by right].
  - destruct no_setup0 as [Hl He]. split; intros H0; rewrite lookup_insert_ne; eauto.
  - intros id h Hid. destruct (no_handle0 id h Hid). split; [done|lia].
  - intros id h Hid Hop. destruct (no_open0 id h Hid Hop) as [Hs [?|[?|?]]]; try done;
      (split; [|by auto]); rewrite lookup_insert_ne; eauto.
  - intros w c id Ha. destruct (no_active0 w c id Ha) as (h & Hid & Hcl & Hc & H1 & H2 & H3).
    exists h. split_and!; try done.
    + intros Hcc. rewrite lookup_insert_ne; eauto.
    + intros Hcc. destruct (decide (f = h_fd h)) as [Heq|]; [|rewrite lookup_insert_ne; auto].
      rewrite Heq, lookup_insert_eq. intros [= Heq']. destruct (no_handle0 id h Hid). lia.
  - intros id Hid. by destruct (no_table0 id Hid).
  - intros id Hid. by destruct (no_ptrs0 id Hid).
  - split; [by rewrite lookup_insert_eq|]. split; [lia|]. intros id h Hid.
    destruct (no_handle0 id h Hid). lia.
Qed.

(** Its connection is made. *)
Lemma made_ok n act ptrs taken s f p : 0 <= n < 2 ^ 64 - 2 ->
  net_ok n (A_take f p) act ptrs taken s ->
  net_ok (n + 1) (A_insert (n_next s)) act ptrs taken
    (set_counts (u64 (n_next s + 1)) (clients s)
      (set_handles (<[n_next s := mkHandle false f p]> (handles s)) s)).
Proof.
  intros Hn [].
  set (id := n_next s) in *. destruct no_accept0 as (Hf & Hp & Hnew).
  assert (u64 (id + 1) = id + 1) as Hu by (apply u64_id; lia).
  assert (forall j h, handles s !! j = Some h -> id <> j) as Hfresh.
  { intros j h Hj <-. destruct (no_handle0 _ _ Hj). lia. }
  assert (forall j k, <[id := mkHandle false f p]> (handles s) !! j = Some k ->
    (j = id /\ k = mkHandle false f p) \/ handles s !! j = Some k) as Hcase.
  { intros j k. destruct (decide (j = id)) as [->|];
      [rewrite lookup_insert_eq; intros [= <-]; by left|rewrite lookup_insert_ne by done; by right]. }
  assert (forall j, is_Some (handles s !! j) ->
    is_Some (<[id := mkHandle false f p]> (handles s) !! j) /\ A_insert id <> A_insert j) as Hptr.
  { intros j [k Hj]. rewrite lookup_insert_is_Some'. split; [right; by eexists|].
    intros [= Heq]. by eapply Hfresh. }
  split; cbn [fds listen_fd_ epoll_fd_ handles table n_next clients set_handles set_counts]; try done.
  - intros g r Hg. destruct (no_fds0 g r Hg) as [? Hb]. split; [done|]. destruct r; try done.
    right. destruct Hb as [[= <- <-]|(j & k & Hj & Hk)].
    + exists id, (mkHandle false f p). cbn. by rewrite lookup_insert_eq.
    + exists j, k. cbn. rewrite lookup_insert_ne; eauto.
  - intros i j k1 k2 [[-> ->]|Hi]%Hcase [[-> ->]|Hj]%Hcase Heq; cbn in Heq; try done.
    + by destruct (Hnew _ _ Hj).
    + by destruct (Hnew _ _ Hi).
    + by eapply no_client0.
  - intros j k [[-> ->]|Hj]%Hcase; cbn; [lia|]. destruct (no_handle0 j k Hj). lia.
  - intros j k [[-> ->]|Hj]%Hcase Hop; [by auto|].
    destruct (no_open0 j k Hj Hop) as [? [?|[?|?]]]; by auto.
  - intros w c j Ha. destruct (no_active0 w c j Ha) as (k & Hj & Hk). exists k.
    rewrite lookup_insert_ne; eauto.
  - intros j k [[-> ->]|Hj]%Hcase Hcl; [done|by auto].
  - intros j Hj. by apply Hptr, no_table0.
  - intros j Hj. by apply Hptr, no_ptrs0.
  - exists (mkHandle false f p). by rewrite lookup_insert_eq.
  - lia.
Qed.

(** It is registered. *)
Lemma inserted_ok n act ptrs taken s id : net_ok n (A_insert id) act ptrs taken s ->
  net_ok n A_test act ptrs taken (set_table ({[id]} ∪ table s) s).
Proof.
  intros []. destruct no_accept0 as (h & Hid & Hop).
  split; cbn [fds listen_fd_ epoll_fd_ handles table n_next clients set_table]; try done.
  - intros f r Hf. destruct (no_fds0 f r Hf) as [? Hb]. split; [done|]. destruct r; try done.
    destruct Hb as [|]; [done|by right].
  - intros j k Hj Hk. destruct (no_open0 j k Hj Hk) as [? [?|[[= ->]|?]]];
      (split; [done|]); [left; set_solver|left; set_solver|auto].
  - intros j k Hj Hk. destruct (no_closed0 j k Hj Hk) as [|[? ?]]; [by left|right].
    split; [done|]. assert (j <> id) by congruence. set_solver.
  - intros j [->%elem_of_singleton|Hj]%elem_of_union; [by eauto|]. by destruct (no_table0 j Hj).
  - intros j Hj. by destruct (no_ptrs0 j Hj).
Qed.

Lemma accept_ok n acc acc' act ptrs taken s free ans s' : 0 <= n < 2 ^ 64 - 2 ->
  net_ok n acc act ptrs taken s -> accept_step free ans acc s = Some (acc', s') ->
  net_ok (n + 1) acc' act ptrs taken s'.
Proof.
  intros Hn Hok Hstep. pose proof (net_ok_weaken n (n + 1) _ _ _ _ _ ltac:(lia) Hok) as Hweak.
  destruct acc as [| |f p|id|]; cbn [accept_step] in Hstep.
  - simplify_eq. eapply accept_move; [done|done|by destruct (n_running s')].
  - destruct (fds s !! listen_fd_ s) as [[| |]|], ans as [f| |];
      try (simplify_eq; by eapply accept_move).
    destruct (free_fd f s) eqn:Hfree; [|done]. simplify_eq.
    apply andb_true_iff in Hfree as [Hpos%Z.leb_le Hnone%bool_decide_eq_true].
    by apply accepted_ok.
  - simplify_eq. by apply made_ok.
  - destruct free; simplify_eq. by apply inserted_ok.
  - done.
Qed.

(** ** The invariant of the whole *)

(** How far [Stop] is. *)
Definition phase (pc : main_pc) : nat :=
  match pc with
  | M_new | M_idle => 0 | M_listen => 1 | M_epoll => 2 | M_take => 3 | M_next _ | M_close _ _ _ => 4
  | M_join_accept => 5 | M_join_event => 6 | M_join_heartbeat => 7
  end.

(** What [Stop] has achieved by its statements, and by having been called. *)
Record stop_ok (t : threads) (s : net) : Prop := {
  st_flag : (1 <= phase (main t) \/ 1 <= stops t)%nat -> n_running s = false;
  st_listen : (2 <= phase (main t) \/ 1 <= stops t)%nat -> listen_fd_ s = -1;
  st_epoll : (3 <= phase (main t) \/ 1 <= stops t)%nat -> epoll_fd_ s = -1;
  st_accept : (6 <= phase (main t) \/ 1 <= stops t)%nat -> accept t = A_end;
  st_event : (7 <= phase (main t) \/ 1 <= stops t)%nat -> event t = E_end;
  st_heartbeat : (1 <= stops t)%nat -> heartbeat t = H_end;
  st_table : (1 <= stops t /\ 4 <= phase (main t) \/ 2 <= stops t)%nat -> table s = ∅;
  st_new : main t = M_new -> listen_fd_ s = -1 /\ epoll_fd_ s = -1 /\ stops t = 0%nat /\
    accept t = A_end /\ event t = E_end /\ heartbeat t = H_end;
  st_range : -1 <= listen_fd_ s /\ -1 <= epoll_fd_ s;
}.

(** The descriptor the event thread has read is still that of the connection if
    this is open. *)
Definition loaded_ok (pc : event_pc) (s : net) : Prop :=
  match pc with
  | E_recv id f _ | E_write _ id _ f _ _ =>
      forall h, handles s !! id = Some h -> h_closed h = false -> h_fd h = f
  | _ => True
  end.

Record world_ok (n : Z) (w : world) : Prop := {
  wo_net : net_ok n (accept w.1) (active w.1) (refs w.1) (main_refs (main w.1)) w.2;
  wo_stop : stop_ok w.1 w.2;
  wo_loaded : loaded_ok (event w.1) w.2;
}.

Lemma net_ok_topics n acc act ptrs taken tm s :
  net_ok n acc act ptrs taken s -> net_ok n acc act ptrs taken (set_topics tm s).
Proof. by intros []. Qed.

(** A step that closes something. *)
Lemma stop_ok_frame t t' s s' : stop_ok t s -> main t' = main t -> stops t' = stops t ->
  (accept t = A_end -> accept t' = A_end) -> (event t = E_end -> event t' = E_end) ->
  (heartbeat t = H_end -> heartbeat t' = H_end) ->
  listen_fd_ s' = listen_fd_ s -> epoll_fd_ s' = epoll_fd_ s -> n_running s' = n_running s ->
  (table s' ⊆ table s \/ accept t <> A_end) -> stop_ok t' s'.
Proof.
  intros [] Hm Hs Ha He Hh Hl Hep Hr Ht.
  split; rewrite ?Hm, ?Hs, ?Hl, ?Hep, ?Hr; try done; auto.
  2:{ intros Hnew. destruct (st_new0 Hnew) as (? & ? & ? & ? & ? & ?). split_and!; auto. }
  intros Hor. specialize (st_table0 Hor). destruct Ht as [Ht|Ht].
  - rewrite st_table0 in Ht. apply leibniz_equiv. set_solver.
  - exfalso. apply Ht, st_accept0. lia.
Qed.

Lemma loaded_frame pc s s' : loaded_ok pc s ->
  (forall id h', id ∈ event_refs pc -> handles s' !! id = Some h' -> h_closed h' = false ->
    handles s !! id = Some h') -> loaded_ok pc s'.
Proof.
  intros Hl Hf. destruct pc; try done; cbn in *; intros h' Hh Hop;
    (eapply Hl; [eapply Hf|done]; try done; set_solver).
Qed.

(** ** Each thread keeps it *)

(** Closes the goals of a step that only moves a thread on. *)
Ltac move_on Hmove Epc :=
  apply Hmove; cbn;
  [by intros []; cbn; rewrite ?Epc|intros; set_solver
  |try done|try first [by left|right; by eexists]].

Lemma registered_keys (order : Traversal ConnectionId) (tb : gset ConnectionId) id :
  id ∈ (entries order (gset_to_gmap tt tb)).*1 <-> id ∈ tb.
Proof.
  rewrite list_elem_of_fmap. split.
  - intros ([i []] & -> & Hi%elem_of_entries). by apply lookup_gset_to_gmap_Some in Hi as [? _].
  - intros Hi. exists (id, tt). split; [done|]. apply elem_of_entries.
    by apply lookup_gset_to_gmap_Some.
Qed.

Lemma step_accept_ok n ans w r : 0 <= n < 2 ^ 64 - 2 -> world_ok n w ->
  world_step (StepAccept ans) w = Some r -> world_ok (n + 1) r.1.
Proof.
  destruct w as [t s]. intros Hn [Hnet Hstop Hload] Hstep. cbn in *.
  destruct (accept_step _ _ _ _) as [[pc s']|] eqn:Ha; [|done]. cbn in Hstep. simplify_eq.
  pose proof (accept_ok _ _ _ _ _ _ _ _ _ _ Hn Hnet Ha) as Hnet'. split; cbn; [done| |].
  - assert (listen_fd_ s' = listen_fd_ s /\ epoll_fd_ s' = epoll_fd_ s /\
      n_running s' = n_running s /\ accept t <> A_end) as (Hl & He & Hr & Hne).
    { unfold accept_step in Ha. repeat case_match; simplify_eq; done. }
    by eapply (stop_ok_frame t); eauto.
  - apply (loaded_frame _ s); [done|]. intros id h' Hid Hh _.
    destruct (no_ptrs _ _ _ _ _ _ Hnet id) as [[h Hold] _]; [unfold refs; set_solver|].
    unfold accept_step in Ha. repeat case_match; simplify_eq; try done. cbn in Hh.
    rewrite lookup_insert_ne in Hh; [done|]. intros <-.
    destruct (no_handle _ _ _ _ _ _ Hnet _ _ Hold). lia.
Qed.

Lemma step_heartbeat_ok n order idle w r : world_ok n w ->
  world_step (StepHeartbeat order idle) w = Some r -> world_ok n r.1.
Proof.
  destruct w as [t s]. intros [Hnet Hstop Hload] Hstep. cbn in *.
  destruct (heartbeat_step _ _ _ _ _) as [[pc s']|] eqn:Hh; [|done]. cbn in Hstep. simplify_eq.
  assert (heartbeat t <> H_end) as Hne by (intros Heq; by rewrite Heq in Hh).
  assert (forall pc s', (forall w, active (mkThreads (accept t) (event t) pc (main t) (stops t)) w = active t w) ->
    (forall id, id ∈ heartbeat_refs pc -> id ∈ refs t \/ id ∈ table s) ->
    True -> (s' = s \/ exists tm, s' = set_topics tm s) ->
    world_ok n (mkThreads (accept t) (event t) pc (main t) (stops t), s')) as Hmove.
  { intros pc0 s0 Hact Hrefs _ Hs.
    assert (net_ok n (accept t) (active t) (refs t) (main_refs (main t)) s0) as Hnet0
      by (destruct Hs as [->|[tm ->]]; [done|by apply net_ok_topics]).
    split; cbn.
    - eapply net_ok_move; [exact Hnet0|exact Hact| |done]. intros id. unfold refs. cbn.
      rewrite !elem_of_app. destruct Hs as [->|[tm ->]]; cbn; intros [?|[?%Hrefs|?]]; auto;
        unfold refs in *; rewrite !elem_of_app in *; tauto.
    - eapply (stop_ok_frame t); try done; destruct Hs as [->|[tm ->]]; try done; by left.
    - destruct Hs as [->|[tm ->]]; [done|]. by apply (loaded_frame _ s). }
  assert (forall id, id ∈ heartbeat_refs (heartbeat t) -> id ∈ refs t) as Hin
    by (unfold refs; set_solver).
  assert (forall order idle id, id ∈ scan order idle s -> id ∈ table s) as Hscan.
  { intros o f id. unfold scan. rewrite list_elem_of_filter. intros [_ Hid].
    by apply registered_keys in Hid. }
  destruct (heartbeat t) as [| | |[|id todo] ids|[|id ids]|c id ids|] eqn:Epc;
    cbn [heartbeat_step] in Hh; cbn [fst].
  - destruct (n_running s); injection Hh as <- <-; move_on Hmove Epc.
  - destruct (n_running s); injection Hh as <- <-; move_on Hmove Epc.
  - destruct (negb _); [|done]. injection Hh as <- <-. apply Hmove;
      [by intros []; cbn; rewrite ?Epc|intros ? ?%Hscan; by right|done|by left].
  - injection Hh as <- <-. move_on Hmove Epc.
  - injection Hh as <- <-. move_on Hmove Epc.
  - injection Hh as <- <-. move_on Hmove Epc.
  - injection Hh as <- <-. move_on Hmove Epc.
  - destruct (close_step _ _ _ _) as [[c' s1]|] eqn:Hc; [|done]. cbn in Hh. injection Hh as <- <-.
    set (t' := mkThreads _ _ _ _ _).
    assert (moves_closing WHeartbeat (active t) (active t') c' id) as Hmoves.
    { split; [by destruct c'|]. by intros []. }
    destruct (close_ok _ _ _ (active t') _ _ _ WHeartbeat _ _ _ _ _ Hnet ltac:(cbn; by rewrite Epc)
      ltac:(apply Hin; by left) Hc Hmoves) as [Hnet' _].
    apply close_step_frame in Hc as []. split; cbn.
    + eapply net_ok_move; [exact Hnet'|done| |done]. intros i Hi. left. unfold refs in *. cbn in Hi.
      rewrite !elem_of_app in *. rewrite Epc. destruct c'; cbn in *; set_solver.
    + eapply (stop_ok_frame t); eauto. by rewrite Epc.
    + by apply (loaded_frame _ s); eauto.
  - done.
Qed.

Lemma step_event_ok n ans w r : world_ok n w ->
  world_step (StepEvent ans) w = Some r -> world_ok n r.1.
Proof.
  destruct w as [t s]. intros [Hnet Hstop Hload] Hstep. cbn in *.
  destruct (event_step _ _ _) as [[[pc s'] obs]|] eqn:He; [|done]. cbn in Hstep. simplify_eq.
  assert (event t <> E_end) as Hne by (intros Heq; by rewrite Heq in He).
  assert (forall id, id ∈ event_refs (event t) -> id ∈ refs t) as Hin by (unfold refs; set_solver).
  assert (forall pc s', (forall w, active (mkThreads (accept t) pc (heartbeat t) (main t) (stops t)) w = active t w) ->
    (forall id, id ∈ event_refs pc -> id ∈ refs t \/ id ∈ table s) -> loaded_ok pc s ->
    (s' = s \/ exists tm, s' = set_topics tm s) ->
    world_ok n (mkThreads (accept t) pc (heartbeat t) (main t) (stops t), s')) as Hmove.
  { intros pc0 s0 Hact Hrefs Hl Hs.
    assert (net_ok n (accept t) (active t) (refs t) (main_refs (main t)) s0) as Hnet0
      by (destruct Hs as [->|[tm ->]]; [done|by apply net_ok_topics]).
    split; cbn.
    - eapply net_ok_move; [exact Hnet0|exact Hact| |done]. intros id. unfold refs. cbn.
      rewrite !elem_of_app. destruct Hs as [->|[tm ->]]; cbn; intros [?%Hrefs|[?|?]]; auto;
        unfold refs in *; rewrite !elem_of_app in *; tauto.
    - eapply (stop_ok_frame t); try done; destruct Hs as [->|[tm ->]]; try done; by left.
    - destruct Hs as [->|[tm ->]]; [done|]. by apply (loaded_frame _ s). }
  cbn [fst].
  destruct (event t) as [| |[|id evs]|id evs|id evs|id f evs|id [|[op| |c] effs] evs
    |id c held effs evs|id c held effs evs|id c held f effs evs|c id k evs|] eqn:Epc;
    cbn [event_step] in He; cbn [event_refs] in Hin; try done.
  - injection He as <- <- <-. destruct (n_running s); move_on Hmove Epc.
  - repeat case_match; simplify_eq; move_on Hmove Epc.
  - injection He as <- <- <-. move_on Hmove Epc.
  - injection He as <- <- <-. case_bool_decide; move_on Hmove Epc.
  - destruct (handles s !! id) as [h|]; [|done]. injection He as <- <- <-. destruct (h_closed h); move_on Hmove Epc.
  - destruct (handles s !! id) as [h|] eqn:Hh; [|done]. cbn in He. injection He as <- <- <-. move_on Hmove Epc.
    congruence.
  - repeat case_match; simplify_eq; move_on Hmove Epc.
  - injection He as <- <- <-. move_on Hmove Epc.
  - injection He as <- <- <-. move_on Hmove Epc.
  - injection He as <- <- <-. move_on Hmove Epc.
  - injection He as <- <- <-. case_bool_decide; move_on Hmove Epc.
  - destruct (handles s !! c) as [h|]; [|done]. injection He as <- <- <-. destruct (h_closed h); move_on Hmove Epc.
  - destruct (handles s !! c) as [h|] eqn:Hh; [|done]. cbn in He. injection He as <- <- <-. move_on Hmove Epc.
    congruence.
  - repeat case_match; simplify_eq; move_on Hmove Epc.
  - set (t' := mkThreads _ _ _ _ _).
    destruct (close_step _ _ _ _) as [[c' s1]|] eqn:Hc; [|done]. cbn in He. injection He as <- <- <-.
    assert (moves_closing WEvent (active t) (active t') c' id) as Hmoves.
    { split; [destruct c'; [done|]; by destruct k|]. by intros []. }
    assert (id ∈ refs t) as Hid by (apply Hin; destruct k; set_solver).
    destruct (close_ok _ _ _ (active t') _ _ _ WEvent _ _ _ _ _ Hnet ltac:(cbn; by rewrite Epc)
      Hid Hc Hmoves) as [Hnet' _].
    apply close_step_frame in Hc as []. split; cbn.
    + eapply net_ok_move; [exact Hnet'|done| |done]. intros i Hi. left. unfold refs in *. cbn in Hi.
      rewrite !elem_of_app in *. rewrite Epc in *. destruct c', k; cbn in *; set_solver.
    + eapply (stop_ok_frame t); eauto. by rewrite Epc.
    + by destruct c', k.
Qed.

(** A descriptor of the server is closed, or the flag is cleared. *)
Lemma teardown_ok n acc act ptrs taken l e fds' s : net_ok n acc act ptrs taken s ->
  (l = listen_fd_ s \/ l = -1) -> (e = epoll_fd_ s \/ e = -1) ->
  (forall f r, fds' !! f = Some r <->
     fds s !! f = Some r /\ (r = RListen -> l = listen_fd_ s) /\ (r = REpoll -> e = epoll_fd_ s)) ->
  net_ok n acc act ptrs taken (set_setup l e false (set_fds fds' s)).
Proof.
  intros [] Hl He Hfds.
  assert (forall f p, fds s !! f = Some (RSocket p) -> fds' !! f = Some (RSocket p)) as Hsock
    by (intros f p Hf; by apply Hfds).
  split; cbn [fds listen_fd_ epoll_fd_ handles table n_next clients set_fds set_setup]; try done.
  - intros f r (Hf & Hrl & Hre)%Hfds. destruct (no_fds0 f r Hf) as [? Hb]. split; [done|].
    destruct r; cbn in *; try done; [rewrite Hrl|rewrite Hre]; done.
  - destruct no_setup0 as [Hls Hes]. split; intros H0; apply Hfds.
    + destruct Hl as [->| ->]; [|done]. by split; [auto|].
    + destruct He as [->| ->]; [|done]. by split; [auto|].
  - intros id h Hid Hop. destruct (no_open0 id h Hid Hop) as [? ?]. auto.
  - intros w c id Ha. destruct (no_active0 w c id Ha) as (h & Hid & Hcl & Hc & H1 & H2 & H3).
    exists h. split_and!; auto. intros Hr (Hf & _)%Hfds. by apply H2.
  - destruct acc; try done. destruct no_accept0 as (? & ? & ?). auto.
Qed.

Lemma delete_listen n acc act ptrs taken s : net_ok n acc act ptrs taken s -> 0 <= listen_fd_ s ->
  forall f r, delete (listen_fd_ s) (fds s) !! f = Some r <->
    fds s !! f = Some r /\ (r = RListen -> -1 = listen_fd_ s) /\ (r = REpoll -> epoll_fd_ s = epoll_fd_ s).
Proof.
  intros Hok Hpos f r. rewrite lookup_delete_Some. pose proof (proj1 (no_setup _ _ _ _ _ _ Hok) Hpos).
  split.
  - intros [Hne Hf]. split_and!; try done. intros ->.
    by destruct (no_fds _ _ _ _ _ _ Hok _ _ Hf) as [_ Hb].
  - intros (Hf & Hr & _). split; [|done]. intros <-. assert (r = RListen) as Heq by congruence.
    apply Hr in Heq. lia.
Qed.

Lemma delete_epoll n acc act ptrs taken s : net_ok n acc act ptrs taken s -> 0 <= epoll_fd_ s ->
  forall f r, delete (epoll_fd_ s) (fds s) !! f = Some r <->
    fds s !! f = Some r /\ (r = RListen -> listen_fd_ s = listen_fd_ s) /\ (r = REpoll -> -1 = epoll_fd_ s).
Proof.
  intros Hok Hpos f r. rewrite lookup_delete_Some. pose proof (proj2 (no_setup _ _ _ _ _ _ Hok) Hpos).
  split.
  - intros [Hne Hf]. split_and!; try done. intros ->.
    by destruct (no_fds _ _ _ _ _ _ Hok _ _ Hf) as [_ Hb].
  - intros (Hf & _ & Hr). split; [|done]. intros <-. assert (r = REpoll) as Heq by congruence.
    apply Hr in Heq. lia.
Qed.

(** Two descriptors are created and the accept thread is started. *)
Lemma opened_ok n act ptrs taken s f e : net_ok n A_end act ptrs taken s ->
  listen_fd_ s = -1 -> epoll_fd_ s = -1 -> 0 <= f -> 0 <= e -> e <> f ->
  fds s !! f = None -> fds s !! e = None ->
  net_ok n A_test act ptrs taken
    (set_setup f e true (set_fds (<[e := REpoll]> (<[f := RListen]> (fds s))) s)).
Proof.
  intros [] Hl He Hf Hpe Hne Hnf Hnep.
  assert (forall g p, fds s !! g = Some (RSocket p) ->
    <[e := REpoll]> (<[f := RListen]> (fds s)) !! g = Some (RSocket p)) as Hsock.
  { intros g p Hg. rewrite !lookup_insert_ne by congruence. done. }
  split; cbn [fds listen_fd_ epoll_fd_ handles table n_next clients set_fds set_setup]; try done.
  - intros g r Hg. destruct (decide (g = e)) as [->|];
      [|rewrite lookup_insert_ne in Hg by done; destruct (decide (g = f)) as [->|]].
    + rewrite lookup_insert_eq in Hg. by simplify_eq.
    + rewrite lookup_insert_eq in Hg. by simplify_eq.
    + rewrite lookup_insert_ne in Hg by done. destruct (no_fds0 g r Hg) as [? Hb].
      split; [done|]. destruct r; cbn in *; [lia|lia|]. destruct Hb as [|]; [done|by right].
  - split; intros _; [|by rewrite lookup_insert_eq].
    by rewrite lookup_insert_ne, lookup_insert_eq.
  - intros id h Hid Hop. destruct (no_open0 id h Hid Hop) as [? [?|[?|?]]]; auto. done.
  - intros w c id Ha. destruct (no_active0 w c id Ha) as (h & Hid & Hcl & Hc & H1 & H2 & H3).
    exists h. split_and!; auto. intros Hr Hs. apply H2; [done|].
    destruct (decide (h_fd h = e)) as [Heq|];
      [rewrite Heq, lookup_insert_eq in Hs; done|rewrite lookup_insert_ne in Hs by done].
    destruct (decide (h_fd h = f)) as [Heq|];
      [rewrite Heq, lookup_insert_eq in Hs; done|by rewrite lookup_insert_ne in Hs by done].
  - intros id Hid. destruct (no_table0 id Hid). by split.
  - intros id Hid. destruct (no_ptrs0 id Hid). by split.
Qed.

Lemma step_start_ok n heartbeat_on ans w r : world_ok n w ->
  world_step (StepStart heartbeat_on ans) w = Some r -> world_ok n r.1.
Proof.
  destruct w as [t s]. intros Hw Hstep. pose proof Hw as [Hnet Hstop Hload].
  cbn in Hstep. cbn [fst snd] in *.
  destruct (main t) eqn:Hm; try done.
  destruct (st_new _ _ Hstop Hm) as (Hl & He & Hst & Ha & Hev & Hh).
  destruct (start_step _ _ _ _) as [[t' s']|] eqn:Hs; [|done]. cbn in Hstep. simplify_eq. cbn [fst].
  assert (forall f, free_fd f s = true -> 0 <= f /\ fds s !! f = None) as Hfree.
  { intros f [? ?]%andb_true_iff. by reflect_bools. }
  destruct ans as [|f|f|f|f e]; cbn -[free_fd] in Hs;
    try (destruct (free_fd f s) eqn:Hf; [|done]; apply Hfree in Hf as [Hpos Hnone];
      injection Hs as <- <-; match goal with |- world_ok _ (_, ?x) => replace x with s; [done|] end;
      destruct s; cbn in *; subst; by rewrite delete_insert_id).
  - injection Hs as <- <-. replace (set_setup _ _ _ s) with s; [done|]. destruct s. cbn in *. by subst.
  - destruct (free_fd f s) eqn:Hf; [|done]. apply Hfree in Hf as [Hpos Hnone]. cbn -[free_fd] in Hs.
    destruct (free_fd e _) eqn:Hfe; [|done]. apply andb_true_iff in Hfe as [Hpe Hne].
    reflect_bools. cbn in Hne. injection Hs as <- <-.
    assert (e <> f) as Hef by (intros ->; by rewrite lookup_insert_eq in Hne).
    rewrite lookup_insert_ne in Hne by done.
    rewrite Ha in Hnet. split; cbn; [|split; cbn; try done; try lia|done].
    eapply (net_ok_move n A_test (active t) _ (refs t)); [|intros []|intros id Hid|].
    + exact (opened_ok _ _ _ _ s f e Hnet Hl He Hpos Hpe Hef Hnone Hne).
    + by cbn; rewrite Hev.
    + cbn. rewrite Hh. by destruct heartbeat_on.
    + by cbn; rewrite Hm.
    + left. by destruct heartbeat_on; cbn in Hid; apply elem_of_nil in Hid.
    + by intros id h _ _.
Qed.

(** The goals about [Stop]'s progress once the program counter is known. *)
Ltac stop_case :=
  split; cbn in *; intros; try done; try lia;
  try match goal with H : _ -> ?G |- ?G => apply H; lia end.

(** [Stop] takes over the table. *)
Lemma take_ok n acc act ptrs ptrs' taken keys s : net_ok n acc act ptrs taken s ->
  taken = [] -> (forall id, id ∈ keys <-> id ∈ table s) ->
  (forall id, id ∈ ptrs' -> id ∈ ptrs \/ id ∈ table s) ->
  net_ok n acc act ptrs' keys (set_table ∅ s).
Proof.
  intros [] -> Hkeys Hptrs.
  split; cbn [fds listen_fd_ epoll_fd_ handles table n_next clients set_table]; try done.
  - intros id h Hid Hop. destruct (no_open0 id h Hid Hop) as [? [?|[?|?%elem_of_nil]]]; try done;
      (split; [done|]); [right; right; by apply Hkeys|auto].
  - intros id h Hid Hcl. destruct (no_closed0 id h Hid Hcl) as [|[? _]]; [by left|right].
    split; [done|]. apply not_elem_of_empty.
  - intros id [|]%Hptrs; auto.
Qed.

Lemma step_main_ok n order w r : world_ok n w ->
  world_step (StepMain order) w = Some r -> world_ok n r.1.
Proof.
  destruct w as [t s]. intros [Hnet Hstop Hload] Hstep. cbn -[main_step] in *.
  destruct (main_step _ _ _ _) as [[t' s']|] eqn:Hs; [|done]. cbn in Hstep. simplify_eq. cbn [fst].
  pose proof Hstop as [].
  assert (forall pc k s', let t' := mkThreads (accept t) (event t) (heartbeat t) pc k in
    (forall w, active t' w = active t w) ->
    (forall id, id ∈ main_refs pc -> id ∈ main_refs (main t) \/ id ∈ table s') ->
    (forall id h, handles s !! id = Some h -> h_closed h = false ->
       id ∈ main_refs (main t) -> id ∈ main_refs pc) ->
    net_ok n (accept t) (active t) (refs t) (main_refs (main t)) s' ->
    handles s' = handles s -> stop_ok t' s' -> world_ok n (t', s')) as Hmove.
  { intros pc k s0 t0 Hact Hr1 Hr2 Hnet0 Hh Hst. split; cbn; [|done|].
    - eapply net_ok_move; [exact Hnet0|exact Hact| |].
      + intros id. unfold refs. cbn. rewrite !elem_of_app. intros [?|[?|[?|?]%Hr1]]; auto.
      + intros id h. rewrite Hh. apply Hr2.
    - apply (loaded_frame _ s); [done|]. intros id h. by rewrite Hh. }
  assert (forall l e, l = listen_fd_ s -> e = epoll_fd_ s ->
    net_ok n (accept t) (active t) (refs t) (main_refs (main t)) (set_setup l e false s)) as Hflag.
  { intros l e -> ->. exact (teardown_ok _ _ _ _ _ _ _ (fds s) _ Hnet (or_introl eq_refl)
      (or_introl eq_refl) ltac:(naive_solver)). }
  unfold main_step in Hs. destruct (main t) as [| | | | |[|id ids]|c id ids| | |] eqn:Epc.
  - injection Hs as <- <-. apply Hmove; [by intros []; cbn; rewrite ?Epc|by left|done|by apply Hflag|done|stop_case].
  - injection Hs as <- <-. apply Hmove; [by intros []; cbn; rewrite ?Epc|by left|done|by apply Hflag|done|stop_case].
  - injection Hs as <- <-. destruct (0 <=? _) eqn:Hl; reflect_bools.
    + rewrite st_flag0 by (cbn; lia).
      apply Hmove; [by intros []; cbn; rewrite ?Epc|by left|done| |done|stop_case].
      apply teardown_ok; [done|by right|by left|by eapply delete_listen].
    + apply Hmove; [by intros []; cbn; rewrite ?Epc|by left|done|done|done|stop_case].
  - injection Hs as <- <-. destruct (0 <=? _) eqn:Hl; reflect_bools.
    + rewrite st_flag0 by (cbn; lia).
      apply Hmove; [by intros []; cbn; rewrite ?Epc|by left|done| |done|stop_case].
      apply teardown_ok; [done|by left|by right|by eapply delete_epoll].
    + apply Hmove; [by intros []; cbn; rewrite ?Epc|by left|done|done|done|stop_case].
  - destruct (negb _); [|done]. injection Hs as <- <-. split; cbn; [|stop_case|done].
    eapply (take_ok n _ _ (refs t)); [|done| |].
    + exact (net_ok_move _ _ _ (active (mkThreads (accept t) (event t) (heartbeat t) (M_next []) (stops t)))
        _ _ _ _ _ Hnet ltac:(by intros []; cbn; rewrite ?Epc) ltac:(by left) ltac:(done)).
    + intros id. apply registered_keys.
    + intros id. unfold refs. cbn. rewrite Epc, !elem_of_app, registered_keys. cbn. tauto.
  - injection Hs as <- <-. apply Hmove; [by intros []; cbn; rewrite ?Epc|by left|done|done|done|stop_case].
  - injection Hs as <- <-. apply Hmove; [by intros []; cbn; rewrite ?Epc|by left|done|done|done|stop_case].
  - destruct (close_step _ _ _ _) as [[c' s1]|] eqn:Hc; [|done]. cbn in Hs. injection Hs as <- <-.
    set (t' := mkThreads _ _ _ _ _).
    assert (moves_closing WMain (active t) (active t') c' id) as Hmoves.
    { split; [by destruct c'|]. by intros []. }
    destruct (close_ok _ _ _ (active t') _ _ _ WMain _ _ _ _ _ Hnet ltac:(cbn; by rewrite Epc)
      ltac:(unfold refs; rewrite Epc; set_solver) Hc Hmoves) as [Hnet' Hclosed].
    apply close_step_frame in Hc as []. split; cbn.
    + eapply net_ok_move; [exact Hnet'|done| |].
      * intros i Hi. left. unfold refs in *. cbn in Hi.
        rewrite !elem_of_app in *. rewrite Epc in *. destruct c'; cbn in *; set_solver.
      * intros i h Hi Hop. destruct c'; cbn; [done|]. intros [->|]%elem_of_cons; [|done].
        rewrite (Hclosed eq_refl h Hi) in Hop. done.
    + assert (phase (main t') = 4)%nat by by destruct c'.
      assert (main t' <> M_new) by by destruct c'.
      split; intros; try lia; try done; rewrite ?cf_listen0, ?cf_epoll0, ?cf_running0; try lia;
        try match goal with H : _ -> ?G |- ?G => apply H; cbn in *; lia end.
      apply leibniz_equiv. assert (table s = ∅) as Hempty by (apply st_table0; cbn in *; lia).
      rewrite Hempty in cf_table0. set_solver.
    + by apply (loaded_frame _ s); eauto.
  - destruct (accept t) eqn:Ea; try done. injection Hs as <- <-. rewrite <- Ea in *.
    apply Hmove; [by intros []; cbn; rewrite ?Epc|by left|done|done|done|stop_case].
  - destruct (event t) eqn:Ea; try done. injection Hs as <- <-. rewrite <- Ea in *.
    apply Hmove; [by intros []; cbn; rewrite ?Epc|by left|done|done|done|stop_case].
  - destruct (heartbeat t) eqn:Ea; try done. injection Hs as <- <-. rewrite <- Ea in *.
    apply Hmove; [by intros []; cbn; rewrite ?Epc|by left|done|done|done|stop_case].
Qed.
