(* ===== verification/ServerThreadsStop.v ===== *)
(** * The end of the server's threads

    A measure of what is left to do once [Stop] of [network/tcp_server.cpp] has
    begun: every step of every thread decreases it, except for what the kernel
    still delivers and the handlers then do ([work]). *)

From S2P Require Import Prelude Types TopicManager ServerThreads ServerThreadsInv.
#[local] Open Scope Z_scope.

(** ** What is left to do *)

Definition close_rank (c : closing) : nat :=
  match c with C_claim => 4 | C_close => 3 | C_reset => 2 | C_erase => 1 end.

Definition accept_rank (pc : accept_pc) : nat :=
  match pc with A_end => 0 | A_test => 1 | A_insert _ => 2 | A_take _ _ => 3 | A_accept => 4 end.

(** A connection the accept thread may still register. *)
Definition late (pc : accept_pc) : nat :=
  match pc with A_accept | A_take _ _ | A_insert _ => 1 | _ => 0 end.

Definition events_rank (evs : list ConnectionId) : nat := 2 + 8 * length evs.

Definition effects_rank (effs : list effect) (evs : list ConnectionId) : nat :=
  1 + 8 * length effs + events_rank evs.

Definition event_rank (pc : event_pc) : nat :=
  match pc with
  | E_end => 0
  | E_test => 1
  | E_wait => 2
  | E_next evs => events_rank evs
  | E_check _ evs => 7 + events_rank evs
  | E_load _ evs => 6 + events_rank evs
  | E_recv _ _ evs => 5 + events_rank evs
  | E_handle _ effs evs => effects_rank effs evs
  | E_send _ _ _ effs evs => 7 + effects_rank effs evs
  | E_send_load _ _ _ effs evs => 6 + effects_rank effs evs
  | E_write _ _ _ _ effs evs => 5 + effects_rank effs evs
  | E_close c _ K_event evs => close_rank c + events_rank evs
  | E_close c _ (K_effects _ _ effs) evs => close_rank c + effects_rank effs evs
  end.

(** [n] bounds the connections of the table. *)
Definition heartbeat_rank (n : nat) (pc : heartbeat_pc) : nat :=
  match pc with
  | H_end => 0
  | H_test | H_again => 1
  | H_scan => 4 + 6 * n
  | H_notify todo ids => 3 + length todo + 5 * length ids
  | H_next ids => 2 + 5 * length ids
  | H_close c _ ids => close_rank c + 2 + 5 * length ids
  end.

Definition main_rank (n : nat) (pc : main_pc) : nat :=
  match pc with
  | M_new | M_idle => 0
  | M_join_heartbeat => 1
  | M_join_event => 2
  | M_join_accept => 3
  | M_next ids => 4 + 5 * length ids
  | M_close c _ ids => close_rank c + 4 + 5 * length ids
  | M_take => 5 + 5 * n
  | M_epoll => 6 + 5 * n
  | M_listen => 7 + 5 * n
  end.

Definition rank (w : world) : nat :=
  let '(t, s) := w in
  let n := (size (table s) + late (accept t))%nat in
  accept_rank (accept t) + event_rank (event t) + heartbeat_rank n (heartbeat t)
    + main_rank n (main t).

(** What the kernel delivers to the event thread in one step: events, bytes, or
    the end of the data with the effects of the frames it completes. *)
Definition work (st : thread_step) : nat :=
  match st with
  | StepEvent (Events evs) => 2 + 8 * length evs
  | StepEvent Bytes => 2
  | StepEvent (Drained effs) => 8 * length effs
  | _ => 0
  end.

(** ** Every step decreases it *)

Lemma length_entries_table (order : Traversal ConnectionId) (tb : gset ConnectionId) :
  length (entries order (gset_to_gmap tt tb)).*1 = size tb.
Proof.
  rewrite length_fmap, entries_perm, length_map_to_list.
  rewrite <- (dom_gset_to_gmap tb tt) at 2. symmetry. apply size_dom.
Qed.

Lemma length_scan order idle s : (length (scan order idle s) <= size (table s))%nat.
Proof. unfold scan. etrans; [apply length_filter|]. by rewrite length_entries_table. Qed.

(** A step of [Close] does its part, and registers nothing. *)
Lemma close_step_rank free c id s c' s' : close_step free c id s = Some (c', s') ->
  (match c' with Some c => close_rank c | None => 0 end < close_rank c)%nat /\
  (size (table s') <= size (table s))%nat.
Proof.
  intros Hstep. split.
  - assert (forall c1, c' = Some c1 -> close_rank c1 < close_rank c)%nat as Hlt.
    { intros c1 ->. unfold close_step in Hstep. repeat case_match; simplify_eq; cbn; lia. }
    destruct c' as [c1|]; [by apply Hlt|destruct c; cbn; lia].
  - apply subseteq_size. exact (cf_table _ _ (close_step_frame _ _ _ _ _ _ Hstep)).
Qed.

Lemma rank_mono n n' pch pcm : (n' <= n)%nat ->
  (heartbeat_rank n' pch <= heartbeat_rank n pch)%nat /\ (main_rank n' pcm <= main_rank n pcm)%nat.
Proof. intros Hn. split; [destruct pch|destruct pcm]; cbn; lia. Qed.

Lemma accept_step_rank free ans pc s pc' s' : n_running s = false ->
  accept_step free ans pc s = Some (pc', s') ->
  (accept_rank pc' < accept_rank pc)%nat /\
  (size (table s') + late pc' <= size (table s) + late pc)%nat.
Proof.
  intros Hrun Hstep. unfold accept_step in Hstep. rewrite Hrun in Hstep.
  destruct pc; repeat case_match; simplify_eq; cbn; try lia.
  split; [lia|]. rewrite Nat.add_0_r, size_union_alt, size_singleton.
  enough (size (table s ∖ {[id]}) <= size (table s))%nat by lia. apply subseteq_size. set_solver.
Qed.

Lemma event_step_rank ans pc s pc' s' obs : n_running s = false ->
  event_step ans pc s = Some (pc', s', obs) ->
  (event_rank pc' < event_rank pc + work (StepEvent ans))%nat /\
  (size (table s') <= size (table s))%nat.
Proof.
  intros Hrun Hstep. unfold event_step, mbind, option_bind in Hstep. rewrite Hrun in Hstep.
  destruct pc as [| |[|id evs]|id evs|id evs|id f evs|id [|[op| |c] effs] evs
    |id c held effs evs|id c held effs evs|id c held f effs evs|c id k evs|];
    try (repeat case_match; simplify_eq; cbn; unfold effects_rank, events_rank; cbn; lia).
  destruct (close_step _ c id s) as [[c' s1]|] eqn:Hc; [|done]. injection Hstep as <- <- <-.
  destruct (close_step_rank _ _ _ _ _ _ Hc) as [Hlt Hsize]. split; [|done].
  destruct c' as [c1|], k as [|id' held effs]; cbn; lia.
Qed.

Lemma heartbeat_step_rank n free order idle pc s pc' s' : n_running s = false ->
  (size (table s) <= n)%nat -> heartbeat_step free order idle pc s = Some (pc', s') ->
  (heartbeat_rank n pc' < heartbeat_rank n pc)%nat /\ (size (table s') <= size (table s))%nat.
Proof.
  intros Hrun Hn Hstep. unfold heartbeat_step, mbind, option_bind in Hstep. rewrite Hrun in Hstep.
  pose proof (length_scan order idle s) as Hscan.
  destruct pc as [| | |[|id todo] ids|[|id ids]|c id ids|];
    try (repeat case_match; simplify_eq; cbn; lia).
  destruct (close_step _ c id s) as [[c' s1]|] eqn:Hc; [|done]. injection Hstep as <- <-.
  destruct (close_step_rank _ _ _ _ _ _ Hc) as [Hlt Hsize]. split; [|done].
  destruct c' as [c1|]; cbn; lia.
Qed.

(** The thread in [Stop] goes on, or has returned. *)
Lemma main_step_rank n free order t s t' s' : (1 <= phase (main t))%nat ->
  (size (table s) <= n)%nat -> main_step free order t s = Some (t', s') ->
  accept t' = accept t /\ event t' = event t /\ heartbeat t' = heartbeat t /\
  (main_rank n (main t') < main_rank n (main t))%nat /\
  (size (table s') <= size (table s))%nat /\
  ((1 <= phase (main t') /\ stops t' = stops t) \/ stops t' = S (stops t))%nat.
Proof.
  intros Hph Hn Hstep. unfold main_step, mbind, option_bind in Hstep.
  pose proof (length_entries_table order (table s)) as Hlen.
  destruct (main t) as [| | | | |[|id ids]|c id ids| | |] eqn:Epc; cbn in Hph; try lia;
    try (repeat case_match; simplify_eq; cbn in *; rewrite ?size_empty, ?Hlen; split_and!; try done;
         try lia; solve [left; lia | by right]).
  destruct (close_step _ c id s) as [[c' s1]|] eqn:Hc; [|done]. injection Hstep as <- <-.
  destruct (close_step_rank _ _ _ _ _ _ Hc) as [Hlt Hsize]. cbn [accept event heartbeat main stops].
  split_and!; try done; [destruct c' as [c1|]; cbn; lia|]. left.
  destruct c'; cbn; lia.
Qed.

(** Nothing sets the flag again. *)
Lemma world_step_stopped st t s t' s' obs : n_running s = false -> main t <> M_new ->
  world_step st (t, s) = Some ((t', s'), obs) ->
  n_running s' = false /\ main t' <> M_new /\ (stops t <= stops t')%nat.
Proof.
  intros Hrun Hnew Hstep. unfold world_step, mbind, option_bind in Hstep.
  destruct st as [hb ans|ans|ans|order idle|order].
  - by destruct (main t).
  - destruct (accept_step _ _ _ _) as [[pc s1]|] eqn:Hs; [|done]. injection Hstep as <- <- <-.
    split; [|done]. unfold accept_step in Hs. by repeat case_match; simplify_eq.
  - destruct (event_step _ _ _) as [[[pc s1] obs1]|] eqn:Hs; [|done]. injection Hstep as <- <- <-.
    split; [|done]. unfold event_step, mbind, option_bind in Hs.
    repeat case_match; simplify_eq; try done; by erewrite cf_running by (by eapply close_step_frame).
  - destruct (heartbeat_step _ _ _ _ _) as [[pc s1]|] eqn:Hs; [|done]. injection Hstep as <- <- <-.
    split; [|done]. unfold heartbeat_step, mbind, option_bind in Hs.
    repeat case_match; simplify_eq; try done; by erewrite cf_running by (by eapply close_step_frame).
  - destruct (main_step _ _ _ _) as [[t1 s1]|] eqn:Hs; [|done]. injection Hstep as <- <- <-.
    unfold main_step, mbind, option_bind in Hs.
    repeat case_match; simplify_eq; cbn; split_and!; try done; try lia;
      by erewrite cf_running by (by eapply close_step_frame).
Qed.

Lemma world_step_rank st t s t' s' obs : n_running s = false -> (1 <= phase (main t))%nat ->
  world_step st (t, s) = Some ((t', s'), obs) ->
  (rank (t', s') < rank (t, s) + work st)%nat /\
  ((1 <= phase (main t') /\ stops t' = stops t) \/ stops t' = S (stops t))%nat.
Proof.
  intros Hrun Hph Hstep.
  unfold world_step, mbind, option_bind in Hstep. destruct st as [hb ans|ans|ans|order idle|order].
  - destruct (main t); cbn in Hph; try lia; done.
  - destruct (accept_step _ _ _ _) as [[pc s1]|] eqn:Hs; [|done]. injection Hstep as <- <- <-.
    destruct (accept_step_rank _ _ _ _ _ _ Hrun Hs) as [Hr Hn].
    destruct (rank_mono _ _ (heartbeat t) (main t) Hn) as [H1 H2].
    split; [|by left]. cbn [rank accept event heartbeat main]. cbn [work]. lia.
  - destruct (event_step _ _ _) as [[[pc s1] obs1]|] eqn:Hs; [|done]. injection Hstep as <- <- <-.
    destruct (event_step_rank _ _ _ _ _ _ Hrun Hs) as [Hr Hn].
    destruct (rank_mono (size (table s) + late (accept t)) (size (table s1) + late (accept t))
      (heartbeat t) (main t) ltac:(lia)) as [H1 H2].
    split; [|by left]. cbn [rank accept event heartbeat main]. lia.
  - destruct (heartbeat_step _ _ _ _ _) as [[pc s1]|] eqn:Hs; [|done]. injection Hstep as <- <- <-.
    destruct (heartbeat_step_rank (size (table s) + late (accept t)) _ _ _ _ _ _ _ Hrun (Nat.le_add_r _ _) Hs)
      as [Hr Hn].
    destruct (rank_mono (size (table s) + late (accept t)) (size (table s1) + late (accept t))
      pc (main t) ltac:(lia)) as [H1 H2].
    split; [|by left]. cbn [rank accept event heartbeat main]. cbn [work]. lia.
  - destruct (main_step _ _ _ _) as [[t1 s1]|] eqn:Hs; [|done]. injection Hstep as <- <- <-.
    destruct (main_step_rank (size (table s) + late (accept t)) _ _ _ _ _ _ Hph (Nat.le_add_r _ _) Hs)
      as (Ha & He & Hh & Hr & Hn & Hnext). split; [|exact Hnext].
    destruct (rank_mono (size (table s) + late (accept t)) (size (table s1) + late (accept t))
      (heartbeat t) (main t1) ltac:(lia)) as [H1 H2].
    cbn [rank]. rewrite Ha, He, Hh. cbn [work]. lia.
Qed.

Definition total_work (sts : list thread_step) : nat := sum_list (work <$> sts).

Lemma world_run_stops sts t s t' s' obs : n_running s = false -> main t <> M_new ->
  world_run sts (t, s) = Some ((t', s'), obs) -> (stops t <= stops t')%nat.
Proof.
  revert t s obs. induction sts as [|st sts IH]; intros t s obs Hrun Hnew; [by intros [= <- <- <-]|].
  cbn [world_run]. destruct (world_step st (t, s)) as [[[t1 s1] obs1]|] eqn:Hs; [|done]. cbn.
  destruct (world_run sts (t1, s1)) as [[w2 obs2]|] eqn:Hr; [|done]. intros [= -> <-].
  destruct (world_step_stopped _ _ _ _ _ _ Hrun Hnew Hs) as (H1 & H2 & H3).
  specialize (IH t1 s1 obs2 H1 H2 Hr). lia.
Qed.

(** While one [Stop] is under way the threads take no more steps than are left. *)
Lemma stop_bounded sts t s t' s' obs : n_running s = false -> (1 <= phase (main t))%nat ->
  world_run sts (t, s) = Some ((t', s'), obs) -> stops t' = stops t ->
  (length sts <= rank (t, s) + total_work sts)%nat.
Proof.
  revert t s obs. induction sts as [|st sts IH]; intros t s obs Hrun Hph; [cbn; lia|].
  cbn [world_run length]. destruct (world_step st (t, s)) as [[[t1 s1] obs1]|] eqn:Hs; [|done].
  cbn [mbind option_bind].
  destruct (world_run sts (t1, s1)) as [[w2 obs2]|] eqn:Hr; [|done].
  intros [= -> <-] Heq.
  assert (main t <> M_new) as Hnew by (intros Hm; rewrite Hm in Hph; cbn in Hph; lia).
  destruct (world_step_stopped _ _ _ _ _ _ Hrun Hnew Hs) as (H1 & H2 & _).
  destruct (world_step_rank _ _ _ _ _ _ Hrun Hph Hs) as [Hrank Hnext].
  pose proof (world_run_stops _ _ _ _ _ _ H1 H2 Hr) as Hmono.
  destruct Hnext as [[Hph1 Hst]|Hst]; [|lia].
  specialize (IH t1 s1 obs2 H1 Hph1 Hr ltac:(congruence)).
  change (total_work (st :: sts)) with (work st + total_work sts)%nat. lia.
Qed.
