(* ===== verification/ServerThreadsTheorems.v ===== *)
(** * What the server's threads guarantee

    Descriptor safety, shutting down, and the races that remain. *)

From S2P Require Import Prelude Types Config RingBuffer Frame StreamingCodec RateLimiter Connection.
From S2P Require Import TcpServer TopicManager Dedup Compression MessageStore Broker BrokerProps System.
From S2P Require Import ServerThreads ServerThreadsInv ServerThreadsStop.
#[local] Open Scope Z_scope.

(** ** Reachable states *)

Lemma world_step_ok n st w r : 0 <= n < 2 ^ 64 - 2 -> world_ok n w ->
  world_step st w = Some r -> world_ok (n + 1) r.1.
Proof.
  intros Hn Hok Hstep.
  assert (forall w, world_ok n w -> world_ok (n + 1) w) as Hweak.
  { intros w' [H1 H2 H3]. split; [|done|done]. by apply (net_ok_weaken n); [lia|]. }
  destruct st; [apply Hweak|..|apply Hweak].
  - by eapply step_start_ok.
  - by eapply step_accept_ok.
  - by eapply Hweak, step_event_ok.
  - by eapply Hweak, step_heartbeat_ok.
  - by eapply step_main_ok.
Qed.

Lemma world_run_ok n sts w r : 0 <= n -> n + zlen sts < 2 ^ 64 - 2 -> world_ok n w ->
  world_run sts w = Some r -> world_ok (n + zlen sts) r.1.
Proof.
  revert n w r. induction sts as [|st sts IH]; intros n w r Hn0 Hn Hok.
  { intros [= <-]. cbn. by rewrite Z.add_0_r. }
  cbn [world_run length] in *. destruct (world_step st w) as [[w1 obs]|] eqn:Hs; [|done]. cbn.
  destruct (world_run sts w1) as [[w2 obs']|] eqn:Hr; [|done]. intros [= <-].
  replace (n + Z.of_nat (S (length sts))) with (n + 1 + zlen sts) by lia.
  apply (IH (n + 1) w1 (w2, obs')); [lia|lia| |done].
  eapply (world_step_ok n st w (w1, obs)); [lia|done|done].
Qed.

Lemma world_new_ok : world_ok 0 (threads_new, net_new).
Proof.
  split; cbn; [|split; cbn; try done; lia|done].
  split; cbn; try done; try (by intros; rewrite ?lookup_empty in *); try set_solver;
    by intros [].

Qed.

Lemma world_reachable_ok w : world_reachable w -> exists n, world_ok n w.
Proof.
  intros (sts & obs & Hlen & Hrun). exists (0 + zlen sts).
  eapply (world_run_ok 0 sts _ (w, obs)); [lia|lia|apply world_new_ok|done].
Qed.

(** ** The broker's handlers as effects *)

Definition effect_of (a : action) : effect :=
  match a with Reply _ => EffReply | SendTo c _ => EffSendTo c end.

(** What a handler does to the topic manager and sends is a list of effects the
    event thread may carry out for its connection. *)
Lemma handler_effects {St} `{MessageStore St} proto zlib env conn frame (b : Broker St) :
  let r := OnFrameReceived proto zlib env conn frame b in
  exists ops, topic_manager_ r.1.1 = foldl tm_step (topic_manager_ b) ops /\
    forallb (effect_by (conn_id_ conn)) ((EffTopics <$> ops) ++ (effect_of <$> r.2)) = true.
Proof.
  destruct (OnFrameReceived_by proto zlib env conn frame b) as (ops & Heq & Hops).
  exists ops. split; [done|]. rewrite forallb_app. apply andb_true_iff. split.
  - clear Heq. induction Hops as [|op ops Hop Hops IH]; [done|]. cbn. rewrite IH, andb_true_r.
    destruct op; try done. cbn in *. by apply Z.eqb_eq.
  - cbn. induction (OnFrameReceived proto zlib env conn frame b).2 as [|[] acts IH]; done.
Qed.

(** ** Properties *)

(** C32: descriptors are safe under every schedule of the threads.  An open
    connection's descriptor is the socket of its own client, and no other open
    connection has it; a thread about to close a descriptor closes that of the
    connection it has claimed, so that each socket is closed once; every open
    descriptor is the listening socket, the epoll instance, a client just
    accepted or belongs to a connection that is open or about to be closed; the
    table holds nothing but open connections and such whose closing is under way;
    an open connection is held by the table, the accept thread or [Stop], so that
    destroying a connection never closes one; and what is received or sent for an
    open connection comes from, or goes to, its own client. *)
Theorem descriptors_safe t s : world_reachable (t, s) ->
  (forall id h, handles s !! id = Some h -> h_closed h = false ->
     fds s !! h_fd h = Some (RSocket (h_client h)) /\
     forall j k, handles s !! j = Some k -> h_closed k = false -> h_fd k = h_fd h -> j = id) /\
  (forall w id, active t w = Some (C_close, id) ->
     exists h, handles s !! id = Some h /\ fds s !! h_fd h = Some (RSocket (h_client h))) /\
  (forall f p, fds s !! f = Some (RSocket p) -> accept t = A_take f p \/
     exists id h, handles s !! id = Some h /\ h_fd h = f /\ h_client h = p /\
       (h_closed h = false \/ exists w, active t w = Some (C_close, id))) /\
  (forall id, id ∈ table s -> exists h, handles s !! id = Some h /\
     (h_closed h = false \/ exists w c, active t w = Some (c, id))) /\
  (forall id h, handles s !! id = Some h -> h_closed h = false ->
     id ∈ table s \/ accept t = A_insert id \/ id ∈ main_refs (main t)) /\
  (forall ans w obs c p h, world_step (StepEvent ans) (t, s) = Some (w, obs) ->
     Received c p ∈ obs \/ Sent c p ∈ obs -> handles s !! c = Some h -> h_closed h = false ->
     p = h_client h).
Proof.
  intros [n [Hnet Hstop Hload]]%world_reachable_ok. cbn in *. split_and!.
  - intros id h Hid Hop. destruct (no_open _ _ _ _ _ _ Hnet id h Hid Hop) as [Hs _].
    split; [done|]. intros j k Hj Hk Heq.
    destruct (no_open _ _ _ _ _ _ Hnet j k Hj Hk) as [Hs' _].
    eapply (no_client _ _ _ _ _ _ Hnet); [done..|]. rewrite Heq in Hs'. congruence.
  - intros w id Ha. destruct (no_active _ _ _ _ _ _ Hnet w _ id Ha) as (h & ? & _ & _ & ? & _).
    eauto.
  - intros f p Hf. destruct (no_fds _ _ _ _ _ _ Hnet f _ Hf) as [Hpos [?|(id & h & Hid & <- & <-)]];
      [by left|right]. exists id, h. split_and!; try done.
    destruct (h_closed h) eqn:Hcl; [right|by left].
    destruct (no_closed _ _ _ _ _ _ Hnet id h Hid Hcl) as [(w & c & Ha)|[? _]]; [|lia].
    destruct (no_active _ _ _ _ _ _ Hnet w c id Ha) as (k & Hk & _ & Hc & _ & Hr & He).
    rewrite Hid in Hk. injection Hk as <-. exists w.
    destruct c; try done; [by destruct Hr|]. specialize (He eq_refl). lia.
  - intros id Hin. destruct (no_table _ _ _ _ _ _ Hnet id Hin) as [[h Hid] _]. exists h.
    split; [done|]. destruct (h_closed h) eqn:Hcl; [right|by left].
    by destruct (no_closed _ _ _ _ _ _ Hnet id h Hid Hcl) as [|[_ ?]].
  - intros id h Hid Hop. by destruct (no_open _ _ _ _ _ _ Hnet id h Hid Hop).
  - intros ans w obs c p h Hstep Hobs Hc Hop.
    destruct (no_open _ _ _ _ _ _ Hnet c h Hc Hop) as [Hs _].
    destruct (event_step ans (event t) s) as [[[pc s'] obs']|] eqn:He; [|done]. cbn in Hstep.
    injection Hstep as <- <-. unfold event_step, mbind, option_bind in He.
    assert (forall f, (forall h, handles s !! c = Some h -> h_closed h = false -> h_fd h = f) ->
      fds s !! f = Some (RSocket p) -> p = h_client h) as Hown.
    { intros f Hl Hf. specialize (Hl h Hc Hop). subst f. congruence. }
    destruct (event t); repeat case_match; simplify_eq/=;
      try (destruct Hobs as [Ho|Ho]; by apply elem_of_nil in Ho);
      destruct Hobs as [Ho%list_elem_of_singleton|Ho%list_elem_of_singleton]; simplify_eq; eauto.
Qed.

(** A push whose write has failed waits for the lock it holds. *)
Definition push_stuck (pc : event_pc) : bool :=
  match pc with E_close C_erase _ (K_effects _ true _) _ => true | _ => false end.

Lemma event_can_step n t s : world_ok n (t, s) -> event t <> E_end -> push_stuck (event t) = false ->
  exists ans r, event_step ans (event t) s = Some r.
Proof.
  intros [Hnet _ _] Hne Hst. cbn in *.
  assert (forall id, id ∈ event_refs (event t) -> exists h, handles s !! id = Some h) as Href.
  { intros id Hid. apply (no_ptrs _ _ _ _ _ _ Hnet). unfold refs. set_solver. }
  exists Eof. destruct (event t) as [| |[|id evs]|id evs|id evs|id f evs|id [|[op| |c] effs] evs
    |id c held effs evs|id c held effs evs|id c held f effs evs|c id k evs|]; try done;
    cbn [event_step]; try by eexists.
  - repeat case_match; by eexists.
  - destruct (Href id ltac:(set_solver)) as [h ->]. by eexists.
  - destruct (Href id ltac:(set_solver)) as [h ->]. by eexists.
  - repeat case_match; by eexists.
  - destruct (Href c ltac:(set_solver)) as [h ->]. by eexists.
  - destruct (Href c ltac:(set_solver)) as [h ->]. by eexists.
  - repeat case_match; by eexists.
  - destruct (Href id ltac:(destruct k; set_solver)) as [h Hid]. unfold close_step. rewrite Hid.
    destruct c; cbn; try (by eexists); [by destruct (h_closed h); eexists|].
    destruct k as [|id' [] effs]; try done; by eexists.
Qed.

Lemma stop_progress n t s : world_ok n (t, s) -> (1 <= phase (main t))%nat ->
  push_stuck (event t) = true \/ exists st r, world_step st (t, s) = Some r.
Proof.
  intros Hok Hph. destruct (push_stuck (event t)) eqn:Hpush; [by left|right].
  assert (event t <> E_end -> exists st r, world_step st (t, s) = Some r) as Hevent.
  { intros Hne. destruct (event_can_step n t s Hok Hne Hpush) as (ans & [[pc s'] obs] & Heq).
    exists (StepEvent ans). cbn. rewrite Heq. by eexists. }
  destruct (holds_lock (event t)) eqn:Hlock; [apply Hevent; intros Heq; by rewrite Heq in Hlock|].
  assert (forall c id, exists r, close_step true c id s = Some r) as Hclose.
  { intros c id. unfold close_step. repeat case_match; by eexists. }
  destruct (main t) as [| | | | |[|id ids]|c id ids| | |] eqn:Epc; cbn in Hph; try lia;
    try (exists (StepMain key_order); cbn; rewrite ?Hlock; unfold main_step; rewrite Epc; by eexists).
  - exists (StepMain key_order). cbn. rewrite Hlock. unfold main_step. rewrite Epc.
    destruct (Hclose c id) as [[c' s'] Hc]. cbn. rewrite Hc. by eexists.
  - assert (accept t = A_end \/ accept t <> A_end) as [Ha|Ha] by (destruct (accept t); auto).
    + exists (StepMain key_order). cbn. unfold main_step. rewrite Epc, Ha. by eexists.
    + exists (StepAccept NoClient). cbn. rewrite Hlock.
      destruct (accept t); try done; cbn; repeat case_match; by eexists.
  - assert (event t = E_end \/ event t <> E_end) as [Ha|Ha] by (destruct (event t); auto);
      [|by apply Hevent].
    exists (StepMain key_order). cbn. unfold main_step. rewrite Epc, Ha. by eexists.
  - assert (heartbeat t = H_end \/ heartbeat t <> H_end) as [Ha|Ha] by (destruct (heartbeat t); auto).
    + exists (StepMain key_order). cbn. unfold main_step. rewrite Epc, Ha. by eexists.
    + exists (StepHeartbeat key_order (λ _, true)). cbn. rewrite Hlock.
      destruct (heartbeat t) as [| | |[] ?|[]|c id ids|]; try done; cbn; try by eexists.
      destruct (Hclose c id) as [[c' s'] ->]. by eexists.
Qed.

(** *** Schedules *)

Definition start_up : list thread_step :=
  [StepStart true (Opened 3 4); StepAccept NoClient; StepAccept (Client 5)].

(** The accept thread makes the connection of a client and registers it. *)
Definition register : list thread_step := [StepAccept NoClient; StepAccept NoClient].

Definition everyone_idle : thread_step := StepHeartbeat key_order (λ _, true).

(** [Stop] takes the table between [accept] and the registration. *)
Definition late_registration : list thread_step :=
  start_up ++ replicate 5 (StepMain key_order) ++ register ++
  [StepAccept NoClient; StepEvent Nothing; everyone_idle] ++ replicate 3 (StepMain key_order).

(** The event thread has read the descriptor of connection 1, [5], when the
    heartbeat closes it and the next client is given the same number. *)
Definition reused_descriptor : list thread_step :=
  start_up ++ register ++
  [StepEvent Nothing; StepEvent (Events [1]); StepEvent Nothing; StepEvent Nothing; StepEvent Nothing] ++
  replicate 8 everyone_idle ++ [StepAccept NoClient; StepAccept (Client 5); StepEvent Bytes].

(** Connection 1 subscribes between the notification of the heartbeat and the
    closing. *)
Definition late_subscription : list thread_step :=
  start_up ++ register ++
  [StepEvent Nothing; StepEvent (Events [1]); StepEvent Nothing; StepEvent Nothing; StepEvent Nothing] ++
  replicate 4 everyone_idle ++
  [StepEvent (Drained [EffTopics (OpSubscribe "t" (mkSubscriberInfo "s" 1) "")]); StepEvent Nothing] ++
  replicate 7 everyone_idle.

(** What a schedule leads to, by evaluation of the parts of interest. *)
Lemma run_gives {A} sts (f : world * list observation -> A) x :
  f <$> world_run sts (threads_new, net_new) = Some x ->
  exists t s obs, world_run sts (threads_new, net_new) = Some ((t, s), obs) /\ f ((t, s), obs) = x.
Proof. intros ([[t s] obs] & -> & ->)%fmap_Some. by exists t, s, obs. Qed.

(** C33: shutting down.  Whatever the schedule, while [Stop] is under way some
    thread can always proceed, except when a push whose write has failed waits for
    the lock it holds itself; and the threads take no more steps before it returns
    than the state allows and what the kernel still delivers asks for, so that it
    returns unless clients keep the event thread busy for ever.  Once it has, the
    server's own descriptors are closed, all threads have ended, and what is still
    open is in the table; once the second one has, which the destructors of the
    broker and of the server make, nothing is left open.  One is not enough: a
    client accepted while [Stop] runs stays connected. *)
Theorem shutdown_complete :
  (forall t s, world_reachable (t, s) ->
     ((1 <= phase (main t))%nat ->
        (push_stuck (event t) = true \/ exists st r, world_step st (t, s) = Some r) /\
        forall sts t' s' obs, world_run sts (t, s) = Some ((t', s'), obs) -> stops t' = stops t ->
          (length sts <= rank (t, s) + total_work sts)%nat) /\
     (main t = M_idle -> (1 <= stops t)%nat ->
        accept t = A_end /\ event t = E_end /\ heartbeat t = H_end /\
        (forall f r, fds s !! f = Some r -> exists id h, id ∈ table s /\
           handles s !! id = Some h /\ h_closed h = false /\ h_fd h = f /\ r = RSocket (h_client h))) /\
     (main t = M_idle -> (2 <= stops t)%nat ->
        fds s = ∅ /\ table s = ∅ /\ forall id h, handles s !! id = Some h -> h_closed h = true)) /\
  (exists t s, world_reachable (t, s) /\ main t = M_idle /\ stops t = 1%nat /\
     fds s = {[5 := RSocket 0]} /\ table s = {[1]}).
Proof.
  split.
  - intros t s [n Hok]%world_reachable_ok. split.
    { intros Hph. split; [by eapply stop_progress|]. intros sts t' s' obs.
      apply stop_bounded; [exact (st_flag _ _ (wo_stop _ _ Hok) (or_introl Hph))|exact Hph]. }
    destruct Hok as [Hnet Hstop _]. cbn in *.
    assert (main t = M_idle -> (1 <= stops t)%nat ->
      accept t = A_end /\ event t = E_end /\ heartbeat t = H_end /\
      (forall f r, fds s !! f = Some r -> exists id h, id ∈ table s /\
         handles s !! id = Some h /\ h_closed h = false /\ h_fd h = f /\ r = RSocket (h_client h)))
      as Hone.
    { intros Hm Hs. destruct Hstop as [_ Hsl Hse Hsa Hsv Hsh _ _ _]. rewrite Hm in *.
      specialize (Hsa ltac:(lia)). specialize (Hsv ltac:(lia)). specialize (Hsh ltac:(lia)). split_and!; try done. intros f r Hf.
      destruct (no_fds _ _ _ _ _ _ Hnet f r Hf) as [Hpos Hb].
      destruct r as [| |p]; cbn in Hb; [rewrite Hsl in Hb by lia; lia
        |rewrite Hse in Hb by lia; lia|].
      rewrite Hsa in Hb. destruct Hb as [|(id & h & Hid & Hfd & Hc)]; [done|].
      exists id, h. assert (h_closed h = false) as Hop.
      { destruct (h_closed h) eqn:Hcl; [|done].
        destruct (no_closed _ _ _ _ _ _ Hnet id h Hid Hcl) as [(w & c & Ha)|[? _]]; [|lia].
        exfalso. destruct w; cbn in Ha; rewrite ?Hsv, ?Hsh, ?Hm in Ha; done. }
      split_and!; try done; [|by rewrite Hc].
      destruct (no_open _ _ _ _ _ _ Hnet id h Hid Hop) as [_ [?|[Ha|?%elem_of_nil]]]; try done.
      rewrite Hsa in Ha. done. }
    split; [done|]. intros Hm Hs. destruct (Hone Hm ltac:(lia)) as (Ha & He & Hh & Hall).
    assert (table s = ∅) as Ht by (apply (st_table _ _ Hstop); lia). split_and!; try done.
    + apply map_eq. intros f. rewrite lookup_empty. destruct (fds s !! f) as [r|] eqn:Hf; [|done].
      destruct (Hall f r Hf) as (id & h & Hin & _). rewrite Ht in Hin. by apply elem_of_empty in Hin.
    + intros id h Hid. destruct (h_closed h) eqn:Hop; [done|].
      destruct (no_open _ _ _ _ _ _ Hnet id h Hid Hop) as [_ [Hin|[Hb|Hin]]].
      * rewrite Ht in Hin. by apply elem_of_empty in Hin.
      * by rewrite Ha in Hb.
      * rewrite Hm in Hin. by apply elem_of_nil in Hin.
  - destruct (run_gives late_registration (λ r, (main r.1.1, stops r.1.1, fds r.1.2, table r.1.2))
      (M_idle, 1%nat, {[5 := RSocket 0]}, {[1]})) as (t & s & obs & Hrun & [= Hm Hs Hf Ht]);
      [by vm_compute|].
    exists t, s. split; [exists late_registration, obs; split; [by vm_compute|exact Hrun]|].
    split; [exact Hm|]. split; [exact Hs|]. split; [exact Hf|exact Ht].
Qed.

(** C34: two races between the event thread and the heartbeat.  A connection the
    heartbeat closes while it is being read can receive the bytes of the client
    that is given its descriptor next; and a subscription made while the heartbeat
    is closing the connection survives it for good. *)
Theorem thread_races :
  (exists t s h obs, world_run reused_descriptor (threads_new, net_new) = Some ((t, s), obs) /\
     obs = [Received 1 1] /\ handles s !! 1 = Some h /\ h_client h = 0%nat) /\
  (exists t s h obs, world_run late_subscription (threads_new, net_new) = Some ((t, s), obs) /\
     handles s !! 1 = Some h /\ h_closed h = true /\ heartbeat t = H_test /\ (1 ∉ table s) /\
     GetSubscribers "t" (topics s) = [mkSubscriberInfo "s" 1]).
Proof.
  split.
  - destruct (run_gives reused_descriptor (λ r, (r.2, handles r.1.2 !! 1))
      ([Received 1 1], Some (mkHandle true 5 0))) as (t & s & obs & Hrun & [= Hobs Hh]);
      [by vm_compute|].
    exists t, s, (mkHandle true 5 0), obs. split; [exact Hrun|]. split; [exact Hobs|].
    split; [exact Hh|reflexivity].
  - destruct (run_gives late_subscription (λ r, (handles r.1.2 !! 1, heartbeat r.1.1,
      bool_decide (1 ∈ table r.1.2), GetSubscribers "t" (topics r.1.2)))
      (Some (mkHandle true (-1) 0), H_test, false, [mkSubscriberInfo "s" 1]))
      as (t & s & obs & Hrun & [= Hh Hb Htable Hsubs]); [by vm_compute|].
    apply bool_decide_eq_false in Htable. exists t, s, (mkHandle true (-1) 0), obs.
    split; [exact Hrun|]. split; [exact Hh|]. split; [reflexivity|]. split; [exact Hb|].
    split; [exact Htable|exact Hsubs].
Qed.

(** ** A concrete schedule *)

(** A client is connected, on descriptor 5. *)
Lemma descriptors_safe_witness : exists t s,
  world_run (start_up ++ register) (threads_new, net_new) = Some ((t, s), []) /\
  fds s !! 5 = Some (RSocket 0).
Proof.
  destruct (run_gives (start_up ++ register) (λ r, (handles r.1.2 !! 1, r.2))
    (Some (mkHandle false 5 0), [])) as (t & s & obs & Hrun & [= Hh Hobs]); [by vm_compute|].
  cbn in Hobs. subst obs. exists t, s. split; [exact Hrun|].
  destruct (descriptors_safe t s) as (Hopen & _).
  - exists (start_up ++ register), []. split; [by vm_compute|exact Hrun].
  - exact (proj1 (Hopen 1 (mkHandle false 5 0) Hh eq_refl)).
Defined.
